(* ===== verification/_CoqProject ===== *)
-Q . S2P
Prelude.v
Machine.v
Float64.v
Metrics.v
Net.v
Config.v
Limiter.v
LimiterFacts.v
LimiterSystem.v
LimiterEffects.v
LimiterInv.v
Samples.v
LimiterProps.v
LimiterWitness.v
Wire.v
Utf8.v
Protocol.v
FrameIO.v
Proxy.v
Backend.v
Relay.v
RelayCopy.v
Runtime.v
Cache.v
Registry.v
Exposition.v
Validate.v
Task.v
Gate.v
GateResources.v
GateSafety.v
GateErrors.v
GateSystem.v
GateServices.v
GateCompose.v
GateWhole.v
Process.v
GateRun.v
Startup.v
GateWitness.v
WholeWitness.v
XdpParse.v
XdpFrame.v
XdpFilter.v
XdpProps.v
XdpRun.v
XdpTable.v
XdpWitness.v
PyNum.v
Adaptive.v
AdaptiveProps.v
AdaptiveRun.v
AdaptiveWitness.v
Controller.v
ControllerProps.v
Perimeter.v
PerimeterWitness.v
Loader.v
LoaderProps.v
LoaderInstall.v
LoaderMaps.v
LoaderWitness.v
Telemetry.v
TelemetryProps.v
TelemetryRates.v
LoaderMain.v
LoaderMainProps.v
History.v
Daemon.v
DaemonProps.v
DaemonRun.v
Failsafe.v
TelemetryWitness.v
DaemonWitness.v
