(* ===== verification/Prelude.v ===== *)
(** * XDDP: a verification library for the DDoS perimeter of a Minecraft server

    The perimeter has three programs. An XDP filter in the kernel ([src/xdp]) drops packets, a gate
    ([src/gate/src]) filters connections, and a controller ([src/controller]) watches telemetry, chooses
    one of four modes, and leases to both, for seconds at a time, the right to enforce.

    The gate ([src/gate/src]) is an asynchronous TCP front for a Minecraft server. It accepts a
    connection, optionally reads a PROXY v2 header from a trusted load balancer, admits the client
    by address and prefix (token buckets, occupancy limits, penalties), reads the handshake and then
    either answers a status request from a cache or reads the login start, asks the circuit breaker
    for an attempt, dials the backend, replays the client's bytes and relays in both directions.
    Around the connections run a status refresh, a policy watcher, a maintenance loop and a metrics
    endpoint. All of them share one [State]: limiter, permit pools, breaker, policy, cache, metrics.

    The filter parses a frame, looks up its destination, port and source in maps that the controller
    writes, keeps counters and a budget for new connections per CPU, and drops or passes the frame. The
    controller samples telemetry once a second, moves its mode machine, publishes a document for the
    gate and renews the filter's lease; its commands change the maps under an expired lease.

    ** Files

    Foundations. [Prelude.v]: results, panics as [option], notation, list and option lemmas, the
    tactics [breflect] and others. [Machine.v]: unsigned integers at their width, saturating and
    wrapping operations, [Instant] and [Duration] in nanoseconds. [Float64.v]: binary64 ([f64]) on
    the Standard Library's [spec_float], with the order, exactness and boundedness lemmas the
    buckets need. [Utf8.v]: what the parsers use of [str] and [char], and the Unicode encoding they are held
    to. [Samples.v]: a configuration
    and runs on which instances of the theorems are evaluated; [LimiterWitness.v], [GateWitness.v],
    [WholeWitness.v], [XdpWitness.v], [AdaptiveWitness.v], [PerimeterWitness.v], [LoaderWitness.v], [TelemetryWitness.v]
    and [DaemonWitness.v] hold those instances.

    Components, one file (or group) per source file, definitions named like the source's functions
    ([Limiter::accept] is [Limiter_accept]):
    - [limiter.rs]: [Limiter.v] (operations), [Net.v] (normalisation and prefixes), [LimiterFacts.v]
      and [LimiterEffects.v] (lemmas), [LimiterSystem.v] (the system of concurrent tickets whose
      steps are the critical sections under the shard locks), [LimiterInv.v] (its invariants),
      [LimiterProps.v] (single operations, and 64 rounds of sweeping);
    - [protocol.rs]: [Wire.v] (VarInts, frames, cursor), [Protocol.v] (packet parsers, their grammars
      and bounds),
      [FrameIO.v] ([read_frame] over a scripted connection and clock);
    - [incoming_proxy.rs] and [proxy_header] of [cache.rs]: [Proxy.v];
    - [backend.rs]: [Backend.v], with the breaker's own transition system [breachable];
    - [relay.rs]: [Relay.v] (poll functions of the two adapters, the reaction of [protected_copy] to
      each wake-up) and [RelayCopy.v] (the streams as [copy] and [protected_copy] stack them, under
      any sequence of polls of the copy loop);
    - [runtime.rs]: [Runtime.v]; [cache.rs]: [Cache.v];
    - [metrics.rs]: [Metrics.v] (registry), [Registry.v] (which slots each component touches),
      [Exposition.v] (the text page and the answer to an HTTP request);
    - [config.rs]: [Config.v] (records), [Validate.v] ([validate]), [Startup.v] ([load], and [main]).

    The process ([main.rs]). [Task.v] defines a task as a finite tree of calls to the shared
    services, with a weakest precondition over its executions; every answer, and at every [await]
    the cancellation of the task, is a branch. [Gate.v] is the accept path, [handle] with its
    destructors, [poll] and a round of [refresh] as such tasks. [GateResources.v], [GateSafety.v] and
    [GateErrors.v] prove properties of all executions of one connection. [GateSystem.v] runs any
    number of tasks against the limiter and the permit pools, one call per step; [GateServices.v]
    adds the breaker, the policy, the cache, one shared registry, the watcher, the maintenance loop
    and the end of acceptance. [GateCompose.v] proves that this system simulates the components'
    own systems, [GateWhole.v] its invariant and theorems, and [GateRun.v] is an interpreter whose
    steps are steps of the system. [Process.v] adds the process around it: its clock, its phases (serving, the
    drain under its timeout, [abort_all] and the join), the polls of the main task ([main_poll]), and the
    accept loop of the metrics endpoint; the times at which connections were cancelled are recorded.

    The filter. [XdpParse.v] is [parse.h] and [shared.h], with every read of the frame checked;
    [XdpFrame.v] declares the layout of frames and proves the parser exact for it; [XdpFilter.v] is
    [xdp_ddos.bpf.c]; [XdpProps.v] decomposes the program into the branches it takes, and proves what can be
    dropped; [XdpRun.v] is about sequences of frames: counters and the budget. [XdpTable.v] is the decision table,
    stated on frames and policies without the program's functions (verdict, budget, counters, enforcement),
    and the proof that the program implements it.

    The controller. [PyNum.v] has Python's numbers, with [int] and [float] compared by value;
    [Adaptive.v] is the class [Adaptive] of [core.py] and the validation of its section, [AdaptiveProps.v]
    its invariant and exceptions, [AdaptiveRun.v] its behaviour over a history of samples; [Controller.v]
    has the rest of the policy's validation, a tick, the document, the lease with the loader's checks, and
    the map updates of a command; [ControllerProps.v] is about those, and [Perimeter.v] puts the
    controller's ticks, the gate's policy feed and the filter together. [Loader.v] is [policy.py] and the [policy]
    command of [loader.c]: the text of a policy, how the loader reads and checks it, and the maps it writes;
    [LoaderProps.v] (text to rows), [LoaderInstall.v] (rows to entries) and [LoaderMaps.v] (entries to maps)
    prove that the policy printed is the policy installed, and what any text can install. [LoaderMain.v] has the loader's
    other commands on the maps and on the attachment, [LoaderMainProps.v] their invariant and that they carry out
    the calls of [Controller.v]. [Telemetry.v] is what the controller samples (the gate's page, the loader's statistics,
    the files of [/proc]) and [rates]; [TelemetryProps.v] is about the page, [TelemetryRates.v] about the signals.
    [History.v] is [history.py]: the archive's bound, and what a day's report adds up. [Daemon.v] is the class
    [Controller] of [ddosctl.py] as a process, in a monad of effects that may fail, fail late or be cut short;
    [DaemonProps.v] has the rules for effects and the specification of each method, [DaemonRun.v] the theorems on runs, and [Failsafe.v] the fail-open theorem over a
    run, every document it wrote and every configuration it gave the kernel.

    ** Interfaces

    Third-party code is a parameter with stated laws: [IpNetLib] (ipnet: network, prefix length,
    membership), [JsonLib] and [JsonLaws] (serde_json values, parsing and compact serialisation), the
    hash functions of the identity tables, [f64::powf], the [Display] of [f64], the parsers of the
    policy document and of the configuration file, the file system, the kernel's longest-prefix
    tries ([Lpm]) and their iteration ([finds_keys]), and [inet_pton] with Python's text of an address ([canonical]). Python's
    [float] of a text, [ipaddress.ip_network] and the local time are parameters, and what the kernel does when asked to attach or
    to detach a program has the laws [AttachLaws]. Around the controller's process an [Env] decides the outcome of every effect,
    the clocks, and the order in which Python iterates over a set. That the gate's parser reads what the controller's [json.dumps] writes is a hypothesis
    on each document ([picks_up]). Each has an instance in the witnesses. The environment (clock readings, arriving bytes, outcomes of socket operations) is
    universally quantified; clock readings need not be monotonic.

    ** What is proved

    - Admission: the occupancy counters of every address and prefix are exactly the live tickets
      charged to them, under any interleaving; no underflow; configured limits, table sizes and token
      bounds hold always; an admission or event took exactly its tokens, a refusal took nothing; a
      bucket grants exactly the whole tokens it holds; the maintenance loop removes idle identities
      and keeps busy ones.
    - Parsing and I/O: the parsers accept exactly the packet grammars, which are stated on bytes and characters; [varint] agrees with base 128;
      frames are read back however they are fragmented, within the byte budget, and [read_frame]
      returns; the PROXY receiver fails closed and accepts exactly the headers of its grammar.
    - One connection: the backend is contacted only for a cleared client and receives exactly the
      replayed bytes; clients receive only a status response or the echo of a ping; everything taken
      is given back exactly once, under cancellation too; clients the gate turned away are not scored
      as churn; an error is counted once under its name.
    - The running gate: it refines the limiter's and the breaker's systems, so that their invariants
      hold of it; dial permits are conserved and an outage has one probe; the registry stays
      well typed and no index is out of range; replies are bounded whatever the backend says; sockets
      suffice for the other pools; every call of a task can be answered, and without a panic; all
      tasks finish, leaving no ticket and every permit back.
    - The process: it accepts connections exactly while it serves, cuts none before [shutdown_seconds] have
      passed since the signal, can finish without cutting any, and once they have passed ends on its own.
    - The filter: it is memory safe and total, its parser accepts exactly the declared frames, it implements
      a decision table that shares no function with it, drops only under a running lease and for the listed causes, accounts
      for every frame, and lets at most the burst plus rate times time through at the budget's expense.
    - The mode machine: its invariant; hysteresis in both directions over any history; EMERGENCY needs
      evidence of two kinds and ends at its deadline (unless the recovery is [null]); missing telemetry moves nothing; budgets of the
      recovery stages are bounded; it raises only for a recovery of [null].
    - The perimeter: a tick is never refused; the loader installs exactly the configuration's ports
      and networks from the text the controller prints; a command replaces the maps as a whole, under an expired
      lease; the gate enforces the mode and lists that the controller published last; however
      the controller's process ends, its cleanup included, filter and gate let everything through within 15 seconds,
      whichever of its documents the gate has found. Under any commands the loader keeps its maps well formed, and
      it carries out the calls of the controller; an attachment never displaces a program that was not named.
    - The controller's process: whatever fails, and whenever, the kernel never enforces a torn policy, the perimeter opens when
      the process ends, and a command is carried out, refused, or stops the process. It reads the gate's page exactly, and its
      signals are what the gate and the filter counted over the time between two samples; a source that could not be read
      gives no signal. The archive stays bounded, and a day's report adds up to what the counters gained.
    - Breaker, relay, policy, cache, metrics, configuration: the circuit opens at the threshold and
      recovers by a single probe; upload budgets and the relay's deadlines are exact; policy
      generations never go back and the policy of an address is the published one while its lease
      lasts; rendered status responses and the metrics page are exact; the metrics endpoint does not
      depend on how a request is fragmented; [validate] puts every field within explicit bounds, what
      the components' theorems ask for among them, and the gate starts exactly from a file that passes it.

    ** Bounds and fuel

    VarInt loops run at most five rounds (a [u32] has five groups of seven bits), that of a [usize]
    length at most ten, and a frame's length prefix is refused after three bytes, as in the code. [read_bounded] and [read_exact] have as many rounds as
    bytes are wanted, since a read that yields nothing ends them; [None] is a script that ended while
    the read was waiting, and [read_frame_returns] shows how long a script is enough. An [i32] is
    printed with at most ten digits and a [u64] with twenty. [read_request] has 2049 rounds for a
    buffer of 2048 bytes. The interpreter of [GateRun.v] takes a number of steps, used in instances
    only. Tasks are finite trees: termination needs no fuel. [skip_vlan] runs twice, as the loop over tags does.

    ** Not modelled

    - tokio's own code: the scheduler's order (any interleaving is a behaviour), sockets, timers (an
      instant at which they fire) and the byte-copy loop of [copy_bidirectional]; in the running gate
      a relay is one awaited call that may end, fail or be cancelled at any time and may add to the
      relay's counters meanwhile, which is all [relay_poll] does to the registry.
    - Binding the listeners, the signal handlers, output to the terminal, and [state_sizes], which reports
      memory layout.
    - serde's decoding of the configuration and policy documents (parameters), and unit tests.
    - Of the controller: the requests and answers of the control socket, the metrics file, the snapshot that is only shown, the
      command line, and the paths, names and URL of the configuration; prefixes are the canonical texts that validation
      leaves. Of its history: the nested reasons, the modes and maximal rates of an hour, the raw rows, and dates.
      Of the configuration as JSON only its length is kept ([other_bytes]), for the bound on serialized sizes. Of the
      loader: libbpf (loading and pinning), the schema check that commands other than [policy] make of the one map they
      open, the test run, and printing. The deployment scripts. *)
From stdpp Require Import base option list gmap.
From Stdlib Require Import ZArith Lia.

(** ** Scopes and notations *)

Declare Scope gate_scope.
Delimit Scope gate_scope with gate.
Local Open Scope Z_scope.

(** A computation of the Rust program that may abort on a panic (the release profile sets
    [panic = "abort"]): [None] is the panic, [Some v] a normal return with value [v]. *)
Abbreviation exec A := (option A).

(** [Result<A, E>] of the source. *)
Inductive result (A E : Type) : Type :=
| Ok (a : A)
| Err (e : E).
Arguments Ok {A E} _.
Arguments Err {A E} _.

(** The [?] operator. *)
Definition result_bind {A B E : Type} (r : result A E) (k : A -> result B E) : result B E :=
  match r with
  | Ok a => k a
  | Err e => Err e
  end.

Notation "'let?' x ':=' r 'in' k" := (result_bind r (fun x => k))
  (at level 10, x pattern, r at level 100, k at level 200) : gate_scope.

Definition is_ok {A E : Type} (r : result A E) : bool :=
  match r with Ok _ => true | Err _ => false end.

(** [Option::ok_or]. *)
Definition ok_or {A E : Type} (o : option A) (e : E) : result A E :=
  match o with Some a => Ok a | None => Err e end.

#[global] Instance result_eq_dec {A E : Type} `{EqDecision A, EqDecision E} :
  EqDecision (result A E).
Proof. solve_decision. Defined.

(** ** Tactics *)

(** Split every boolean conjunction and disjunction test and turn integer tests into
    propositions [lia] understands. *)
Ltac breflect :=
  repeat match goal with
  | H : _ && _ = true |- _ => apply andb_true_iff in H; destruct H
  | H : _ || _ = false |- _ => apply orb_false_iff in H; destruct H
  | H : negb _ = true |- _ => apply negb_true_iff in H
  | H : negb _ = false |- _ => apply negb_false_iff in H
  | H : (_ <? _)%Z = true |- _ => apply Z.ltb_lt in H
  | H : (_ <? _)%Z = false |- _ => apply Z.ltb_ge in H
  | H : (_ <=? _)%Z = true |- _ => apply Z.leb_le in H
  | H : (_ <=? _)%Z = false |- _ => apply Z.leb_gt in H
  | H : (_ >? _)%Z = true |- _ => rewrite Z.gtb_ltb in H; apply Z.ltb_lt in H
  | H : (_ >? _)%Z = false |- _ => rewrite Z.gtb_ltb in H; apply Z.ltb_ge in H
  | H : (_ >=? _)%Z = true |- _ => rewrite Z.geb_leb in H; apply Z.leb_le in H
  | H : (_ >=? _)%Z = false |- _ => rewrite Z.geb_leb in H; apply Z.leb_gt in H
  | H : (_ =? _)%Z = true |- _ => apply Z.eqb_eq in H
  | H : (_ =? _)%Z = false |- _ => apply Z.eqb_neq in H
  end.

(** Destruct the scrutinee of a match or conditional in the goal, keeping its equation. *)
Ltac dmatch :=
  match goal with
  | |- context [match ?x with _ => _ end] =>
      lazymatch x with
      | context [match _ with _ => _ end] => fail
      | _ => let E := fresh "E" in destruct x eqn:E
      end
  end.

(** The same on a hypothesis. *)
Ltac dmatch_in H :=
  match type of H with
  | context [match ?x with _ => _ end] =>
      lazymatch x with
      | context [match _ with _ => _ end] => fail
      | _ => let E := fresh "E" in destruct x eqn:E
      end
  end.

(** Invert a successful chain of [let?] bindings. *)
Ltac rinv H :=
  repeat match type of H with
  | result_bind ?r _ = Ok _ =>
      let E := fresh "E" in
      destruct r eqn:E; cbn [result_bind] in H; [ | discriminate H ]
  | (if ?b then Err _ else _) = Ok _ =>
      let E := fresh "C" in destruct b eqn:E; [ discriminate H | ]
  | ok_or ?o _ = Ok _ =>
      let E := fresh "O" in destruct o eqn:E; cbn [ok_or] in H; [ | discriminate H ]
  end.

(** Follow the bindings and tests of a computation that may abort down to its result. *)
Ltac follow E :=
  repeat (cbv zeta in E; cbn [mbind option_bind] in E;
    match type of E with
    | mbind _ ?x = _ => destruct x; [| discriminate E]
    | option_bind _ _ _ ?x = _ => destruct x; [| discriminate E]
    | (if ?b then _ else _) = _ => destruct b
    | (let '(_, _) := ?p in _) = _ => destruct p
    end).

Create HintDb gate discriminated.
Create Rewrite HintDb gate.

(** ** Generic lemmas on lists *)

Lemma Forall_app_2 {A : Type} (P : A -> Prop) (l k : list A) :
  Forall P l -> Forall P k -> Forall P (l ++ k).
Proof. rewrite Forall_app. auto. Qed.

#[export] Hint Resolve Forall_app_2 Forall_take Forall_drop : gate.

Lemma take_drop_split {A : Type} (n : nat) (l : list A) :
  (n <= length l)%nat -> length (take n l) = n /\ length (drop n l) = (length l - n)%nat.
Proof. intros H. rewrite length_take, length_drop. lia. Qed.

Lemma drop_nonempty_lookup {A : Type} (n : nat) (l : list A) (x : A) (k : list A) :
  drop n l = x :: k -> l !! n = Some x /\ drop (S n) l = k.
Proof.
  intros H. split.
  - rewrite <- (Nat.add_0_r n), <- lookup_drop, H. reflexivity.
  - rewrite <- (Nat.add_1_r n), <- drop_drop, H. reflexivity.
Qed.

(** A prefix of a concatenation that is no longer than the first part is a prefix of it. *)
Lemma app_split_prefix {A : Type} (a b g d : list A) :
  a ++ b = g ++ d -> (length g <= length a)%nat -> exists a', a = g ++ a' /\ d = a' ++ b.
Proof.
  intros E L. exists (drop (length g) a). split.
  - pose proof (f_equal (take (length g)) E) as T.
    rewrite take_app_length, take_app_le in T by done. rewrite <- T at 1. now rewrite take_drop.
  - pose proof (f_equal (drop (length g)) E) as T.
    rewrite drop_app_length, drop_app_le in T by done. done.
Qed.

(** ** Results *)

(** A chain of [let?] bindings succeeds when each of them does. *)
Lemma result_bind_ok {A B E : Type} (r : result A E) (k : A -> result B E) (b : B) :
  result_bind r k = Ok b <-> exists a, r = Ok a /\ k a = Ok b.
Proof.
  destruct r; cbn; split.
  - eauto.
  - now intros (x & [= ->] & H).
  - done.
  - now intros (x & H & _).
Qed.

(** ** Counting the entries of a map that satisfy a test *)

Definition cnt {A : Type} (P : A -> bool) (live : gmap nat A) : Z :=
  Z.of_nat (size (filter (fun kv => P (snd kv) = true) live)).

Lemma cnt_empty {A : Type} (P : A -> bool) : cnt P ∅ = 0.
Proof. unfold cnt. now rewrite map_filter_empty, map_size_empty. Qed.

Lemma cnt_le_size {A : Type} (P : A -> bool) (live : gmap nat A) :
  0 <= cnt P live <= Z.of_nat (size live).
Proof.
  unfold cnt. pose proof (map_subseteq_size _ _
    (map_filter_subseteq (fun kv => P (snd kv) = true) live)). lia.
Qed.

Lemma cnt_delete {A : Type} (P : A -> bool) (live : gmap nat A) (tid : nat) (c : A) :
  live !! tid = Some c -> cnt P (delete tid live) = cnt P live - Z.b2z (P c).
Proof.
  intros H. unfold cnt. rewrite map_filter_delete.
  destruct (P c) eqn:E; cbn [Z.b2z].
  - assert (F : filter (fun kv => P (snd kv) = true) live !! tid = Some c).
    { now apply map_lookup_filter_Some. }
    rewrite map_size_delete_Some by eauto.
    assert (size (filter (fun kv => P (snd kv) = true) live) <> 0%nat).
    { intros Z. apply map_size_empty_inv in Z. rewrite Z in F. now rewrite lookup_empty in F. }
    lia.
  - rewrite delete_id; [lia |]. apply map_lookup_filter_None. right.
    intros x Hx. cbn. rewrite H in Hx. injection Hx as <-. rewrite E. done.
Qed.

Lemma cnt_insert_new {A : Type} (P : A -> bool) (live : gmap nat A) (tid : nat) (c : A) :
  live !! tid = None -> cnt P (<[tid := c]> live) = cnt P live + Z.b2z (P c).
Proof.
  intros H. rewrite <- (delete_id live tid H) at 2.
  assert (E : <[tid := c]> live !! tid = Some c) by apply lookup_insert_eq.
  pose proof (cnt_delete P _ tid c E) as D. rewrite delete_insert_eq in D. lia.
Qed.

Lemma cnt_update {A : Type} (P : A -> bool) (live : gmap nat A) (tid : nat) (c c' : A) :
  live !! tid = Some c ->
  cnt P (<[tid := c']> live) = cnt P live - Z.b2z (P c) + Z.b2z (P c').
Proof.
  intros H. rewrite <- (insert_delete_eq live), cnt_insert_new by apply lookup_delete_eq.
  rewrite (cnt_delete P live tid c H). lia.
Qed.

Lemma cnt_pos {A : Type} (P : A -> bool) (live : gmap nat A) (tid : nat) (c : A) :
  live !! tid = Some c -> Z.b2z (P c) <= cnt P live.
Proof.
  intros H. pose proof (cnt_delete P live tid c H). pose proof (cnt_le_size P (delete tid live)). lia.
Qed.

Lemma cnt_mono {A : Type} (P Q : A -> bool) (live : gmap nat A) :
  (forall c, P c = true -> Q c = true) -> cnt P live <= cnt Q live.
Proof.
  intros H. unfold cnt. apply Nat2Z.inj_le, map_subseteq_size.
  apply map_subseteq_spec. intros i c [Hi HP]%map_lookup_filter_Some.
  apply map_lookup_filter_Some. split; [done |]. now apply H.
Qed.

Lemma cnt_none {A : Type} (P : A -> bool) (live : gmap nat A) :
  (forall c, P c = false) -> cnt P live = 0.
Proof.
  intros H. unfold cnt.
  assert (filter (fun kv => P (snd kv) = true) live = ∅) as ->; [| now rewrite map_size_empty].
  apply map_empty. intros i. apply map_lookup_filter_None. right. intros c _. cbn. now rewrite H.
Qed.

Lemma cnt_none_live {A : Type} (P : A -> bool) (live : gmap nat A) :
  (forall i c, live !! i = Some c -> P c = false) -> cnt P live = 0.
Proof.
  intros H. unfold cnt.
  assert (filter (fun kv => P (snd kv) = true) live = ∅) as ->; [| now rewrite map_size_empty].
  apply map_empty. intros i. apply map_lookup_filter_None. right. intros c Hc. cbn. now rewrite (H i c Hc).
Qed.

(** ** Sums over the entries of a map *)

Definition msum {A : Type} (f : A -> Z) (m : gmap nat A) : Z := map_fold (fun _ a acc => f a + acc) 0 m.

Lemma msum_empty {A : Type} (f : A -> Z) : msum f ∅ = 0.
Proof. apply map_fold_empty. Qed.

Lemma msum_insert_new {A : Type} (f : A -> Z) (m : gmap nat A) (i : nat) (a : A) :
  m !! i = None -> msum f (<[i := a]> m) = msum f m + f a.
Proof.
  intros H. unfold msum. rewrite map_fold_insert_L; [lia | intros; lia | done].
Qed.

Lemma msum_delete {A : Type} (f : A -> Z) (m : gmap nat A) (i : nat) (a : A) :
  m !! i = Some a -> msum f (delete i m) = msum f m - f a.
Proof.
  intros H. rewrite <- (insert_delete_id m i a H) at 2.
  rewrite msum_insert_new by apply lookup_delete_eq. lia.
Qed.

Lemma msum_update {A : Type} (f : A -> Z) (m : gmap nat A) (i : nat) (a b : A) :
  m !! i = Some a -> msum f (<[i := b]> m) = msum f m - f a + f b.
Proof.
  intros H. rewrite <- (insert_delete_eq m), msum_insert_new by apply lookup_delete_eq.
  rewrite (msum_delete f m i a H). lia.
Qed.

Lemma msum_mono {A : Type} (f g : A -> Z) (m : gmap nat A) :
  (forall i a, m !! i = Some a -> f a <= g a) -> msum f m <= msum g m.
Proof.
  induction m as [| i a m Hi IH] using map_ind; intros H; [now rewrite !msum_empty |].
  rewrite !msum_insert_new by done.
  assert (f a <= g a) by (apply (H i); apply lookup_insert_eq).
  assert (msum f m <= msum g m); [| lia].
  apply IH. intros j b Hj. apply (H j). rewrite lookup_insert_ne; [done |]. intros ->. congruence.
Qed.

Lemma msum_plus {A : Type} (f g : A -> Z) (m : gmap nat A) :
  msum (fun a => f a + g a) m = msum f m + msum g m.
Proof.
  induction m as [| i a m Hi IH] using map_ind; [now rewrite !msum_empty |].
  rewrite !msum_insert_new by done. lia.
Qed.

Lemma cnt_msum {A : Type} (P : A -> bool) (m : gmap nat A) : cnt P m = msum (fun a => Z.b2z (P a)) m.
Proof.
  induction m as [| i a m Hi IH] using map_ind; [now rewrite cnt_empty, msum_empty |].
  rewrite cnt_insert_new, msum_insert_new by done. lia.
Qed.

Lemma msum_nonneg {A : Type} (f : A -> Z) (m : gmap nat A) :
  (forall i a, m !! i = Some a -> 0 <= f a) -> 0 <= msum f m.
Proof.
  induction m as [| i a m Hi IH] using map_ind; intros H; [now rewrite msum_empty |].
  rewrite msum_insert_new by done. assert (0 <= f a) by (apply (H i), lookup_insert_eq).
  assert (0 <= msum f m); [| lia]. apply IH. intros j b Hj. apply (H j).
  rewrite lookup_insert_ne; [done |]. intros ->. congruence.
Qed.
