(* ===== verification/Machine.v ===== *)
(** * Machine integers and clocks

    Fixed-width integers are [Z] values with their wrap-around written out; an [Instant] is a
    number of nanoseconds on the monotonic clock and a [Duration] a non-negative number of
    nanoseconds. *)
From S2P Require Import Prelude.
From stdpp Require Import base option list.
From Stdlib Require Import ZArith Lia.
Local Open Scope Z_scope.

(** ** Integers *)

Definition u8_max : Z := 2 ^ 8 - 1.
Definition u16_max : Z := 2 ^ 16 - 1.
Definition u32_max : Z := 2 ^ 32 - 1.
Definition u64_max : Z := 2 ^ 64 - 1.
Definition u128_max : Z := 2 ^ 128 - 1.
Definition i32_max : Z := 2 ^ 31 - 1.
Definition i32_min : Z := - 2 ^ 31.

(** [z as uN]: truncation to [w] bits. *)
Definition wrap (w z : Z) : Z := z mod 2 ^ w.

(** [v as i32] for a [u32] value, and [v as u32] for an [i32] value. *)
Definition u32_as_i32 (v : Z) : Z := if v <? 2 ^ 31 then v else v - 2 ^ 32.
Definition i32_as_u32 (v : Z) : Z := wrap 32 v.

Definition is_u8 (z : Z) : Prop := 0 <= z < 2 ^ 8.
Definition is_u16 (z : Z) : Prop := 0 <= z < 2 ^ 16.
Definition is_u32 (z : Z) : Prop := 0 <= z < 2 ^ 32.
Definition is_u64 (z : Z) : Prop := 0 <= z < 2 ^ 64.
Definition is_u128 (z : Z) : Prop := 0 <= z < 2 ^ 128.
Definition is_i32 (z : Z) : Prop := - 2 ^ 31 <= z < 2 ^ 31.

(** Unchecked [usize]/[u64] arithmetic wraps in the release profile. *)
Definition usize_add (a b : Z) : Z := wrap 64 (a + b).
Definition usize_sub (a b : Z) : Z := wrap 64 (a - b).

(** [checked_add] on [usize]. *)
Definition checked_add (a b : Z) : option Z :=
  if a + b <=? u64_max then Some (a + b) else None.

(** [saturating_add] and [saturating_mul] on [w]-bit unsigned integers. *)
Definition saturating_add (w a b : Z) : Z := Z.min (a + b) (2 ^ w - 1).
Definition saturating_mul (w a b : Z) : Z := Z.min (a * b) (2 ^ w - 1).

Lemma wrap_small (w z : Z) : 0 <= z < 2 ^ w -> wrap w z = z.
Proof. apply Z.mod_small. Qed.

Lemma wrap_range (w z : Z) : 0 <= w -> 0 <= wrap w z < 2 ^ w.
Proof. intros H. apply Z.mod_pos_bound, Z.pow_pos_nonneg; lia. Qed.

Lemma i32_roundtrip (v : Z) : is_i32 v -> u32_as_i32 (i32_as_u32 v) = v.
Proof.
  unfold is_i32, u32_as_i32, i32_as_u32, wrap. intros H.
  destruct (Z.ltb_spec v 0) as [Hn | Hp].
  - assert (v mod 2 ^ 32 = v + 2 ^ 32) as ->.
    { rewrite <- (Z.mod_add v 1) by lia. apply Z.mod_small. lia. }
    destruct (Z.ltb_spec (v + 2 ^ 32) (2 ^ 31)); lia.
  - rewrite Z.mod_small by lia. destruct (Z.ltb_spec v (2 ^ 31)); lia.
Qed.

Lemma u32_roundtrip (v : Z) : is_u32 v -> i32_as_u32 (u32_as_i32 v) = v.
Proof.
  unfold is_u32, u32_as_i32, i32_as_u32, wrap. intros H.
  destruct (Z.ltb_spec v (2 ^ 31)).
  - apply Z.mod_small. lia.
  - rewrite <- (Z.mod_add (v - 2 ^ 32) 1) by lia. rewrite Z.mod_small; lia.
Qed.

Lemma u32_as_i32_range (v : Z) : is_u32 v -> is_i32 (u32_as_i32 v).
Proof. unfold is_u32, is_i32, u32_as_i32. intros. destruct (Z.ltb_spec v (2 ^ 31)); lia. Qed.

Lemma u32_as_i32_nonneg (v : Z) : 0 <= v < 2 ^ 31 -> u32_as_i32 v = v.
Proof. unfold u32_as_i32. intros. destruct (Z.ltb_spec v (2 ^ 31)); lia. Qed.

Lemma checked_add_some (a b c : Z) : checked_add a b = Some c -> c = a + b.
Proof. unfold checked_add. destruct (_ <=? _); [now intros [= <-] | discriminate]. Qed.

Lemma usize_sub_exact (a b : Z) : is_u64 a -> 0 <= b <= a -> usize_sub a b = a - b.
Proof. unfold is_u64, usize_sub. intros. apply wrap_small. lia. Qed.

Lemma usize_add_exact (a b : Z) : 0 <= a -> 0 <= b -> a + b < 2 ^ 64 -> usize_add a b = a + b.
Proof. unfold usize_add. intros. apply wrap_small. lia. Qed.

#[export] Hint Resolve i32_roundtrip u32_roundtrip u32_as_i32_range : gate.

(** ** Big-endian 16-bit fields *)

(** [u16::from_be_bytes] and [u16::to_be_bytes]. *)
Definition from_be_bytes (hi lo : Z) : Z := Z.lor (Z.shiftl hi 8) lo.
Definition to_be_bytes (v : Z) : list Z := [Z.shiftr v 8; Z.land v 255].

Lemma from_be_bytes_val (hi lo : Z) : is_u8 lo -> from_be_bytes hi lo = hi * 256 + lo.
Proof.
  unfold is_u8, from_be_bytes. intros Hl.
  rewrite <- Z.add_nocarry_lor; [rewrite Z.shiftl_mul_pow2 by lia; lia |].
  apply Z.bits_inj'. intros n Hn. rewrite Z.land_spec, Z.bits_0.
  destruct (Z.ltb_spec n 8).
  - now rewrite Z.shiftl_spec_low.
  - rewrite (Z.bits_above_log2 lo n), andb_false_r; [done | lia |].
    destruct (Z.eq_dec lo 0) as [-> | Hz]; [cbn; lia |].
    apply Z.log2_lt_pow2; [lia |]. apply Z.lt_le_trans with (2 ^ 8); [lia |].
    apply Z.pow_le_mono_r; lia.
Qed.

Lemma to_be_bytes_val (v : Z) : to_be_bytes v = [v / 256; v mod 256].
Proof.
  unfold to_be_bytes. rewrite Z.shiftr_div_pow2 by lia.
  change 255 with (Z.ones 8). now rewrite Z.land_ones by lia.
Qed.

Lemma be_bytes_roundtrip (v : Z) :
  is_u16 v -> from_be_bytes (Z.shiftr v 8) (Z.land v 255) = v.
Proof.
  intros Hv. pose proof (to_be_bytes_val v) as E. unfold to_be_bytes in E.
  injection E as -> ->. unfold is_u16 in *.
  rewrite from_be_bytes_val by (unfold is_u8; pose proof (Z.mod_pos_bound v 256); lia).
  pose proof (Z.div_mod v 256). lia.
Qed.

(** ** Clocks *)

Abbreviation Instant := Z (only parsing).
Abbreviation Duration := Z (only parsing).

Definition NANOS_PER_SEC : Z := 1000000000.
Definition from_secs (s : Z) : Duration := s * NANOS_PER_SEC.
Definition from_millis (ms : Z) : Duration := ms * 1000000.
Definition as_secs (d : Duration) : Z := d / NANOS_PER_SEC.
Definition subsec_nanos (d : Duration) : Z := d mod NANOS_PER_SEC.
Definition as_millis (d : Duration) : Z := d / 1000000.
Definition as_micros (d : Duration) : Z := d / 1000.
Definition as_nanos (d : Duration) : Z := d.

(** [now.saturating_duration_since(earlier)]. *)
Definition saturating_duration_since (now earlier : Instant) : Duration := Z.max 0 (now - earlier).

Lemma saturating_duration_nonneg (a b : Instant) : 0 <= saturating_duration_since a b.
Proof. unfold saturating_duration_since. lia. Qed.

Lemma saturating_duration_reversed (a b : Instant) :
  a <= b -> saturating_duration_since a b = 0.
Proof. unfold saturating_duration_since. lia. Qed.

#[export] Hint Resolve saturating_duration_nonneg : gate.
