(* ===== verification/Float64.v ===== *)
(** * IEEE-754 binary64 arithmetic as the Rust [f64] type has it

    [f64] is the executable [spec_float] of the Standard Library at precision 53 and maximal
    exponent 1024, with round-to-nearest-even. The lemmas show that the operations the gate uses
    stay inside the well-formed numbers, that comparison is the order of the denoted values, and
    which operations are exact. *)
From S2P Require Import Prelude Machine.
From stdpp Require Import base option list.
From Stdlib Require Import ZArith Lia SpecFloat.
Local Open Scope Z_scope.

(** ** The type and its operations *)

Abbreviation f64 := spec_float.
Definition prec : Z := 53.
Definition emax : Z := 1024.
Definition emin64 : Z := -1074.

Definition f64_add (x y : f64) : f64 := SFadd prec emax x y.
Definition f64_sub (x y : f64) : f64 := SFsub prec emax x y.
Definition f64_mul (x y : f64) : f64 := SFmul prec emax x y.
Definition f64_div (x y : f64) : f64 := SFdiv prec emax x y.
Definition f64_neg (x : f64) : f64 := SFopp x.
Definition f64_leb (x y : f64) : bool := SFleb x y.
Definition f64_ltb (x y : f64) : bool := SFltb x y.
Definition f64_eqb (x y : f64) : bool := SFeqb x y.

(** [n as f64] for an integer [n]. *)
Definition f64_of_Z (n : Z) : f64 := binary_normalize prec emax n 0 false.

Definition f64_zero : f64 := S754_zero false.
Definition f64_one : f64 := Eval vm_compute in f64_of_Z 1.
Definition f64_two : f64 := Eval vm_compute in f64_of_Z 2.
Definition f64_quarter : f64 := Eval vm_compute in f64_div (f64_of_Z 1) (f64_of_Z 4).

Definition is_nan (x : f64) : bool := match x with S754_nan => true | _ => false end.
Definition is_finite (x : f64) : bool :=
  match x with S754_zero _ | S754_finite _ _ _ => true | _ => false end.

(** [f64::min] and [f64::max]: a NaN operand is ignored. *)
Definition f64_min (x y : f64) : f64 :=
  if is_nan x then y else if is_nan y then x else if f64_ltb y x then y else x.
Definition f64_max (x y : f64) : f64 :=
  if is_nan x then y else if is_nan y then x else if f64_ltb x y then y else x.

(** [Duration::as_secs_f64]. *)
Definition as_secs_f64 (d : Duration) : f64 :=
  f64_add (f64_of_Z (as_secs d)) (f64_div (f64_of_Z (subsec_nanos d)) (f64_of_Z NANOS_PER_SEC)).

(** ** Well-formed numbers *)

Definition valid (x : f64) : Prop := valid_binary prec emax x = true.

(** A well-formed number that is not a NaN and not below zero. *)
Definition nonneg (x : f64) : Prop := f64_leb f64_zero x = true /\ valid x.

(** A finite number strictly above zero. *)
Definition positive_finite (x : f64) : Prop :=
  f64_ltb f64_zero x = true /\ is_finite x = true /\ valid x.

(** The denotation of a non-negative finite number, in units of [2 ^ emin64]. *)
Definition val (x : f64) : Z :=
  match x with
  | S754_finite false m e => Zpos m * 2 ^ (e - emin64)
  | _ => 0
  end.

(** The value [1.0] in those units. *)
Definition unit64 : Z := 2 ^ (- emin64).

(** The canonical mantissa/exponent pairs. *)
Definition canonical (m e : Z) : Prop :=
  0 <= m < 2 ^ 53 /\ emin64 <= e /\ (2 ^ 52 <= m \/ e = emin64).

Lemma digits2_log2 (m : positive) : Zpos (digits2_pos m) = Z.log2 (Zpos m) + 1.
Proof.
  induction m as [m IH | m IH |]; cbn [digits2_pos]; [| | reflexivity];
    rewrite Pos2Z.inj_succ, IH.
  - rewrite (Pos2Z.inj_xI m), Z.log2_succ_double by lia. lia.
  - rewrite (Pos2Z.inj_xO m), Z.log2_double by lia. lia.
Qed.

Lemma fexp64 (e : Z) : fexp prec emax e = Z.max (e - 53) emin64.
Proof. reflexivity. Qed.

Lemma log2_bounds (m : Z) : 0 < m -> 2 ^ Z.log2 m <= m < 2 ^ (Z.log2 m + 1).
Proof. intros H. rewrite Z.add_1_r. now apply Z.log2_spec. Qed.

Lemma log2_lt_iff (m k : Z) : 0 < m -> Z.log2 m < k <-> m < 2 ^ k.
Proof. intros H. rewrite <- Z.log2_lt_pow2 by lia. reflexivity. Qed.

Lemma log2_le_iff (m k : Z) : 0 < m -> 0 <= k -> k <= Z.log2 m <-> 2 ^ k <= m.
Proof. intros H Hk. rewrite Z.log2_le_pow2 by lia. reflexivity. Qed.

Lemma bounded_canonical (m : positive) (e : Z) :
  bounded prec emax m e = true <-> canonical (Zpos m) e /\ e <= 971.
Proof.
  unfold bounded, canonical_mantissa, canonical.
  rewrite fexp64, digits2_log2, andb_true_iff, Z.eqb_eq, Z.leb_le.
  change (emax - prec) with 971.
  pose proof (log2_lt_iff (Zpos m) 53 ltac:(lia)).
  pose proof (log2_le_iff (Zpos m) 52 ltac:(lia) ltac:(lia)).
  unfold emin64 in *. lia.
Qed.

Lemma valid_finite (s : bool) (m : positive) (e : Z) :
  valid (S754_finite s m e) <-> canonical (Zpos m) e /\ e <= 971.
Proof. apply bounded_canonical. Qed.

Lemma canonical_fexp (m : positive) (e : Z) :
  canonical (Zpos m) e -> fexp prec emax (Zpos (digits2_pos m) + e) = e.
Proof.
  rewrite fexp64, digits2_log2. unfold canonical. intros (H1 & H2 & H3).
  pose proof (log2_lt_iff (Zpos m) 53 ltac:(lia)).
  pose proof (log2_le_iff (Zpos m) 52 ltac:(lia) ltac:(lia)).
  unfold emin64 in *. lia.
Qed.

(** ** Right shifts and rounding *)

Lemma iter_pos_nat {A : Type} (f : A -> A) (p : positive) (x : A) :
  iter_pos f p x = Nat.iter (Pos.to_nat p) f x.
Proof.
  revert x. induction p as [p IH | p IH |]; intros x; cbn [iter_pos]; [| | reflexivity].
  - rewrite !IH, <- Nat.iter_add, Pos2Nat.inj_xI.
    rewrite <- Nat.iter_succ_r. f_equal. lia.
  - rewrite !IH, <- Nat.iter_add, Pos2Nat.inj_xO. f_equal. lia.
Qed.

Lemma shr_1_spec (r : shr_record) :
  0 <= shr_m r ->
  shr_m (shr_1 r) = shr_m r / 2 /\
  shr_r (shr_1 r) = Z.odd (shr_m r) /\ shr_s (shr_1 r) = shr_r r || shr_s r.
Proof.
  destruct r as [m r s]. cbn [shr_m shr_r shr_s]. intros Hm.
  destruct m as [| [p | p |] | p]; try lia; cbn [shr_1 shr_m shr_r shr_s]; repeat split.
  - rewrite Pos2Z.inj_xI, Z.mul_comm, Z.div_add_l by lia. change (1 / 2) with 0. lia.
  - rewrite Pos2Z.inj_xO, Z.mul_comm, Z.div_mul by lia. lia.
Qed.

(** Shifting a number right by [n] bits is flooring division; nothing is lost, and no rounding
    bit is set, when the low [n] bits are zero. *)
Lemma shr_iter_spec (n : nat) (r : shr_record) :
  0 <= shr_m r ->
  shr_m (Nat.iter n shr_1 r) = shr_m r / 2 ^ Z.of_nat n /\
  (shr_r r = false -> shr_s r = false -> shr_m r mod 2 ^ Z.of_nat n = 0 ->
   shr_r (Nat.iter n shr_1 r) = false /\ shr_s (Nat.iter n shr_1 r) = false).
Proof.
  intros Hm. induction n as [| n [IHm IHx]].
  - cbn. rewrite Z.div_1_r. auto.
  - rewrite Nat.iter_succ. set (r' := Nat.iter n shr_1 r) in *.
    assert (0 < 2 ^ Z.of_nat n) by (apply Z.pow_pos_nonneg; lia).
    assert (0 <= shr_m r') as Hr' by (rewrite IHm; apply Z.div_pos; lia).
    destruct (shr_1_spec r' Hr') as (E1 & E2 & E3).
    rewrite Nat2Z.inj_succ, Z.pow_succ_r by lia.
    split.
    + rewrite E1, IHm, Z.div_div by lia. f_equal. lia.
    + intros Hr Hs Hmod.
      assert (Hk : shr_m r = shr_m r' * 2 ^ Z.of_nat n /\ Z.odd (shr_m r') = false).
      { apply Z.mod_divide in Hmod as [c Hc]; [| lia].
        rewrite IHm, Hc. replace (c * (2 * 2 ^ Z.of_nat n)) with ((2 * c) * 2 ^ Z.of_nat n) by lia.
        rewrite Z.div_mul by lia. split; [lia |]. now rewrite Z.odd_mul. }
      destruct Hk as [Hk Ho].
      destruct IHx as [Xr Xs]; [done | done | |].
      { rewrite Hk. apply Z.mod_mul. lia. }
      rewrite E2, E3, Ho, Xr, Xs. done.
Qed.

Lemma shr_spec (r : shr_record) (e n : Z) :
  0 <= shr_m r ->
  shr_m (fst (shr r e n)) = shr_m r / 2 ^ Z.max 0 n /\ snd (shr r e n) = e + Z.max 0 n /\
  (shr_r r = false -> shr_s r = false -> shr_m r mod 2 ^ Z.max 0 n = 0 ->
   shr_r (fst (shr r e n)) = false /\ shr_s (fst (shr r e n)) = false).
Proof.
  intros Hm. destruct n as [| p | p]; cbn [shr fst snd].
  - rewrite Z.max_id, Z.div_1_r. repeat split; auto; lia.
  - rewrite iter_pos_nat, Z.max_r by lia.
    destruct (shr_iter_spec (Pos.to_nat p) r Hm) as [H1 H2].
    rewrite positive_nat_Z in *. auto.
  - rewrite Z.max_l, Z.div_1_r by lia. repeat split; auto; lia.
Qed.

Lemma shr_record_of_loc_m (m : Z) (l : location) : shr_m (shr_record_of_loc m l) = m.
Proof. destruct l as [| []]; reflexivity. Qed.

Lemma Zdigits2_spec (m : Z) : 0 < m -> Zdigits2 m = Z.log2 m + 1.
Proof. destruct m; try lia. intros _. apply digits2_log2. Qed.

Lemma round_nearest_even_cases (m : Z) (l : location) :
  round_nearest_even m l = m \/ round_nearest_even m l = m + 1 /\ l <> loc_Exact.
Proof. destruct l as [| []]; cbn; auto; [destruct (Z.even m); auto | right; done ..];
  right; done. Qed.

(** After the first shift the mantissa is canonical, provided the exponent was not above the
    target one. *)
Lemma shr_fexp_canonical (m e : Z) (l : location) :
  0 <= m -> e <= fexp prec emax (Zdigits2 m + e) ->
  let r := shr_fexp prec emax m e l in
  canonical (shr_m (fst r)) (snd r) /\
  e <= snd r /\ shr_m (fst r) = m / 2 ^ (snd r - e).
Proof.
  intros Hm He r. subst r. unfold shr_fexp.
  remember (fexp prec emax (Zdigits2 m + e) - e) as k eqn:Hk.
  destruct (shr_spec (shr_record_of_loc m l) e k) as (H1 & H2 & _).
  { now rewrite shr_record_of_loc_m. }
  rewrite shr_record_of_loc_m in H1. rewrite H1, H2, Z.max_r by lia.
  replace (e + k - e) with k by lia. split; [| split; [lia | reflexivity]].
  rewrite fexp64 in He, Hk. unfold canonical, emin64 in *.
  destruct (Z.eq_dec m 0) as [-> | Hnz].
  - cbn [Zdigits2] in *. rewrite Z.div_0_l by (apply Z.pow_nonzero; lia). lia.
  - rewrite Zdigits2_spec in He, Hk by lia.
    pose proof (log2_bounds m ltac:(lia)) as [Lo Hi].
    pose proof (Z.log2_nonneg m).
    assert (0 < 2 ^ k) by (apply Z.pow_pos_nonneg; lia).
    assert (Z.log2 m + 1 <= 53 + k) by lia.
    assert (m < 2 ^ 53 * 2 ^ k).
    { rewrite <- Z.pow_add_r by lia. eapply Z.lt_le_trans; [exact Hi |].
      apply Z.pow_le_mono_r; lia. }
    split; [split; [apply Z.div_pos; lia | apply Z.div_lt_upper_bound; lia] |].
    split; [lia |].
    destruct (Z.leb_spec (Z.log2 m + 1 + e - 53) (-1074)) as [Hs | Hn]; [right; lia | left].
    apply Z.div_le_lower_bound; [lia |].
    rewrite Z.mul_comm, <- Z.pow_add_r by lia.
    eapply Z.le_trans; [| exact Lo]. apply Z.pow_le_mono_r; lia.
Qed.

(** The second normalisation of [binary_round_aux]: a canonical mantissa, or [2 ^ 53] when the
    rounding carried. *)
Lemma shr_fexp_carry (m e : Z) :
  canonical m e \/ m = 2 ^ 53 /\ emin64 <= e ->
  let r := shr_fexp prec emax m e loc_Exact in
  canonical (shr_m (fst r)) (snd r) /\
  shr_m (fst r) * 2 ^ (snd r - e) = m /\ e <= snd r.
Proof.
  intros H r. subst r. unfold shr_fexp.
  assert (0 <= m) as Hm by (destruct H as [H | H]; [apply H | lia]).
  destruct (shr_spec (shr_record_of_loc m loc_Exact) e
    (fexp prec emax (Zdigits2 m + e) - e)) as (H1 & H2 & _); [done |].
  rewrite shr_record_of_loc_m in H1. rewrite H1, H2. clear H1 H2.
  rewrite fexp64. destruct H as [Hc | [-> He]].
  - assert (Z.max 0 (Z.max (Zdigits2 m + e - 53) emin64 - e) = 0) as ->.
    { destruct m as [| p | p]; [cbn [Zdigits2]; unfold canonical in Hc; lia | | lia].
      pose proof (canonical_fexp p e Hc) as F. rewrite fexp64 in F.
      change (Zdigits2 (Zpos p)) with (Zpos (digits2_pos p)). lia. }
    rewrite Z.div_1_r, Z.add_0_r, Z.sub_diag, Z.mul_1_r. auto with lia.
  - change (Zdigits2 (2 ^ 53)) with 54. unfold canonical, emin64 in *.
    replace (Z.max 0 (Z.max (54 + e - 53) (-1074) - e)) with 1 by lia.
    replace (e + 1 - e) with 1 by lia.
    change (2 ^ 53 / 2 ^ 1) with (2 ^ 52). lia.
Qed.

(** The float built from a canonical pair, overflowing to infinity. *)
Definition of_canonical (s : bool) (m e : Z) : f64 :=
  match m with
  | Zpos p => if e <=? 971 then S754_finite s p e else S754_infinity s
  | _ => S754_zero s
  end.

(** Rounding yields a canonical pair within one unit in the last place above the floor [q] of
    the exact value, and exactly [q] when nothing was shifted out. *)
Lemma binary_round_aux_spec (s : bool) (m e : Z) (l : location) :
  0 <= m -> e <= fexp prec emax (Zdigits2 m + e) ->
  exists q e1 m2 e2,
    binary_round_aux prec emax s m e l = of_canonical s m2 e2 /\
    canonical q e1 /\ canonical m2 e2 /\ e <= e1 <= e2 /\ q = m / 2 ^ (e1 - e) /\
    e1 = fexp prec emax (Zdigits2 m + e) /\
    q <= m2 * 2 ^ (e2 - e1) <= q + 1 /\
    (l = loc_Exact -> m mod 2 ^ (e1 - e) = 0 -> m2 * 2 ^ (e2 - e1) = q).
Proof.
  intros Hm He. unfold binary_round_aux.
  pose proof (shr_fexp_canonical m e l Hm He) as (C1 & Le1 & Q).
  assert (E1 : snd (shr_fexp prec emax m e l) = fexp prec emax (Zdigits2 m + e)).
  { unfold shr_fexp. destruct (shr_spec (shr_record_of_loc m l) e
      (fexp prec emax (Zdigits2 m + e) - e)) as (_ & -> & _);
      [now rewrite shr_record_of_loc_m | lia]. }
  assert (Ex : l = loc_Exact -> m mod 2 ^ (snd (shr_fexp prec emax m e l) - e) = 0 ->
    loc_of_shr_record (fst (shr_fexp prec emax m e l)) = loc_Exact).
  { intros -> Hmod. rewrite E1 in Hmod. unfold shr_fexp.
    destruct (shr_spec (shr_record_of_loc m loc_Exact) e
      (fexp prec emax (Zdigits2 m + e) - e)) as (_ & _ & X); [done |].
    destruct X as [Xr Xs]; [done | done | rewrite Z.max_r by lia; exact Hmod |].
    destruct (fst _) as [? r' s']. cbn in Xr, Xs. now subst. }
  destruct (shr_fexp prec emax m e l) as [mrs e1]. cbn [fst snd] in *.
  set (q := shr_m mrs) in *.
  set (m1 := round_nearest_even q (loc_of_shr_record mrs)).
  pose proof (round_nearest_even_cases q (loc_of_shr_record mrs)) as HR. fold m1 in HR.
  assert (C2 : canonical m1 e1 \/ m1 = 2 ^ 53 /\ emin64 <= e1) by (unfold canonical in *; lia).
  pose proof (shr_fexp_carry m1 e1 C2) as (C3 & V & Le2).
  destruct (shr_fexp prec emax m1 e1 loc_Exact) as [mrs2 e2]. cbn [fst snd] in *.
  exists q, e1, (shr_m mrs2), e2.
  split; [destruct (shr_m mrs2); [done | done | unfold canonical in C3; lia] |].
  repeat split; auto; try (unfold canonical in *; lia).
  intros Hl Hmod. rewrite V. unfold m1. now rewrite Ex.
Qed.

Lemma of_canonical_valid (s : bool) (m e : Z) : canonical m e -> valid (of_canonical s m e).
Proof.
  intros H. destruct m as [| p | p]; [done | | done]. cbn [of_canonical].
  destruct (Z.leb_spec e 971); [| done]. now apply valid_finite.
Qed.

Lemma of_canonical_nonneg (m e : Z) : canonical m e -> nonneg (of_canonical false m e).
Proof.
  intros H. split; [| now apply of_canonical_valid].
  destruct m; [done | cbn; now destruct (e <=? 971) | done].
Qed.

Lemma of_canonical_val (m e : Z) :
  canonical m e -> e <= 971 -> val (of_canonical false m e) = m * 2 ^ (e - emin64).
Proof.
  intros [Hm _] He. destruct m; [done | | lia].
  cbn [of_canonical]. now rewrite (proj2 (Z.leb_le _ _) He).
Qed.

(** [shl_align] to the target exponent makes the hypothesis of rounding hold. *)
Lemma shl_align_value (m : positive) (e e' : Z) :
  let r := shl_align m e e' in
  Zpos (fst r) = Zpos m * 2 ^ (e - snd r) /\ snd r = Z.min e e' \/ e <= e' /\ r = (m, e).
Proof.
  cbn. unfold shl_align. destruct (e' - e) as [| p | p] eqn:E; [right; split; auto; lia ..|].
  left. cbn [fst snd]. split; [| lia].
  replace (e - e') with (Zpos p) by lia.
  clear E. induction p as [| p IH] using Pos.peano_ind.
  - cbn. lia.
  - rewrite Pos.iter_succ, Pos2Z.inj_xO, IH, Pos2Z.inj_succ, Z.pow_succ_r by lia. lia.
Qed.

Lemma shl_align_spec (m : positive) (e e' : Z) :
  Zpos (fst (shl_align m e e')) = Zpos m * 2 ^ (e - Z.min e e') /\
  snd (shl_align m e e') = Z.min e e'.
Proof.
  pose proof (shl_align_value m e e') as [[H1 H2] | [H1 H2]]; cbn in *.
  - now rewrite <- H2.
  - rewrite H2. cbn. rewrite Z.min_l, Z.sub_diag by lia. lia.
Qed.

Lemma log2_mul_pow2' (m k : Z) : 0 < m -> 0 <= k -> Z.log2 (m * 2 ^ k) = Z.log2 m + k.
Proof. intros. rewrite Z.log2_mul_pow2 by lia. lia. Qed.

(** [binary_round]: the specification of rounding without a precondition. *)
Lemma binary_round_spec (s : bool) (m : positive) (e : Z) :
  exists q e0 e1 m2 e2,
    binary_round prec emax s m e = of_canonical s m2 e2 /\
    canonical q e1 /\ canonical m2 e2 /\ e0 <= e1 <= e2 /\ e0 = Z.min e e1 /\
    e1 = fexp prec emax (Z.log2 (Zpos m) + 1 + e) /\
    q = Zpos m * 2 ^ (e - e0) / 2 ^ (e1 - e0) /\
    q <= m2 * 2 ^ (e2 - e1) <= q + 1 /\
    (Zpos m * 2 ^ (e - e0) mod 2 ^ (e1 - e0) = 0 -> m2 * 2 ^ (e2 - e1) = q).
Proof.
  unfold binary_round.
  pose proof (shl_align_spec m e (fexp prec emax (Zpos (digits2_pos m) + e))) as [V E].
  rewrite digits2_log2 in *. remember (fexp prec emax (Z.log2 (Zpos m) + 1 + e)) as t eqn:Ht.
  destruct (shl_align _ _ _) as [mz ez]. cbn [fst snd] in *.
  assert (D : fexp prec emax (Zdigits2 (Zpos mz) + ez) = t).
  { rewrite Zdigits2_spec, V, log2_mul_pow2', Ht by lia. f_equal. lia. }
  destruct (binary_round_aux_spec s (Zpos mz) ez loc_Exact) as (q & e1 & m2 & e2 & H); [lia | lia |].
  rewrite D, V in H. destruct H as (R & C1 & C2 & Le & Q & -> & B & X).
  exists q, ez, t, m2, e2. rewrite E in *. split_and!; auto; try lia.
  now rewrite V.
Qed.

(** ** Closure of the operations *)

Lemma nonneg_cases (x : f64) :
  nonneg x ->
  (exists s, x = S754_zero s) \/ x = S754_infinity false \/
  (exists m e, x = S754_finite false m e /\ canonical (Zpos m) e /\ e <= 971).
Proof.
  intros [Hle Hv]. destruct x as [s | [] | | [] m e]; try discriminate Hle; eauto.
  apply valid_finite in Hv. right. right. eauto.
Qed.

Lemma positive_finite_cases (x : f64) :
  positive_finite x ->
  exists m e, x = S754_finite false m e /\ canonical (Zpos m) e /\ e <= 971.
Proof.
  intros (Hlt & Hf & Hv). destruct x as [s | [] | | [] m e]; try discriminate.
  apply valid_finite in Hv. eauto.
Qed.

Lemma positive_finite_nonneg (x : f64) : positive_finite x -> nonneg x.
Proof.
  intros (Hlt & _ & Hv). split; [| done].
  unfold f64_leb, SFleb. unfold f64_ltb, SFltb in Hlt.
  now destruct (SFcompare f64_zero x) as [[] |].
Qed.

Lemma binary_round_nonneg (m : positive) (e : Z) : nonneg (binary_round prec emax false m e).
Proof.
  destruct (binary_round_spec false m e) as (q & e0 & e1 & m2 & e2 & -> & _ & C & _).
  now apply of_canonical_nonneg.
Qed.

Lemma nonneg_zero (s : bool) : nonneg (S754_zero s).
Proof. done. Qed.

Lemma nonneg_inf : nonneg (S754_infinity false).
Proof. done. Qed.

Lemma f64_of_Z_nonneg (n : Z) : 0 <= n -> nonneg (f64_of_Z n).
Proof.
  intros H. destruct n; [apply nonneg_zero | apply binary_round_nonneg | lia].
Qed.

#[export] Hint Resolve binary_round_nonneg nonneg_zero nonneg_inf f64_of_Z_nonneg
  positive_finite_nonneg : gate.

Lemma f64_add_nonneg (x y : f64) : nonneg x -> nonneg y -> nonneg (f64_add x y).
Proof.
  intros Hx Hy.
  destruct (nonneg_cases x Hx) as [[s ->] | [-> | (m & e & -> & C & L)]];
    destruct (nonneg_cases y Hy) as [[s' ->] | [-> | (m' & e' & -> & C' & L')]];
    try (destruct s); try (destruct s'); auto with gate.
  unfold f64_add, SFadd, cond_Zopp. rewrite <- Pos2Z.inj_add. cbn [binary_normalize].
  apply binary_round_nonneg.
Qed.

Lemma canonical_mul_fexp (m1 m2 : positive) (e1 e2 : Z) :
  canonical (Zpos m1) e1 -> canonical (Zpos m2) e2 ->
  e1 + e2 <= fexp prec emax (Zdigits2 (Zpos (m1 * m2)) + (e1 + e2)).
Proof.
  intros (A1 & A2 & A3) (B1 & B2 & B3). rewrite fexp64, Zdigits2_spec by lia.
  unfold emin64 in *. rewrite Pos2Z.inj_mul.
  assert (H52 : 2 ^ 52 <= Zpos m1 * Zpos m2 -> 52 <= Z.log2 (Zpos m1 * Zpos m2)).
  { intros H. apply log2_le_iff; lia. }
  destruct A3 as [A3 | ->]; [specialize (H52 ltac:(nia)); lia |].
  destruct B3 as [B3 | ->]; [specialize (H52 ltac:(nia)); lia |]. lia.
Qed.

(** The product with a strictly positive finite number is never a NaN. *)
Lemma f64_mul_nonneg (x y : f64) : nonneg x -> positive_finite y -> nonneg (f64_mul x y).
Proof.
  intros Hx Hy. destruct (positive_finite_cases y Hy) as (m' & e' & -> & C' & L').
  destruct (nonneg_cases x Hx) as [[s ->] | [-> | (m & e & -> & C & L)]];
    [now destruct s | done |].
  unfold f64_mul, SFmul. cbn [xorb].
  destruct (binary_round_aux_spec false (Zpos (m * m')) (e + e') loc_Exact)
    as (q & e1 & m2 & e2 & -> & _ & C2 & _); [lia | now apply canonical_mul_fexp |].
  now apply of_canonical_nonneg.
Qed.

Lemma div_core_fexp (m1 m2 : positive) (e1 e2 : Z) :
  let '(q, e, _) := SFdiv_core_binary prec emax (Zpos m1) e1 (Zpos m2) e2 in
  0 <= q /\ e <= fexp prec emax (Zdigits2 q + e).
Proof.
  unfold SFdiv_core_binary.
  set (d1 := Zdigits2 (Zpos m1)). set (d2 := Zdigits2 (Zpos m2)).
  set (f := fexp prec emax (d1 + e1 - (d2 + e2))).
  set (e := Z.min f (e1 - e2)).
  set (s := e1 - e2 - e). assert (0 <= s) as Hs by lia.
  assert (E : match s with Z0 => Zpos m1 | Zpos _ => Z.shiftl (Zpos m1) s | Zneg _ => 0 end
              = Zpos m1 * 2 ^ s).
  { destruct s eqn:Es; [lia | now rewrite Z.shiftl_mul_pow2 by lia | lia]. }
  rewrite E. clear E.
  destruct (Z.div_eucl (Zpos m1 * 2 ^ s) (Zpos m2)) as [q r] eqn:E.
  assert (Q : q = Zpos m1 * 2 ^ s / Zpos m2) by (unfold Z.div; now rewrite E).
  assert (0 < 2 ^ s) by (apply Z.pow_pos_nonneg; lia).
  assert (0 <= q) by (rewrite Q; apply Z.div_pos; lia).
  split; [done |].
  assert (Hd : d1 + s - d2 <= Zdigits2 q).
  { unfold d1, d2. rewrite !Zdigits2_spec by lia.
    pose proof (log2_bounds (Zpos m1) ltac:(lia)) as [Lo1 _].
    pose proof (log2_bounds (Zpos m2) ltac:(lia)) as [_ Hi2].
    pose proof (Z.log2_nonneg (Zpos m1)). pose proof (Z.log2_nonneg (Zpos m2)).
    set (k := Z.log2 (Zpos m1) + s - (Z.log2 (Zpos m2) + 1)).
    destruct (Z.ltb_spec k 0) as [Hk | Hk].
    { assert (0 <= Zdigits2 q) by (destruct q; cbn; lia). lia. }
    assert (2 ^ k <= q) as Hq.
    { rewrite Q. apply Z.div_le_lower_bound; [lia |].
      assert (2 ^ (Z.log2 (Zpos m2) + 1) * 2 ^ k = 2 ^ Z.log2 (Zpos m1) * 2 ^ s) as P
        by (rewrite <- !Z.pow_add_r by lia; f_equal; lia).
      assert (0 < 2 ^ k) by (apply Z.pow_pos_nonneg; lia). nia. }
    assert (0 < 2 ^ k) by (apply Z.pow_pos_nonneg; lia).
    rewrite Zdigits2_spec by lia. apply log2_le_iff in Hq; lia. }
  apply Z.le_trans with f; [lia |]. unfold f. rewrite !fexp64. lia.
Qed.

Lemma f64_div_nonneg (x y : f64) : nonneg x -> positive_finite y -> nonneg (f64_div x y).
Proof.
  intros Hx Hy. destruct (positive_finite_cases y Hy) as (m' & e' & -> & C' & L').
  destruct (nonneg_cases x Hx) as [[s ->] | [-> | (m & e & -> & C & L)]];
    [now destruct s | done |].
  unfold f64_div, SFdiv. cbn [xorb].
  pose proof (div_core_fexp m m' e e') as H.
  destruct (SFdiv_core_binary _ _ _ _ _ _) as [[q e0] l]. destruct H as [H1 H2].
  destruct (binary_round_aux_spec false q e0 l H1 H2) as (q' & e1 & m2 & e2 & -> & _ & C2 & _).
  now apply of_canonical_nonneg.
Qed.

#[export] Hint Resolve f64_add_nonneg f64_mul_nonneg f64_div_nonneg : gate.

Lemma as_secs_f64_nonneg (d : Duration) : 0 <= d -> nonneg (as_secs_f64 d).
Proof.
  intros H. unfold as_secs_f64. apply f64_add_nonneg.
  - apply f64_of_Z_nonneg, Z.div_pos; unfold NANOS_PER_SEC; lia.
  - apply f64_div_nonneg; [| done].
    apply f64_of_Z_nonneg. unfold subsec_nanos, NANOS_PER_SEC. pose proof (Z.mod_pos_bound d 1000000000). lia.
Qed.

#[export] Hint Resolve as_secs_f64_nonneg : gate.

(** ** Order *)

Lemma canonical_lt_exp (m1 m2 e1 e2 : Z) :
  canonical m1 e1 -> canonical m2 e2 -> e1 < e2 ->
  m1 * 2 ^ (e1 - emin64) < m2 * 2 ^ (e2 - emin64).
Proof.
  intros (A1 & A2 & A3) (B1 & B2 & B3) Hlt.
  destruct B3 as [B3 | ->]; [| lia].
  assert (0 < 2 ^ (e1 - emin64)) by (apply Z.pow_pos_nonneg; lia).
  assert (2 * 2 ^ (e1 - emin64) <= 2 ^ (e2 - emin64)).
  { rewrite <- Z.pow_succ_r by lia. apply Z.pow_le_mono_r; lia. }
  nia.
Qed.

Lemma canonical_compare (m1 m2 : positive) (e1 e2 : Z) :
  canonical (Zpos m1) e1 -> canonical (Zpos m2) e2 ->
  SFcompare (S754_finite false m1 e1) (S754_finite false m2 e2) =
  Some (Zpos m1 * 2 ^ (e1 - emin64) ?= Zpos m2 * 2 ^ (e2 - emin64)).
Proof.
  intros C1 C2. cbn [SFcompare]. f_equal.
  destruct (Z.compare_spec e1 e2) as [-> | Hlt | Hgt].
  - change (Pos.compare_cont Eq m1 m2) with (Zpos m1 ?= Zpos m2).
    apply Zmult_compare_compat_r. apply Z.lt_gt, Z.pow_pos_nonneg; [lia |].
    destruct C1 as (_ & H & _). lia.
  - symmetry. apply Z.compare_lt_iff. now apply canonical_lt_exp.
  - symmetry. apply Z.compare_gt_iff. now apply canonical_lt_exp.
Qed.

Lemma finite_val_pos (m : positive) (e : Z) : emin64 <= e -> 0 < Zpos m * 2 ^ (e - emin64).
Proof. intros. apply Z.mul_pos_pos; [lia |]. apply Z.pow_pos_nonneg; lia. Qed.

(** On non-negative finite numbers comparison is the order of the values. *)
Lemma compare_val (x y : f64) :
  nonneg x -> nonneg y -> is_finite x = true -> is_finite y = true ->
  SFcompare x y = Some (val x ?= val y).
Proof.
  intros Hx Hy Fx Fy.
  destruct (nonneg_cases x Hx) as [[s ->] | [-> | (m & e & -> & C & L)]]; [| done |];
    destruct (nonneg_cases y Hy) as [[s' ->] | [-> | (m' & e' & -> & C' & L')]]; try done.
  - cbn [val SFcompare]. f_equal. symmetry. apply Z.compare_lt_iff, finite_val_pos, C'.
  - cbn [val SFcompare]. f_equal. symmetry. apply Z.compare_gt_iff, finite_val_pos, C.
  - now apply canonical_compare.
Qed.

Lemma leb_val (x y : f64) :
  nonneg x -> nonneg y -> is_finite x = true -> is_finite y = true ->
  f64_leb x y = true <-> val x <= val y.
Proof.
  intros Hx Hy Fx Fy. unfold f64_leb, SFleb. rewrite compare_val by done.
  destruct (Z.compare_spec (val x) (val y)); split; intros; try done; lia.
Qed.

Lemma ltb_val (x y : f64) :
  nonneg x -> nonneg y -> is_finite x = true -> is_finite y = true ->
  f64_ltb x y = true <-> val x < val y.
Proof.
  intros Hx Hy Fx Fy. unfold f64_ltb, SFltb. rewrite compare_val by done.
  destruct (Z.compare_spec (val x) (val y)); split; intros; try done; lia.
Qed.

Lemma nonneg_not_nan (x : f64) : nonneg x -> is_nan x = false.
Proof. intros [H _]. now destruct x. Qed.

Lemma nonneg_finite_or_inf (x : f64) :
  nonneg x -> is_finite x = true \/ x = S754_infinity false.
Proof. intros [H _]. destruct x as [| [] | |]; auto; discriminate. Qed.

Lemma nonneg_val (x : f64) : nonneg x -> 0 <= val x.
Proof.
  intros H. destruct (nonneg_cases x H) as [[s ->] | [-> | (m & e & -> & C & L)]]; try done.
  apply Z.lt_le_incl, finite_val_pos, C.
Qed.

(** [min] with a finite cap is finite, non-negative, and the smaller value. *)
Lemma f64_min_nonneg (x y : f64) :
  nonneg x -> nonneg y -> is_finite y = true ->
  nonneg (f64_min x y) /\ is_finite (f64_min x y) = true /\
  f64_leb (f64_min x y) y = true /\
  (is_finite x = true -> val (f64_min x y) = Z.min (val x) (val y)) /\
  (is_finite x = false -> f64_min x y = y).
Proof.
  intros Hx Hy Fy. unfold f64_min. rewrite !nonneg_not_nan by done.
  destruct (nonneg_finite_or_inf x Hx) as [Fx | ->].
  - destruct (f64_ltb y x) eqn:E.
    + apply ltb_val in E; auto. split_and!; auto; try (apply leb_val; auto; lia); intros; try lia; congruence.
    + assert (val x <= val y).
      { destruct (Z.le_gt_cases (val x) (val y)); [done |].
        apply (ltb_val y x Hy Hx Fy Fx) in H. congruence. }
      split_and!; auto; try (apply leb_val; auto); intros; try lia; congruence.
  - assert (f64_ltb y (S754_infinity false) = true) as -> by (destruct y; done).
    split_and!; auto; try (apply leb_val; auto; lia); done.
Qed.

Lemma f64_max_one_nonneg (x : f64) :
  nonneg x -> nonneg (f64_max x f64_one) /\ f64_leb f64_one (f64_max x f64_one) = true /\
  (is_finite x = true -> is_finite (f64_max x f64_one) = true /\
   val (f64_max x f64_one) = Z.max (val x) unit64).
Proof.
  intros Hx. unfold f64_max. rewrite nonneg_not_nan by done.
  change (is_nan f64_one) with false. cbv iota.
  assert (Ho : nonneg f64_one) by done.
  assert (V1 : val f64_one = unit64) by reflexivity.
  destruct (nonneg_finite_or_inf x Hx) as [Fx | ->]; [| done].
  destruct (f64_ltb x f64_one) eqn:E.
  - apply ltb_val in E; auto. split_and!; auto. intros _. split; [done | lia].
  - assert (val f64_one <= val x).
    { destruct (Z.le_gt_cases (val f64_one) (val x)); [done |].
      apply (ltb_val x f64_one) in H; auto. congruence. }
    split_and!; auto; [now apply leb_val |]. intros _. split; [done | lia].
Qed.

(** ** Exact and monotone operations *)

Lemma pow2_split (a b c : Z) : c <= b -> b <= a -> 2 ^ (a - c) = 2 ^ (a - b) * 2 ^ (b - c).
Proof. intros. rewrite <- Z.pow_add_r by lia. f_equal. lia. Qed.

(** Rounding never falls below a representable number that the exact value reaches. *)
Lemma binary_round_lower (a : positive) (ea : Z) (n : positive) (e : Z) :
  canonical (Zpos a) ea -> emin64 <= e ->
  Zpos a * 2 ^ (ea - emin64) <= Zpos n * 2 ^ (e - emin64) ->
  let r := binary_round prec emax false n e in
  is_finite r = true -> Zpos a * 2 ^ (ea - emin64) <= val r.
Proof.
  intros Ca He Hle r Hf. subst r.
  destruct (binary_round_spec false n e)
    as (q & e0 & e1 & m2 & e2 & R & C1 & C2 & Le & E0 & E1 & Q & B & _).
  rewrite R in *. assert (e2 <= 971 \/ m2 = 0) as He2.
  { destruct m2; [auto | | unfold canonical in C2; lia]. cbn in Hf.
    destruct (Z.leb_spec e2 971); auto; discriminate. }
  pose proof (proj1 (proj2 C1)) as Hmin.
  assert (P1 : 0 < 2 ^ (e1 - emin64)) by (apply Z.pow_pos_nonneg; lia).
  assert (Hq : Zpos a * 2 ^ (ea - emin64) <= q * 2 ^ (e1 - emin64)).
  { destruct (Z.ltb_spec ea e1) as [Hlt | Hge].
    - apply Z.lt_le_incl. now apply canonical_lt_exp.
    - rewrite (pow2_split ea e1 emin64) by lia.
      rewrite Z.mul_assoc. apply Z.mul_le_mono_nonneg_r; [lia |]. rewrite Q.
      apply Z.div_le_lower_bound; [apply Z.pow_pos_nonneg; lia |].
      apply (Z.mul_le_mono_pos_r _ _ (2 ^ (e0 - emin64))); [apply Z.pow_pos_nonneg; lia |].
      rewrite <- (Z.mul_assoc (Zpos n)), <- (pow2_split e e0 emin64) by lia.
      replace (2 ^ (e1 - e0) * (Zpos a * 2 ^ (ea - e1)) * 2 ^ (e0 - emin64))
        with (Zpos a * (2 ^ (ea - e1) * (2 ^ (e1 - e0) * 2 ^ (e0 - emin64)))) by lia.
      rewrite <- (pow2_split e1 e0 emin64), <- (pow2_split ea e1 emin64) by lia. done. }
  assert (Hm2 : q * 2 ^ (e1 - emin64) <= m2 * 2 ^ (e2 - emin64)).
  { rewrite (pow2_split e2 e1 emin64), Z.mul_assoc by lia.
    apply Z.mul_le_mono_nonneg_r; lia. }
  destruct He2 as [He2 | ->].
  - rewrite of_canonical_val by auto. lia.
  - pose proof (finite_val_pos a ea (proj1 (proj2 Ca))). lia.
Qed.

(** Adding a non-negative number never decreases. *)
Lemma f64_add_lower (x y : f64) :
  nonneg x -> nonneg y -> is_finite x = true -> is_finite (f64_add x y) = true ->
  val x <= val (f64_add x y).
Proof.
  intros Hx Hy Fx Fr.
  destruct (nonneg_cases x Hx) as [[s ->] | [-> | (m & e & -> & C & L)]]; [| done |].
  { apply nonneg_val, f64_add_nonneg; done. }
  destruct (nonneg_cases y Hy) as [[s' ->] | [-> | (m' & e' & -> & C' & L')]]; [done | done |].
  unfold f64_add, SFadd, cond_Zopp in *. rewrite <- Pos2Z.inj_add in *.
  cbn [binary_normalize] in *.
  pose proof (proj1 (proj2 C)). pose proof (proj1 (proj2 C')).
  apply binary_round_lower; [done | lia | | done].
  destruct (shl_align_spec m e (Z.min e e')) as [V _].
  rewrite Pos2Z.inj_add, V. replace (Z.min e (Z.min e e')) with (Z.min e e') by lia.
  rewrite Z.mul_add_distr_r, <- Z.mul_assoc, <- pow2_split by lia.
  assert (0 <= Zpos (fst (shl_align m' e' (Z.min e e'))) * 2 ^ (Z.min e e' - emin64)).
  { apply Z.mul_nonneg_nonneg; [lia | apply Z.pow_nonneg; lia]. }
  lia.
Qed.

Lemma f64_add_zero_r (x : f64) (s : bool) :
  nonneg x -> val (f64_add x (S754_zero s)) = val x /\
  is_finite (f64_add x (S754_zero s)) = is_finite x.
Proof.
  intros Hx. destruct (nonneg_cases x Hx) as [[s' ->] | [-> | (m & e & -> & C & L)]];
    [destruct s, s'; done | done | done].
Qed.

(** An exactly representable sum is returned unchanged. *)
Lemma binary_round_exact (n : positive) (e : Z) :
  emin64 <= e -> e <= 0 -> Zpos n < 2 ^ 200 ->
  Zpos n mod 2 ^ Z.max 0 (Z.log2 (Zpos n) - 52) = 0 ->
  let r := binary_round prec emax false n e in
  is_finite r = true /\ val r = Zpos n * 2 ^ (e - emin64).
Proof.
  intros He He0 Hn Hmod r. subst r.
  destruct (binary_round_spec false n e)
    as (q & e0 & e1 & m2 & e2 & R & C1 & C2 & Le & E0 & E1 & Q & B & X).
  rewrite fexp64 in E1. pose proof (proj1 (proj2 C1)).
  assert (Hx : Zpos n * 2 ^ (e - e0) mod 2 ^ (e1 - e0) = 0).
  { destruct (Z.leb_spec e1 e) as [H1 | H1].
    - replace (e1 - e0) with 0 by lia. apply Z.mod_1_r.
    - assert (e0 = e) as -> by lia. rewrite Z.sub_diag, Z.mul_1_r.
      apply Z.mod_divide; [apply Z.pow_nonzero; lia |].
      apply Z.mod_divide in Hmod; [| apply Z.pow_nonzero; lia].
      eapply Z.divide_trans; [| exact Hmod].
      exists (2 ^ (Z.max 0 (Z.log2 (Zpos n) - 52) - (e1 - e))).
      rewrite <- Z.pow_add_r by lia. f_equal. lia. }
  specialize (X Hx). clear B.
  assert (V : m2 * 2 ^ (e2 - emin64) = Zpos n * 2 ^ (e - emin64)).
  { rewrite (pow2_split e2 e1 emin64), Z.mul_assoc, X, Q by lia.
    apply Z.div_exact in Hx; [| apply Z.pow_nonzero; lia].
    rewrite (pow2_split e e0 emin64), (pow2_split e1 e0 emin64), (Z.mul_assoc (Zpos n)) by lia.
    rewrite <- Q in *. rewrite Hx. lia. }
  assert (He2 : e2 <= 971).
  { destruct (Z.leb_spec e2 971) as [| Hbig]; [done | exfalso].
    destruct C2 as (_ & _ & [Hm2 | Hm2]); [| unfold emin64 in Hm2; lia].
    assert (2 ^ 52 * 2 ^ (972 - emin64) <= m2 * 2 ^ (e2 - emin64)).
    { apply Z.mul_le_mono_nonneg; [lia | done | apply Z.pow_nonneg; lia |].
      apply Z.pow_le_mono_r; lia. }
    assert (Zpos n * 2 ^ (e - emin64) <= 2 ^ 200 * 2 ^ (0 - emin64)).
    { apply Z.mul_le_mono_nonneg; [lia | lia | apply Z.pow_nonneg; lia |].
      apply Z.pow_le_mono_r; lia. }
    assert (2 ^ 200 * 2 ^ (0 - emin64) < 2 ^ 52 * 2 ^ (972 - emin64)) by reflexivity.
    lia. }
  rewrite R, of_canonical_val, V by done. split; [| done].
  destruct m2; [done | cbn; now rewrite (proj2 (Z.leb_le _ _) He2) | done].
Qed.

Lemma f64_one_nonneg : nonneg f64_one.
Proof. done. Qed.

Lemma val_one : val f64_one = unit64.
Proof. reflexivity. Qed.

(** A number between [1.0] and [2 ^ 53] has its exponent between -52 and 1. *)
Lemma one_le_exponent (m : positive) (e : Z) :
  canonical (Zpos m) e -> unit64 <= Zpos m * 2 ^ (e - emin64) <= 2 ^ 53 * unit64 ->
  -52 <= e <= 1 /\ Zpos m * 2 ^ (e + 52) <= 2 ^ 105 /\ 2 ^ 52 <= Zpos m * 2 ^ (e + 52).
Proof.
  intros (C1 & C2 & C3) [Lo Hi].
  assert (-52 <= e) as He.
  { destruct (Z.leb_spec (-52) e) as [| Hlt]; [done | exfalso].
    assert (Zpos m * 2 ^ (e - emin64) <= (2 ^ 53 - 1) * 2 ^ (-53 - emin64)).
    { apply Z.mul_le_mono_nonneg; [lia | lia | apply Z.pow_nonneg; lia |].
      apply Z.pow_le_mono_r; lia. }
    assert ((2 ^ 53 - 1) * 2 ^ (-53 - emin64) < unit64) by reflexivity. lia. }
  assert (S : 2 ^ (e - emin64) = 2 ^ (e + 52) * 2 ^ (-52 - emin64)).
  { rewrite <- Z.pow_add_r by (unfold emin64; lia). f_equal. lia. }
  rewrite S, Z.mul_assoc in *.
  change unit64 with (2 ^ 52 * 2 ^ (-52 - emin64)) in *.
  change (2 ^ 53 * (2 ^ 52 * 2 ^ (-52 - emin64))) with (2 ^ 105 * 2 ^ (-52 - emin64)) in Hi.
  assert (P : 0 < 2 ^ (-52 - emin64)) by reflexivity.
  rewrite <- Z.mul_le_mono_pos_r in Lo, Hi by done.
  split; [split; [done |] | auto].
  destruct C3 as [C3 | ->]; [| unfold emin64; lia].
  destruct (Z.leb_spec e 1) as [| Hgt]; [done | exfalso].
  assert (2 ^ 52 * 2 ^ 54 <= Zpos m * 2 ^ (e + 52)).
  { apply Z.mul_le_mono_nonneg; [lia | lia | lia |]. apply Z.pow_le_mono_r; lia. }
  lia.
Qed.

(** The mantissa difference that [x - 1.0] rounds has enough trailing zeros to be exact. *)
Lemma sub_one_trailing (m n : positive) (e : Z) :
  -52 <= e <= 1 -> Zpos m < 2 ^ 53 -> Zpos m * 2 ^ (e + 52) <= 2 ^ 105 ->
  Zpos n = Zpos m * 2 ^ (e + 52) - 2 ^ 52 ->
  Zpos n mod 2 ^ Z.max 0 (Z.log2 (Zpos n) - 52) = 0.
Proof.
  intros He Hm Hhi Hn. set (k := Z.max 0 (Z.log2 (Zpos n) - 52)).
  assert (k <= 52).
  { pose proof (log2_lt_iff (Zpos n) 105 ltac:(lia)). lia. }
  assert (k <= e + 52).
  { assert (Zpos n < 2 ^ (53 + (e + 52))).
    { rewrite Z.pow_add_r by lia. assert (0 < 2 ^ (e + 52)) by (apply Z.pow_pos_nonneg; lia). nia. }
    pose proof (log2_lt_iff (Zpos n) (53 + (e + 52)) ltac:(lia)). lia. }
  rewrite Hn. apply Z.mod_divide; [apply Z.pow_nonzero; lia |].
  apply Z.divide_sub_r.
  - apply Z.divide_mul_r. exists (2 ^ (e + 52 - k)). rewrite <- Z.pow_add_r by lia. f_equal. lia.
  - exists (2 ^ (52 - k)). rewrite <- Z.pow_add_r by lia. f_equal. lia.
Qed.

(** Subtracting [1.0] from a number in [[1.0, 2 ^ 53]] is exact. *)
Lemma f64_sub_one_exact (x : f64) :
  nonneg x -> is_finite x = true -> f64_leb f64_one x = true -> val x <= 2 ^ 53 * unit64 ->
  nonneg (f64_sub x f64_one) /\ is_finite (f64_sub x f64_one) = true /\
  val (f64_sub x f64_one) = val x - unit64.
Proof.
  intros Hx Fx Hle Hhi. apply leb_val in Hle; auto using f64_one_nonneg. rewrite val_one in Hle.
  destruct (nonneg_cases x Hx) as [[s ->] | [-> | (m & e & -> & C & L)]]; [done | done |].
  cbn [val] in Hle, Hhi.
  destruct (one_le_exponent m e C (conj Hle Hhi)) as (He & H105 & H52).
  unfold f64_sub, f64_one, SFsub, cond_Zopp. replace (Z.min e (-52)) with (-52) by lia.
  destruct (shl_align_spec m e (-52)) as [V _].
  replace (Z.min e (-52)) with (-52) in V by lia. rewrite V.
  replace (e - -52) with (e + 52) by lia.
  change (Zpos (fst (shl_align 4503599627370496 (-52) (-52)))) with (2 ^ 52).
  assert (S : Zpos m * 2 ^ (e - emin64) - unit64 =
              (Zpos m * 2 ^ (e + 52) - 2 ^ 52) * 2 ^ (-52 - emin64)).
  { change unit64 with (2 ^ 52 * 2 ^ (-52 - emin64)).
    rewrite Z.mul_sub_distr_r, <- (Z.mul_assoc (Zpos m)),
      <- (Z.pow_add_r 2 (e + 52)) by (unfold emin64; lia).
    now replace (e + 52 + (-52 - emin64)) with (e - emin64) by lia. }
  cbn [val]. rewrite S.
  destruct (Zpos m * 2 ^ (e + 52) - 2 ^ 52) as [| n | n] eqn:En; [done | | lia].
  cbn [binary_normalize]. split; [apply binary_round_nonneg |].
  apply binary_round_exact; [done | lia | lia |].
  eapply (sub_one_trailing m n e); [lia | apply C | lia | lia].
Qed.

(** Scaling a finite number by a factor of at most [1.0] never increases it. *)
Lemma f64_mul_le (x y : f64) :
  nonneg x -> is_finite x = true -> positive_finite y -> val y <= unit64 ->
  is_finite (f64_mul x y) = true /\ val (f64_mul x y) <= val x.
Proof.
  intros Hx Fx Hy Hle. destruct (positive_finite_cases y Hy) as (m' & e' & -> & C' & L').
  destruct (nonneg_cases x Hx) as [[s ->] | [-> | (m & e & -> & C & L)]];
    [now destruct s | done |].
  unfold f64_mul, SFmul. cbn [xorb val] in *.
  destruct (binary_round_aux_spec false (Zpos (m * m')) (e + e') loc_Exact)
    as (q & e1 & m2 & e2 & -> & C1 & C2 & Le & Q & E1 & B & X);
    [lia | now apply canonical_mul_fexp |].
  (* the exact product, at exponent [e + e'], is at most [m * 2 ^ e] *)
  assert (He' : e' <= 0).
  { destruct C' as (_ & _ & [Hm' | ->]); [| unfold emin64; lia].
    destruct (Z.leb_spec e' 0) as [| Hgt]; [done | exfalso].
    assert (2 ^ 52 * 2 ^ (1 - emin64) <= Zpos m' * 2 ^ (e' - emin64)).
    { apply Z.mul_le_mono_nonneg; [lia | lia | apply Z.pow_nonneg; unfold emin64; lia |].
      apply Z.pow_le_mono_r; lia. }
    assert (unit64 < 2 ^ 52 * 2 ^ (1 - emin64)) by reflexivity. lia. }
  assert (Hm' : Zpos m' <= 2 ^ (- e')).
  { apply (Z.mul_le_mono_pos_r _ _ (2 ^ (e' - emin64)));
      [apply Z.pow_pos_nonneg; unfold canonical in C'; lia |].
    rewrite <- Z.pow_add_r by (unfold canonical in C'; lia).
    replace (- e' + (e' - emin64)) with (- emin64) by lia. exact Hle. }
  rewrite Pos2Z.inj_mul in *.
  assert (Hp : Zpos m * Zpos m' <= Zpos m * 2 ^ (- e')) by (apply Z.mul_le_mono_nonneg_l; lia).
  assert (He1 : e1 <= e).
  { pose proof (canonical_fexp m e C) as F. rewrite fexp64, digits2_log2 in F.
    rewrite E1, fexp64, Zdigits2_spec by lia.
    assert (Z.log2 (Zpos m * Zpos m') <= Z.log2 (Zpos m) - e').
    { rewrite <- Z.add_opp_r, <- log2_mul_pow2' by lia. now apply Z.log2_le_mono. }
    lia. }
  set (k := e1 - (e + e')) in *. set (c := e - e1).
  assert (Hc : Zpos m * 2 ^ (- e') = Zpos m * 2 ^ c * 2 ^ k).
  { rewrite <- Z.mul_assoc, <- Z.pow_add_r by lia. do 2 f_equal. lia. }
  assert (Pk : 0 < 2 ^ k) by (apply Z.pow_pos_nonneg; lia).
  assert (HB : m2 * 2 ^ (e2 - e1) <= Zpos m * 2 ^ c).
  { rewrite Hc in Hp. destruct (Z.eq_dec (Zpos m * Zpos m') (Zpos m * 2 ^ c * 2 ^ k)) as [Eq | Ne].
    - rewrite X, Q, Eq by (auto; rewrite Eq; apply Z.mod_mul; lia).
      rewrite Z.div_mul by lia. lia.
    - assert (q < Zpos m * 2 ^ c); [| lia]. rewrite Q. apply Z.div_lt_upper_bound; lia. }
  assert (V : m2 * 2 ^ (e2 - emin64) <= Zpos m * 2 ^ (e - emin64)).
  { pose proof (proj1 (proj2 C1)).
    rewrite (pow2_split e2 e1 emin64), (pow2_split e e1 emin64), !Z.mul_assoc by lia.
    apply Z.mul_le_mono_nonneg_r; [apply Z.pow_nonneg; lia | exact HB]. }
  assert (He2 : e2 <= 971).
  { destruct (Z.leb_spec e2 971) as [| Hbig]; [done | exfalso].
    pose proof (canonical_lt_exp (Zpos m) m2 e e2 C C2 ltac:(lia)). lia. }
  rewrite of_canonical_val by done. split; [| done].
  destruct m2; [done | cbn; now rewrite (proj2 (Z.leb_le _ _) He2) | done].
Qed.

(** Scaling by [1.0] is exact. *)
Lemma f64_mul_one (x : f64) :
  nonneg x -> is_finite x = true ->
  is_finite (f64_mul x f64_one) = true /\ val (f64_mul x f64_one) = val x.
Proof.
  intros Hx Fx.
  destruct (nonneg_cases x Hx) as [[s ->] | [-> | (m & e & -> & C & L)]];
    [now destruct s | done |].
  unfold f64_mul, f64_one, SFmul. cbn [xorb val].
  destruct (binary_round_aux_spec false (Zpos (m * 4503599627370496)) (e + -52) loc_Exact)
    as (q & e1 & m2 & e2 & -> & C1 & C2 & Le & Q & E1 & B & X);
    [lia | apply canonical_mul_fexp; [done | unfold canonical, emin64; lia] |].
  rewrite Pos2Z.inj_mul in *. change (Zpos 4503599627370496) with (2 ^ 52) in *.
  assert (e1 = e) as ->.
  { pose proof (canonical_fexp m e C) as F. rewrite fexp64, digits2_log2 in F.
    rewrite E1, fexp64, Zdigits2_spec, log2_mul_pow2' by lia. lia. }
  replace (e - (e + -52)) with 52 in * by lia.
  specialize (X eq_refl (Z.mod_mul _ (2 ^ 52) ltac:(lia))). rewrite Z.div_mul in Q by lia.
  rewrite Q in X. pose proof (proj1 (proj2 C1)).
  assert (V : m2 * 2 ^ (e2 - emin64) = Zpos m * 2 ^ (e - emin64)).
  { rewrite (pow2_split e2 e emin64), Z.mul_assoc, X by lia. done. }
  assert (He2 : e2 <= 971).
  { destruct (Z.leb_spec e2 971) as [| Hbig]; [done | exfalso].
    pose proof (canonical_lt_exp (Zpos m) m2 e e2 C C2 ltac:(lia)). lia. }
  rewrite of_canonical_val by done. split; [| done].
  destruct m2; [done | cbn; now rewrite (proj2 (Z.leb_le _ _) He2) | done].
Qed.
