(* ===== verification/Metrics.v ===== *)
(** * The metric registry ([gate/src/metrics.rs])

    The registry is a vector of 64-bit atomic counters addressed by fixed indexes. The
    model's update of an index beyond the vector is the identity where the program would panic; the
    touched slots of every operation ([Registry.v]) and task ([GateWhole.v]) are within it. *)
From S2P Require Import Prelude Machine.
From stdpp Require Import base option list strings relations.
From Stdlib Require Import ZArith Lia.
Local Open Scope Z_scope.

Definition NAMES : list string := [
    "tcp_accepts"; "active_connections"; "active_prelogin"; "backend_connections";
    "handshake_ok"; "handshake_invalid"; "status_requests"; "login_starts";
    "invalid_varint"; "oversized_packet"; "unsupported_protocol"; "handshake_timeout";
    "slow_connection"; "close_before_handshake"; "rate_limited_ip"; "rate_limited_prefix";
    "rate_limited_global"; "backend_connect_failures"; "prelogin_duration_microseconds_sum";
    "prelogin_duration_count"; "resource_limited"; "identity_table_full"; "churn";
    "status_refresh_failures"; "status_cache_fallback"; "relay_errors"; "accept_errors";
    "observed_rate_limit"; "new_ip_entries"; "new_prefix_entries"; "admitted_clients";
    "backend_connect_attempts"; "ip_entries"; "prefix_entries"; "mode"; "observe";
    "active_status"; "status_capacity_limited";
    "prelogin_source_limited"; "upload_budget_exceeded_connections";
    "monitored_upload_bytes"; "monitored_download_bytes"; "runtime_generation";
    "runtime_rejected_reads"; "status_source_limited";
    "relay_stall_timeouts"; "half_close_timeouts"; "backend_protection_rejected";
    "backend_circuit_opened"; "client_idle_timeouts"; "backend_dial_rate_limited";
    "runtime_missing_reads"; "proxy_v2_ingress_accepted"; "proxy_v2_ingress_untrusted";
    "proxy_v2_ingress_invalid"; "proxy_v2_ingress_timeout" ]%string.

Definition PROXY_V2_ACCEPTED : nat := 52.
Definition PROXY_V2_UNTRUSTED : nat := 53.
Definition PROXY_V2_INVALID : nat := 54.
Definition PROXY_V2_TIMEOUT : nat := 55.

Record Metrics : Type := mkMetrics { values : list Z }.

Definition Metrics_new : Metrics := mkMetrics (map (fun _ => 0) NAMES).

(** [fetch_add] and [fetch_sub] wrap around. *)
Definition Metrics_add (m : Metrics) (n : nat) (value : Z) : Metrics :=
  mkMetrics (alter (fun v => wrap 64 (v + value)) n (values m)).
Definition Metrics_inc (m : Metrics) (n : nat) : Metrics := Metrics_add m n 1.
Definition Metrics_dec (m : Metrics) (n : nat) : Metrics :=
  mkMetrics (alter (fun v => wrap 64 (v - 1)) n (values m)).
Definition Metrics_set (m : Metrics) (n : nat) (value : Z) : Metrics :=
  mkMetrics (<[n := value]> (values m)).
Definition Metrics_get (m : Metrics) (n : nat) : Z := default 0 (values m !! n).

(** ** Reading back an update *)

Lemma Metrics_get_add (m : Metrics) (n k : nat) (v : Z) :
  Metrics_get (Metrics_add m n v) k =
  if decide (n = k) then (if decide (k < length (values m))%nat
                          then wrap 64 (Metrics_get m k + v) else Metrics_get m k)
  else Metrics_get m k.
Proof.
  unfold Metrics_get, Metrics_add. cbn [values]. case_decide as Hn.
  - subst. rewrite list_lookup_alter_eq. case_decide as Hk.
    + apply lookup_lt_is_Some in Hk as [x Hx]. now rewrite Hx.
    + now rewrite lookup_ge_None_2 by lia.
  - now rewrite list_lookup_alter_ne.
Qed.

Lemma Metrics_get_inc_ne (m : Metrics) (n k : nat) :
  n <> k -> Metrics_get (Metrics_inc m n) k = Metrics_get m k.
Proof. intros H. unfold Metrics_inc. rewrite Metrics_get_add. now rewrite decide_False. Qed.

Lemma Metrics_get_dec_ne (m : Metrics) (n k : nat) :
  n <> k -> Metrics_get (Metrics_dec m n) k = Metrics_get m k.
Proof.
  intros H. unfold Metrics_get, Metrics_dec. cbn [values]. now rewrite list_lookup_alter_ne.
Qed.

Lemma Metrics_get_inc_eq (m : Metrics) (k : nat) :
  (k < length (values m))%nat -> 0 <= Metrics_get m k < u64_max ->
  Metrics_get (Metrics_inc m k) k = Metrics_get m k + 1.
Proof.
  intros Hk Hr. unfold Metrics_inc. rewrite Metrics_get_add, !decide_True by done.
  apply wrap_small. unfold u64_max in Hr. lia.
Qed.

Lemma Metrics_get_dec_eq (m : Metrics) (k : nat) :
  (k < length (values m))%nat -> 0 < Metrics_get m k <= u64_max ->
  Metrics_get (Metrics_dec m k) k = Metrics_get m k - 1.
Proof.
  intros Hk Hr. unfold Metrics_get, Metrics_dec in *. cbn [values].
  rewrite list_lookup_alter_eq. apply lookup_lt_is_Some in Hk as [x Hx]. rewrite Hx in *. cbn in *.
  apply wrap_small. unfold u64_max in Hr. lia.
Qed.

Lemma Metrics_inc_length (m : Metrics) (n : nat) :
  length (values (Metrics_inc m n)) = length (values m).
Proof. apply length_alter. Qed.

Lemma Metrics_dec_length (m : Metrics) (n : nat) :
  length (values (Metrics_dec m n)) = length (values m).
Proof. apply length_alter. Qed.

#[export] Hint Rewrite Metrics_inc_length Metrics_dec_length : gate.

(** ** Typing of the registry *)

Create HintDb touches.

(** One 64-bit slot per name. *)
Definition metrics_typed (m : Metrics) : Prop :=
  length (values m) = length NAMES /\ Forall is_u64 (values m).

(** One atomic operation of the program on a slot that exists; an operation on any other index panics. *)
Inductive atomic (m : Metrics) : Metrics -> Prop :=
| atomic_add n v : (n < length NAMES)%nat -> atomic m (Metrics_add m n v)
| atomic_dec n : (n < length NAMES)%nat -> atomic m (Metrics_dec m n)
| atomic_set n v : (n < length NAMES)%nat -> is_u64 v -> atomic m (Metrics_set m n v).

(** A component touches the registry by atomic operations only. *)
Definition touches : Metrics -> Metrics -> Prop := rtc atomic.

Lemma Metrics_new_typed : metrics_typed Metrics_new.
Proof. split; [reflexivity |]. apply Forall_map, Forall_true. intros _. unfold is_u64. lia. Qed.

Lemma Forall_alter_wrap (f : Z -> Z) (n : nat) (l : list Z) :
  Forall is_u64 l -> Forall is_u64 (alter (fun v => wrap 64 (f v)) n l).
Proof.
  intros H. apply Forall_alter; [done |]. intros x _ _. unfold is_u64, wrap. apply Z.mod_pos_bound. lia.
Qed.

Lemma atomic_typed (m m' : Metrics) : atomic m m' -> metrics_typed m -> metrics_typed m'.
Proof.
  intros A [L U]. destruct A; unfold metrics_typed; cbn [values Metrics_add Metrics_dec Metrics_set];
    rewrite ?length_alter, ?length_insert; (split; [exact L |]).
  - now apply (Forall_alter_wrap (fun x => x + v)).
  - now apply (Forall_alter_wrap (fun x => x - 1)).
  - now apply Forall_insert.
Qed.

Lemma touches_typed (m m' : Metrics) : touches m m' -> metrics_typed m -> metrics_typed m'.
Proof. induction 1; eauto using atomic_typed. Qed.

Lemma touches_refl (m : Metrics) : touches m m.
Proof. apply rtc_refl. Qed.
Lemma touches_inc (m m' : Metrics) (n : nat) :
  (n < length NAMES)%nat -> touches m m' -> touches m (Metrics_inc m' n).
Proof. intros H T. eapply rtc_r; [exact T |]. now apply atomic_add. Qed.
Lemma touches_add (m m' : Metrics) (n : nat) (v : Z) :
  (n < length NAMES)%nat -> touches m m' -> touches m (Metrics_add m' n v).
Proof. intros H T. eapply rtc_r; [exact T |]. now apply atomic_add. Qed.
Lemma touches_dec (m m' : Metrics) (n : nat) :
  (n < length NAMES)%nat -> touches m m' -> touches m (Metrics_dec m' n).
Proof. intros H T. eapply rtc_r; [exact T |]. now apply atomic_dec. Qed.
Lemma touches_set (m m' : Metrics) (n : nat) (v : Z) :
  (n < length NAMES)%nat -> is_u64 v -> touches m m' -> touches m (Metrics_set m' n v).
Proof. intros H U T. eapply rtc_r; [exact T |]. now apply atomic_set. Qed.

#[export] Hint Resolve touches_refl touches_inc touches_add touches_dec touches_set : touches.
#[export] Hint Extern 5 (_ < length NAMES)%nat => (vm_compute; lia) : touches.

(** ** Gauges: a counter held up by a live value *)

Record Gauge : Type := mkGauge { gauge_n : nat }.
Definition Gauge_new (m : Metrics) (n : nat) : Gauge * Metrics := (mkGauge n, Metrics_inc m n).
Definition Gauge_drop (g : Gauge) (m : Metrics) : Metrics := Metrics_dec m (gauge_n g).

Lemma Gauge_balanced (m : Metrics) (n : nat) :
  Forall is_u64 (values m) ->
  let '(g, m') := Gauge_new m n in Gauge_drop g m' = m.
Proof.
  intros H. unfold Gauge_new, Gauge_drop, Metrics_inc, Metrics_dec, Metrics_add. cbn [gauge_n values].
  destruct m as [vs]. cbn [values] in *. f_equal.
  apply list_eq. intros i. destruct (decide (n = i)) as [-> | Hne].
  - rewrite !list_lookup_alter_eq. destruct (vs !! i) as [x |] eqn:E; [| done]. cbn. f_equal.
    eapply Forall_lookup_1 in H; [| exact E]. unfold is_u64, wrap in *.
    rewrite Zminus_mod_idemp_l. rewrite Z.add_simpl_r. apply Z.mod_small. lia.
  - now rewrite !list_lookup_alter_ne.
Qed.
