(* ===== verification/Net.v ===== *)
(** * Addresses, prefixes and CIDR networks

    [IpAddr] and [SocketAddr] of the Rust standard library with the predicates the gate uses, the
    address normalisation and subnet functions of [gate/src/limiter.rs], and the interface of the
    [ipnet] crate, which is a parameter of the development. *)
From S2P Require Import Prelude Machine.
From stdpp Require Import base option list countable.
From Stdlib Require Import ZArith Lia.
Local Open Scope Z_scope.

(** ** Addresses *)

(** An address is its big-endian integer value. *)
Inductive IpAddr : Type :=
| V4 (a : Z)
| V6 (a : Z).

#[global] Instance IpAddr_eq_dec : EqDecision IpAddr.
Proof. solve_decision. Defined.

#[global] Instance IpAddr_countable : Countable IpAddr.
Proof.
  refine (inj_countable'
    (fun ip => match ip with V4 a => inl a | V6 a => inr a end)
    (fun s => match s with inl a => V4 a | inr a => V6 a end) _).
  now intros [].
Defined.

Definition ip_wf (ip : IpAddr) : Prop :=
  match ip with V4 a => is_u32 a | V6 a => is_u128 a end.

(** The flow label and scope are zero for IPv4 and for [SocketAddr::new]. *)
Record SocketAddr : Type := mkSocketAddr {
  sa_ip : IpAddr; sa_port : Z; sa_flowinfo : Z; sa_scope_id : Z }.

#[global] Instance SocketAddr_eq_dec : EqDecision SocketAddr.
Proof. solve_decision. Defined.

Definition SocketAddr_new (ip : IpAddr) (port : Z) : SocketAddr := mkSocketAddr ip port 0 0.

Definition is_ipv4 (ip : IpAddr) : bool := match ip with V4 _ => true | V6 _ => false end.
Definition is_ipv6 (ip : IpAddr) : bool := negb (is_ipv4 ip).
Definition is_unspecified (ip : IpAddr) : bool :=
  match ip with V4 a => a =? 0 | V6 a => a =? 0 end.
Definition is_multicast (ip : IpAddr) : bool :=
  match ip with V4 a => Z.shiftr a 28 =? 14 | V6 a => Z.shiftr a 120 =? 255 end.
Definition is_loopback (ip : IpAddr) : bool :=
  match ip with V4 a => Z.shiftr a 24 =? 127 | V6 a => a =? 1 end.

(** [Ipv6Addr::to_ipv4_mapped]: the addresses [::ffff:a.b.c.d]. *)
Definition to_ipv4_mapped (a : Z) : option Z :=
  if Z.shiftr a 32 =? 65535 then Some (Z.land a u32_max) else None.

(** Octets, most significant first, and the inverse. *)
Definition octets4 (a : Z) : list Z :=
  [Z.land (Z.shiftr a 24) 255; Z.land (Z.shiftr a 16) 255; Z.land (Z.shiftr a 8) 255; Z.land a 255].
Fixpoint be_octets (n : nat) (a : Z) : list Z :=
  match n with
  | O => []
  | S n => be_octets n (Z.shiftr a 8) ++ [Z.land a 255]
  end.
Definition from_octets (l : list Z) : Z := fold_left (fun acc b => acc * 256 + b) l 0.

(** ** Identity keys of the limiter *)

(** [normalize]: an IPv4-mapped IPv6 address is the IPv4 address. *)
Definition normalize (ip : IpAddr) : IpAddr :=
  match ip with
  | V6 v => match to_ipv4_mapped v with Some a => V4 a | None => ip end
  | _ => ip
  end.

(** [MAX << s] on a [w]-bit integer; release builds mask the shift amount. *)
Definition max_shl (w s : Z) : Z := wrap w (Z.shiftl (2 ^ w - 1) (s mod w)).

(** The mask of [subnet]; the prefix length is a [u8]. *)
Definition subnet_mask (w p : Z) : Z := if p =? 0 then 0 else max_shl w (wrap 8 (w - p)).

Definition subnet (ip : IpAddr) (v4 v6 : Z) : IpAddr :=
  match ip with
  | V4 v => V4 (Z.land v (subnet_mask 32 v4))
  | V6 v => V6 (Z.land v (subnet_mask 128 v6))
  end.

(** ** Prefix arithmetic *)

Lemma land_ones_high (w k a : Z) :
  0 <= k <= w -> 0 <= a < 2 ^ w ->
  Z.land a (wrap w (Z.shiftl (2 ^ w - 1) k)) = a - a mod 2 ^ k.
Proof.
  intros Hk Ha.
  assert (0 < 2 ^ k) by (apply Z.pow_pos_nonneg; lia).
  assert (E : a - a mod 2 ^ k = Z.shiftl (Z.shiftr a k) k).
  { rewrite Z.shiftl_mul_pow2, Z.shiftr_div_pow2 by lia. pose proof (Z.div_mod a (2 ^ k)). lia. }
  rewrite E. apply Z.bits_inj'. intros n Hn.
  unfold wrap. rewrite <- Z.land_ones by lia. rewrite !Z.land_spec, Z.testbit_ones by lia.
  replace (2 ^ w - 1) with (Z.ones w) by (rewrite Z.ones_equiv; lia).
  rewrite !Z.shiftl_spec by lia.
  destruct (Z.ltb_spec n k) as [Hlt | Hge].
  - rewrite !(Z.testbit_neg_r _ (n - k)) by lia. rewrite !andb_false_l, andb_false_r. done.
  - rewrite Z.shiftr_spec, Z.testbit_ones by lia.
    replace (n - k + k) with n by lia.
    destruct (Z.ltb_spec n w) as [Hnw | Hnw].
    + replace (0 <=? n - k) with true by (symmetry; apply Z.leb_le; lia).
      replace (n - k <? w) with true by (symmetry; apply Z.ltb_lt; lia).
      replace (0 <=? n) with true by (symmetry; apply Z.leb_le; lia).
      now rewrite andb_true_r.
    + replace (Z.testbit a n) with false; [done |]. symmetry.
      rewrite <- (Z.mod_small a (2 ^ w)) by lia. apply Z.mod_pow2_bits_high. lia.
Qed.

(** Masking by a valid prefix length clears the host bits. *)
Lemma subnet_mask_land (w p a : Z) :
  0 < w <= 128 -> 0 <= p <= w -> 0 <= a < 2 ^ w ->
  Z.land a (subnet_mask w p) = a - a mod 2 ^ (w - p).
Proof.
  intros Hw Hp Ha. unfold subnet_mask. destruct (Z.eqb_spec p 0) as [-> | Hnz].
  - rewrite Z.land_0_r, Z.sub_0_r, Z.mod_small by lia. lia.
  - unfold max_shl. rewrite (wrap_small 8 (w - p)) by lia.
    rewrite (Z.mod_small (w - p) w) by lia. apply land_ones_high; lia.
Qed.

(** ** The [ipnet] crate *)

(** The operations of [ipnet::IpNet] the gate calls. *)
Class IpNetLib (IpNet : Type) := {
  net_addr : IpNet -> IpAddr;
  net_prefix_len : IpNet -> Z;
  net_network : IpNet -> IpAddr;
  net_contains : IpNet -> IpAddr -> bool }.

(** Their documented behaviour: the prefix length fits the family, [network] is the address with
    the host bits cleared, and [contains] tests the range from the network address to the
    broadcast address. *)
Class IpNetLaws (IpNet : Type) `{IpNetLib IpNet} : Prop := {
  net_wf : forall n : IpNet, ip_wf (net_addr n) /\
    0 <= net_prefix_len n <= (if is_ipv4 (net_addr n) then 32 else 128);
  net_network_spec : forall n : IpNet,
    net_network n =
    match net_addr n with
    | V4 a => V4 (a - a mod 2 ^ (32 - net_prefix_len n))
    | V6 a => V6 (a - a mod 2 ^ (128 - net_prefix_len n))
    end;
  net_contains_spec : forall (n : IpNet) (ip : IpAddr),
    net_contains n ip =
    match net_network n, ip with
    | V4 lo, V4 a => (lo <=? a) && (a <=? lo + 2 ^ (32 - net_prefix_len n) - 1)
    | V6 lo, V6 a => (lo <=? a) && (a <=? lo + 2 ^ (128 - net_prefix_len n) - 1)
    | _, _ => false
    end }.

(** A range test against an aligned block is a masked comparison. *)
Lemma block_contains (k lo a : Z) :
  0 <= k -> lo mod 2 ^ k = 0 ->
  (lo <=? a) && (a <=? lo + 2 ^ k - 1) = (a - a mod 2 ^ k =? lo).
Proof.
  intros Hk Hlo. assert (P : 0 < 2 ^ k) by (apply Z.pow_pos_nonneg; lia).
  pose proof (Z.mod_pos_bound a (2 ^ k) P). pose proof (Z.div_mod a (2 ^ k)).
  pose proof (Z.div_mod lo (2 ^ k)).
  destruct (Z.eqb_spec (a - a mod 2 ^ k) lo) as [E | E].
  - apply andb_true_iff. rewrite !Z.leb_le. lia.
  - apply andb_false_iff. rewrite !Z.leb_gt.
    destruct (Z.lt_ge_cases a lo); [auto | right].
    destruct (Z.lt_ge_cases (lo + 2 ^ k - 1) a); [done | exfalso]. apply E.
    assert (lo / 2 ^ k = a / 2 ^ k) by (apply (Z.div_unique _ _ _ (a - lo)); lia). lia.
Qed.

(** A concrete CIDR type satisfying the interface. *)
Definition cidr_wfb (a : IpAddr) (len : Z) : bool :=
  match a with
  | V4 v => (0 <=? v) && (v <=? u32_max) && (0 <=? len) && (len <=? 32)
  | V6 v => (0 <=? v) && (v <=? u128_max) && (0 <=? len) && (len <=? 128)
  end.

Record Cidr : Type := mkCidr {
  cidr_addr : IpAddr; cidr_len : Z; cidr_ok : cidr_wfb cidr_addr cidr_len = true }.

Definition cidr_network (c : Cidr) : IpAddr :=
  match cidr_addr c with
  | V4 a => V4 (a - a mod 2 ^ (32 - cidr_len c))
  | V6 a => V6 (a - a mod 2 ^ (128 - cidr_len c))
  end.

Definition cidr_contains (c : Cidr) (ip : IpAddr) : bool :=
  match cidr_network c, ip with
  | V4 lo, V4 a => (lo <=? a) && (a <=? lo + 2 ^ (32 - cidr_len c) - 1)
  | V6 lo, V6 a => (lo <=? a) && (a <=? lo + 2 ^ (128 - cidr_len c) - 1)
  | _, _ => false
  end.

#[export] Instance Cidr_lib : IpNetLib Cidr := {|
  net_addr := cidr_addr; net_prefix_len := cidr_len;
  net_network := cidr_network; net_contains := cidr_contains |}.

#[export] Instance Cidr_laws : IpNetLaws Cidr.
Proof.
  split; [| done | done].
  intros [a len Hok]. cbn [net_addr net_prefix_len Cidr_lib cidr_addr cidr_len].
  unfold cidr_wfb, u32_max, u128_max in Hok.
  destruct a; breflect; cbn [ip_wf is_ipv4]; unfold is_u32, is_u128; lia.
Qed.
