(* ===== verification/Config.v ===== *)
(** * Configuration records ([gate/src/config.rs])

    The configuration types with the source's field names, and the validity of a single rate. The
    whole-document validation is in [Validate.v], after the status cache it calls. *)
From S2P Require Import Prelude Machine Float64 Net.
From stdpp Require Import base option list gmap strings.
From Stdlib Require Import ZArith Lia SpecFloat.
Local Open Scope Z_scope.

Record Rate : Type := mkRate { per_second : f64; burst : f64 }.

Definition f64_1e9 : f64 := Eval vm_compute in f64_of_Z 1000000000.

Definition Rate_valid (r : Rate) : bool :=
  is_finite (per_second r) && is_finite (burst r) && f64_leb f64_zero (per_second r) &&
  f64_leb (per_second r) f64_1e9 && f64_leb f64_zero (burst r) && f64_leb (burst r) f64_1e9 &&
  ((f64_eqb (per_second r) f64_zero && f64_eqb (burst r) f64_zero) ||
   (f64_ltb f64_zero (per_second r) && f64_leb f64_one (burst r))).

(** The four rate-limited events, in the order of the [[_; 4]] arrays indexed by them. *)
Inductive Event : Type := Connect | Handshake | Status | Login.

#[global] Instance Event_eq_dec : EqDecision Event.
Proof. solve_decision. Defined.

Definition event_index (e : Event) : nat :=
  match e with Connect => 0 | Handshake => 1 | Status => 2 | Login => 3 end.

(** An array of four elements indexed by an event. *)
Record Quad (A : Type) : Type := mkQuad { q_connect : A; q_handshake : A; q_status : A; q_login : A }.
Arguments mkQuad {A} _ _ _ _.
Arguments q_connect {A} _.
Arguments q_handshake {A} _.
Arguments q_status {A} _.
Arguments q_login {A} _.

Definition quad_get {A : Type} (q : Quad A) (e : Event) : A :=
  match e with
  | Connect => q_connect q | Handshake => q_handshake q
  | Status => q_status q | Login => q_login q
  end.
Definition quad_set {A : Type} (q : Quad A) (e : Event) (x : A) : Quad A :=
  match e with
  | Connect => mkQuad x (q_handshake q) (q_status q) (q_login q)
  | Handshake => mkQuad (q_connect q) x (q_status q) (q_login q)
  | Status => mkQuad (q_connect q) (q_handshake q) x (q_login q)
  | Login => mkQuad (q_connect q) (q_handshake q) (q_status q) x
  end.
Definition quad_map {A B : Type} (f : A -> B) (q : Quad A) : Quad B :=
  mkQuad (f (q_connect q)) (f (q_handshake q)) (f (q_status q)) (f (q_login q)).
Definition quad_to_list {A : Type} (q : Quad A) : list A :=
  [q_connect q; q_handshake q; q_status q; q_login q].
Definition quad_all {A : Type} (P : A -> Prop) (q : Quad A) : Prop := forall e, P (quad_get q e).

Lemma quad_get_set {A : Type} (q : Quad A) (e e' : Event) (x : A) :
  quad_get (quad_set q e x) e' = if decide (e = e') then x else quad_get q e'.
Proof. now destruct e, e'. Qed.

Lemma quad_get_set_eq {A : Type} (q : Quad A) (e : Event) (x : A) :
  quad_get (quad_set q e x) e = x.
Proof. now destruct e. Qed.

Lemma quad_get_map {A B : Type} (f : A -> B) (q : Quad A) (e : Event) :
  quad_get (quad_map f q) e = f (quad_get q e).
Proof. now destruct e. Qed.

Lemma quad_all_set {A : Type} (P : A -> Prop) (q : Quad A) (e : Event) (x : A) :
  quad_all P q -> P x -> quad_all P (quad_set q e x).
Proof. intros Hq Hx e'. rewrite quad_get_set. now case_decide. Qed.

#[export] Hint Resolve quad_all_set : gate.
#[export] Hint Rewrite @quad_get_set_eq @quad_get_map : gate.

Record Rates : Type := mkRates {
  r_connect : Rate; r_handshake : Rate; r_status : Rate; r_login : Rate }.

(** [Rates::list]: the array in event order. *)
Definition Rates_list (r : Rates) : Quad Rate :=
  mkQuad (r_connect r) (r_handshake r) (r_status r) (r_login r).

Record Limits : Type := mkLimits {
  total_sockets : Z; l_prelogin : Z; status_connections : Z; status_ip : Z;
  separate_status_budget : bool; preserve_burst : bool;
  l_admitted : Z; l_backend : Z; connections_ip : Z; connections_prefix : Z;
  prelogin_ip : Z; prelogin_prefix : Z; ip_entries : Z; prefix_entries : Z;
  idle_entry_seconds : Z; ipv4_prefix : Z; ipv6_prefix : Z;
  ip_rates : Rates; prefix_rates : Rates; global_rates : Rates;
  mode_multipliers : list f64;
  churn_score_threshold : f64; churn_prefix_score_threshold : f64;
  churn_half_life_seconds : Z; churn_window_seconds : Z; penalty_seconds : Z }.

Record Timeouts : Type := mkTimeouts {
  first_progress_ms : Z; progress_ms : Z; handshake_ms : Z; login_ms : Z; status_ms : Z;
  backend_ms : Z; shutdown_seconds : Z; relay_stall_ms : Z; half_close_ms : Z;
  client_idle_ms : Z }.

(** Host names and user names are UTF-8 byte strings; schema names are literals. *)
Record Protocol : Type := mkProtocol {
  min_protocol : Z; max_protocol : Z; max_frame : Z; max_initial_bytes : Z;
  max_host_bytes : Z; allow_host_suffix : bool; allowed_hosts : list (list Z);
  allowed_ports : list Z; strict_username : bool; login_schemas : gmap Z string;
  future_login_schema : string }.

Definition default_future_login_schema : string := "uuid".
Definition default_min_protocol : Z := 757.
Definition default_max_protocol : Z := 776.

Record BackendProtection : Type := mkBackendProtection {
  max_connecting : Z; failure_threshold : Z; cooldown_ms : Z; attempts : Rate }.

Record Upload : Type := mkUpload { bytes_per_second : Z; burst_bytes : Z; enforce : bool }.

(** ** Facts about a valid rate *)

Lemma is_finite_valid_nonneg (x : f64) :
  valid x -> f64_leb f64_zero x = true -> nonneg x.
Proof. intros; now split. Qed.

(** An enabled rate has a positive finite refill rate and a burst between 1.0 and 1e9. *)
Definition enabled_rate (r : Rate) : Prop :=
  positive_finite (per_second r) /\ nonneg (burst r) /\ is_finite (burst r) = true /\
  unit64 <= val (burst r) <= 1000000000 * unit64.

Definition rate_wf (r : Rate) : Prop := valid (per_second r) /\ valid (burst r).

Lemma val_1e9 : val f64_1e9 = 1000000000 * unit64.
Proof. reflexivity. Qed.

Lemma Rate_valid_enabled (r : Rate) :
  rate_wf r -> Rate_valid r = true -> f64_eqb (per_second r) f64_zero = false -> enabled_rate r.
Proof.
  intros [Vp Vb] H Hne. unfold Rate_valid in H. rewrite Hne in H. breflect.
  rewrite andb_false_l, orb_false_l in H0. breflect.
  assert (Nb : nonneg (burst r)) by (now split).
  split_and!; auto.
  - now split_and!.
  - rewrite <- val_one. apply leb_val; auto. done.
  - rewrite <- val_1e9. apply leb_val; auto. done.
Qed.
