(* ===== verification/Limiter.v ===== *)
(** * The admission limiter ([gate/src/limiter.rs])

    Token buckets, identity entries, the sharded identity tables, tickets and the operations of
    [Limiter]. Every operation takes the clock reading [now] that the source obtains from
    [Instant::now()] as an argument, so that readings may arrive in any order. A panic (an index
    out of the mode multipliers) is [None]. *)
From S2P Require Import Prelude Machine Float64 Metrics Net Config.
From stdpp Require Import base option list gmap.
From Stdlib Require Import ZArith Lia SpecFloat.
Local Open Scope Z_scope.

Definition SHARDS : Z := 64.

Record Policy : Type := mkPolicy { mode : Z; observe : bool; exempt : bool }.

(** ** Token buckets *)

Record Bucket : Type := mkBucket { tokens : f64; b_last : Instant; rate : Rate }.

Definition Bucket_new (r : Rate) (now : Instant) : Bucket := mkBucket (burst r) now r.

Definition Bucket_available (b : Bucket) (now : Instant) (factor : f64) (preserve : bool)
  : bool * Bucket :=
  if f64_eqb (per_second (rate b)) f64_zero then (true, b)
  else
    let cap := f64_max (f64_mul (burst (rate b)) (if preserve then f64_one else factor)) f64_one in
    let t := f64_min
      (f64_add (tokens b)
         (f64_mul (f64_mul (as_secs_f64 (saturating_duration_since now (b_last b)))
                           (per_second (rate b))) factor)) cap in
    (f64_leb f64_one t, mkBucket t (Z.max (b_last b) now) (rate b)).

Definition Bucket_consume (b : Bucket) : Bucket :=
  if f64_ltb f64_zero (per_second (rate b))
  then mkBucket (f64_sub (tokens b) f64_one) (b_last b) (rate b) else b.

Definition Bucket_take (b : Bucket) (now : Instant) (factor : f64) (preserve : bool)
  : bool * Bucket :=
  let '(ok, b') := Bucket_available b now factor preserve in
  if negb ok then (false, b') else (true, Bucket_consume b').

(** ** Identity entries *)

Record Entry : Type := mkEntry {
  e_active : Z; e_pending : Z; e_status : Z; e_touched : Instant; e_buckets : Quad Bucket;
  e_score : f64; e_score_at : Instant; e_penalty_until : Instant }.

Definition Entry_new (r : Rates) (now : Instant) : Entry :=
  mkEntry 0 0 0 now (quad_map (fun x => Bucket_new x now) (Rates_list r)) f64_zero now now.

Definition set_touched (e : Entry) (now : Instant) : Entry :=
  mkEntry (e_active e) (e_pending e) (e_status e) now (e_buckets e)
    (e_score e) (e_score_at e) (e_penalty_until e).
Definition set_bucket (e : Entry) (ev : Event) (b : Bucket) : Entry :=
  mkEntry (e_active e) (e_pending e) (e_status e) (e_touched e) (quad_set (e_buckets e) ev b)
    (e_score e) (e_score_at e) (e_penalty_until e).
Definition set_counts (e : Entry) (a p s : Z) : Entry :=
  mkEntry a p s (e_touched e) (e_buckets e) (e_score e) (e_score_at e) (e_penalty_until e).
Definition set_score (e : Entry) (sc : f64) (at_ until : Instant) : Entry :=
  mkEntry (e_active e) (e_pending e) (e_status e) (e_touched e) (e_buckets e) sc at_ until.

(** [available] on one bucket of an entry, conjoined with the penalty test. *)
Definition entry_available (e : Entry) (ev : Event) (now : Instant) (factor : f64)
  (preserve : bool) : bool * Entry :=
  let '(ok, b) := Bucket_available (quad_get (e_buckets e) ev) now factor preserve in
  (ok && (e_penalty_until e <=? now), set_bucket e ev b).
Definition entry_consume (e : Entry) (ev : Event) : Entry :=
  set_bucket e ev (Bucket_consume (quad_get (e_buckets e) ev)).

Section Decay.
(** [f64::powf] is a library function whose rounding is unspecified. *)
Variable powf : f64 -> f64 -> f64.

Definition Entry_decay (e : Entry) (now : Instant) (half_life : Z) : Entry :=
  let x := f64_div (f64_neg (as_secs_f64 (saturating_duration_since now (e_score_at e))))
                   (f64_of_Z half_life) in
  set_score e (f64_mul (e_score e) (powf f64_two x)) now (e_penalty_until e).
End Decay.

(** ** Sharded tables *)

(** The hash is that of the table's [RandomState], fixed when the table is created. *)
Record Table : Type := mkTable {
  shards : list (gmap IpAddr Entry); hash : IpAddr -> Z; capacity : Z }.

Definition Table_new (h : IpAddr -> Z) (cap : Z) : Table :=
  mkTable (replicate (Z.to_nat SHARDS) ∅) h (cap / SHARDS).

Definition Table_shard (t : Table) (ip : IpAddr) : nat := Z.to_nat (wrap 64 (hash t ip) mod SHARDS).

(** The locked map of a shard, and writing it back. *)
Definition shard_map (t : Table) (i : nat) : gmap IpAddr Entry := default ∅ (shards t !! i).
Definition set_shard (t : Table) (i : nat) (m : gmap IpAddr Entry) : Table :=
  mkTable (<[i := m]> (shards t)) (hash t) (capacity t).

Definition table_get (t : Table) (k : IpAddr) : option Entry := shard_map t (Table_shard t k) !! k.
Definition table_put (t : Table) (k : IpAddr) (e : Entry) : Table :=
  set_shard t (Table_shard t k) (<[k := e]> (shard_map t (Table_shard t k))).

(** ** The limiter and its tickets *)

Record Limiter : Type := mkLimiter {
  l_ip : Table; l_prefix : Table; l_global : Quad Bucket; l_cfg : Limits; l_metrics : Metrics }.

Record Ticket : Type := mkTicket {
  t_ip : IpAddr; t_prefix : IpAddr; t_handshake : bool; t_admitted : bool;
  t_status_complete : bool; t_server_rejected : bool; t_status : bool }.

Definition Limiter_new (hip hprefix : IpAddr -> Z) (cfg : Limits) (m : Metrics) (now : Instant)
  : Limiter :=
  mkLimiter (Table_new hip (ip_entries cfg)) (Table_new hprefix (prefix_entries cfg))
    (quad_map (fun r => Bucket_new r now) (Rates_list (global_rates cfg))) cfg m.

Definition with_metrics (l : Limiter) (m : Metrics) : Limiter :=
  mkLimiter (l_ip l) (l_prefix l) (l_global l) (l_cfg l) m.
Definition with_ip (l : Limiter) (t : Table) : Limiter :=
  mkLimiter t (l_prefix l) (l_global l) (l_cfg l) (l_metrics l).
Definition with_prefix (l : Limiter) (t : Table) : Limiter :=
  mkLimiter (l_ip l) t (l_global l) (l_cfg l) (l_metrics l).
Definition inc (l : Limiter) (n : nat) : Limiter := with_metrics l (Metrics_inc (l_metrics l) n).

(** [mode_multipliers[p.mode]]. *)
Definition mode_factor (cfg : Limits) (p : Policy) : exec f64 :=
  if mode p <? 0 then None else mode_multipliers cfg !! Z.to_nat (mode p).

Definition judged (m : Metrics) (allowed : bool) (reason : nat) (p : Policy) : bool * Metrics :=
  if allowed || exempt p then (true, m)
  else if observe p then (true, Metrics_inc m 27) else (false, Metrics_inc m reason).

Definition no_exempt (p : Policy) : Policy := mkPolicy (mode p) (observe p) false.

(** A positive limit that a counter has reached. *)
Definition reached (limit count : Z) : bool := (0 <? limit) && (limit <=? count).

(** ** Admission *)

(** The entry a lookup finds, or the provisional one built for a new identity. *)
Definition entry_or_new (t : Table) (k : IpAddr) (r : Rates) (now : Instant) : Entry :=
  match table_get t k with Some e => e | None => Entry_new r now end.
Definition is_new (t : Table) (k : IpAddr) : bool :=
  match table_get t k with Some _ => false | None => true end.

(** Mutations of an existing entry happen in place; a provisional entry is only stored when the
    connection is admitted. *)
Definition store_existing (t : Table) (k : IpAddr) (e : Entry) : Table :=
  if is_new t k then t else table_put t k e.

(** A new key that does not fit the shard it belongs to. *)
Definition table_full (t : Table) (k : IpAddr) : bool :=
  is_new t k && (capacity t <=? Z.of_nat (size (shard_map t (Table_shard t k)))).

Definition touch_counts (e : Entry) : Entry :=
  set_counts e (usize_add (e_active e) 1) (usize_add (e_pending e) 1) (e_status e).

(** Writing back the entries of a refused connection. *)
Definition keep_existing (l : Limiter) (ip prefix : IpAddr) (i net : Entry) (g : Quad Bucket)
  (m : Metrics) : Limiter :=
  mkLimiter (store_existing (l_ip l) ip i) (store_existing (l_prefix l) prefix net) g (l_cfg l) m.

(** The token stage of [accept]: every scope must agree before any token is spent. *)
Definition accept_tokens (l : Limiter) (ip prefix : IpAddr) (i net : Entry) (p : Policy)
  (now : Instant) : exec (option Ticket * Limiter) :=
  let cfg := l_cfg l in
  factor ← mode_factor cfg p;
  let '(ip_ok, i) := entry_available i Connect now factor (preserve_burst cfg) in
  let '(prefix_ok, net) := entry_available net Connect now factor (preserve_burst cfg) in
  let '(j, m) := judged (l_metrics l) ip_ok 14 p in
  if negb j then Some (None, keep_existing l ip prefix i net (l_global l) m) else
  let '(j, m) := judged m prefix_ok 15 p in
  if negb j then Some (None, keep_existing l ip prefix i net (l_global l) m) else
  let '(global_ok, g) :=
    Bucket_available (quad_get (l_global l) Connect) now factor (preserve_burst cfg) in
  let global := quad_set (l_global l) Connect g in
  let '(j, m) := judged m global_ok 16 (no_exempt p) in
  if negb j then Some (None, keep_existing l ip prefix i net global m) else
  let i := if negb (exempt p) && ip_ok then entry_consume i Connect else i in
  let net := if negb (exempt p) && prefix_ok then entry_consume net Connect else net in
  let global := if global_ok then quad_set global Connect (Bucket_consume g) else global in
  let m := if is_new (l_ip l) ip then Metrics_inc (Metrics_inc m 28) 32 else m in
  let m := if is_new (l_prefix l) prefix then Metrics_inc (Metrics_inc m 29) 33 else m in
  Some (Some (mkTicket ip prefix false false false false false),
        mkLimiter (table_put (l_ip l) ip (touch_counts i))
          (table_put (l_prefix l) prefix (touch_counts net)) global cfg m).

Definition Limiter_accept (l : Limiter) (ip0 : IpAddr) (p : Policy) (now : Instant)
  : exec (option Ticket * Limiter) :=
  let cfg := l_cfg l in
  let m := l_metrics l in
  let ip := normalize ip0 in
  let prefix := subnet ip (ipv4_prefix cfg) (ipv6_prefix cfg) in
  if table_full (l_ip l) ip || table_full (l_prefix l) prefix then Some (None, inc l 21)
  else
    let i := set_touched (entry_or_new (l_ip l) ip (ip_rates cfg) now) now in
    let net := set_touched (entry_or_new (l_prefix l) prefix (prefix_rates cfg) now) now in
    if reached (connections_ip cfg) (e_active i) || reached (connections_prefix cfg) (e_active net)
    then Some (None, keep_existing l ip prefix i net (l_global l) (Metrics_inc m 20))
    else if reached (prelogin_ip cfg) (e_pending i) || reached (prelogin_prefix cfg) (e_pending net)
    then Some (None, keep_existing l ip prefix i net (l_global l)
                       (Metrics_inc (Metrics_inc m 20) 38))
    else accept_tokens l ip prefix i net p now.

(** ** Rate events of an admitted ticket *)

Definition Limiter_event (l : Limiter) (t : Ticket) (ev : Event) (p : Policy) (now : Instant)
  : exec (bool * Limiter) :=
  let cfg := l_cfg l in
  let m := l_metrics l in
  factor ← mode_factor cfg p;
  match table_get (l_ip l) (t_ip t), table_get (l_prefix l) (t_prefix t) with
  | Some ip, Some prefix =>
    let ip := set_touched ip now in
    let prefix := set_touched prefix now in
    let keep i net g m :=
      mkLimiter (table_put (l_ip l) (t_ip t) i) (table_put (l_prefix l) (t_prefix t) net) g cfg m in
    let '(ip_ok, ip) := entry_available ip ev now factor (preserve_burst cfg) in
    let '(j, m) := judged m ip_ok 14 p in
    if negb j then Some (false, keep ip prefix (l_global l) m) else
    let '(prefix_ok, prefix) := entry_available prefix ev now factor (preserve_burst cfg) in
    let '(j, m) := judged m prefix_ok 15 p in
    if negb j then Some (false, keep ip prefix (l_global l) m) else
    let '(global_ok, g) :=
      Bucket_available (quad_get (l_global l) ev) now factor (preserve_burst cfg) in
    let global := quad_set (l_global l) ev g in
    let '(j, m) := judged m global_ok 16 (no_exempt p) in
    if negb j then Some (false, keep ip prefix global m) else
    let ip := if negb (exempt p) && ip_ok then entry_consume ip ev else ip in
    let prefix := if negb (exempt p) && prefix_ok then entry_consume prefix ev else prefix in
    let global := if global_ok then quad_set global ev (Bucket_consume g) else global in
    Some (true, keep ip prefix global m)
  | _, _ => Some (false, l)
  end.

(** ** Ticket operations *)

Definition set_ticket_status (t : Ticket) (s : bool) : Ticket :=
  mkTicket (t_ip t) (t_prefix t) (t_handshake t) (t_admitted t) (t_status_complete t)
    (t_server_rejected t) s.
Definition set_ticket_admitted (t : Ticket) : Ticket :=
  mkTicket (t_ip t) (t_prefix t) (t_handshake t) true (t_status_complete t)
    (t_server_rejected t) (t_status t).
Definition set_ticket_rejected (t : Ticket) : Ticket :=
  mkTicket (t_ip t) (t_prefix t) (t_handshake t) (t_admitted t) (t_status_complete t) true
    (t_status t).

Definition Ticket_enter_status (l : Limiter) (t : Ticket) : bool * Ticket * Limiter :=
  if t_status t then (true, t, l)
  else match table_get (l_ip l) (t_ip t) with
  | None => (false, t, l)
  | Some e =>
    if reached (status_ip (l_cfg l)) (e_status e)
    then (false, set_ticket_rejected t, inc (inc l 20) 44)
    else (true, set_ticket_status t true,
          with_ip l (table_put (l_ip l) (t_ip t)
            (set_counts e (e_active e) (e_pending e) (usize_add (e_status e) 1))))
  end.

(** The critical section of [mark_admitted] on one table. *)
Definition release_pending (t : Table) (k : IpAddr) : Table :=
  match table_get t k with
  | Some e => table_put t k (set_counts e (e_active e) (usize_sub (e_pending e) 1) (e_status e))
  | None => t
  end.

Definition Ticket_mark_admitted (l : Limiter) (t : Ticket) : Ticket * Limiter :=
  if t_admitted t then (t, l)
  else
    let l := with_ip l (release_pending (l_ip l) (t_ip t)) in
    let l := with_prefix l (release_pending (l_prefix l) (t_prefix t)) in
    (set_ticket_admitted t, l).

Definition f64_1e6 : f64 := Eval vm_compute in f64_of_Z 1000000.

(** Whether dropping the ticket counts as connection churn. *)
Definition ticket_churn (t : Ticket) : bool :=
  negb (t_server_rejected t) && negb (t_status_complete t) && negb (t_admitted t).

Section Drop.
Variable powf : f64 -> f64 -> f64.

(** The critical section of [Drop for Ticket] on one table; [is_ip] is the pointer comparison
    with the IP table. *)
Definition release_entry (cfg : Limits) (t : Ticket) (is_ip : bool) (threshold : f64)
  (now : Instant) (e : Entry) : Entry :=
  let e := set_touched
    (set_counts e (usize_sub (e_active e) 1) (e_pending e) (e_status e)) now in
  let e := if t_status t && is_ip
    then set_counts e (e_active e) (e_pending e) (usize_sub (e_status e) 1) else e in
  let e := if negb (t_admitted t)
    then set_counts e (e_active e) (usize_sub (e_pending e) 1) (e_status e) else e in
  if ticket_churn t && f64_ltb f64_zero threshold then
    let e := Entry_decay powf e now (churn_half_life_seconds cfg) in
    let sc := f64_min (f64_add (e_score e) (if t_handshake t then f64_quarter else f64_one)) f64_1e6 in
    let until := if f64_leb threshold sc then now + from_secs (penalty_seconds cfg)
                 else e_penalty_until e in
    set_score e sc (e_score_at e) until
  else e.

Definition release_in (cfg : Limits) (t : Ticket) (is_ip : bool) (threshold : f64)
  (now : Instant) (tb : Table) (k : IpAddr) : Table :=
  match table_get tb k with
  | Some e => table_put tb k (release_entry cfg t is_ip threshold now e)
  | None => tb
  end.

(** The metric updates at the start of [drop]. *)
Definition drop_metrics (t : Ticket) (m : Metrics) : Metrics :=
  let m := if ticket_churn t then Metrics_inc m 22 else m in
  if negb (t_handshake t) then Metrics_inc m 13 else m.

Definition drop_ip (l : Limiter) (t : Ticket) (now : Instant) : Limiter :=
  let l := with_metrics l (drop_metrics t (l_metrics l)) in
  with_ip l (release_in (l_cfg l) t true (churn_score_threshold (l_cfg l)) now (l_ip l) (t_ip t)).
Definition drop_prefix (l : Limiter) (t : Ticket) (now : Instant) : Limiter :=
  with_prefix l (release_in (l_cfg l) t false (churn_prefix_score_threshold (l_cfg l)) now
    (l_prefix l) (t_prefix t)).

Definition Ticket_drop (l : Limiter) (t : Ticket) (now : Instant) : Limiter :=
  drop_prefix (drop_ip l t now) t now.
End Drop.

(** ** Idle sweep *)

Definition sweep_keep (cfg : Limits) (now : Instant) (e : Entry) : bool :=
  (0 <? e_active e) || (now <? e_penalty_until e) ||
  (as_secs (saturating_duration_since now (e_touched e)) <? idle_entry_seconds cfg).

(** One table's [retain], with the gauge decremented once per removed entry. *)
Definition sweep_table (cfg : Limits) (now : Instant) (shard : nat) (t : Table) (gauge : nat)
  (m : Metrics) : Table * Metrics :=
  let i := (shard mod Z.to_nat SHARDS)%nat in
  let old := shard_map t i in
  let kept := filter (fun kv => sweep_keep cfg now (snd kv) = true) old in
  (set_shard t i kept, Nat.iter (size old - size kept) (fun m => Metrics_dec m gauge) m).

Definition sweep_ip (l : Limiter) (shard : nat) (now : Instant) : Limiter :=
  let '(t, m) := sweep_table (l_cfg l) now shard (l_ip l) 32 (l_metrics l) in
  with_metrics (with_ip l t) m.
Definition sweep_prefix (l : Limiter) (shard : nat) (now : Instant) : Limiter :=
  let '(t, m) := sweep_table (l_cfg l) now shard (l_prefix l) 33 (l_metrics l) in
  with_metrics (with_prefix l t) m.
Definition Limiter_sweep (l : Limiter) (shard : nat) (now : Instant) : Limiter :=
  sweep_prefix (sweep_ip l shard now) shard now.
