(* ===== verification/LimiterFacts.v ===== *)
(** * Facts about the limiter's components

    Token buckets over binary64 numbers, identity entries and sharded tables: the lemmas the
    properties of the limiter and of the concurrent system are proved from. *)
From S2P Require Import Prelude Machine Float64 Metrics Net Config Limiter.
From stdpp Require Import base option list gmap.
From Stdlib Require Import ZArith Lia SpecFloat.
Local Open Scope Z_scope.

(** ** Token buckets *)

(** A multiplier the validated configuration allows. *)
Definition factor_ok (f : f64) : Prop := positive_finite f /\ val f <= unit64.

(** A bucket is disabled, or holds between zero and [burst] tokens. *)
Definition bucket_ok (b : Bucket) : Prop :=
  f64_eqb (per_second (rate b)) f64_zero = true \/
  enabled_rate (rate b) /\ nonneg (tokens b) /\ is_finite (tokens b) = true /\
  val (tokens b) <= val (burst (rate b)).

(** The rate of a configured bucket: disabled, or enabled within the validated bounds. *)
Definition rate_ok (r : Rate) : Prop :=
  f64_eqb (per_second r) f64_zero = true \/ enabled_rate r.

Lemma Rate_valid_ok (r : Rate) : rate_wf r -> Rate_valid r = true -> rate_ok r.
Proof.
  intros Hw Hv. destruct (f64_eqb (per_second r) f64_zero) eqn:E; [now left | right].
  now apply Rate_valid_enabled.
Qed.

Lemma Bucket_new_ok (r : Rate) (now : Instant) : rate_ok r -> bucket_ok (Bucket_new r now).
Proof.
  intros [H | H]; [now left | right]. cbn. split_and!; try apply H. lia.
Qed.

Lemma positive_not_zero (x : f64) : positive_finite x -> f64_eqb x f64_zero = false.
Proof.
  intros H. destruct (positive_finite_cases x H) as (m & e & -> & _). done.
Qed.

(** The cap a bucket refills to. *)
Definition bucket_cap (r : Rate) (factor : f64) (preserve : bool) : f64 :=
  f64_max (f64_mul (burst r) (if preserve then f64_one else factor)) f64_one.

(** The amount a bucket gains when read at [now]. *)
Definition bucket_refill (b : Bucket) (now : Instant) (factor : f64) : f64 :=
  f64_mul (f64_mul (as_secs_f64 (saturating_duration_since now (b_last b))) (per_second (rate b))) factor.

Lemma f64_one_factor : factor_ok f64_one.
Proof. split; [done |]. rewrite val_one. lia. Qed.

Lemma bucket_cap_ok (r : Rate) (factor : f64) (preserve : bool) :
  enabled_rate r -> factor_ok factor ->
  let cap := bucket_cap r factor preserve in
  nonneg cap /\ is_finite cap = true /\ unit64 <= val cap <= val (burst r) /\
  (preserve = true -> val cap = val (burst r)).
Proof.
  intros (Hp & Hb & Fb & Lo & Hi) [Hf Hle]. cbn. unfold bucket_cap.
  set (f := if preserve then f64_one else factor).
  assert (Ff : factor_ok f) by (destruct preserve; [apply f64_one_factor | now split]).
  destruct Ff as [Ff Fle].
  destruct (f64_mul_le (burst r) f Hb Fb Ff Fle) as [Fm Vm].
  pose proof (f64_mul_nonneg (burst r) f Hb Ff) as Nm.
  destruct (f64_max_one_nonneg (f64_mul (burst r) f) Nm) as (Nc & _ & X).
  destruct (X Fm) as [Fc Vc]. split_and!; auto; try lia.
  intros ->. destruct (f64_mul_one (burst r) Hb Fb) as [_ V1]. subst f. cbv iota in Vc. lia.
Qed.

Lemma bucket_refill_nonneg (b : Bucket) (now : Instant) (factor : f64) :
  enabled_rate (rate b) -> factor_ok factor -> nonneg (bucket_refill b now factor).
Proof.
  intros (Hp & _) [Hf _]. unfold bucket_refill.
  apply f64_mul_nonneg; [apply f64_mul_nonneg |]; auto with gate.
Qed.

(** What [available] leaves in an enabled bucket: the refilled tokens, capped. *)
Lemma Bucket_available_spec (b : Bucket) (now : Instant) (factor : f64) (preserve : bool) :
  enabled_rate (rate b) ->
  Bucket_available b now factor preserve =
  let t := f64_min (f64_add (tokens b) (bucket_refill b now factor))
             (bucket_cap (rate b) factor preserve) in
  (f64_leb f64_one t, mkBucket t (Z.max (b_last b) now) (rate b)).
Proof.
  intros [Hp _]. unfold Bucket_available. now rewrite positive_not_zero.
Qed.

Lemma Bucket_available_disabled (b : Bucket) (now : Instant) (factor : f64) (preserve : bool) :
  f64_eqb (per_second (rate b)) f64_zero = true ->
  Bucket_available b now factor preserve = (true, b).
Proof. intros H. unfold Bucket_available. now rewrite H. Qed.

Lemma Bucket_available_rate (b : Bucket) (now : Instant) (factor : f64) (preserve : bool) :
  rate (snd (Bucket_available b now factor preserve)) = rate b.
Proof. unfold Bucket_available. now destruct (f64_eqb _ _). Qed.

(** Reading a bucket keeps it well-formed, never exceeds the burst, and its answer says whether
    a whole token is there. *)
Lemma Bucket_available_ok (b : Bucket) (now : Instant) (factor : f64) (preserve : bool) :
  bucket_ok b -> factor_ok factor ->
  let '(ok, b') := Bucket_available b now factor preserve in
  bucket_ok b' /\
  (enabled_rate (rate b) -> ok = true <-> unit64 <= val (tokens b')) /\
  (enabled_rate (rate b) ->
   Z.min (val (tokens b)) (val (bucket_cap (rate b) factor preserve)) <= val (tokens b') <=
   val (bucket_cap (rate b) factor preserve)).
Proof.
  intros [Hd | (He & Hn & Hf & Hle)] Hfac.
  { rewrite Bucket_available_disabled by done. split; [now left |].
    split; intros (Hp & _); now rewrite positive_not_zero in Hd. }
  rewrite Bucket_available_spec by done. cbv zeta beta.
  pose proof (bucket_refill_nonneg b now factor He Hfac) as Hr.
  destruct (bucket_cap_ok (rate b) factor preserve He Hfac) as (Nc & Fc & Vc & _).
  pose proof (f64_add_nonneg _ _ Hn Hr) as Na.
  destruct (f64_min_nonneg _ _ Na Nc Fc) as (Nm & Fm & Lm & V1 & V2).
  set (cap := bucket_cap _ _ _) in *. set (t := f64_min _ _) in *.
  apply leb_val in Lm; auto. cbn [tokens rate].
  split; [right; split_and!; auto; cbn [tokens rate]; lia |]. split; intros _.
  - rewrite <- val_one. apply leb_val; auto using f64_one_nonneg.
  - split; [| lia]. destruct (is_finite (f64_add (tokens b) (bucket_refill b now factor))) eqn:Fa.
    + rewrite (V1 eq_refl). pose proof (f64_add_lower _ _ Hn Hr Hf Fa). lia.
    + rewrite (V2 eq_refl). lia.
Qed.

(** Consuming a whole token is exact. *)
Lemma Bucket_consume_ok (b : Bucket) :
  bucket_ok b -> (enabled_rate (rate b) -> unit64 <= val (tokens b)) ->
  bucket_ok (Bucket_consume b) /\
  (enabled_rate (rate b) -> val (tokens (Bucket_consume b)) = val (tokens b) - unit64).
Proof.
  intros [Hd | (He & Hn & Hf & Hle)] Hone.
  { assert (Bucket_consume b = b) as ->.
    { unfold Bucket_consume. destruct (f64_ltb f64_zero _) eqn:E; [| done]. exfalso.
      unfold f64_eqb, SFeqb in Hd. unfold f64_ltb, SFltb in E.
      destruct (per_second (rate b)) as [| [] | | [] ? ?]; discriminate. }
    split; [now left |]. intros (Hp & _). now rewrite positive_not_zero in Hd. }
  specialize (Hone He). unfold Bucket_consume.
  pose proof (proj1 He) as (-> & _).
  pose proof He as (_ & Nb & Fb & Lo & Hi).
  assert (val (tokens b) <= 2 ^ 53 * unit64) as H53.
  { apply Z.le_trans with (val (burst (rate b))); [done |].
    apply Z.le_trans with (1000000000 * unit64); [done |].
    apply Z.mul_le_mono_nonneg_r; [done | lia]. }
  destruct (f64_sub_one_exact (tokens b) Hn Hf) as (N & F & V); auto.
  { apply leb_val; auto using f64_one_nonneg. }
  split; [right; split_and!; auto; cbn [tokens rate] | done].
  rewrite V. pose proof (nonneg_val _ f64_one_nonneg) as H1. rewrite val_one in H1. lia.
Qed.

(** With no time passing nothing is added: a reading at or before [last] leaves at most what was
    there. *)
Lemma bucket_refill_reversed (b : Bucket) (now : Instant) (factor : f64) :
  enabled_rate (rate b) -> factor_ok factor -> now <= b_last b ->
  exists s, bucket_refill b now factor = S754_zero s.
Proof.
  intros (Hp & _) [Hf _] Hnow. unfold bucket_refill.
  rewrite saturating_duration_reversed by done.
  destruct (positive_finite_cases _ Hp) as (m & e & -> & _).
  destruct (positive_finite_cases _ Hf) as (m' & e' & -> & _).
  change (as_secs_f64 0) with (S754_zero false). eauto.
Qed.

(** ** Sharded tables *)

(** The shape every table of the limiter keeps: 64 shards, every key in the shard its hash
    selects, no shard above its capacity. *)
Record table_wf (t : Table) : Prop := {
  wf_length : length (shards t) = Z.to_nat SHARDS;
  wf_home : forall i k e, shard_map t i !! k = Some e -> Table_shard t k = i;
  wf_capacity : forall i, Z.of_nat (size (shard_map t i)) <= Z.max 0 (capacity t) }.

Definition table_size (t : Table) : nat := sum_list_with size (shards t).

Lemma Table_shard_lt (t : Table) (k : IpAddr) : (Table_shard t k < Z.to_nat SHARDS)%nat.
Proof.
  unfold Table_shard, SHARDS. pose proof (Z.mod_pos_bound (wrap 64 (hash t k)) 64). lia.
Qed.

Lemma sum_list_insert {A : Type} (f : A -> nat) (l : list A) (i : nat) (x y : A) :
  l !! i = Some y ->
  (sum_list_with f (<[i := x]> l) + f y = sum_list_with f l + f x)%nat.
Proof.
  revert i. induction l as [| a l IH]; intros [| i] H; try discriminate; simpl in *.
  - injection H as ->. lia.
  - specialize (IH i H). lia.
Qed.

Lemma shard_map_set (t : Table) (i j : nat) (m : gmap IpAddr Entry) :
  (i < length (shards t))%nat ->
  shard_map (set_shard t i m) j = if decide (i = j) then m else shard_map t j.
Proof.
  intros H. unfold shard_map, set_shard. cbn [shards]. case_decide as E.
  - subst. now rewrite list_lookup_insert_eq.
  - now rewrite list_lookup_insert_ne.
Qed.

Lemma table_size_set (t : Table) (i : nat) (m : gmap IpAddr Entry) :
  (i < length (shards t))%nat ->
  (table_size (set_shard t i m) + size (shard_map t i) = table_size t + size m)%nat.
Proof.
  intros H. unfold table_size, set_shard, shard_map. cbn [shards].
  apply lookup_lt_is_Some in H as [y Hy]. rewrite Hy. now apply sum_list_insert.
Qed.

Lemma table_wf_shard_lt (t : Table) (k : IpAddr) :
  table_wf t -> (Table_shard t k < length (shards t))%nat.
Proof. intros H. rewrite wf_length by done. apply Table_shard_lt. Qed.

Lemma table_get_put (t : Table) (k k' : IpAddr) (e : Entry) :
  table_wf t ->
  table_get (table_put t k e) k' = if decide (k = k') then Some e else table_get t k'.
Proof.
  intros H. unfold table_get, table_put.
  change (Table_shard (set_shard t (Table_shard t k) (<[k := e]> (shard_map t (Table_shard t k)))) k')
    with (Table_shard t k').
  rewrite shard_map_set by now apply table_wf_shard_lt.
  destruct (decide (k = k')) as [-> | Hne].
  - rewrite decide_True by done. apply lookup_insert_eq.
  - case_decide as E; [rewrite E; now apply lookup_insert_ne | done].
Qed.

(** Storing keeps the table well-formed when the key is known or its shard has room. *)
Lemma table_put_wf (t : Table) (k : IpAddr) (e : Entry) :
  table_wf t -> table_full t k = false -> table_wf (table_put t k e).
Proof.
  intros H Hfull. pose proof (table_wf_shard_lt t k H) as Hlt.
  split.
  - unfold table_put, set_shard. cbn [shards]. rewrite length_insert. now apply wf_length.
  - intros i k' e'. unfold table_put. rewrite shard_map_set by done.
    case_decide as E; [subst i | now apply (wf_home t H)].
    destruct (decide (k = k')) as [-> | Hne]; [done |].
    rewrite lookup_insert_ne by done. apply (wf_home t H).
  - intros i. unfold table_put. rewrite shard_map_set by done.
    change (capacity (set_shard _ _ _)) with (capacity t).
    case_decide as E; [subst i | now apply wf_capacity].
    unfold table_full, is_new, table_get in Hfull.
    destruct (shard_map t (Table_shard t k) !! k) as [e0 |] eqn:E0.
    + rewrite map_size_insert_Some by eauto. now apply wf_capacity.
    + rewrite map_size_insert_None by done. breflect. cbn in Hfull.
      apply Z.leb_gt in Hfull. lia.
Qed.

Lemma table_put_full_existing (t : Table) (k : IpAddr) (e : Entry) :
  table_get t k = Some e -> table_full t k = false.
Proof. intros H. unfold table_full, is_new. now rewrite H. Qed.

Lemma table_size_put (t : Table) (k : IpAddr) (e : Entry) :
  table_wf t ->
  table_size (table_put t k e) = (table_size t + if is_new t k then 1 else 0)%nat.
Proof.
  intros H. pose proof (table_wf_shard_lt t k H) as Hlt. unfold table_put.
  pose proof (table_size_set t (Table_shard t k) (<[k := e]> (shard_map t (Table_shard t k))) Hlt) as S.
  unfold is_new, table_get. destruct (shard_map t (Table_shard t k) !! k) as [e0 |] eqn:E0.
  - rewrite map_size_insert_Some in S by eauto. lia.
  - rewrite map_size_insert_None in S by done. lia.
Qed.

Lemma Table_new_wf (h : IpAddr -> Z) (cap : Z) : table_wf (Table_new h cap).
Proof.
  assert (E : forall i, shard_map (Table_new h cap) i = ∅).
  { intros i. unfold shard_map, Table_new. cbn [shards].
    destruct (replicate _ _ !! i) eqn:E; [| done]. now apply lookup_replicate in E as [-> _]. }
  split.
  - unfold Table_new. cbn [shards]. apply length_replicate.
  - intros i k e. rewrite E. now rewrite lookup_empty.
  - intros i. rewrite E, map_size_empty. lia.
Qed.

Lemma table_size_new (h : IpAddr -> Z) (cap : Z) : table_size (Table_new h cap) = 0%nat.
Proof. unfold table_size, Table_new. cbn [shards]. now vm_compute. Qed.

(** The number of entries never exceeds the configured total. *)
Lemma table_size_bound (t : Table) :
  table_wf t -> 0 <= capacity t -> Z.of_nat (table_size t) <= SHARDS * capacity t.
Proof.
  intros H Hc. rewrite <- (Z2Nat.id SHARDS), <- (wf_length t H) by (unfold SHARDS; lia).
  assert (B : Forall (fun m : gmap IpAddr Entry => Z.of_nat (size m) <= capacity t) (shards t)).
  { apply Forall_lookup. intros i m Hi. pose proof (wf_capacity t H i) as Hi'.
    unfold shard_map in Hi'. rewrite Hi in Hi'. cbn in Hi'. lia. }
  unfold table_size. induction B as [| m l Hm Hl IH]; cbn [sum_list_with length]; lia.
Qed.

(** ** The sweep *)

Definition swept (cfg : Limits) (now : Instant) (shard : nat) (t : Table) : Table :=
  fst (sweep_table cfg now shard t 0 (mkMetrics [])).

Lemma sweep_table_fst (cfg : Limits) (now : Instant) (shard g : nat) (t : Table) (m : Metrics) :
  fst (sweep_table cfg now shard t g m) = swept cfg now shard t.
Proof. reflexivity. Qed.

Lemma sweep_shard_lt (t : Table) (shard : nat) :
  table_wf t -> (shard mod Z.to_nat SHARDS < length (shards t))%nat.
Proof. intros H. rewrite wf_length by done. apply Nat.mod_upper_bound. unfold SHARDS. lia. Qed.

(** A sweep only removes entries, and only those it may not keep. *)
Lemma table_get_swept (cfg : Limits) (now : Instant) (shard : nat) (t : Table) (k : IpAddr) :
  table_wf t ->
  table_get (swept cfg now shard t) k =
  match table_get t k with
  | Some e => if decide ((shard mod Z.to_nat SHARDS)%nat = Table_shard t k /\
                         sweep_keep cfg now e = false) then None else Some e
  | None => None
  end.
Proof.
  intros H. unfold table_get, swept, sweep_table. cbn [fst].
  set (i := (shard mod Z.to_nat SHARDS)%nat).
  change (Table_shard (set_shard t i _) k) with (Table_shard t k).
  rewrite shard_map_set by now apply sweep_shard_lt.
  case_decide as E.
  - rewrite E. rewrite map_lookup_filter.
    destruct (shard_map t (Table_shard t k) !! k) as [e |] eqn:Ek; [| done]. cbn.
    destruct (sweep_keep cfg now e) eqn:Kp.
    + rewrite decide_False by (intros [_ ?]; discriminate). now rewrite option_guard_True.
    + rewrite decide_True by done. now rewrite option_guard_False.
  - destruct (shard_map t (Table_shard t k) !! k); [| done]. rewrite decide_False; tauto.
Qed.

Lemma swept_wf (cfg : Limits) (now : Instant) (shard : nat) (t : Table) :
  table_wf t -> table_wf (swept cfg now shard t).
Proof.
  intros H. unfold swept, sweep_table. cbn [fst].
  set (i := (shard mod Z.to_nat SHARDS)%nat).
  assert (Hi : (i < length (shards t))%nat) by now apply sweep_shard_lt.
  split.
  - unfold set_shard. cbn [shards]. rewrite length_insert. now apply wf_length.
  - intros j k e. rewrite shard_map_set by done. case_decide as E.
    + subst j. intros [Hk _]%map_lookup_filter_Some. now apply (wf_home t H) in Hk.
    + apply (wf_home t H).
  - intros j. rewrite shard_map_set by done. change (capacity (set_shard t i _)) with (capacity t).
    case_decide as E; [subst j | now apply wf_capacity].
    pose proof (wf_capacity t H i).
    pose proof (map_subseteq_size _ _ (map_filter_subseteq
      (fun kv => sweep_keep cfg now (snd kv) = true) (shard_map t i))). lia.
Qed.

Lemma table_size_swept (cfg : Limits) (now : Instant) (shard : nat) (t : Table) :
  table_wf t ->
  let i := (shard mod Z.to_nat SHARDS)%nat in
  let kept := filter (fun kv => sweep_keep cfg now (snd kv) = true) (shard_map t i) in
  (table_size (swept cfg now shard t) + (size (shard_map t i) - size kept) = table_size t)%nat.
Proof.
  intros H i kept. unfold swept, sweep_table. cbn [fst]. fold i. fold kept.
  pose proof (table_size_set t i kept (sweep_shard_lt t shard H)) as S.
  pose proof (map_subseteq_size _ _ (map_filter_subseteq
    (fun kv => sweep_keep cfg now (snd kv) = true) (shard_map t i))).
  fold kept in H0. lia.
Qed.
