(* ===== verification/LimiterSystem.v ===== *)
(** * The limiter under concurrent connections

    The world holds the limiter and the live tickets. A step is one critical section of
    [gate/src/limiter.rs]: [accept] and [event] hold the IP and prefix shard locks throughout and
    are single steps; [mark_admitted], [Drop for Ticket] and [sweep] lock the two tables one after
    the other and are two steps each, between which any other connection may run. Clock readings
    are arbitrary. *)
From S2P Require Import Prelude Machine Float64 Metrics Net Config Limiter LimiterFacts.
From stdpp Require Import base option list gmap relations.
From Stdlib Require Import ZArith Lia SpecFloat.
Local Open Scope Z_scope.

(** ** Worlds *)

(** Where a ticket is between the two halves of an operation that locks both tables. *)
Inductive Phase : Type :=
| Idle
| AdmittedIp
| DroppedIp (now : Instant).

Record Cell : Type := mkCell { c_ticket : Ticket; c_phase : Phase }.

Record World : Type := mkWorld { w_lim : Limiter; w_live : gmap nat Cell }.

(** The public flags a connection handler sets on its own ticket. *)
Definition set_flags (t : Ticket) (hs complete rejected : bool) : Ticket :=
  mkTicket (t_ip t) (t_prefix t) hs (t_admitted t) complete rejected (t_status t).

(** Other components only touch other counters of the shared registry. *)
Definition foreign_metrics (m m' : Metrics) : Prop :=
  length (values m') = length (values m) /\
  Metrics_get m' 32 = Metrics_get m 32 /\ Metrics_get m' 33 = Metrics_get m 33.

Section System.
Variable powf : f64 -> f64 -> f64.
(** The socket permits: every ticket is owned by a task that holds one. *)
Variable permits : Z.

Inductive step (w : World) : World -> Prop :=
| step_admit tid ip p now t l :
    w_live w !! tid = None -> Z.of_nat (size (w_live w)) < permits ->
    Limiter_accept (w_lim w) ip p now = Some (Some t, l) ->
    step w (mkWorld l (<[tid := mkCell t Idle]> (w_live w)))
| step_refuse ip p now l :
    Limiter_accept (w_lim w) ip p now = Some (None, l) ->
    step w (mkWorld l (w_live w))
| step_event tid t ev p now b l :
    w_live w !! tid = Some (mkCell t Idle) ->
    Limiter_event (w_lim w) t ev p now = Some (b, l) ->
    step w (mkWorld l (w_live w))
| step_flags tid t hs complete rejected :
    w_live w !! tid = Some (mkCell t Idle) ->
    step w (mkWorld (w_lim w)
      (<[tid := mkCell (set_flags t hs complete rejected) Idle]> (w_live w)))
| step_status tid t b t' l :
    w_live w !! tid = Some (mkCell t Idle) ->
    Ticket_enter_status (w_lim w) t = (b, t', l) ->
    step w (mkWorld l (<[tid := mkCell t' Idle]> (w_live w)))
| step_admit_ip tid t :
    w_live w !! tid = Some (mkCell t Idle) -> t_admitted t = false ->
    step w (mkWorld (with_ip (w_lim w) (release_pending (l_ip (w_lim w)) (t_ip t)))
      (<[tid := mkCell t AdmittedIp]> (w_live w)))
| step_admit_prefix tid t :
    w_live w !! tid = Some (mkCell t AdmittedIp) ->
    step w (mkWorld (with_prefix (w_lim w) (release_pending (l_prefix (w_lim w)) (t_prefix t)))
      (<[tid := mkCell (set_ticket_admitted t) Idle]> (w_live w)))
| step_drop_ip tid t now :
    w_live w !! tid = Some (mkCell t Idle) ->
    step w (mkWorld (drop_ip powf (w_lim w) t now)
      (<[tid := mkCell t (DroppedIp now)]> (w_live w)))
| step_drop_prefix tid t now :
    w_live w !! tid = Some (mkCell t (DroppedIp now)) ->
    step w (mkWorld (drop_prefix powf (w_lim w) t now) (delete tid (w_live w)))
| step_sweep_ip shard now :
    step w (mkWorld (sweep_ip (w_lim w) shard now) (w_live w))
| step_sweep_prefix shard now :
    step w (mkWorld (sweep_prefix (w_lim w) shard now) (w_live w))
| step_metrics m :
    foreign_metrics (l_metrics (w_lim w)) m ->
    step w (mkWorld (with_metrics (w_lim w) m) (w_live w)).

(** A freshly started gate. *)
Definition initial (cfg : Limits) (w : World) : Prop :=
  exists hip hprefix now,
    w = mkWorld (Limiter_new hip hprefix cfg Metrics_new now) ∅.

Definition reachable (cfg : Limits) (w : World) : Prop :=
  exists w0, initial cfg w0 /\ rtc step w0 w.
End System.
