(* ===== verification/LimiterEffects.v ===== *)
(** * What each limiter operation may change

    For every operation of [Limiter.v], its effect on the occupancy counters of the identity
    tables, on the buckets and on the two table gauges. The invariants of the concurrent system
    are proved from these lemmas only. *)
From S2P Require Import Prelude Machine Float64 Metrics Net Config Limiter LimiterFacts.
From S2P Require Import LimiterSystem.
From stdpp Require Import base option list gmap relations.
From Stdlib Require Import ZArith Lia SpecFloat.
Local Open Scope Z_scope.

(** ** Occupancy counters *)

Definition counts (e : Entry) : Z * Z * Z := (e_active e, e_pending e, e_status e).

(** The counters of a key; an absent identity counts as zero. *)
Definition tcounts (t : Table) (k : IpAddr) : Z * Z * Z :=
  match table_get t k with Some e => counts e | None => (0, 0, 0) end.

Definition entry_ok (e : Entry) : Prop := quad_all bucket_ok (e_buckets e).

Lemma counts_set_touched (e : Entry) (now : Instant) : counts (set_touched e now) = counts e.
Proof. reflexivity. Qed.

Lemma counts_entry_consume (e : Entry) (ev : Event) : counts (entry_consume e ev) = counts e.
Proof. reflexivity. Qed.

Lemma counts_entry_or_new (t : Table) (k : IpAddr) (r : Rates) (now : Instant) :
  counts (entry_or_new t k r now) = tcounts t k.
Proof. unfold entry_or_new, tcounts. now destruct (table_get t k). Qed.

Lemma tcounts_put (t : Table) (k k' : IpAddr) (e : Entry) :
  table_wf t -> tcounts (table_put t k e) k' = if decide (k = k') then counts e else tcounts t k'.
Proof. intros H. unfold tcounts. rewrite table_get_put by done. now case_decide. Qed.

(** ** Buckets of an entry *)

Lemma entry_available_effect (e : Entry) (ev : Event) (now : Instant) (f : f64) (pb : bool) :
  entry_ok e -> factor_ok f ->
  let '(ok, e') := entry_available e ev now f pb in
  counts e' = counts e /\ entry_ok e' /\ e_penalty_until e' = e_penalty_until e /\
  (ok = true -> entry_ok (entry_consume e' ev)).
Proof.
  intros He Hf. unfold entry_available.
  pose proof (Bucket_available_ok (quad_get (e_buckets e) ev) now f pb (He ev) Hf) as H.
  pose proof (Bucket_available_rate (quad_get (e_buckets e) ev) now f pb) as Hr.
  destruct (Bucket_available _ _ _ _) as [ok b]. destruct H as (Hb & Hok & _). cbn [snd] in Hr.
  split_and!; [done | | done |].
  - unfold entry_ok. cbn [set_bucket e_buckets]. now apply quad_all_set.
  - intros [Ho _]%andb_true_iff. unfold entry_ok, entry_consume. cbn [set_bucket e_buckets].
    apply quad_all_set; [now apply quad_all_set |]. rewrite quad_get_set_eq.
    apply Bucket_consume_ok; [done |]. rewrite Hr. intros He'. now apply Hok.
Qed.

Lemma Entry_new_ok (r : Rates) (now : Instant) :
  quad_all rate_ok (Rates_list r) -> entry_ok (Entry_new r now).
Proof.
  intros H ev. cbn [Entry_new e_buckets]. rewrite quad_get_map. now apply Bucket_new_ok.
Qed.

(** ** Metric updates outside the table gauges *)

Lemma foreign_refl (m : Metrics) : foreign_metrics m m.
Proof. done. Qed.

Lemma foreign_trans (a b c : Metrics) :
  foreign_metrics a b -> foreign_metrics b c -> foreign_metrics a c.
Proof. intros (? & ? & ?) (? & ? & ?). split_and!; congruence. Qed.

Lemma foreign_inc (m : Metrics) (n : nat) :
  n <> 32%nat -> n <> 33%nat -> foreign_metrics m (Metrics_inc m n).
Proof.
  intros H1 H2. split_and!; [apply Metrics_inc_length | now apply Metrics_get_inc_ne ..].
Qed.

Lemma foreign_inc_mono (m m' : Metrics) (n : nat) :
  foreign_metrics m m' -> foreign_metrics (Metrics_inc m n) (Metrics_inc m' n).
Proof.
  intros (L & A & B).
  split_and!; [now rewrite !Metrics_inc_length | |];
    unfold Metrics_inc; rewrite !Metrics_get_add, L, ?A, ?B; done.
Qed.

Lemma foreign_judged (m : Metrics) (a : bool) (r : nat) (p : Policy) :
  (r = 14 \/ r = 15 \/ r = 16)%nat -> foreign_metrics m (snd (judged m a r p)).
Proof.
  intros H. unfold judged. destruct (a || exempt p); [apply foreign_refl |].
  destruct (observe p); cbn [snd]; apply foreign_inc; lia.
Qed.

#[export] Hint Resolve foreign_refl foreign_inc foreign_inc_mono : gate.

(** The gauge updates of an admission. *)
Definition gauge_bump (new_ip new_prefix : bool) (m : Metrics) : Metrics :=
  let m := if new_ip then Metrics_inc m 32 else m in
  if new_prefix then Metrics_inc m 33 else m.

Lemma foreign_bump (ni np : bool) (m m' : Metrics) :
  foreign_metrics m m' ->
  foreign_metrics (gauge_bump ni np m)
    (let m := if ni then Metrics_inc (Metrics_inc m' 28) 32 else m' in
     if np then Metrics_inc (Metrics_inc m 29) 33 else m).
Proof.
  intros H. unfold gauge_bump.
  assert (A : foreign_metrics (if ni then Metrics_inc m 32 else m)
                (if ni then Metrics_inc (Metrics_inc m' 28) 32 else m')).
  { destruct ni; [| done]. apply foreign_inc_mono.
    eapply foreign_trans; [exact H | apply foreign_inc; lia]. }
  destruct np; [| done]. apply foreign_inc_mono.
  eapply foreign_trans; [exact A | apply foreign_inc; lia].
Qed.

(** ** Limiters *)

(** What the validated configuration gives the limiter. *)
Record cfg_ok (cfg : Limits) : Prop := {
  co_ip_entries : 64 <= ip_entries cfg <= 1000000;
  co_prefix_entries : 64 <= prefix_entries cfg <= 1000000;
  co_ip_rates : quad_all rate_ok (Rates_list (ip_rates cfg));
  co_prefix_rates : quad_all rate_ok (Rates_list (prefix_rates cfg));
  co_global_rates : quad_all rate_ok (Rates_list (global_rates cfg));
  co_modes : Forall factor_ok (mode_multipliers cfg);
  co_modes_length : length (mode_multipliers cfg) = 4%nat }.

Definition table_ok (t : Table) : Prop :=
  table_wf t /\ forall k e, table_get t k = Some e -> entry_ok e.

Record limiter_ok (l : Limiter) : Prop := {
  lo_ip : table_ok (l_ip l);
  lo_prefix : table_ok (l_prefix l);
  lo_global : quad_all bucket_ok (l_global l) }.

(** A table update that leaves every counter and the set of identities alone. *)
Definition quiet (t t' : Table) : Prop :=
  t' = t \/ exists k e e', table_get t k = Some e /\ counts e' = counts e /\ entry_ok e' /\
                           t' = table_put t k e'.

(** An admission of one more connection under a key. *)
Definition joined (t t' : Table) (k : IpAddr) : Prop :=
  exists e, t' = table_put t k e /\ entry_ok e /\ table_full t k = false /\
    let '(a, p, s) := tcounts t k in counts e = (usize_add a 1, usize_add p 1, s).

Lemma store_existing_quiet (t : Table) (k : IpAddr) (e' : Entry) :
  counts e' = tcounts t k -> entry_ok e' -> quiet t (store_existing t k e').
Proof.
  intros Hc He. unfold store_existing, is_new.
  destruct (table_get t k) as [e |] eqn:E; [right | now left].
  exists k, e, e'. unfold tcounts in Hc. now rewrite E in Hc.
Qed.

Lemma joined_put (t : Table) (k : IpAddr) (e : Entry) :
  table_full t k = false -> entry_ok e -> counts e = tcounts t k ->
  joined t (table_put t k (touch_counts e)) k.
Proof.
  intros Hf He Hc. exists (touch_counts e). split_and!; auto.
  rewrite <- Hc. reflexivity.
Qed.

Lemma entry_or_new_ok (t : Table) (k : IpAddr) (r : Rates) (now : Instant) :
  table_ok t -> quad_all rate_ok (Rates_list r) -> entry_ok (entry_or_new t k r now).
Proof.
  intros [_ H] Hr. unfold entry_or_new. destruct (table_get t k) eqn:E; [eauto |].
  now apply Entry_new_ok.
Qed.

Lemma mode_factor_ok (cfg : Limits) (p : Policy) (f : f64) :
  cfg_ok cfg -> mode_factor cfg p = Some f -> factor_ok f.
Proof.
  intros H. unfold mode_factor. destruct (mode p <? 0); [done |]. intros E.
  eapply Forall_lookup_1; [apply (co_modes _ H) | exact E].
Qed.

Lemma global_consume_ok (q : Quad Bucket) (ev : Event) (now : Instant) (f : f64) (pb : bool) :
  quad_all bucket_ok q -> factor_ok f ->
  let '(ok, b) := Bucket_available (quad_get q ev) now f pb in
  quad_all bucket_ok (quad_set q ev b) /\
  (ok = true -> quad_all bucket_ok (quad_set (quad_set q ev b) ev (Bucket_consume b))).
Proof.
  intros Hq Hf. pose proof (Bucket_available_ok (quad_get q ev) now f pb (Hq ev) Hf) as H.
  pose proof (Bucket_available_rate (quad_get q ev) now f pb) as Hr.
  destruct (Bucket_available _ _ _ _) as [ok b]. destruct H as (Hb & Hok & _). cbn [snd] in Hr.
  split; [now apply quad_all_set |]. intros ->.
  apply quad_all_set; [now apply quad_all_set |].
  apply Bucket_consume_ok; [done |]. rewrite Hr. intros He. now apply Hok.
Qed.

(** ** Admission and events *)

(** The keys an address is accounted under. *)
Definition key_ip (ip0 : IpAddr) : IpAddr := normalize ip0.
Definition key_prefix (cfg : Limits) (ip0 : IpAddr) : IpAddr :=
  subnet (normalize ip0) (ipv4_prefix cfg) (ipv6_prefix cfg).

(** The occupancy limits an admission has checked. *)
Definition below_caps (cfg : Limits) (ci cp : Z * Z * Z) : Prop :=
  reached (connections_ip cfg) (ci.1.1) = false /\ reached (connections_prefix cfg) (cp.1.1) = false /\
  reached (prelogin_ip cfg) (ci.1.2) = false /\ reached (prelogin_prefix cfg) (cp.1.2) = false.

Lemma active_counts (e : Entry) : e_active e = (counts e).1.1.
Proof. reflexivity. Qed.
Lemma pending_counts (e : Entry) : e_pending e = (counts e).1.2.
Proof. reflexivity. Qed.

(** Consuming under a condition that implies availability. *)
Lemma entry_cond_consume (e : Entry) (ev : Event) (ex ok : bool) :
  entry_ok e -> (ok = true -> entry_ok (entry_consume e ev)) ->
  entry_ok (if negb ex && ok then entry_consume e ev else e) /\
  counts (if negb ex && ok then entry_consume e ev else e) = counts e.
Proof. intros H1 H2. destruct ex, ok; cbn; auto. Qed.

(** The effect of a refused admission, and of a granted one. *)
Definition refused (l l' : Limiter) : Prop :=
  quiet (l_ip l) (l_ip l') /\ quiet (l_prefix l) (l_prefix l') /\
  foreign_metrics (l_metrics l) (l_metrics l').

Definition granted (l l' : Limiter) (ip prefix : IpAddr) : Prop :=
  joined (l_ip l) (l_ip l') ip /\ joined (l_prefix l) (l_prefix l') prefix /\
  foreign_metrics
    (gauge_bump (is_new (l_ip l) ip) (is_new (l_prefix l) prefix) (l_metrics l)) (l_metrics l').

Definition accept_outcome (l l' : Limiter) (ip prefix : IpAddr) (r : option Ticket) : Prop :=
  l_cfg l' = l_cfg l /\ quad_all bucket_ok (l_global l') /\
  match r with
  | None => refused l l'
  | Some t => t = mkTicket ip prefix false false false false false /\ granted l l' ip prefix
  end.

Lemma keep_existing_refused (l : Limiter) (ip prefix : IpAddr) (i net : Entry) (g : Quad Bucket)
  (m : Metrics) :
  counts i = tcounts (l_ip l) ip -> entry_ok i ->
  counts net = tcounts (l_prefix l) prefix -> entry_ok net ->
  quad_all bucket_ok g -> foreign_metrics (l_metrics l) m ->
  accept_outcome l (keep_existing l ip prefix i net g m) ip prefix None.
Proof. intros. split; [done |]. split; [done |]. split_and!; try done; now apply store_existing_quiet. Qed.

Lemma accept_tokens_effect (l : Limiter) (ip prefix : IpAddr) (i0 n0 : Entry) (p : Policy)
  (now : Instant) (r : option Ticket) (l' : Limiter) :
  cfg_ok (l_cfg l) -> limiter_ok l ->
  table_full (l_ip l) ip = false -> table_full (l_prefix l) prefix = false ->
  counts i0 = tcounts (l_ip l) ip -> entry_ok i0 ->
  counts n0 = tcounts (l_prefix l) prefix -> entry_ok n0 ->
  accept_tokens l ip prefix i0 n0 p now = Some (r, l') ->
  accept_outcome l l' ip prefix r.
Proof.
  intros Hcfg Hl Fi Fp Ci Oi Cp Op H. unfold accept_tokens in H.
  destruct (mode_factor (l_cfg l) p) as [f |] eqn:Ff; [| discriminate H]. cbn [mbind option_bind] in H.
  pose proof (mode_factor_ok _ _ _ Hcfg Ff) as Hf.
  pose proof (entry_available_effect i0 Connect now f (preserve_burst (l_cfg l)) Oi Hf) as Ai.
  destruct (entry_available i0 _ _ _ _) as [ip_ok i1]. destruct Ai as (Ci1 & Oi1 & _ & Xi).
  pose proof (entry_available_effect n0 Connect now f (preserve_burst (l_cfg l)) Op Hf) as Ap.
  destruct (entry_available n0 _ _ _ _) as [prefix_ok n1]. destruct Ap as (Cp1 & Op1 & _ & Xp).
  rewrite Ci in Ci1. rewrite Cp in Cp1.
  pose proof (foreign_judged (l_metrics l) ip_ok 14 p ltac:(lia)) as J1.
  destruct (judged _ ip_ok _ _) as [[] m1]; cbn [negb snd] in *;
    [| injection H as <- <-; apply keep_existing_refused; auto; apply Hl].
  pose proof (foreign_trans _ _ _ J1 (foreign_judged m1 prefix_ok 15 p ltac:(lia))) as J2.
  destruct (judged m1 _ _ _) as [[] m2]; cbn [negb snd] in *;
    [| injection H as <- <-; apply keep_existing_refused; auto; apply Hl].
  pose proof (global_consume_ok (l_global l) Connect now f (preserve_burst (l_cfg l)) (lo_global l Hl) Hf) as G.
  destruct (Bucket_available _ _ _ _) as [global_ok g]. destruct G as [G1 G2].
  pose proof (foreign_trans _ _ _ J2 (foreign_judged m2 global_ok 16 (no_exempt p) ltac:(lia))) as J3.
  destruct (judged m2 _ _ _) as [[] m3]; cbn [negb snd] in *;
    [| injection H as <- <-; apply keep_existing_refused; auto].
  injection H as <- <-.
  destruct (entry_cond_consume i1 Connect (exempt p) ip_ok Oi1 Xi) as [Oi2 Ci2].
  destruct (entry_cond_consume n1 Connect (exempt p) prefix_ok Op1 Xp) as [Op2 Cp2].
  split; [done |]. split; [cbn [l_global]; destruct global_ok; auto |]. split; [done |].
  split_and!; [apply joined_put; auto; congruence .. | now apply foreign_bump].
Qed.

(** An admission checked the occupancy limits, and changes what [accept_outcome] says. *)
Lemma accept_effect (l : Limiter) (ip0 : IpAddr) (p : Policy) (now : Instant)
  (r : option Ticket) (l' : Limiter) :
  cfg_ok (l_cfg l) -> limiter_ok l ->
  Limiter_accept l ip0 p now = Some (r, l') ->
  let ip := key_ip ip0 in
  let prefix := key_prefix (l_cfg l) ip0 in
  accept_outcome l l' ip prefix r /\
  (r <> None -> below_caps (l_cfg l) (tcounts (l_ip l) ip) (tcounts (l_prefix l) prefix)).
Proof.
  intros Hcfg Hl H ip prefix. unfold Limiter_accept in H. cbv zeta in H.
  fold (key_ip ip0) in H. change (subnet (key_ip ip0) _ _) with prefix in H. fold ip in H.
  destruct (table_full (l_ip l) ip || table_full (l_prefix l) prefix) eqn:Ef.
  { injection H as <- <-. split; [| done]. split; [done |]. split; [apply Hl |].
    split_and!; [now left | now left | apply foreign_inc; lia]. }
  apply orb_false_iff in Ef as [Fi Fp].
  pose proof (entry_or_new_ok (l_ip l) ip (ip_rates (l_cfg l)) now (lo_ip l Hl) (co_ip_rates _ Hcfg)) as Oi.
  pose proof (entry_or_new_ok (l_prefix l) prefix (prefix_rates (l_cfg l)) now
    (lo_prefix l Hl) (co_prefix_rates _ Hcfg)) as Op.
  pose proof (counts_entry_or_new (l_ip l) ip (ip_rates (l_cfg l)) now) as Ci.
  pose proof (counts_entry_or_new (l_prefix l) prefix (prefix_rates (l_cfg l)) now) as Cp.
  rewrite <- (counts_set_touched _ now) in Ci. rewrite <- (counts_set_touched _ now) in Cp.
  set (i0 := set_touched (entry_or_new (l_ip l) ip _ now) now) in *.
  set (n0 := set_touched (entry_or_new (l_prefix l) prefix _ now) now) in *.
  change (entry_ok (entry_or_new (l_ip l) ip _ now)) with (entry_ok i0) in Oi.
  change (entry_ok (entry_or_new (l_prefix l) prefix _ now)) with (entry_ok n0) in Op.
  rewrite !active_counts, !pending_counts, Ci, Cp in H.
  destruct (reached _ _ || reached _ _) eqn:R1 in H.
  { injection H as <- <-. split; [| done].
    apply keep_existing_refused; auto; [apply Hl | apply foreign_inc; lia]. }
  destruct (reached _ _ || reached _ _) eqn:R2 in H.
  { injection H as <- <-. split; [| done].
    apply keep_existing_refused; auto; [apply Hl | eapply foreign_trans; apply foreign_inc; lia]. }
  split; [eapply accept_tokens_effect; eauto |]. intros _.
  apply orb_false_iff in R1 as [? ?], R2 as [? ?]. now split_and!.
Qed.

Lemma put_quiet (t : Table) (k : IpAddr) (e e' : Entry) :
  table_get t k = Some e -> counts e' = counts e -> entry_ok e' -> quiet t (table_put t k e').
Proof. intros. right. exists k, e, e'. auto. Qed.

Lemma event_effect (l : Limiter) (t : Ticket) (ev : Event) (p : Policy) (now : Instant)
  (b : bool) (l' : Limiter) :
  cfg_ok (l_cfg l) -> limiter_ok l -> Limiter_event l t ev p now = Some (b, l') ->
  l_cfg l' = l_cfg l /\ quad_all bucket_ok (l_global l') /\ refused l l'.
Proof.
  intros Hcfg Hl H. unfold Limiter_event in H.
  destruct (mode_factor (l_cfg l) p) as [f |] eqn:Ff; [| discriminate H]. cbn [mbind option_bind] in H.
  pose proof (mode_factor_ok _ _ _ Hcfg Ff) as Hf.
  assert (Same : l_cfg l = l_cfg l /\ quad_all bucket_ok (l_global l) /\ refused l l).
  { split; [done |]. split; [apply Hl |]. split_and!; [now left | now left | done]. }
  destruct (table_get (l_ip l) (t_ip t)) as [i |] eqn:Ei; [| now injection H as <- <-].
  destruct (table_get (l_prefix l) (t_prefix t)) as [n |] eqn:En; [| now injection H as <- <-].
  clear Same. pose proof (proj2 (lo_ip l Hl) _ _ Ei) as Oi. pose proof (proj2 (lo_prefix l Hl) _ _ En) as On.
  pose proof (entry_available_effect (set_touched i now) ev now f (preserve_burst (l_cfg l)) Oi Hf) as Ai.
  destruct (entry_available (set_touched i now) _ _ _ _) as [ip_ok i1].
  destruct Ai as (Ci1 & Oi1 & _ & Xi). rewrite counts_set_touched in Ci1.
  assert (Out : forall i' n' g m, counts i' = counts i -> entry_ok i' -> counts n' = counts n ->
    entry_ok n' -> quad_all bucket_ok g -> foreign_metrics (l_metrics l) m ->
    let l' := mkLimiter (table_put (l_ip l) (t_ip t) i') (table_put (l_prefix l) (t_prefix t) n') g
                (l_cfg l) m in
    l_cfg l' = l_cfg l /\ quad_all bucket_ok (l_global l') /\ refused l l').
  { intros. split; [done |]. split; [done |]. split_and!; try done; eapply put_quiet; eauto. }
  pose proof (foreign_judged (l_metrics l) ip_ok 14 p ltac:(lia)) as J1.
  destruct (judged _ ip_ok _ _) as [[] m1]; cbn [negb snd] in *;
    [| injection H as <- <-; apply Out; auto; apply Hl].
  pose proof (entry_available_effect (set_touched n now) ev now f (preserve_burst (l_cfg l)) On Hf) as An.
  destruct (entry_available (set_touched n now) _ _ _ _) as [prefix_ok n1].
  destruct An as (Cn1 & On1 & _ & Xn). rewrite counts_set_touched in Cn1.
  pose proof (foreign_trans _ _ _ J1 (foreign_judged m1 prefix_ok 15 p ltac:(lia))) as J2.
  destruct (judged m1 _ _ _) as [[] m2]; cbn [negb snd] in *;
    [| injection H as <- <-; apply Out; auto; apply Hl].
  pose proof (global_consume_ok (l_global l) ev now f (preserve_burst (l_cfg l)) (lo_global l Hl) Hf) as G.
  destruct (Bucket_available _ _ _ _) as [global_ok g]. destruct G as [G1 G2].
  pose proof (foreign_trans _ _ _ J2 (foreign_judged m2 global_ok 16 (no_exempt p) ltac:(lia))) as J3.
  destruct (judged m2 _ _ _) as [[] m3]; cbn [negb snd] in *;
    [| injection H as <- <-; apply Out; auto].
  injection H as <- <-.
  destruct (entry_cond_consume i1 ev (exempt p) ip_ok Oi1 Xi) as [Oi2 Ci2].
  destruct (entry_cond_consume n1 ev (exempt p) prefix_ok On1 Xn) as [On2 Cn2].
  apply Out; auto; try congruence. destruct global_ok; auto.
Qed.

(** ** In-place updates of one entry *)

(** [T'] is [T] with the counters of the present key [k] changed by [f]. *)
Definition modified (t t' : Table) (k : IpAddr) (f : Z * Z * Z -> Z * Z * Z) : Prop :=
  exists e e', table_get t k = Some e /\ counts e' = f (counts e) /\ entry_ok e' /\
               t' = table_put t k e'.

Lemma quiet_cases (t t' : Table) : quiet t t' -> t' = t \/ exists k, modified t t' k id.
Proof. intros [-> | (k & e & e' & H)]; [now left | right]. exists k, e, e'. done. Qed.

Lemma modified_table_ok (t t' : Table) (k : IpAddr) (f : Z * Z * Z -> Z * Z * Z) :
  table_ok t -> modified t t' k f ->
  table_ok t' /\ table_size t' = table_size t /\ capacity t' = capacity t /\
  forall k', tcounts t' k' = if decide (k = k') then f (tcounts t k) else tcounts t k'.
Proof.
  intros [W O] (e & e' & G & C & O' & ->).
  split_and!.
  - split; [apply table_put_wf; [done | eapply table_put_full_existing, G] |].
    intros k2 e2. rewrite table_get_put by done. case_decide; [now intros [= <-] | apply O].
  - rewrite table_size_put by done. unfold is_new. rewrite G. lia.
  - done.
  - intros k'. rewrite tcounts_put by done. case_decide; [| done].
    unfold tcounts. now rewrite G.
Qed.

Lemma joined_table_ok (t t' : Table) (k : IpAddr) :
  table_ok t -> joined t t' k ->
  table_ok t' /\ table_size t' = (table_size t + if is_new t k then 1 else 0)%nat /\
  capacity t' = capacity t /\
  forall k', tcounts t' k' = if decide (k = k')
    then let '(a, p, s) := tcounts t k in (usize_add a 1, usize_add p 1, s) else tcounts t k'.
Proof.
  intros [W O] (e & -> & Oe & F & C).
  split_and!.
  - split; [now apply table_put_wf |].
    intros k2 e2. rewrite table_get_put by done. case_decide; [now intros [= <-] | apply O].
  - now apply table_size_put.
  - done.
  - intros k'. rewrite tcounts_put by done. case_decide; [| done].
    now destruct (tcounts t k) as [[a p] s].
Qed.

Definition dec_pending (c : Z * Z * Z) : Z * Z * Z := let '(a, p, s) := c in (a, usize_sub p 1, s).
Definition inc_status (c : Z * Z * Z) : Z * Z * Z := let '(a, p, s) := c in (a, p, usize_add s 1).
Definition dec_all (adm st : bool) (c : Z * Z * Z) : Z * Z * Z :=
  let '(a, p, s) := c in
  (usize_sub a 1, if adm then p else usize_sub p 1, if st then usize_sub s 1 else s).

Lemma release_pending_modified (t : Table) (k : IpAddr) (e : Entry) :
  table_ok t -> table_get t k = Some e -> modified t (release_pending t k) k dec_pending.
Proof.
  intros [_ O] G. unfold release_pending. rewrite G.
  exists e, (set_counts e (e_active e) (usize_sub (e_pending e) 1) (e_status e)).
  split_and!; auto. apply (O _ _ G).
Qed.

Lemma release_entry_effect (powf : f64 -> f64 -> f64) (cfg : Limits) (t : Ticket) (is_ip : bool)
  (th : f64) (now : Instant) (e : Entry) :
  counts (release_entry powf cfg t is_ip th now e) =
    dec_all (t_admitted t) (t_status t && is_ip) (counts e) /\
  e_buckets (release_entry powf cfg t is_ip th now e) = e_buckets e.
Proof.
  unfold release_entry. destruct (t_admitted t), (t_status t && is_ip); cbn [negb];
    destruct (ticket_churn t && f64_ltb f64_zero th); split; reflexivity.
Qed.

Lemma release_in_modified (powf : f64 -> f64 -> f64) (cfg : Limits) (t : Ticket) (is_ip : bool)
  (th : f64) (now : Instant) (tb : Table) (k : IpAddr) (e : Entry) :
  table_ok tb -> table_get tb k = Some e ->
  modified tb (release_in powf cfg t is_ip th now tb k) k (dec_all (t_admitted t) (t_status t && is_ip)).
Proof.
  intros [_ O] G. unfold release_in. rewrite G.
  destruct (release_entry_effect powf cfg t is_ip th now e) as [C B].
  eexists e, _. split_and!; [done | exact C | | reflexivity].
  unfold entry_ok. rewrite B. apply (O _ _ G).
Qed.

Lemma enter_status_effect (l : Limiter) (t t' : Ticket) (b : bool) (l' : Limiter) :
  limiter_ok l -> Ticket_enter_status l t = (b, t', l') ->
  l_cfg l' = l_cfg l /\ l_global l' = l_global l /\ l_prefix l' = l_prefix l /\
  foreign_metrics (l_metrics l) (l_metrics l') /\
  (l_ip l' = l_ip l /\ (t' = t \/ t' = set_ticket_rejected t) \/
   t_status t = false /\ t' = set_ticket_status t true /\
   modified (l_ip l) (l_ip l') (t_ip t) inc_status /\
   reached (status_ip (l_cfg l)) (tcounts (l_ip l) (t_ip t)).2 = false).
Proof.
  intros Hl H. unfold Ticket_enter_status in H.
  destruct (t_status t) eqn:Es; [injection H as <- <- <-; split_and!; auto with gate |].
  destruct (table_get (l_ip l) (t_ip t)) as [e |] eqn:G; [| injection H as <- <- <-; split_and!; auto with gate].
  destruct (reached (status_ip (l_cfg l)) (e_status e)) eqn:R; injection H as <- <- <-.
  - split_and!; auto. eapply foreign_trans; apply foreign_inc; lia.
  - split_and!; auto with gate. right. split_and!; auto.
    + eexists e, _. split_and!; [done | | | reflexivity]; [reflexivity | apply (proj2 (lo_ip l Hl) _ _ G)].
    + unfold tcounts. now rewrite G.
Qed.
