(* ===== verification/LimiterInv.v ===== *)
(** * Invariants of the limiter under concurrency

    The ledger: in every reachable world the counters of an identity are the numbers of live
    tickets it is charged for, so that no decrement underflows and no identity leaks; the
    occupancy limits; the capacity of the tables and their gauges; the token bounds. *)
From S2P Require Import Prelude Machine Float64 Metrics Net Config Limiter LimiterFacts.
From S2P Require Import LimiterSystem LimiterEffects.
From stdpp Require Import base option list gmap relations.
From Stdlib Require Import ZArith Lia SpecFloat.
Local Open Scope Z_scope.

(** ** What a live ticket is charged for *)

Definition dropped (c : Cell) : bool :=
  match c_phase c with DroppedIp _ => true | _ => false end.
Definition cell_ip (c : Cell) : IpAddr := t_ip (c_ticket c).
Definition cell_prefix (c : Cell) : IpAddr := t_prefix (c_ticket c).

(** In the IP table: until the first half of its drop; pending until the first half of
    [mark_admitted]. *)
Definition ip_active (c : Cell) : bool := negb (dropped c).
Definition ip_pending (c : Cell) : bool :=
  match c_phase c with Idle => negb (t_admitted (c_ticket c)) | _ => false end.
Definition ip_status (c : Cell) : bool := negb (dropped c) && t_status (c_ticket c).

(** In the prefix table: as long as it is live; pending until it is marked. *)
Definition prefix_active (c : Cell) : bool := true.
Definition prefix_pending (c : Cell) : bool := negb (t_admitted (c_ticket c)).
Definition prefix_status (c : Cell) : bool := false.

(** The live tickets charged to key [k]. *)
Definition charged (key : Cell -> IpAddr) (k : IpAddr) (f : Cell -> bool) (c : Cell) : bool :=
  bool_decide (key c = k) && f c.

Definition ledger (t : Table) (key : Cell -> IpAddr) (a p s : Cell -> bool)
  (live : gmap nat Cell) : Prop :=
  forall k, tcounts t k =
    (cnt (charged key k a) live, cnt (charged key k p) live, cnt (charged key k s) live).

(** ** Transferring the ledger along a step *)

Lemma charged_update (key : Cell -> IpAddr) (f : Cell -> bool) (live : gmap nat Cell) (tid : nat)
  (c c' : Cell) (k : IpAddr) :
  live !! tid = Some c -> key c' = key c ->
  cnt (charged key k f) (<[tid := c']> live) =
  cnt (charged key k f) live + if decide (key c = k) then Z.b2z (f c') - Z.b2z (f c) else 0.
Proof.
  intros H K. rewrite (cnt_update _ live tid c c' H). unfold charged. rewrite K.
  case_decide; [rewrite bool_decide_true by done | rewrite bool_decide_false by done]; cbn; lia.
Qed.

Lemma charged_insert (key : Cell -> IpAddr) (f : Cell -> bool) (live : gmap nat Cell) (tid : nat)
  (c : Cell) (k : IpAddr) :
  live !! tid = None ->
  cnt (charged key k f) (<[tid := c]> live) =
  cnt (charged key k f) live + if decide (key c = k) then Z.b2z (f c) else 0.
Proof.
  intros H. rewrite (cnt_insert_new _ live tid c H). unfold charged.
  case_decide; [rewrite bool_decide_true by done | rewrite bool_decide_false by done]; cbn; lia.
Qed.

Lemma charged_delete (key : Cell -> IpAddr) (f : Cell -> bool) (live : gmap nat Cell) (tid : nat)
  (c : Cell) (k : IpAddr) :
  live !! tid = Some c ->
  cnt (charged key k f) (delete tid live) =
  cnt (charged key k f) live + if decide (key c = k) then - Z.b2z (f c) else 0.
Proof.
  intros H. rewrite (cnt_delete _ live tid c H). unfold charged.
  case_decide; [rewrite bool_decide_true by done | rewrite bool_decide_false by done]; cbn; lia.
Qed.

Definition shift3 (c : Z * Z * Z) (da dp ds : Z) : Z * Z * Z :=
  let '(a, p, s) := c in (a + da, p + dp, s + ds).

(** The counters of one key move by the same amounts as the live tickets charged to it. *)
Lemma ledger_transfer (t t' : Table) (key : Cell -> IpAddr) (a p s : Cell -> bool)
  (live live' : gmap nat Cell) (k0 : IpAddr) (da dp ds : Z) :
  ledger t key a p s live ->
  (forall k, tcounts t' k = if decide (k0 = k) then shift3 (tcounts t k0) da dp ds else tcounts t k) ->
  (forall k, cnt (charged key k a) live' = cnt (charged key k a) live + if decide (k0 = k) then da else 0) ->
  (forall k, cnt (charged key k p) live' = cnt (charged key k p) live + if decide (k0 = k) then dp else 0) ->
  (forall k, cnt (charged key k s) live' = cnt (charged key k s) live + if decide (k0 = k) then ds else 0) ->
  ledger t' key a p s live'.
Proof.
  intros L HT Ha Hp Hs k. rewrite HT, Ha, Hp, Hs.
  case_decide as E; [subst k0; rewrite L; reflexivity | rewrite L; repeat f_equal; lia].
Qed.

(** A step that does not touch the counters of the table. *)
Lemma ledger_same (t t' : Table) (key : Cell -> IpAddr) (a p s : Cell -> bool) (live : gmap nat Cell) :
  ledger t key a p s live -> (forall k, tcounts t' k = tcounts t k) -> ledger t' key a p s live.
Proof. intros L H k. rewrite H. apply L. Qed.

(** A step that updates one cell and not the table. *)
Lemma ledger_cell (t : Table) (key : Cell -> IpAddr) (a p s : Cell -> bool) (live : gmap nat Cell)
  (tid : nat) (c c' : Cell) :
  ledger t key a p s live -> live !! tid = Some c -> key c' = key c ->
  a c' = a c -> p c' = p c -> s c' = s c -> ledger t key a p s (<[tid := c']> live).
Proof.
  intros L H K Ea Ep Es k. rewrite L.
  rewrite !(charged_update key _ live tid c c' k H K), Ea, Ep, Es, !Z.sub_diag.
  case_decide; now rewrite !Z.add_0_r.
Qed.

(** The counters of a present ticket's key are bounded by the number of live tickets. *)
Lemma ledger_bounds (t : Table) (key : Cell -> IpAddr) (a p s : Cell -> bool) (live : gmap nat Cell)
  (k : IpAddr) :
  ledger t key a p s live ->
  let '(x, y, z) := tcounts t k in
  0 <= x <= Z.of_nat (size live) /\ 0 <= y <= Z.of_nat (size live) /\ 0 <= z <= Z.of_nat (size live).
Proof. intros L. rewrite L. split_and!; apply cnt_le_size. Qed.

(** A live ticket is accounted for. *)
Lemma ledger_present (t : Table) (key : Cell -> IpAddr) (a p s : Cell -> bool) (live : gmap nat Cell)
  (tid : nat) (c : Cell) :
  ledger t key a p s live -> live !! tid = Some c ->
  let '(x, y, z) := tcounts t (key c) in Z.b2z (a c) <= x /\ Z.b2z (p c) <= y /\ Z.b2z (s c) <= z.
Proof.
  intros L H. rewrite L.
  pose proof (cnt_pos (charged key (key c) a) live tid c H) as A.
  pose proof (cnt_pos (charged key (key c) p) live tid c H) as P.
  pose proof (cnt_pos (charged key (key c) s) live tid c H) as S.
  unfold charged in A, P, S at 1. rewrite bool_decide_true in A, P, S by done. auto.
Qed.

Lemma ledger_entry (t : Table) (key : Cell -> IpAddr) (a p s : Cell -> bool) (live : gmap nat Cell)
  (tid : nat) (c : Cell) :
  ledger t key a p s live -> live !! tid = Some c -> a c = true ->
  exists e, table_get t (key c) = Some e.
Proof.
  intros L H Ha. pose proof (ledger_present t key a p s live tid c L H) as P.
  unfold tcounts in P. destruct (table_get t (key c)); [eauto |]. rewrite Ha in P. cbn in P. lia.
Qed.

(** ** The invariant *)

Definition capped (limit count : Z) : Prop := 0 < limit -> count <= limit.
Definition caps (la lp ls : Z) (c : Z * Z * Z) : Prop :=
  capped la c.1.1 /\ capped lp c.1.2 /\ capped ls c.2.

Lemma reached_capped (limit n : Z) :
  0 <= n < 2 ^ 64 - 1 -> reached limit n = false -> capped limit (usize_add n 1).
Proof.
  unfold reached, capped. intros Hn H Hl. rewrite usize_add_exact by lia.
  apply andb_false_iff in H. rewrite Z.ltb_ge, Z.leb_gt in H. lia.
Qed.

Section Invariant.
Context (powf : f64 -> f64 -> f64) (permits : Z) (cfg : Limits).
Context (Hcfg : cfg_ok cfg) (Hpermits : permits < 2 ^ 64 - 1).

Record inv (w : World) : Prop := {
  i_cfg : l_cfg (w_lim w) = cfg;
  i_ok : limiter_ok (w_lim w);
  i_ip : ledger (l_ip (w_lim w)) cell_ip ip_active ip_pending ip_status (w_live w);
  i_prefix : ledger (l_prefix (w_lim w)) cell_prefix prefix_active prefix_pending prefix_status
               (w_live w);
  i_half : forall tid t, w_live w !! tid = Some (mkCell t AdmittedIp) -> t_admitted t = false;
  i_size : Z.of_nat (size (w_live w)) <= Z.max 0 permits;
  i_caps_ip : forall k,
    caps (connections_ip cfg) (prelogin_ip cfg) (status_ip cfg) (tcounts (l_ip (w_lim w)) k);
  i_caps_prefix : forall k,
    caps (connections_prefix cfg) (prelogin_prefix cfg) 0 (tcounts (l_prefix (w_lim w)) k);
  i_capacity_ip : capacity (l_ip (w_lim w)) = ip_entries cfg / SHARDS;
  i_capacity_prefix : capacity (l_prefix (w_lim w)) = prefix_entries cfg / SHARDS;
  i_gauge_ip : Metrics_get (l_metrics (w_lim w)) 32 = Z.of_nat (table_size (l_ip (w_lim w)));
  i_gauge_prefix : Metrics_get (l_metrics (w_lim w)) 33 = Z.of_nat (table_size (l_prefix (w_lim w)));
  i_length : length (values (l_metrics (w_lim w))) = 56%nat }.

(** A table whose identities, counters and capacity a step leaves alone. *)
Definition unchanged (t t' : Table) : Prop :=
  table_ok t' /\ table_size t' = table_size t /\ capacity t' = capacity t /\
  forall k, tcounts t' k = tcounts t k.

Lemma quiet_unchanged (t t' : Table) : table_ok t -> quiet t t' -> unchanged t t'.
Proof.
  intros H [-> | [k M]]%quiet_cases; [done |].
  destruct (modified_table_ok t t' k id H M) as (A & B & C & D).
  split_and!; auto. intros k'. rewrite D. now case_decide; subst.
Qed.

(** A step that changes neither the live tickets' charges nor the tables' counters. *)
Lemma inv_unchanged (w w' : World) :
  inv w ->
  l_cfg (w_lim w') = l_cfg (w_lim w) ->
  quad_all bucket_ok (l_global (w_lim w')) ->
  unchanged (l_ip (w_lim w)) (l_ip (w_lim w')) ->
  unchanged (l_prefix (w_lim w)) (l_prefix (w_lim w')) ->
  foreign_metrics (l_metrics (w_lim w)) (l_metrics (w_lim w')) ->
  w_live w' = w_live w -> inv w'.
Proof.
  intros I Ec Eg (A1 & A2 & A3 & A4) (B1 & B2 & B3 & B4) (M1 & M2 & M3) El.
  split; rewrite ?Ec, ?El, ?A2, ?A3, ?B2, ?B3, ?M1, ?M2, ?M3; try apply I.
  - split; auto.
  - eapply ledger_same; [apply I | done].
  - eapply ledger_same; [apply I | done].
  - intros k. rewrite A4. apply I.
  - intros k. rewrite B4. apply I.
Qed.

Lemma unchanged_refl (t : Table) : table_ok t -> unchanged t t.
Proof. done. Qed.

Lemma inv_refused (w : World) (l : Limiter) :
  inv w -> l_cfg l = l_cfg (w_lim w) -> quad_all bucket_ok (l_global l) ->
  refused (w_lim w) l -> inv (mkWorld l (w_live w)).
Proof.
  intros I Ec Eg (Q1 & Q2 & M). apply (inv_unchanged w); auto.
  - apply quiet_unchanged; [apply (i_ok w I) | done].
  - apply quiet_unchanged; [apply (i_ok w I) | done].
Qed.

(** Replacing a cell that keeps its charges. *)
Lemma inv_cell (w : World) (tid : nat) (c c' : Cell) :
  inv w -> w_live w !! tid = Some c ->
  cell_ip c' = cell_ip c -> cell_prefix c' = cell_prefix c ->
  t_admitted (c_ticket c') = t_admitted (c_ticket c) ->
  t_status (c_ticket c') = t_status (c_ticket c) ->
  c_phase c = Idle -> c_phase c' = Idle ->
  inv (mkWorld (w_lim w) (<[tid := c']> (w_live w))).
Proof.
  intros I H E1 E2 E3 E4 E5 E6. split; cbn [w_lim w_live]; try apply I.
  - eapply ledger_cell; eauto; [apply I | ..];
      unfold ip_active, ip_pending, ip_status, dropped; rewrite ?E5, ?E6, ?E3, ?E4; done.
  - eapply ledger_cell; eauto; [apply I |]. unfold prefix_pending. now rewrite E3.
  - intros tid' t'. destruct (decide (tid = tid')) as [-> | Hne].
    + rewrite lookup_insert_eq. intros [= ->]. discriminate E6.
    + rewrite lookup_insert_ne by done. apply (i_half w I).
  - rewrite map_size_insert_Some by eauto. apply I.
Qed.

Lemma live_half_update (w : World) (tid : nat) (c : Cell) :
  inv w -> (c_phase c = AdmittedIp -> t_admitted (c_ticket c) = false) ->
  forall tid' t, <[tid := c]> (w_live w) !! tid' = Some (mkCell t AdmittedIp) -> t_admitted t = false.
Proof.
  intros I H tid' t. destruct (decide (tid = tid')) as [-> | Hne].
  - rewrite lookup_insert_eq. intros [= ->]. now apply H.
  - rewrite lookup_insert_ne by done. apply (i_half w I).
Qed.

(** *** Admission *)

Lemma gauge_step (m : Metrics) (n : nat) (b : bool) (s : nat) :
  (n < length (values m))%nat -> Metrics_get m n = Z.of_nat s -> Z.of_nat s < u64_max ->
  Metrics_get (if b then Metrics_inc m n else m) n = Z.of_nat (s + if b then 1 else 0).
Proof.
  intros Hn Hg Hs. destruct b; [| rewrite Hg; f_equal; lia].
  rewrite Metrics_get_inc_eq by (rewrite ?Hg; lia). lia.
Qed.

Lemma size_u64 (t : Table) (n : Z) :
  table_wf t -> capacity t = n / SHARDS -> 64 <= n <= 1000000 -> Z.of_nat (table_size t) < u64_max.
Proof.
  intros W C H. pose proof (table_size_bound t W) as B. rewrite C in B.
  unfold SHARDS, u64_max in *. pose proof (Z.div_mod n 64). pose proof (Z.mod_pos_bound n 64).
  assert (0 <= n / 64) by (apply Z.div_pos; lia). lia.
Qed.

Lemma gauge_bump_values (m : Metrics) (ni np : bool) (si sp : nat) :
  length (values m) = 56%nat ->
  Metrics_get m 32 = Z.of_nat si -> Z.of_nat si < u64_max ->
  Metrics_get m 33 = Z.of_nat sp -> Z.of_nat sp < u64_max ->
  let m' := gauge_bump ni np m in
  Metrics_get m' 32 = Z.of_nat (si + if ni then 1 else 0) /\
  Metrics_get m' 33 = Z.of_nat (sp + if np then 1 else 0) /\
  length (values m') = 56%nat.
Proof.
  intros L Gi Si Gp Sp m'. subst m'. unfold gauge_bump.
  set (m1 := if ni then Metrics_inc m 32 else m).
  assert (L1 : length (values m1) = 56%nat)
    by (unfold m1; destruct ni; rewrite ?Metrics_inc_length; done).
  assert (E1 : Metrics_get m1 32 = Z.of_nat (si + if ni then 1 else 0))
    by (apply gauge_step; auto; lia).
  assert (E2 : Metrics_get m1 33 = Z.of_nat sp)
    by (unfold m1; destruct ni; rewrite ?Metrics_get_inc_ne; done).
  split_and!; [| apply gauge_step; auto; lia |];
    destruct np; rewrite ?Metrics_get_inc_ne, ?Metrics_inc_length; auto.
Qed.

Lemma joined_ledger (t t' : Table) (key : Cell -> IpAddr) (a p s : Cell -> bool)
  (live : gmap nat Cell) (tid : nat) (c : Cell) :
  Z.of_nat (size live) <= Z.max 0 permits ->
  table_ok t -> ledger t key a p s live -> joined t t' (key c) -> live !! tid = None ->
  a c = true -> p c = true -> s c = false ->
  ledger t' key a p s (<[tid := c]> live).
Proof.
  intros Hs Ht L J Hnew Ea Ep Es.
  destruct (joined_table_ok t t' (key c) Ht J) as (_ & _ & _ & T).
  pose proof (ledger_bounds t key a p s live (key c) L) as B.
  eapply (ledger_transfer t t' key a p s live _ (key c) 1 1 0); [done | | intros k; rewrite charged_insert by done; now rewrite ?Ea, ?Ep, ?Es ..].
  intros k. rewrite T. case_decide; [| done].
  destruct (tcounts t (key c)) as [[x y] z]. unfold shift3.
  rewrite !usize_add_exact by lia. repeat f_equal. lia.
Qed.

Lemma joined_caps (t t' : Table) (k0 : IpAddr) (la lp ls : Z) (n : Z) :
  table_ok t -> joined t t' k0 -> n < 2 ^ 64 - 1 ->
  (let '(x, y, _) := tcounts t k0 in 0 <= x <= n /\ 0 <= y <= n) ->
  reached la (tcounts t k0).1.1 = false -> reached lp (tcounts t k0).1.2 = false ->
  (forall k, caps la lp ls (tcounts t k)) -> forall k, caps la lp ls (tcounts t' k).
Proof.
  intros Ht J Hn B R1 R2 C k. destruct (joined_table_ok t t' k0 Ht J) as (_ & _ & _ & T).
  rewrite T. case_decide; [| apply C]. specialize (C k0).
  destruct (tcounts t k0) as [[x y] z]. cbn [fst snd] in *. destruct C as (_ & _ & Cz).
  unfold caps. cbn [fst snd]. split_and!; [apply reached_capped .. |]; auto; lia.
Qed.

Lemma inv_admit (w : World) (tid : nat) (ip : IpAddr) (p : Policy) (now : Instant) (t : Ticket)
  (l : Limiter) :
  inv w -> w_live w !! tid = None -> Z.of_nat (size (w_live w)) < permits ->
  Limiter_accept (w_lim w) ip p now = Some (Some t, l) ->
  inv (mkWorld l (<[tid := mkCell t Idle]> (w_live w))).
Proof.
  intros I Hnew Hroom H. pose proof (i_cfg w I) as Ec. pose proof (i_ok w I) as Ok.
  destruct (accept_effect _ _ _ _ _ _ ltac:(now rewrite Ec) Ok H) as ((C & G & -> & J1 & J2 & M) & Caps).
  specialize (Caps ltac:(done)). rewrite Ec in *.
  destruct Caps as (R1 & R2 & R3 & R4).
  destruct (joined_table_ok _ _ _ (lo_ip _ Ok) J1) as (A1 & A2 & A3 & A4).
  destruct (joined_table_ok _ _ _ (lo_prefix _ Ok) J2) as (B1 & B2 & B3 & B4).
  destruct (gauge_bump_values (l_metrics (w_lim w)) (is_new (l_ip (w_lim w)) (key_ip ip))
    (is_new (l_prefix (w_lim w)) (key_prefix cfg ip))
    (table_size (l_ip (w_lim w))) (table_size (l_prefix (w_lim w)))) as (G1 & G2 & G3).
  { apply I. } { apply I. }
  { eapply size_u64; [apply Ok | apply I | apply (co_ip_entries _ Hcfg)]. }
  { apply I. }
  { eapply size_u64; [apply Ok | apply I | apply (co_prefix_entries _ Hcfg)]. }
  destruct M as (M1 & M2 & M3).
  pose proof (ledger_bounds _ _ _ _ _ _ (key_ip ip) (i_ip w I)) as Bi.
  pose proof (ledger_bounds _ _ _ _ _ _ (key_prefix cfg ip) (i_prefix w I)) as Bp.
  split; cbn [w_lim w_live]; rewrite ?A2, ?A3, ?B2, ?B3, ?M1, ?M2, ?M3; try done; try apply I.
  - eapply (joined_ledger (l_ip (w_lim w))); eauto; apply I || apply Ok.
  - eapply (joined_ledger (l_prefix (w_lim w))); eauto; apply I || apply Ok.
  - apply live_half_update; [done | discriminate].
  - rewrite map_size_insert_None by done. lia.
  - apply (joined_caps (l_ip (w_lim w)) (l_ip l) (key_ip ip) _ _ _ (Z.of_nat (size (w_live w))));
      [apply Ok | done | lia | | done | done | apply I].
    destruct (tcounts (l_ip (w_lim w)) (key_ip ip)) as [[? ?] ?]. tauto.
  - apply (joined_caps (l_prefix (w_lim w)) (l_prefix l) (key_prefix cfg ip) _ _ _
      (Z.of_nat (size (w_live w)))); [apply Ok | done | lia | | done | done | apply I].
    destruct (tcounts (l_prefix (w_lim w)) (key_prefix cfg ip)) as [[? ?] ?]. tauto.
Qed.

(** *** In-place updates *)

Lemma modified_shift (t t' : Table) (k : IpAddr) (f : Z * Z * Z -> Z * Z * Z) (da dp ds : Z) :
  table_ok t -> modified t t' k f -> f (tcounts t k) = shift3 (tcounts t k) da dp ds ->
  table_ok t' /\ table_size t' = table_size t /\ capacity t' = capacity t /\
  forall k', tcounts t' k' = if decide (k = k') then shift3 (tcounts t k) da dp ds else tcounts t k'.
Proof.
  intros H M E. destruct (modified_table_ok t t' k f H M) as (A & B & C & D).
  split_and!; auto. intros k'. rewrite D. now rewrite E.
Qed.

(** Counters that only go down stay within the limits. *)
Lemma shift_caps (t t' : Table) (k : IpAddr) (da dp ds la lp ls : Z) :
  da <= 0 -> dp <= 0 -> ds <= 0 ->
  (forall k', tcounts t' k' = if decide (k = k') then shift3 (tcounts t k) da dp ds else tcounts t k') ->
  (forall k', caps la lp ls (tcounts t k')) -> forall k', caps la lp ls (tcounts t' k').
Proof.
  intros Ha Hp Hs T C k'. rewrite T. case_decide; [| apply C]. specialize (C k).
  destruct (tcounts t k) as [[x y] z]. unfold caps, capped, shift3 in *. cbn [fst snd] in *. lia.
Qed.

(** Updating the IP table and one cell. *)
Lemma inv_ip_update (w : World) (tid : nat) (c c' : Cell) (t : Table) (m : Metrics) :
  let f g := Z.b2z (g c') - Z.b2z (g c) in
  inv w -> w_live w !! tid = Some c ->
  cell_ip c' = cell_ip c -> cell_prefix c' = cell_prefix c ->
  t_admitted (c_ticket c') = t_admitted (c_ticket c) ->
  (c_phase c' = AdmittedIp -> t_admitted (c_ticket c') = false) ->
  table_ok t -> table_size t = table_size (l_ip (w_lim w)) ->
  capacity t = capacity (l_ip (w_lim w)) ->
  (forall k, tcounts t k = if decide (cell_ip c = k)
     then shift3 (tcounts (l_ip (w_lim w)) (cell_ip c)) (f ip_active) (f ip_pending) (f ip_status)
     else tcounts (l_ip (w_lim w)) k) ->
  (forall k, caps (connections_ip cfg) (prelogin_ip cfg) (status_ip cfg) (tcounts t k)) ->
  foreign_metrics (l_metrics (w_lim w)) m ->
  inv (mkWorld (with_metrics (with_ip (w_lim w) t) m) (<[tid := c']> (w_live w))).
Proof.
  intros f I H E1 E2 E3 E4 Ok Sz Cp T Caps (M1 & M2 & M3).
  split; cbn [w_lim w_live with_metrics with_ip l_ip l_prefix l_metrics l_cfg l_global];
    rewrite ?Sz, ?Cp, ?M1, ?M2, ?M3; auto; try apply I.
  - split; [done | apply (i_ok w I) ..].
  - eapply (ledger_transfer _ _ _ _ _ _ (w_live w)); [apply I | exact T |
      intros k; now rewrite (charged_update _ _ _ _ c) by done ..].
  - eapply ledger_cell; eauto; [apply I |]. unfold prefix_pending. now rewrite E3.
  - now apply live_half_update.
  - rewrite map_size_insert_Some by eauto. apply I.
Qed.

Lemma live_u64 (w : World) (t : Table) (key : Cell -> IpAddr) (a p s : Cell -> bool) (k : IpAddr) :
  inv w -> ledger t key a p s (w_live w) ->
  let '(x, y, z) := tcounts t k in
  0 <= x < 2 ^ 64 - 1 /\ 0 <= y < 2 ^ 64 - 1 /\ 0 <= z < 2 ^ 64 - 1.
Proof.
  intros I L. pose proof (ledger_bounds t key a p s (w_live w) k L) as B.
  pose proof (i_size w I). destruct (tcounts t k) as [[x y] z]. lia.
Qed.

Lemma inv_status (w : World) (tid : nat) (t t' : Ticket) (b : bool) (l : Limiter) :
  inv w -> w_live w !! tid = Some (mkCell t Idle) -> Ticket_enter_status (w_lim w) t = (b, t', l) ->
  inv (mkWorld l (<[tid := mkCell t' Idle]> (w_live w))).
Proof.
  intros I H E.
  destruct (enter_status_effect _ _ _ _ _ (i_ok w I) E) as (C & G & P & M & [[Tip Ht] | (Es & -> & Mod & R)]).
  - assert (Hw : inv (mkWorld l (w_live w))).
    { apply (inv_unchanged w); cbn [w_lim w_live]; auto.
      - rewrite G. apply (i_ok w I).
      - rewrite Tip. apply unchanged_refl, (i_ok w I).
      - rewrite P. apply unchanged_refl, (i_ok w I). }
    apply (inv_cell (mkWorld l (w_live w)) tid (mkCell t Idle)); auto;
      destruct Ht as [-> | ->]; reflexivity.
  - destruct l as [lip lpx lg lc lm]. cbn [l_ip l_prefix l_cfg l_global l_metrics] in *. subst lpx lc lg.
    change (mkLimiter lip _ _ _ lm) with (with_metrics (with_ip (w_lim w) lip) lm).
    pose proof (live_u64 w _ _ _ _ _ (t_ip t) I (i_ip w I)) as B.
    destruct (modified_shift _ _ _ _ 0 0 1 (lo_ip _ (i_ok w I)) Mod) as (A1 & A2 & A3 & A4).
    { destruct (tcounts _ _) as [[x y] z]. unfold inc_status, shift3.
      rewrite usize_add_exact by lia. repeat f_equal; lia. }
    eapply inv_ip_update; eauto; try done.
    + intros k. rewrite A4. unfold ip_active, ip_pending, ip_status, cell_ip, dropped.
      cbn [c_ticket c_phase set_ticket_status t_admitted t_status t_ip]. rewrite Es.
      destruct (t_admitted t); reflexivity.
    + intros k. rewrite A4. case_decide; [| apply I].
      pose proof (i_caps_ip w I (t_ip t)) as Cp. rewrite (i_cfg w I) in R.
      destruct (tcounts _ _) as [[x y] z]. unfold caps, capped, shift3, reached in *.
      cbn [fst snd] in *. apply andb_false_iff in R. rewrite Z.ltb_ge, Z.leb_gt in R. lia.
Qed.

Lemma with_metrics_same (l : Limiter) : with_metrics l (l_metrics l) = l.
Proof. now destruct l. Qed.

Lemma inv_admit_ip (w : World) (tid : nat) (t : Ticket) :
  inv w -> w_live w !! tid = Some (mkCell t Idle) -> t_admitted t = false ->
  inv (mkWorld (with_ip (w_lim w) (release_pending (l_ip (w_lim w)) (t_ip t)))
    (<[tid := mkCell t AdmittedIp]> (w_live w))).
Proof.
  intros I H Ha. set (c := mkCell t Idle) in *.
  destruct (ledger_entry _ _ _ _ _ _ _ c (i_ip w I) H eq_refl) as [e Ge].
  pose proof (release_pending_modified _ _ e (lo_ip _ (i_ok w I)) Ge) as Mod.
  pose proof (ledger_present _ _ _ _ _ _ _ c (i_ip w I) H) as P.
  pose proof (live_u64 w _ _ _ _ _ (cell_ip c) I (i_ip w I)) as B.
  destruct (modified_shift _ _ _ _ 0 (-1) 0 (lo_ip _ (i_ok w I)) Mod) as (A1 & A2 & A3 & A4).
  { change (t_ip t) with (cell_ip c). destruct (tcounts _ _) as [[x y] z].
    unfold dec_pending, shift3. replace (ip_pending c) with true in P
      by (unfold ip_pending; cbn; now rewrite Ha).
    cbn [Z.b2z] in P. rewrite usize_sub_exact by (unfold is_u64; lia). repeat f_equal; lia. }
  rewrite <- (with_metrics_same (with_ip _ _)).
  eapply inv_ip_update; eauto; try done.
  - intros k. rewrite A4. unfold ip_active, ip_pending, ip_status, dropped. cbn. rewrite Ha.
    destruct (t_status t); reflexivity.
  - eapply (shift_caps (l_ip (w_lim w))); [| | | exact A4 | apply I]; lia.
Qed.

(** Updating the prefix table and the live tickets. *)
Lemma inv_prefix_update (w : World) (live' : gmap nat Cell) (k0 : IpAddr) (t : Table)
  (da dp : Z) :
  inv w -> da <= 0 -> dp <= 0 ->
  table_ok t -> table_size t = table_size (l_prefix (w_lim w)) ->
  capacity t = capacity (l_prefix (w_lim w)) ->
  (forall k, tcounts t k = if decide (k0 = k)
     then shift3 (tcounts (l_prefix (w_lim w)) k0) da dp 0 else tcounts (l_prefix (w_lim w)) k) ->
  (forall k f d, In (f, d) [(prefix_active, da); (prefix_pending, dp); (prefix_status, 0)] ->
     cnt (charged cell_prefix k f) live' =
     cnt (charged cell_prefix k f) (w_live w) + if decide (k0 = k) then d else 0) ->
  ledger (l_ip (w_lim w)) cell_ip ip_active ip_pending ip_status live' ->
  (forall tid t, live' !! tid = Some (mkCell t AdmittedIp) -> t_admitted t = false) ->
  (size live' <= size (w_live w))%nat ->
  inv (mkWorld (with_prefix (w_lim w) t) live').
Proof.
  intros I Ha Hp Ok Sz Cp T Cn Lip Half Hsz.
  split; cbn [w_lim w_live with_prefix l_ip l_prefix l_metrics l_cfg l_global];
    rewrite ?Sz, ?Cp; auto; try apply I.
  - split; [apply (i_ok w I) | done | apply (i_ok w I)].
  - eapply (ledger_transfer _ _ _ _ _ _ (w_live w)); [apply I | exact T | | |];
      intros k; apply Cn; cbn; auto.
  - pose proof (i_size w I). lia.
  - eapply (shift_caps (l_prefix (w_lim w))); [| | | exact T | apply I]; lia.
Qed.

Lemma inv_admit_prefix (w : World) (tid : nat) (t : Ticket) :
  inv w -> w_live w !! tid = Some (mkCell t AdmittedIp) ->
  inv (mkWorld (with_prefix (w_lim w) (release_pending (l_prefix (w_lim w)) (t_prefix t)))
    (<[tid := mkCell (set_ticket_admitted t) Idle]> (w_live w))).
Proof.
  intros I H. set (c := mkCell t AdmittedIp) in *.
  pose proof (i_half w I tid t H) as Ha.
  destruct (ledger_entry _ _ _ _ _ _ _ c (i_prefix w I) H eq_refl) as [e Ge].
  pose proof (release_pending_modified _ _ e (lo_prefix _ (i_ok w I)) Ge) as Mod.
  pose proof (ledger_present _ _ _ _ _ _ _ c (i_prefix w I) H) as P.
  pose proof (live_u64 w _ _ _ _ _ (cell_prefix c) I (i_prefix w I)) as B.
  destruct (modified_shift _ _ _ _ 0 (-1) 0 (lo_prefix _ (i_ok w I)) Mod) as (A1 & A2 & A3 & A4).
  { change (t_prefix t) with (cell_prefix c). destruct (tcounts _ _) as [[x y] z].
    unfold dec_pending, shift3. replace (prefix_pending c) with true in P
      by (unfold prefix_pending; cbn; now rewrite Ha).
    cbn [Z.b2z] in P. rewrite usize_sub_exact by (unfold is_u64; lia). repeat f_equal; lia. }
  eapply (inv_prefix_update w _ (cell_prefix c)); eauto; try lia.
  - intros k f d Hin. rewrite (charged_update _ _ _ _ c) by done.
    destruct Hin as [[= <- <-] | [[= <- <-] | [[= <- <-] | []]]]; try done.
    unfold prefix_pending. cbn. now rewrite Ha.
  - eapply ledger_cell; eauto; [apply I | ..]; done.
  - apply live_half_update; [done | discriminate].
  - rewrite map_size_insert_Some by eauto. lia.
Qed.

(** *** Dropping a ticket *)

Lemma foreign_drop_metrics (t : Ticket) (m : Metrics) : foreign_metrics m (drop_metrics t m).
Proof.
  unfold drop_metrics. destruct (ticket_churn t), (negb (t_handshake t)); auto with gate;
    try (apply foreign_inc; lia). eapply foreign_trans; apply foreign_inc; lia.
Qed.

Lemma dec_all_exact (adm st : bool) (x y z : Z) :
  1 <= x < 2 ^ 64 -> (adm = false -> 1 <= y) -> y < 2 ^ 64 -> (st = true -> 1 <= z) -> z < 2 ^ 64 ->
  dec_all adm st (x, y, z) = shift3 (x, y, z) (-1) (if adm then 0 else -1) (if st then -1 else 0).
Proof.
  intros Hx Hy Hy' Hz Hz'. unfold dec_all, shift3.
  destruct adm, st; try (specialize (Hy eq_refl)); try (specialize (Hz eq_refl));
    rewrite !usize_sub_exact by (unfold is_u64; lia); repeat f_equal; lia.
Qed.

Lemma inv_drop_ip (w : World) (tid : nat) (t : Ticket) (now : Instant) :
  inv w -> w_live w !! tid = Some (mkCell t Idle) ->
  inv (mkWorld (drop_ip powf (w_lim w) t now) (<[tid := mkCell t (DroppedIp now)]> (w_live w))).
Proof.
  intros I H. set (c := mkCell t Idle) in *.
  destruct (ledger_entry _ _ _ _ _ _ _ c (i_ip w I) H eq_refl) as [e Ge].
  pose proof (release_in_modified powf (l_cfg (w_lim w)) t true
    (churn_score_threshold (l_cfg (w_lim w))) now _ _ e (lo_ip _ (i_ok w I)) Ge) as Mod.
  rewrite andb_true_r in Mod.
  pose proof (ledger_present _ _ _ _ _ _ _ c (i_ip w I) H) as P.
  pose proof (live_u64 w _ _ _ _ _ (cell_ip c) I (i_ip w I)) as B.
  destruct (modified_shift _ _ _ _ (-1) (if t_admitted t then 0 else -1)
    (if t_status t then -1 else 0) (lo_ip _ (i_ok w I)) Mod) as (A1 & A2 & A3 & A4).
  { destruct (tcounts _ _) as [[x y] z]. unfold ip_active, ip_pending, ip_status, dropped in P.
    cbn in P. destruct (t_admitted t), (t_status t); cbn in P; apply dec_all_exact;
      intros; try discriminate; lia. }
  unfold drop_ip.
  change (with_ip (with_metrics ?l ?m) ?x) with (with_metrics (with_ip l x) m).
  eapply inv_ip_update; eauto; try done.
  - intros k. rewrite A4. unfold ip_active, ip_pending, ip_status, dropped. cbn.
    destruct (t_admitted t), (t_status t); reflexivity.
  - eapply (shift_caps (l_ip (w_lim w))); [| | | exact A4 | apply I];
      destruct (t_admitted t), (t_status t); lia.
  - apply foreign_drop_metrics.
Qed.

Lemma inv_drop_prefix (w : World) (tid : nat) (t : Ticket) (now : Instant) :
  inv w -> w_live w !! tid = Some (mkCell t (DroppedIp now)) ->
  inv (mkWorld (drop_prefix powf (w_lim w) t now) (delete tid (w_live w))).
Proof.
  intros I H. set (c := mkCell t (DroppedIp now)) in *.
  destruct (ledger_entry _ _ _ _ _ _ _ c (i_prefix w I) H eq_refl) as [e Ge].
  pose proof (release_in_modified powf (l_cfg (w_lim w)) t false
    (churn_prefix_score_threshold (l_cfg (w_lim w))) now _ _ e (lo_prefix _ (i_ok w I)) Ge) as Mod.
  rewrite andb_false_r in Mod.
  pose proof (ledger_present _ _ _ _ _ _ _ c (i_prefix w I) H) as P.
  pose proof (live_u64 w _ _ _ _ _ (cell_prefix c) I (i_prefix w I)) as B.
  destruct (modified_shift _ _ _ _ (-1) (if t_admitted t then 0 else -1) 0
    (lo_prefix _ (i_ok w I)) Mod) as (A1 & A2 & A3 & A4).
  { destruct (tcounts _ _) as [[x y] z]. unfold prefix_active, prefix_pending in P. cbn in P.
    destruct (t_admitted t); cbn in P; apply dec_all_exact; intros; try discriminate; lia. }
  unfold drop_prefix.
  eapply (inv_prefix_update w _ (cell_prefix c)); eauto; try (destruct (t_admitted t); lia).
  - intros k f d Hin. rewrite (charged_delete _ _ _ _ c) by done.
    destruct Hin as [[= <- <-] | [[= <- <-] | [[= <- <-] | []]]]; try done.
    unfold prefix_pending. cbn. now destruct (t_admitted t).
  - intros k. rewrite (i_ip w I k), !(charged_delete _ _ _ _ c) by done.
    unfold ip_active, ip_pending, ip_status, dropped. cbn. case_decide; now rewrite !Z.add_0_r.
  - intros tid' t' Hl. apply lookup_delete_Some in Hl as [_ Hl]. now apply (i_half w I tid').
  - rewrite map_size_delete_Some by eauto. lia.
Qed.

(** *** Sweeping *)

(** Only entries no live ticket is charged to can go, so no counter is lost. *)
Lemma swept_tcounts (t : Table) (key : Cell -> IpAddr) (a p s : Cell -> bool)
  (live : gmap nat Cell) (now : Instant) (shard : nat) :
  table_wf t -> ledger t key a p s live ->
  (forall c, p c = true -> a c = true) -> (forall c, s c = true -> a c = true) ->
  forall k, tcounts (swept cfg now shard t) k = tcounts t k.
Proof.
  intros W L Hp Hs k. pose proof (L k) as E. unfold tcounts in *.
  rewrite table_get_swept by done. destruct (table_get t k) as [e |]; [| done].
  case_decide as D; [| done]. destruct D as [_ D].
  unfold sweep_keep in D. apply orb_false_iff in D as [D _]. apply orb_false_iff in D as [D _].
  apply Z.ltb_ge in D. unfold counts in *. injection E as Ea Ep Es.
  pose proof (cnt_le_size (charged key k a) live).
  assert (cnt (charged key k p) live <= cnt (charged key k a) live).
  { apply cnt_mono. unfold charged. intros c [? ?]%andb_true_iff. apply andb_true_iff. auto. }
  assert (cnt (charged key k s) live <= cnt (charged key k a) live).
  { apply cnt_mono. unfold charged. intros c [? ?]%andb_true_iff. apply andb_true_iff. auto. }
  pose proof (cnt_le_size (charged key k p) live). pose proof (cnt_le_size (charged key k s) live).
  repeat f_equal; lia.
Qed.

Lemma dec_iter (m : Metrics) (g n : nat) (v : Z) :
  (g < length (values m))%nat -> Metrics_get m g = v -> Z.of_nat n <= v <= u64_max ->
  let m' := Nat.iter n (fun m => Metrics_dec m g) m in
  Metrics_get m' g = v - Z.of_nat n /\ length (values m') = length (values m) /\
  forall k, k <> g -> Metrics_get m' k = Metrics_get m k.
Proof.
  intros Hg Hv. induction n as [| n IH]; intros Hr; cbn zeta; [cbn; split_and!; auto; lia |].
  rewrite Nat.iter_succ. destruct IH as (E & L & F); [lia |].
  split_and!.
  - rewrite Metrics_get_dec_eq by (rewrite ?L; lia). lia.
  - now rewrite Metrics_dec_length.
  - intros k Hk. rewrite Metrics_get_dec_ne by auto. now apply F.
Qed.

Lemma swept_ok (t : Table) (now : Instant) (shard : nat) :
  table_ok t -> table_ok (swept cfg now shard t) /\ capacity (swept cfg now shard t) = capacity t.
Proof.
  intros [W O]. split; [| done]. split; [now apply swept_wf |].
  intros k e. rewrite table_get_swept by done. destruct (table_get t k) as [e' |] eqn:G; [| done].
  case_decide; [done |]. intros [= <-]. eauto.
Qed.

(** The gauge moves with the table. *)
Lemma swept_gauge (t : Table) (now : Instant) (shard g : nat) (m : Metrics) :
  table_wf t -> (g < length (values m))%nat -> Metrics_get m g = Z.of_nat (table_size t) ->
  Z.of_nat (table_size t) < u64_max ->
  let m' := snd (sweep_table cfg now shard t g m) in
  Metrics_get m' g = Z.of_nat (table_size (swept cfg now shard t)) /\
  length (values m') = length (values m) /\
  forall k, k <> g -> Metrics_get m' k = Metrics_get m k.
Proof.
  intros W Hg Hv Hs. pose proof (table_size_swept cfg now shard t W) as S. cbv zeta in S.
  unfold sweep_table. cbn [snd].
  edestruct (dec_iter m g) as (E & L & F); [exact Hg | exact Hv | |
    cbv zeta; split_and!; [rewrite E | exact L | exact F]]; lia.
Qed.

Lemma inv_sweep_ip (w : World) (shard : nat) (now : Instant) :
  inv w -> inv (mkWorld (sweep_ip (w_lim w) shard now) (w_live w)).
Proof.
  intros I. unfold sweep_ip. rewrite (i_cfg w I).
  destruct (lo_ip _ (i_ok w I)) as [W O].
  pose proof (swept_gauge (l_ip (w_lim w)) now shard 32 (l_metrics (w_lim w)) W) as G.
  destruct G as (G1 & G2 & G3); [rewrite (i_length w I); lia | apply I |
    eapply size_u64; [done | apply I | apply (co_ip_entries _ Hcfg)] |].
  pose proof (sweep_table_fst cfg now shard 32 (l_ip (w_lim w)) (l_metrics (w_lim w))) as F.
  destruct (sweep_table _ _ _ _ _ _) as [t m]. cbn [fst snd] in *. subst t.
  destruct (swept_ok (l_ip (w_lim w)) now shard (conj W O)) as [Ok Cap].
  pose proof (swept_tcounts _ _ _ _ _ _ now shard W (i_ip w I)) as T.
  specialize (T ltac:(unfold ip_pending, ip_active, dropped; intros c; now destruct (c_phase c))
    ltac:(unfold ip_status, ip_active; intros c; now destruct (dropped c))).
  split; cbn [w_lim w_live with_metrics with_ip l_ip l_prefix l_metrics l_cfg l_global];
    rewrite ?Cap, ?G2; try apply I; auto.
  - split; [done | apply (i_ok w I) ..].
  - eapply ledger_same; [apply I | done].
  - intros k. rewrite T. apply I.
  - rewrite G3 by done. apply I.
Qed.

Lemma inv_sweep_prefix (w : World) (shard : nat) (now : Instant) :
  inv w -> inv (mkWorld (sweep_prefix (w_lim w) shard now) (w_live w)).
Proof.
  intros I. unfold sweep_prefix. rewrite (i_cfg w I).
  destruct (lo_prefix _ (i_ok w I)) as [W O].
  pose proof (swept_gauge (l_prefix (w_lim w)) now shard 33 (l_metrics (w_lim w)) W) as G.
  destruct G as (G1 & G2 & G3); [rewrite (i_length w I); lia | apply I |
    eapply size_u64; [done | apply I | apply (co_prefix_entries _ Hcfg)] |].
  pose proof (sweep_table_fst cfg now shard 33 (l_prefix (w_lim w)) (l_metrics (w_lim w))) as F.
  destruct (sweep_table _ _ _ _ _ _) as [t m]. cbn [fst snd] in *. subst t.
  destruct (swept_ok (l_prefix (w_lim w)) now shard (conj W O)) as [Ok Cap].
  pose proof (swept_tcounts _ _ _ _ _ _ now shard W (i_prefix w I) (fun _ _ => eq_refl)
    (fun _ _ => eq_refl)) as T.
  split; cbn [w_lim w_live with_metrics with_prefix l_ip l_prefix l_metrics l_cfg l_global];
    rewrite ?Cap, ?G2; try apply I; auto.
  - split; [apply (i_ok w I) | done | apply (i_ok w I)].
  - eapply ledger_same; [apply I | done].
  - intros k. rewrite T. apply I.
  - rewrite G3 by done. apply I.
Qed.

(** *** Every reachable world *)

Lemma inv_initial (w : World) : initial cfg w -> inv w.
Proof.
  intros (hip & hpx & now & ->).
  assert (Z0 : forall h n k, tcounts (Table_new h n) k = (0, 0, 0)).
  { intros h n k. unfold tcounts, table_get, shard_map, Table_new. cbn [shards].
    destruct (replicate _ _ !! _) as [m |] eqn:E; [| done].
    apply lookup_replicate in E as [-> _]. cbn. now rewrite lookup_empty. }
  assert (Ok0 : forall h n, table_ok (Table_new h n)).
  { intros h n. split; [apply Table_new_wf |]. intros k e G.
    pose proof (Z0 h n k) as E. unfold table_get, shard_map, Table_new in G. cbn [shards] in G.
    destruct (replicate _ _ !! _) as [m |] eqn:Er; [| done].
    apply lookup_replicate in Er as [-> _]. cbn in G. now rewrite lookup_empty in G. }
  split; cbn [w_lim w_live Limiter_new l_cfg l_ip l_prefix l_metrics]; try done.
  - split; [apply Ok0 | apply Ok0 |]. intros e. cbn [l_global Limiter_new]. rewrite quad_get_map.
    apply Bucket_new_ok, (co_global_rates _ Hcfg).
  - intros k. rewrite Z0. now rewrite !cnt_empty.
  - intros k. rewrite Z0. now rewrite !cnt_empty.
  - rewrite map_size_empty. lia.
  - intros k. rewrite Z0. unfold caps, capped. cbn. lia.
  - intros k. rewrite Z0. unfold caps, capped. cbn. lia.
Qed.

Lemma inv_step (w w' : World) : inv w -> step powf permits w w' -> inv w'.
Proof.
  intros I S. pose proof (i_cfg w I) as Ec. pose proof (i_ok w I) as Ok.
  assert (Hc : cfg_ok (l_cfg (w_lim w))) by now rewrite Ec.
  destruct S as [tid ip p now t l Hn Hs H | ip p now l H | tid t ev p now b l Hl H
    | tid t hs co re Hl | tid t b t' l Hl H | tid t Hl Ha | tid t Hl | tid t now Hl
    | tid t now Hl | shard now | shard now | m Hm].
  - eapply inv_admit; eauto.
  - destruct (accept_effect _ _ _ _ _ _ Hc Ok H) as ((C & G & R) & _). now apply inv_refused.
  - destruct (event_effect _ _ _ _ _ _ _ Hc Ok H) as (C & G & R). now apply inv_refused.
  - now apply (inv_cell w tid (mkCell t Idle)).
  - eapply inv_status; eauto.
  - now apply inv_admit_ip.
  - now apply inv_admit_prefix.
  - now apply inv_drop_ip.
  - now apply inv_drop_prefix.
  - now apply inv_sweep_ip.
  - now apply inv_sweep_prefix.
  - apply (inv_unchanged w); auto; try apply unchanged_refl; apply Ok.
Qed.

Lemma inv_reachable (w : World) : reachable powf permits cfg w -> inv w.
Proof.
  intros (w0 & I0 & R). apply inv_initial in I0.
  induction R as [w | w1 w2 w3 S R IH]; [done |]. apply IH. now apply (inv_step w1).
Qed.
End Invariant.

(** ** Properties of every reachable world *)

(** C2: In every reachable world, whatever the interleaving of connections and the order of clock
    readings, the counters kept for an IP address and for a prefix are exactly the numbers of live
    tickets charged to them: active tickets, tickets not yet admitted, and tickets that entered the
    status phase. *)
Theorem limiter_ledger (powf : f64 -> f64 -> f64) (permits : Z) (cfg : Limits) (w : World) :
  cfg_ok cfg -> permits < 2 ^ 64 - 1 -> reachable powf permits cfg w ->
  forall k,
    tcounts (l_ip (w_lim w)) k =
      (cnt (charged cell_ip k ip_active) (w_live w),
       cnt (charged cell_ip k ip_pending) (w_live w),
       cnt (charged cell_ip k ip_status) (w_live w)) /\
    tcounts (l_prefix (w_lim w)) k =
      (cnt (charged cell_prefix k prefix_active) (w_live w),
       cnt (charged cell_prefix k prefix_pending) (w_live w), 0).
Proof.
  intros Hc Hp R k. pose proof (inv_reachable powf permits cfg Hc Hp w R) as I.
  split; [apply (i_ip _ _ _ I) |]. rewrite (i_prefix _ _ _ I k). f_equal.
  apply cnt_none. intros c. unfold charged, prefix_status. apply andb_false_r.
Qed.

(** C9: The configured concurrency limits hold in every reachable world: an address never has more
    than [connections_ip] live connections, [prelogin_ip] connections that are not admitted yet or
    [status_ip] status sessions, and a prefix never more than [connections_prefix] and
    [prelogin_prefix]; a limit of zero means unlimited. *)
Theorem limiter_concurrency_limits (powf : f64 -> f64 -> f64) (permits : Z) (cfg : Limits) (w : World) :
  cfg_ok cfg -> permits < 2 ^ 64 - 1 -> reachable powf permits cfg w ->
  forall k,
    (0 < connections_ip cfg -> cnt (charged cell_ip k ip_active) (w_live w) <= connections_ip cfg) /\
    (0 < prelogin_ip cfg -> cnt (charged cell_ip k ip_pending) (w_live w) <= prelogin_ip cfg) /\
    (0 < status_ip cfg -> cnt (charged cell_ip k ip_status) (w_live w) <= status_ip cfg) /\
    (0 < connections_prefix cfg ->
     cnt (charged cell_prefix k prefix_active) (w_live w) <= connections_prefix cfg) /\
    (0 < prelogin_prefix cfg ->
     cnt (charged cell_prefix k prefix_pending) (w_live w) <= prelogin_prefix cfg).
Proof.
  intros Hc Hp R k. pose proof (inv_reachable powf permits cfg Hc Hp w R) as I.
  pose proof (i_caps_ip _ _ _ I k) as C1. pose proof (i_caps_prefix _ _ _ I k) as C2.
  rewrite (i_ip _ _ _ I k) in C1. rewrite (i_prefix _ _ _ I k) in C2.
  destruct C1 as (? & ? & ?), C2 as (? & ? & _). auto.
Qed.

(** No counter decrement of [mark_admitted] or of [Drop for Ticket] can underflow: a ticket that
    is between operations finds its IP and prefix entries present, with at least itself counted as
    active, as pending while it is not admitted, and as a status session once it entered one. The
    sweep has not removed them. *)
Theorem limiter_no_underflow (powf : f64 -> f64 -> f64) (permits : Z) (cfg : Limits) (w : World)
  (tid : nat) (t : Ticket) :
  cfg_ok cfg -> permits < 2 ^ 64 - 1 -> reachable powf permits cfg w ->
  w_live w !! tid = Some (mkCell t Idle) ->
  exists e e',
    table_get (l_ip (w_lim w)) (t_ip t) = Some e /\
    table_get (l_prefix (w_lim w)) (t_prefix t) = Some e' /\
    1 <= e_active e /\ 1 <= e_active e' /\
    (t_admitted t = false -> 1 <= e_pending e /\ 1 <= e_pending e') /\
    (t_status t = true -> 1 <= e_status e).
Proof.
  intros Hc Hp R H. pose proof (inv_reachable powf permits cfg Hc Hp w R) as I.
  destruct (ledger_entry _ _ _ _ _ _ _ _ (i_ip _ _ _ I) H eq_refl) as [e E].
  destruct (ledger_entry _ _ _ _ _ _ _ _ (i_prefix _ _ _ I) H eq_refl) as [e' E'].
  pose proof (ledger_present _ _ _ _ _ _ _ _ (i_ip _ _ _ I) H) as P.
  pose proof (ledger_present _ _ _ _ _ _ _ _ (i_prefix _ _ _ I) H) as P'.
  unfold tcounts in P, P'. rewrite E in P. rewrite E' in P'. exists e, e'.
  unfold counts, ip_pending, ip_status, prefix_pending, dropped in *. cbn in P, P'.
  split_and!; auto; try lia; intros Ht; rewrite Ht in *; cbn in *; lia.
Qed.

(** C27: Rotating source addresses cannot grow the identity tables beyond their configuration: every
    reachable world holds at most [ip_entries] addresses and [prefix_entries] prefixes, and the
    gauges [ip_entries] (32) and [prefix_entries] (33) report exactly the numbers held. *)
Theorem limiter_tables_bounded (powf : f64 -> f64 -> f64) (permits : Z) (cfg : Limits) (w : World) :
  cfg_ok cfg -> permits < 2 ^ 64 - 1 -> reachable powf permits cfg w ->
  Z.of_nat (table_size (l_ip (w_lim w))) <= ip_entries cfg /\
  Z.of_nat (table_size (l_prefix (w_lim w))) <= prefix_entries cfg /\
  Metrics_get (l_metrics (w_lim w)) 32 = Z.of_nat (table_size (l_ip (w_lim w))) /\
  Metrics_get (l_metrics (w_lim w)) 33 = Z.of_nat (table_size (l_prefix (w_lim w))).
Proof.
  intros Hc Hp R. pose proof (inv_reachable powf permits cfg Hc Hp w R) as I.
  pose proof (table_size_bound _ (proj1 (lo_ip _ (i_ok _ _ _ I)))) as B1.
  pose proof (table_size_bound _ (proj1 (lo_prefix _ (i_ok _ _ _ I)))) as B2.
  rewrite (i_capacity_ip _ _ _ I) in B1. rewrite (i_capacity_prefix _ _ _ I) in B2.
  pose proof (co_ip_entries _ Hc). pose proof (co_prefix_entries _ Hc).
  assert (D : forall n, 64 <= n -> 0 <= n / SHARDS /\ SHARDS * (n / SHARDS) <= n).
  { intros n Hn. unfold SHARDS. split; [apply Z.div_pos; lia | apply Z.mul_div_le; lia]. }
  pose proof (D (ip_entries cfg)). pose proof (D (prefix_entries cfg)).
  split_and!; [lia | lia | apply I | apply I].
Qed.

(** C20: In every reachable world every enabled token bucket, of an address, of a prefix or global,
    holds a well-formed number of tokens between zero and its burst: rounding, clock reversal and
    mode changes never produce a negative balance, a NaN, an infinity or more than the burst. *)
Theorem limiter_tokens_bounded (powf : f64 -> f64 -> f64) (permits : Z) (cfg : Limits) (w : World) :
  cfg_ok cfg -> permits < 2 ^ 64 - 1 -> reachable powf permits cfg w ->
  (forall k e ev, table_get (l_ip (w_lim w)) k = Some e \/ table_get (l_prefix (w_lim w)) k = Some e ->
     bucket_ok (quad_get (e_buckets e) ev)) /\
  (forall ev, bucket_ok (quad_get (l_global (w_lim w)) ev)).
Proof.
  intros Hc Hp R. pose proof (i_ok _ _ _ (inv_reachable powf permits cfg Hc Hp w R)) as Ok.
  split; [| apply Ok]. intros k e ev [H | H].
  - apply (proj2 (lo_ip _ Ok) k e H).
  - apply (proj2 (lo_prefix _ Ok) k e H).
Qed.
