(* ===== verification/Samples.v ===== *)
(** * A sample configuration and short runs

    A configuration in the ranges of [config/gate.json] with its limits enabled, the proof that it
    satisfies what the invariants ask of a configuration, and concrete worlds the limiter reaches.
    The instances of the properties are evaluated on these. *)
From S2P Require Import Prelude Machine Float64 Metrics Net Config Limiter LimiterFacts.
From S2P Require Import LimiterSystem LimiterEffects LimiterInv.
From stdpp Require Import base option list gmap relations.
From Stdlib Require Import ZArith Lia SpecFloat.
Local Open Scope Z_scope.

(** The decimal number [n / d], correctly rounded. *)
Definition dec (n d : Z) : f64 := f64_div (f64_of_Z n) (f64_of_Z d).

Definition no_rate : Rate := mkRate f64_zero f64_zero.
Definition sample_rate : Rate := mkRate (dec 2 1) (dec 3 1).
Definition slow_rate : Rate := mkRate (dec 1 1000) (dec 5 2).
Definition sample_rates : Rates := mkRates sample_rate slow_rate no_rate slow_rate.

Definition sample_limits : Limits := {|
  total_sockets := 10000; l_prelogin := 512; status_connections := 128; status_ip := 1;
  separate_status_budget := true; preserve_burst := true;
  l_admitted := 4096; l_backend := 4097; connections_ip := 2; connections_prefix := 4;
  prelogin_ip := 2; prelogin_prefix := 3; ip_entries := 128; prefix_entries := 64;
  idle_entry_seconds := 120; ipv4_prefix := 24; ipv6_prefix := 64;
  ip_rates := sample_rates; prefix_rates := sample_rates; global_rates := sample_rates;
  mode_multipliers := [dec 1 1; dec 8 10; dec 5 10; dec 1 10];
  churn_score_threshold := dec 1 10; churn_prefix_score_threshold := f64_zero;
  churn_half_life_seconds := 30; churn_window_seconds := 3; penalty_seconds := 10 |}.

Lemma rate_ok_dec (r : Rate) :
  valid_binary prec emax (per_second r) && valid_binary prec emax (burst r) && Rate_valid r = true ->
  rate_ok r.
Proof. intros H. breflect. now apply Rate_valid_ok. Qed.

Lemma sample_rates_ok : quad_all rate_ok (Rates_list sample_rates).
Proof. intros []; apply rate_ok_dec; vm_compute; reflexivity. Qed.

Lemma sample_cfg_ok : cfg_ok sample_limits.
Proof.
  split; try apply sample_rates_ok; cbn [ip_entries prefix_entries sample_limits]; try lia; [| done].
  repeat constructor; vm_compute; congruence.
Qed.

(** ** Concrete worlds *)

Definition sample_powf (x y : f64) : f64 := f64_one.
Definition sample_hash (ip : IpAddr) : Z := match ip with V4 a => a / 256 + a | V6 a => a end.
Definition enforcing : Policy := mkPolicy 0 false false.

(** 192.0.2.1, 192.0.2.2 and 198.51.100.9. *)
Definition addr1 : IpAddr := V4 3221225985.
Definition addr2 : IpAddr := V4 3221225986.
Definition addr3 : IpAddr := V4 3325256713.

Definition world0 : World :=
  mkWorld (Limiter_new sample_hash sample_hash sample_limits Metrics_new 0) ∅.

(** The world after an admission attempt at time [now]. *)
Definition admit_world (w : World) (tid : nat) (ip : IpAddr) (now : Instant) : World :=
  match Limiter_accept (w_lim w) ip enforcing now with
  | Some (Some t, l) => mkWorld l (<[tid := mkCell t Idle]> (w_live w))
  | Some (None, l) => mkWorld l (w_live w)
  | None => w
  end.

Lemma admit_world_reachable (permits : Z) (w : World) (tid : nat) (ip : IpAddr) (now : Instant) :
  w_live w !! tid = None -> Z.of_nat (size (w_live w)) < permits ->
  reachable sample_powf permits sample_limits w ->
  reachable sample_powf permits sample_limits (admit_world w tid ip now).
Proof.
  intros Hn Hs (w0 & I & R). exists w0. split; [done |]. unfold admit_world.
  destruct (Limiter_accept (w_lim w) ip enforcing now) as [[[t |] l] |] eqn:E; [| | done];
    eapply rtc_r; [exact R | | exact R |].
  - eapply step_admit; eauto.
  - eapply step_refuse; eauto.
Qed.

Lemma world0_reachable (permits : Z) : reachable sample_powf permits sample_limits world0.
Proof. exists world0. split; [| apply rtc_refl]. now exists sample_hash, sample_hash, 0. Qed.

Definition world2 : World := admit_world (admit_world world0 0 addr1 0) 1 addr2 1000.

Lemma world2_reachable : reachable sample_powf 10000 sample_limits world2.
Proof.
  apply admit_world_reachable; [vm_compute; reflexivity | vm_compute; reflexivity |].
  apply admit_world_reachable; [vm_compute; reflexivity | vm_compute; reflexivity |].
  apply world0_reachable.
Qed.

(** The ticket of the first connection. *)
Definition ticket1 : Ticket := mkTicket addr1 (V4 3221225984) false false false false false.

Lemma world2_ticket1 : w_live world2 !! 0%nat = Some (mkCell ticket1 Idle).
Proof. vm_compute. reflexivity. Qed.

(** ** Instances of the invariants *)

Lemma limiter_ledger_witness :
  tcounts (l_prefix (w_lim world2)) (V4 3221225984) = (2, 2, 0) /\
  cnt (charged cell_prefix (V4 3221225984) prefix_active) (w_live world2) = 2.
Proof.
  pose proof (proj2 (limiter_ledger sample_powf 10000 sample_limits world2 sample_cfg_ok
    ltac:(lia) world2_reachable (V4 3221225984))) as H.
  split; [| vm_compute; reflexivity]. rewrite H. vm_compute. reflexivity.
Defined.

Lemma limiter_concurrency_limits_witness :
  cnt (charged cell_ip addr1 ip_active) (w_live world2) <= 2.
Proof.
  apply (proj1 (limiter_concurrency_limits sample_powf 10000 sample_limits world2 sample_cfg_ok
    ltac:(lia) world2_reachable addr1)). vm_compute. reflexivity.
Defined.

Lemma limiter_no_underflow_witness :
  exists e e',
    table_get (l_ip (w_lim world2)) addr1 = Some e /\
    table_get (l_prefix (w_lim world2)) (V4 3221225984) = Some e' /\
    1 <= e_active e /\ 1 <= e_active e' /\
    (t_admitted ticket1 = false -> 1 <= e_pending e /\ 1 <= e_pending e') /\
    (t_status ticket1 = true -> 1 <= e_status e).
Proof.
  exact (limiter_no_underflow sample_powf 10000 sample_limits world2 0 ticket1 sample_cfg_ok
    ltac:(lia) world2_reachable world2_ticket1).
Defined.

Lemma limiter_tables_bounded_witness :
  Z.of_nat (table_size (l_ip (w_lim world2))) <= 128 /\
  Z.of_nat (table_size (l_prefix (w_lim world2))) <= 64 /\
  Metrics_get (l_metrics (w_lim world2)) 32 = Z.of_nat (table_size (l_ip (w_lim world2))) /\
  Metrics_get (l_metrics (w_lim world2)) 33 = Z.of_nat (table_size (l_prefix (w_lim world2))).
Proof.
  exact (limiter_tables_bounded sample_powf 10000 sample_limits world2 sample_cfg_ok
    ltac:(lia) world2_reachable).
Defined.

Lemma limiter_tokens_bounded_witness :
  bucket_ok (quad_get (l_global (w_lim world2)) Connect).
Proof.
  exact (proj2 (limiter_tokens_bounded sample_powf 10000 sample_limits world2 sample_cfg_ok
    ltac:(lia) world2_reachable) Connect).
Defined.
