(* ===== verification/LimiterProps.v ===== *)
(** * What one limiter operation promises

    Properties of single operations on an arbitrary well-formed limiter: enforcement of the token
    budgets, atomicity of the three scopes, penalties, and the burst of a bucket. *)
From S2P Require Import Prelude Machine Float64 Metrics Net Config Limiter LimiterFacts.
From S2P Require Import LimiterSystem LimiterEffects LimiterInv Samples.
From stdpp Require Import base option list gmap.
From Stdlib Require Import ZArith Lia SpecFloat.
Local Open Scope Z_scope.

(** ** Refused operations spend nothing *)

(** The bucket as [available] leaves it, without a token taken. *)
Definition refreshed (cfg : Limits) (now : Instant) (f : f64) (b : Bucket) : Bucket :=
  snd (Bucket_available b now f (preserve_burst cfg)).

Section Kept.
Context (cfg : Limits) (p : Policy) (now : Instant).

Definition bucket_kept (b b' : Bucket) : Prop :=
  b' = b \/ exists f, mode_factor cfg p = Some f /\ b' = refreshed cfg now f b.

(** Same occupancy, score and penalty; every bucket untouched or merely refreshed. *)
Definition entry_kept (e e' : Entry) : Prop :=
  counts e' = counts e /\ e_score e' = e_score e /\ e_penalty_until e' = e_penalty_until e /\
  forall ev, bucket_kept (quad_get (e_buckets e) ev) (quad_get (e_buckets e') ev).

(** Same identities, each kept. *)
Definition table_kept (t t' : Table) : Prop :=
  forall k, match table_get t k, table_get t' k with
            | Some e, Some e' => entry_kept e e'
            | None, None => True
            | _, _ => False
            end.

Definition limiter_kept (l l' : Limiter) : Prop :=
  table_kept (l_ip l) (l_ip l') /\ table_kept (l_prefix l) (l_prefix l') /\
  forall ev, bucket_kept (quad_get (l_global l) ev) (quad_get (l_global l') ev).

Lemma entry_kept_refl (e : Entry) : entry_kept e e.
Proof. split_and!; auto. intros ev. now left. Qed.

Lemma entry_kept_touched (e e' : Entry) : entry_kept e e' -> entry_kept e (set_touched e' now).
Proof. done. Qed.

Lemma table_kept_refl (t : Table) : table_kept t t.
Proof. intros k. destruct (table_get t k); auto using entry_kept_refl. Qed.

Lemma table_kept_put (t : Table) (k : IpAddr) (e e' : Entry) :
  table_wf t -> table_get t k = Some e -> entry_kept e e' -> table_kept t (table_put t k e').
Proof.
  intros W G K k'. rewrite table_get_put by done. case_decide as D.
  - subst. now rewrite G.
  - apply table_kept_refl.
Qed.

Lemma table_kept_store (t : Table) (k : IpAddr) (e' : Entry) :
  table_wf t -> (forall e, table_get t k = Some e -> entry_kept e e') ->
  table_kept t (store_existing t k e').
Proof.
  intros W K. unfold store_existing, is_new. destruct (table_get t k) as [e |] eqn:G.
  - apply (table_kept_put t k e); auto.
  - apply table_kept_refl.
Qed.

Lemma entry_available_kept (e : Entry) (ev : Event) (f : f64) :
  mode_factor cfg p = Some f ->
  entry_kept e (snd (entry_available (set_touched e now) ev now f (preserve_burst cfg))).
Proof.
  intros Hf. unfold entry_available. cbn [set_touched e_buckets].
  destruct (Bucket_available (quad_get (e_buckets e) ev) now f (preserve_burst cfg)) as [ok b] eqn:E.
  split_and!; try done. intros ev'. cbn [snd set_bucket e_buckets]. rewrite quad_get_set.
  case_decide as D; [subst ev' | now left].
  right. exists f. split; [done |]. unfold refreshed. now rewrite E.
Qed.

Lemma global_kept (q : Quad Bucket) (ev : Event) (f : f64) :
  mode_factor cfg p = Some f ->
  forall ev', bucket_kept (quad_get q ev')
    (quad_get (quad_set q ev (snd (Bucket_available (quad_get q ev) now f (preserve_burst cfg)))) ev').
Proof.
  intros Hf ev'. rewrite quad_get_set. case_decide as D; [subst ev' | now left].
  right. now exists f.
Qed.
End Kept.

Lemma keep_existing_kept (cfg : Limits) (p : Policy) (now : Instant) (l : Limiter) (ip prefix : IpAddr)
  (i net : Entry) (g : Quad Bucket) (m : Metrics) :
  table_wf (l_ip l) -> table_wf (l_prefix l) ->
  (forall e, table_get (l_ip l) ip = Some e -> entry_kept cfg p now e i) ->
  (forall e, table_get (l_prefix l) prefix = Some e -> entry_kept cfg p now e net) ->
  (forall ev, bucket_kept cfg p now (quad_get (l_global l) ev) (quad_get g ev)) ->
  limiter_kept cfg p now l (keep_existing l ip prefix i net g m).
Proof. intros. split_and!; [now apply table_kept_store .. | done]. Qed.

Lemma entry_or_new_existing (t : Table) (k : IpAddr) (r : Rates) (now : Instant) (e : Entry) :
  table_get t k = Some e -> entry_or_new t k r now = e.
Proof. intros H. unfold entry_or_new. now rewrite H. Qed.

Lemma accept_tokens_kept (l : Limiter) (ip prefix : IpAddr) (i net : Entry) (p : Policy)
  (now : Instant) (l' : Limiter) :
  table_wf (l_ip l) -> table_wf (l_prefix l) ->
  (forall e, table_get (l_ip l) ip = Some e -> i = e) ->
  (forall e, table_get (l_prefix l) prefix = Some e -> net = e) ->
  accept_tokens l ip prefix (set_touched i now) (set_touched net now) p now = Some (None, l') ->
  limiter_kept (l_cfg l) p now l l'.
Proof.
  intros W1 W2 Hi Hn H. unfold accept_tokens in H.
  destruct (mode_factor (l_cfg l) p) as [f |] eqn:Ff; [| discriminate H]. cbn [mbind option_bind] in H.
  assert (Ki : forall e, table_get (l_ip l) ip = Some e -> entry_kept (l_cfg l) p now e
    (snd (entry_available (set_touched i now) Connect now f (preserve_burst (l_cfg l))))).
  { intros e G. rewrite (Hi e G). now apply entry_available_kept. }
  assert (Kn : forall e, table_get (l_prefix l) prefix = Some e -> entry_kept (l_cfg l) p now e
    (snd (entry_available (set_touched net now) Connect now f (preserve_burst (l_cfg l))))).
  { intros e G. rewrite (Hn e G). now apply entry_available_kept. }
  pose proof (global_kept (l_cfg l) p now (l_global l) Connect f Ff) as Kg.
  destruct (entry_available (set_touched i now) _ _ _ _) as [ip_ok i1].
  destruct (entry_available (set_touched net now) _ _ _ _) as [prefix_ok n1]. cbn [snd] in Ki, Kn.
  destruct (judged _ ip_ok _ _) as [[] m1]; cbn [negb] in H;
    [| injection H as <-; apply keep_existing_kept; [done | done | exact Ki | exact Kn | intros ev; now left]].
  destruct (judged m1 _ _ _) as [[] m2]; cbn [negb] in H;
    [| injection H as <-; apply keep_existing_kept; [done | done | exact Ki | exact Kn | intros ev; now left]].
  destruct (Bucket_available (quad_get (l_global l) Connect) _ _ _) as [global_ok g]. cbn [snd] in Kg.
  destruct (judged m2 _ _ _) as [[] m3]; cbn [negb] in H; [discriminate H |].
  injection H as <-. now apply keep_existing_kept.
Qed.

(** A refused connection leaves no trace that could starve others: no identity is inserted, no
    occupancy counter, score or penalty changes, and every bucket, of the address, of the prefix
    and global, is either untouched or only refreshed to the current time. *)
Theorem accept_refusal_spends_nothing (l : Limiter) (ip0 : IpAddr) (p : Policy) (now : Instant)
  (l' : Limiter) :
  limiter_ok l -> Limiter_accept l ip0 p now = Some (None, l') ->
  limiter_kept (l_cfg l) p now l l'.
Proof.
  intros [[W1 _] [W2 _] _] H. unfold Limiter_accept in H. cbv zeta in H.
  destruct (table_full _ _ || table_full _ _) in H.
  { injection H as <-. split_and!; auto using table_kept_refl. intros ev. now left. }
  destruct (reached _ _ || reached _ _) in H;
    [| destruct (reached _ _ || reached _ _) in H].
  3:{ eapply accept_tokens_kept; [done | done | | | exact H];
      intros e G; exact (entry_or_new_existing _ _ _ _ e G). }
  all: injection H as <-; apply keep_existing_kept; auto; try (intros ev; now left);
    intros e G; rewrite (entry_or_new_existing _ _ _ _ e G);
    apply entry_kept_touched, entry_kept_refl.
Qed.

Lemma event_kept (cfg : Limits) (p : Policy) (now : Instant) (l : Limiter) (t : Ticket)
  (i net i' net' : Entry) (g : Quad Bucket) (m : Metrics) :
  table_wf (l_ip l) -> table_wf (l_prefix l) ->
  table_get (l_ip l) (t_ip t) = Some i -> entry_kept cfg p now i i' ->
  table_get (l_prefix l) (t_prefix t) = Some net -> entry_kept cfg p now net net' ->
  (forall ev, bucket_kept cfg p now (quad_get (l_global l) ev) (quad_get g ev)) ->
  limiter_kept cfg p now l (mkLimiter (table_put (l_ip l) (t_ip t) i')
    (table_put (l_prefix l) (t_prefix t) net') g (l_cfg l) m).
Proof. intros W1 W2 G1 K1 G2 K2 Kg. split_and!; [exact (table_kept_put _ _ _ _ _ _ _ W1 G1 K1) | exact (table_kept_put _ _ _ _ _ _ _ W2 G2 K2) | exact Kg]. Qed.

(** A rate event that is rejected at one scope spends no token at any scope: a rejected address
    cannot drain its prefix or the global login budget. *)
Theorem event_rejection_spends_nothing (l : Limiter) (t : Ticket) (ev : Event) (p : Policy)
  (now : Instant) (l' : Limiter) :
  limiter_ok l -> Limiter_event l t ev p now = Some (false, l') ->
  limiter_kept (l_cfg l) p now l l'.
Proof.
  intros [[W1 _] [W2 _] _] H. unfold Limiter_event in H.
  destruct (mode_factor (l_cfg l) p) as [f |] eqn:Ff; [| discriminate H]. cbn [mbind option_bind] in H.
  assert (Same : limiter_kept (l_cfg l) p now l l).
  { split_and!; auto using table_kept_refl. intros ev'. now left. }
  destruct (table_get (l_ip l) (t_ip t)) as [i |] eqn:Ei; [| now injection H as <-].
  destruct (table_get (l_prefix l) (t_prefix t)) as [n |] eqn:En; [| now injection H as <-]. clear Same.
  pose proof (entry_available_kept (l_cfg l) p now i ev f Ff) as Ki.
  pose proof (entry_available_kept (l_cfg l) p now n ev f Ff) as Kn.
  pose proof (global_kept (l_cfg l) p now (l_global l) ev f Ff) as Kg.
  destruct (entry_available (set_touched i now) _ _ _ _) as [ip_ok i1].
  destruct (judged _ ip_ok _ _) as [[] m1]; cbn [negb snd] in *.
  2:{ injection H as <-. eapply event_kept; eauto; [apply entry_kept_touched, entry_kept_refl | intros ev'; now left]. }
  destruct (entry_available (set_touched n now) _ _ _ _) as [prefix_ok n1].
  destruct (judged m1 _ _ _) as [[] m2]; cbn [negb snd] in *.
  2:{ injection H as <-. eapply event_kept; eauto. intros ev'; now left. }
  destruct (Bucket_available (quad_get (l_global l) ev) _ _ _) as [global_ok g]. cbn [snd] in Kg.
  destruct (judged m2 _ _ _) as [[] m3]; cbn [negb] in H; [discriminate H |].
  injection H as <-. eapply event_kept; eauto.
Qed.

(** ** Granted operations spend exactly one token per scope *)

Section Debit.
Context (cfg : Limits) (now : Instant) (ev : Event) (f : f64).

(** One whole token was there, and exactly one was taken (in exact binary64 arithmetic). *)
Definition debited (b b' : Bucket) : Prop :=
  b' = Bucket_consume (refreshed cfg now f b) /\
  (enabled_rate (rate b) ->
   unit64 <= val (tokens (refreshed cfg now f b)) /\
   val (tokens b') = val (tokens (refreshed cfg now f b)) - unit64).

(** The identity was not under a penalty, and its bucket was debited. *)
Definition entry_debited (e e' : Entry) : Prop :=
  e_penalty_until e <= now /\ debited (quad_get (e_buckets e) ev) (quad_get (e_buckets e') ev).

Lemma Bucket_debited (b b1 : Bucket) :
  bucket_ok b -> factor_ok f -> Bucket_available b now f (preserve_burst cfg) = (true, b1) ->
  debited b (Bucket_consume b1).
Proof.
  intros Hb Hf H. unfold debited, refreshed. rewrite H. cbn [snd]. split; [done |]. intros He.
  pose proof (Bucket_available_ok b now f (preserve_burst cfg) Hb Hf) as A.
  pose proof (Bucket_available_rate b now f (preserve_burst cfg)) as R.
  rewrite H in A, R. cbn [snd] in R. destruct A as (Hb1 & Hok & _).
  assert (unit64 <= val (tokens b1)) by now apply Hok.
  split; [done |]. apply Bucket_consume_ok; [done | done |]. now rewrite R.
Qed.

Lemma entry_debited_available (e e1 : Entry) :
  entry_ok e -> factor_ok f ->
  entry_available (set_touched e now) ev now f (preserve_burst cfg) = (true, e1) ->
  entry_debited e (entry_consume e1 ev).
Proof.
  intros He Hf. unfold entry_available. cbn [set_touched e_buckets e_penalty_until].
  destruct (Bucket_available _ _ _ _) as [ok b] eqn:A. intros [= H <-].
  apply andb_true_iff in H as [-> P]. split; [lia |].
  unfold entry_consume. cbn [set_bucket e_buckets]. rewrite !quad_get_set_eq.
  apply Bucket_debited; auto.
Qed.
End Debit.

(** An enforced decision passes only when the scope allows it. *)
Lemma judged_enforced (m m' : Metrics) (a : bool) (r : nat) (p : Policy) :
  exempt p = false -> observe p = false -> judged m a r p = (true, m') -> a = true.
Proof. intros He Ho. unfold judged. rewrite He, Ho, orb_false_r. destruct a; [done | discriminate]. Qed.

Lemma accept_tokens_debited (l : Limiter) (ip prefix : IpAddr) (i net : Entry) (p : Policy)
  (now : Instant) (t : Ticket) (l' : Limiter) :
  cfg_ok (l_cfg l) -> limiter_ok l -> entry_ok i -> entry_ok net ->
  exempt p = false -> observe p = false ->
  accept_tokens l ip prefix (set_touched i now) (set_touched net now) p now = Some (Some t, l') ->
  exists f i' net', mode_factor (l_cfg l) p = Some f /\
    table_get (l_ip l') ip = Some i' /\ entry_debited (l_cfg l) now Connect f i i' /\
    table_get (l_prefix l') prefix = Some net' /\ entry_debited (l_cfg l) now Connect f net net' /\
    debited (l_cfg l) now f (quad_get (l_global l) Connect) (quad_get (l_global l') Connect).
Proof.
  intros Hc Hl Oi On He Ho H. unfold accept_tokens in H.
  destruct (mode_factor (l_cfg l) p) as [f |] eqn:Ff; [| discriminate H]. cbn [mbind option_bind] in H.
  pose proof (mode_factor_ok _ _ _ Hc Ff) as Hf.
  destruct (entry_available (set_touched i now) _ _ _ _) as [ip_ok i1] eqn:Ai.
  destruct (entry_available (set_touched net now) _ _ _ _) as [prefix_ok n1] eqn:An.
  destruct (judged _ ip_ok _ _) as [[] m1] eqn:J1; cbn [negb] in H; [| discriminate H].
  destruct (judged m1 _ _ _) as [[] m2] eqn:J2; cbn [negb] in H; [| discriminate H].
  destruct (Bucket_available _ _ _ _) as [global_ok g] eqn:Ag.
  destruct (judged m2 _ _ _) as [[] m3] eqn:J3; cbn [negb] in H; [| discriminate H].
  apply judged_enforced in J1 as ->; [| done | done].
  apply judged_enforced in J2 as ->; [| done | done].
  apply judged_enforced in J3 as ->; [| done | done].
  rewrite He in H. cbn [negb andb] in H. injection H as <- <-.
  exists f, (touch_counts (entry_consume i1 Connect)), (touch_counts (entry_consume n1 Connect)).
  cbn [l_ip l_prefix l_global].
  rewrite !table_get_put, !decide_True by (done || apply Hl).
  split_and!; try done;
    [apply (entry_debited_available (l_cfg l) now Connect f i i1); done
    | apply (entry_debited_available (l_cfg l) now Connect f net n1); done
    | apply Bucket_debited; auto; apply Hl].
Qed.

(** Enforcement of admission: when a connection is admitted under a policy that neither observes
    nor exempts, neither its address nor its prefix is serving a penalty, and each of the address,
    prefix and global connect buckets held a whole token of which exactly one was taken. *)
Theorem accept_enforces (l : Limiter) (ip0 : IpAddr) (p : Policy) (now : Instant) (t : Ticket)
  (l' : Limiter) :
  cfg_ok (l_cfg l) -> limiter_ok l -> exempt p = false -> observe p = false ->
  Limiter_accept l ip0 p now = Some (Some t, l') ->
  let cfg := l_cfg l in
  exists f i' net', mode_factor cfg p = Some f /\
    table_get (l_ip l') (key_ip ip0) = Some i' /\
    entry_debited cfg now Connect f (entry_or_new (l_ip l) (key_ip ip0) (ip_rates cfg) now) i' /\
    table_get (l_prefix l') (key_prefix cfg ip0) = Some net' /\
    entry_debited cfg now Connect f
      (entry_or_new (l_prefix l) (key_prefix cfg ip0) (prefix_rates cfg) now) net' /\
    debited cfg now f (quad_get (l_global l) Connect) (quad_get (l_global l') Connect).
Proof.
  intros Hc Hl He Ho H cfg. unfold Limiter_accept in H. cbv zeta in H.
  destruct (table_full _ _ || table_full _ _) in H; [discriminate H |].
  destruct (reached _ _ || reached _ _) in H; [discriminate H |].
  destruct (reached _ _ || reached _ _) in H; [discriminate H |].
  eapply accept_tokens_debited; eauto; apply entry_or_new_ok; auto; apply Hl || apply Hc.
Qed.

(** Enforcement of rate events: an event granted without observation or exemption found both
    identities free of penalties and took exactly one token at each of the three scopes. *)
Theorem event_enforces (l : Limiter) (t : Ticket) (ev : Event) (p : Policy) (now : Instant)
  (l' : Limiter) :
  cfg_ok (l_cfg l) -> limiter_ok l -> exempt p = false -> observe p = false ->
  Limiter_event l t ev p now = Some (true, l') ->
  let cfg := l_cfg l in
  exists f i net i' net', mode_factor cfg p = Some f /\
    table_get (l_ip l) (t_ip t) = Some i /\ table_get (l_ip l') (t_ip t) = Some i' /\
    entry_debited cfg now ev f i i' /\
    table_get (l_prefix l) (t_prefix t) = Some net /\ table_get (l_prefix l') (t_prefix t) = Some net' /\
    entry_debited cfg now ev f net net' /\
    debited cfg now f (quad_get (l_global l) ev) (quad_get (l_global l') ev).
Proof.
  intros Hc Hl He Ho H cfg. unfold Limiter_event in H. fold cfg in H.
  destruct (mode_factor cfg p) as [f |] eqn:Ff; [| discriminate H]. cbn [mbind option_bind] in H.
  pose proof (mode_factor_ok _ _ _ Hc Ff) as Hf.
  destruct (table_get (l_ip l) (t_ip t)) as [i |] eqn:Ei; [| discriminate H].
  destruct (table_get (l_prefix l) (t_prefix t)) as [n |] eqn:En; [| discriminate H].
  destruct (entry_available (set_touched i now) _ _ _ _) as [ip_ok i1] eqn:Ai.
  destruct (judged _ ip_ok _ _) as [[] m1] eqn:J1; cbn [negb] in H; [| discriminate H].
  destruct (entry_available (set_touched n now) _ _ _ _) as [prefix_ok n1] eqn:An.
  destruct (judged m1 _ _ _) as [[] m2] eqn:J2; cbn [negb] in H; [| discriminate H].
  destruct (Bucket_available _ _ _ _) as [global_ok g] eqn:Ag.
  destruct (judged m2 _ _ _) as [[] m3] eqn:J3; cbn [negb] in H; [| discriminate H].
  apply judged_enforced in J1 as ->; [| done | done].
  apply judged_enforced in J2 as ->; [| done | done].
  apply judged_enforced in J3 as ->; [| done | done].
  rewrite He in H. cbn [negb andb] in H. injection H as <-.
  exists f, i, n, (entry_consume i1 ev), (entry_consume n1 ev). cbn [l_ip l_prefix l_global].
  rewrite !table_get_put, !decide_True, quad_get_set_eq by (done || apply Hl).
  split_and!; try done;
    [apply (entry_debited_available cfg now ev f i i1); auto; apply (proj2 (lo_ip l Hl) _ _ Ei)
    | apply (entry_debited_available cfg now ev f n n1); auto; apply (proj2 (lo_prefix l Hl) _ _ En)
    | apply Bucket_debited; auto; apply Hl].
Qed.

(** ** Totality and penalties *)

Lemma mode_factor_total (cfg : Limits) (p : Policy) :
  cfg_ok cfg -> 0 <= mode p <= 3 -> exists f, mode_factor cfg p = Some f.
Proof.
  intros Hc Hm. unfold mode_factor. destruct (mode p <? 0) eqn:E; [lia |].
  apply lookup_lt_is_Some. rewrite (co_modes_length _ Hc). lia.
Qed.

Lemma accept_tokens_total (l : Limiter) (ip prefix : IpAddr) (i net : Entry) (p : Policy)
  (now : Instant) :
  cfg_ok (l_cfg l) -> 0 <= mode p <= 3 ->
  exists r, accept_tokens l ip prefix i net p now = Some r.
Proof.
  intros Hc Hm. unfold accept_tokens. destruct (mode_factor_total _ p Hc Hm) as [f ->].
  cbn [mbind option_bind]. repeat dmatch; eauto.
Qed.

Lemma accept_total (l : Limiter) (ip0 : IpAddr) (p : Policy) (now : Instant) :
  cfg_ok (l_cfg l) -> 0 <= mode p <= 3 -> exists r l', Limiter_accept l ip0 p now = Some (r, l').
Proof.
  intros Hc Hm. unfold Limiter_accept. cbv zeta. repeat (destruct (_ || _); [eauto |]).
  destruct (accept_tokens_total l (normalize ip0)
    (subnet (normalize ip0) (ipv4_prefix (l_cfg l)) (ipv6_prefix (l_cfg l)))
    (set_touched (entry_or_new (l_ip l) (normalize ip0) (ip_rates (l_cfg l)) now) now)
    (set_touched (entry_or_new (l_prefix l)
      (subnet (normalize ip0) (ipv4_prefix (l_cfg l)) (ipv6_prefix (l_cfg l)))
      (prefix_rates (l_cfg l)) now) now) p now Hc Hm) as [[r l'] E]. eauto.
Qed.

Lemma event_total (l : Limiter) (t : Ticket) (ev : Event) (p : Policy) (now : Instant) :
  cfg_ok (l_cfg l) -> 0 <= mode p <= 3 -> exists b l', Limiter_event l t ev p now = Some (b, l').
Proof.
  intros Hc Hm. unfold Limiter_event. destruct (mode_factor_total _ p Hc Hm) as [f ->].
  cbn [mbind option_bind]. repeat dmatch; eauto.
Qed.

(** With a validated configuration and a mode of the policy feed (0 to 3), neither [accept] nor
    [event] panics: every attempt is decided. *)
Theorem limiter_decides (l : Limiter) (ip0 : IpAddr) (t : Ticket) (ev : Event) (p : Policy)
  (now : Instant) :
  cfg_ok (l_cfg l) -> 0 <= mode p <= 3 ->
  (exists r l', Limiter_accept l ip0 p now = Some (r, l')) /\
  (exists b l', Limiter_event l t ev p now = Some (b, l')).
Proof. intros Hc Hm. split; [now apply accept_total | now apply event_total]. Qed.

(** The penalty an entry is serving at [now]. *)
Definition penalized (t : Table) (k : IpAddr) (now : Instant) : Prop :=
  exists e, table_get t k = Some e /\ now < e_penalty_until e.

Lemma judged_refuses (m : Metrics) (r : nat) (p : Policy) :
  exempt p = false -> observe p = false -> judged m false r p = (false, Metrics_inc m r).
Proof. intros He Ho. unfold judged. now rewrite He, Ho. Qed.

Lemma entry_available_penalized (e : Entry) (ev : Event) (now : Instant) (f : f64) (pb : bool) :
  now < e_penalty_until e -> fst (entry_available (set_touched e now) ev now f pb) = false.
Proof.
  intros H. unfold entry_available. destruct (Bucket_available _ _ _ _) as [ok b].
  cbn [fst set_touched e_penalty_until]. destruct (Z.leb_spec (e_penalty_until e) now); [lia |].
  apply andb_false_r.
Qed.

Lemma accept_tokens_penalized (l : Limiter) (ip prefix : IpAddr) (i net : Entry) (p : Policy)
  (now : Instant) (f : f64) :
  exempt p = false -> observe p = false -> mode_factor (l_cfg l) p = Some f ->
  now < e_penalty_until i \/ now < e_penalty_until net ->
  exists l', accept_tokens l ip prefix (set_touched i now) (set_touched net now) p now = Some (None, l').
Proof.
  intros He Ho Ff P. unfold accept_tokens. rewrite Ff. cbn [mbind option_bind].
  pose proof (entry_available_penalized i Connect now f (preserve_burst (l_cfg l))) as Pi.
  pose proof (entry_available_penalized net Connect now f (preserve_burst (l_cfg l))) as Pn.
  destruct (entry_available (set_touched i now) _ _ _ _) as [ip_ok i1].
  destruct (entry_available (set_touched net now) _ _ _ _) as [prefix_ok n1]. cbn [fst] in Pi, Pn.
  destruct (judged _ ip_ok _ _) as [[] m1] eqn:J1; cbn [negb]; [| eauto].
  apply judged_enforced in J1; [| done | done]. subst ip_ok.
  destruct P as [P | P]; [now apply Pi in P |]. rewrite Pn, judged_refuses by done. eauto.
Qed.

(** An address whose own penalty, or whose prefix's penalty, has not expired is refused by an
    enforcing policy, whatever its buckets hold. *)
Theorem penalty_refuses (l : Limiter) (ip0 : IpAddr) (p : Policy) (now : Instant) :
  cfg_ok (l_cfg l) -> 0 <= mode p <= 3 -> exempt p = false -> observe p = false ->
  penalized (l_ip l) (key_ip ip0) now \/ penalized (l_prefix l) (key_prefix (l_cfg l) ip0) now ->
  exists l', Limiter_accept l ip0 p now = Some (None, l').
Proof.
  intros Hc Hm He Ho P. destruct (mode_factor_total _ p Hc Hm) as [f Ff].
  unfold Limiter_accept. cbv zeta. repeat (destruct (_ || _); [eauto |]).
  eapply accept_tokens_penalized; [done | done | exact Ff |].
  destruct P as [(e & G & P) | (e & G & P)]; [left | right];
    unfold key_ip, key_prefix in G; now rewrite (entry_or_new_existing _ _ _ _ _ G).
Qed.

(** ** Churn *)

Section Churn.
Context (powf : f64 -> f64 -> f64).

Lemma release_entry_nonchurn (cfg : Limits) (t : Ticket) (is_ip : bool) (th : f64) (now : Instant)
  (e : Entry) :
  ticket_churn t = false ->
  e_score (release_entry powf cfg t is_ip th now e) = e_score e /\
  e_penalty_until (release_entry powf cfg t is_ip th now e) = e_penalty_until e.
Proof.
  intros H. unfold release_entry. rewrite H. cbn [andb].
  destruct (t_status t && is_ip), (negb (t_admitted t)); done.
Qed.

Lemma table_get_release (cfg : Limits) (t : Ticket) (is_ip : bool) (th : f64) (now : Instant)
  (tb : Table) (k k' : IpAddr) :
  table_wf tb ->
  table_get (release_in powf cfg t is_ip th now tb k) k' =
  if decide (k = k') then release_entry powf cfg t is_ip th now <$> table_get tb k'
  else table_get tb k'.
Proof.
  intros W. unfold release_in. destruct (table_get tb k) as [e |] eqn:G.
  - rewrite table_get_put by done. case_decide as D; [| done]. subst. now rewrite G.
  - case_decide as D; [| done]. subst. now rewrite G.
Qed.

(** The score and the penalty of every identity of a table. *)
Definition standing (t : Table) (k : IpAddr) : option (f64 * Instant) :=
  (fun e => (e_score e, e_penalty_until e)) <$> table_get t k.

(** Closing a connection that the server rejected, that completed a status exchange or that
    was admitted to the backend never changes a score or a penalty of any address or prefix, and
    does not count as churn. *)
Theorem drop_without_churn (l : Limiter) (t : Ticket) (now : Instant) :
  limiter_ok l ->
  t_server_rejected t = true \/ t_status_complete t = true \/ t_admitted t = true ->
  let l' := Ticket_drop powf l t now in
  (forall k, standing (l_ip l') k = standing (l_ip l) k) /\
  (forall k, standing (l_prefix l') k = standing (l_prefix l) k) /\
  Metrics_get (l_metrics l') 22 = Metrics_get (l_metrics l) 22.
Proof.
  intros [[W1 _] [W2 _] _] H l'.
  assert (Hc : ticket_churn t = false).
  { unfold ticket_churn. destruct H as [-> | [-> | ->]]; destruct (t_server_rejected t),
      (t_status_complete t), (t_admitted t); done. }
  assert (S : forall is_ip th tb key k, table_wf tb ->
    standing (release_in powf (l_cfg l) t is_ip th now tb key) k = standing tb k).
  { intros is_ip th tb key k W. unfold standing. rewrite table_get_release by done.
    case_decide; [| done]. destruct (table_get tb k) as [e |]; [| done]. cbn.
    destruct (release_entry_nonchurn (l_cfg l) t is_ip th now e Hc) as [-> ->]. done. }
  split_and!; [intros k; now apply S | intros k; now apply S |].
  cbn. unfold drop_metrics. rewrite Hc. destruct (negb (t_handshake t)); [| done].
  now rewrite Metrics_get_inc_ne.
Qed.
End Churn.

(** ** The idle sweep *)

(** A sweep of one shard removes exactly the entries of that shard that hold no connection, serve
    no penalty and have been idle for the configured time; every other identity is left as it is. *)
Theorem sweep_exact (l : Limiter) (shard : nat) (now : Instant) (k : IpAddr) :
  limiter_ok l ->
  let l' := Limiter_sweep l shard now in
  let gone t e := (shard mod 64)%nat = Table_shard t k /\ e_active e <= 0 /\
    e_penalty_until e <= now /\
    idle_entry_seconds (l_cfg l) <= as_secs (saturating_duration_since now (e_touched e)) in
  let exact_ t t' := match table_get t k, table_get t' k with
    | None, None => True
    | Some e, None => gone t e
    | Some e, Some e' => e' = e /\ ~ gone t e
    | None, Some _ => False
    end in
  exact_ (l_ip l) (l_ip l') /\ exact_ (l_prefix l) (l_prefix l').
Proof.
  intros [[W1 _] [W2 _] _] l' gone exact_.
  assert (S : forall t, table_wf t -> exact_ t (swept (l_cfg l) now shard t)).
  { intros t W. unfold exact_. rewrite table_get_swept by done.
    destruct (table_get t k) as [e |]; [| done].
    assert (K : sweep_keep (l_cfg l) now e = false <-> e_active e <= 0 /\ e_penalty_until e <= now /\
      idle_entry_seconds (l_cfg l) <= as_secs (saturating_duration_since now (e_touched e))).
    { unfold sweep_keep. rewrite !orb_false_iff, !Z.ltb_ge. tauto. }
    change (Z.to_nat SHARDS) with 64%nat.
    case_decide as D; unfold gone; rewrite <- K; tauto. }
  split; now apply S.
Qed.

(** ** The maintenance loop *)

(** The sweeps of consecutive rounds of the loop, from shard [shard] on, at the given clock readings. *)
Fixpoint sweep_cycle (l : Limiter) (shard : nat) (nows : list Instant) : Limiter :=
  match nows with
  | [] => l
  | now :: rest => sweep_cycle (Limiter_sweep l shard now) ((shard + 1) mod 64)%nat rest
  end.

(** The same on one table. *)
Fixpoint table_cycle (cfg : Limits) (t : Table) (shard : nat) (nows : list Instant) : Table :=
  match nows with
  | [] => t
  | now :: rest => table_cycle cfg (swept cfg now shard t) ((shard + 1) mod 64)%nat rest
  end.

Lemma sweep_cycle_tables (l : Limiter) (shard : nat) (nows : list Instant) :
  l_ip (sweep_cycle l shard nows) = table_cycle (l_cfg l) (l_ip l) shard nows /\
  l_prefix (sweep_cycle l shard nows) = table_cycle (l_cfg l) (l_prefix l) shard nows.
Proof.
  revert l shard. induction nows as [| now nows IH]; intros l shard; [done |]. cbn [sweep_cycle table_cycle].
  exact (IH (Limiter_sweep l shard now) _).
Qed.

Lemma table_cycle_get (cfg : Limits) (nows : list Instant) (k : IpAddr) :
  forall (t : Table) (shard : nat), table_wf t ->
  (table_get t k = None -> table_get (table_cycle cfg t shard nows) k = None) /\
  forall e, table_get t k = Some e ->
    (Forall (fun now => sweep_keep cfg now e = true) nows -> table_get (table_cycle cfg t shard nows) k = Some e) /\
    (Forall (fun now => sweep_keep cfg now e = false) nows ->
     forall i, (i < length nows)%nat -> ((shard + i) mod 64)%nat = Table_shard t k ->
       table_get (table_cycle cfg t shard nows) k = None).
Proof.
  induction nows as [| now nows IH]; intros t shard W; cbn [table_cycle length].
  { split; [done |]. intros e E. split; [done |]. intros _ i Hi. lia. }
  pose proof (table_get_swept cfg now shard t k W) as G. change (Z.to_nat SHARDS) with 64%nat in G.
  specialize (IH (swept cfg now shard t) ((shard + 1) mod 64)%nat (swept_wf cfg now shard t W)) as [N S].
  split; [intros E; apply N; now rewrite G, E |]. intros e E. rewrite E in G. split.
  - intros F. apply Forall_cons in F as [K F]. rewrite K, decide_False in G by (intros [_ ?]; discriminate).
    now apply (S e G).
  - intros F i Hi Hs. apply Forall_cons in F as [K F]. case_decide as D; [now apply N |].
    assert (Hi0 : i <> 0%nat).
    { intros ->. apply D. split; [| done]. now rewrite Nat.add_0_r in Hs. }
    apply (proj2 (S e G) F (i - 1)%nat); [lia |]. change (Table_shard (swept cfg now shard t) k) with (Table_shard t k).
    rewrite <- Hs, Nat.Div0.add_mod_idemp_l. f_equal. lia.
Qed.

(** From any shard, 64 rounds visit every shard. *)
Lemma every_shard (t : Table) (shard : nat) (k : IpAddr) :
  exists i, (i < 64)%nat /\ ((shard + i) mod 64)%nat = Table_shard t k.
Proof.
  pose proof (Table_shard_lt t k) as L. change (Z.to_nat SHARDS) with 64%nat in L.
  pose proof (Nat.mod_upper_bound shard 64 ltac:(lia)) as M. pose proof (Nat.div_mod_eq shard 64) as D.
  set (q := (shard / 64)%nat) in *. set (r := (shard mod 64)%nat) in *.
  destruct (Nat.le_gt_cases r (Table_shard t k)).
  - exists (Table_shard t k - r)%nat. split; [lia |].
    replace (shard + (Table_shard t k - r))%nat with (Table_shard t k + q * 64)%nat by lia.
    rewrite Nat.Div0.mod_add. now apply Nat.mod_small.
  - exists (Table_shard t k + 64 - r)%nat. split; [lia |].
    replace (shard + (Table_shard t k + 64 - r))%nat with (Table_shard t k + (q + 1) * 64)%nat by lia.
    rewrite Nat.Div0.mod_add. now apply Nat.mod_small.
Qed.

(** Idle identities are reclaimed. After 64 rounds of the maintenance loop, from whatever shard it
    starts, every address and prefix that held no connection, served no penalty and had been idle for
    the configured time in all of them is gone from its table; an identity with a live connection, a
    running penalty or recent activity in all of them is still there, unchanged. *)
Theorem maintenance_reclaims (l : Limiter) (shard : nat) (nows : list Instant) (k : IpAddr) (e : Entry) :
  limiter_ok l -> length nows = 64%nat ->
  let l' := sweep_cycle l shard nows in
  let idle := Forall (fun now => e_active e <= 0 /\ e_penalty_until e <= now /\
    idle_entry_seconds (l_cfg l) <= as_secs (saturating_duration_since now (e_touched e))) nows in
  let busy := Forall (fun now => 0 < e_active e \/ now < e_penalty_until e \/
    as_secs (saturating_duration_since now (e_touched e)) < idle_entry_seconds (l_cfg l)) nows in
  (table_get (l_ip l) k = Some e ->
     (idle -> table_get (l_ip l') k = None) /\ (busy -> table_get (l_ip l') k = Some e)) /\
  (table_get (l_prefix l) k = Some e ->
     (idle -> table_get (l_prefix l') k = None) /\ (busy -> table_get (l_prefix l') k = Some e)).
Proof.
  intros [[W1 _] [W2 _] _] Hl l' idle busy. unfold l'. destruct (sweep_cycle_tables l shard nows) as [-> ->].
  assert (G : forall t, table_wf t -> table_get t k = Some e ->
    (idle -> table_get (table_cycle (l_cfg l) t shard nows) k = None) /\
    (busy -> table_get (table_cycle (l_cfg l) t shard nows) k = Some e)).
  { intros t W E. destruct (proj2 (table_cycle_get (l_cfg l) nows k t shard W) e E) as [B I]. split.
    - intros F. destruct (every_shard t shard k) as (i & Hi & Hs). apply (I) with (i := i); [| lia | done].
      eapply Forall_impl; [exact F |]. intros now. unfold sweep_keep. rewrite !orb_false_iff, !Z.ltb_ge. tauto.
    - intros F. apply B. eapply Forall_impl; [exact F |]. intros now. unfold sweep_keep.
      rewrite !orb_true_iff, !Z.ltb_lt. tauto. }
  split; now apply G.
Qed.

(** ** Bursts *)

Section Burst.
Context (factor : f64) (preserve : bool).

(** Takes at the given clock readings: the number granted, and the bucket left. *)
Fixpoint take_run (b : Bucket) (nows : list Instant) : Z * Bucket :=
  match nows with
  | [] => (0, b)
  | now :: rest =>
    let '(ok, b') := Bucket_take b now factor preserve in
    let '(n, b'') := take_run b' rest in
    ((if ok then 1 else 0) + n, b'')
  end.

Lemma Bucket_available_reversed (b : Bucket) (now : Instant) :
  bucket_ok b -> enabled_rate (rate b) -> factor_ok factor -> now <= b_last b ->
  let '(ok, b') := Bucket_available b now factor preserve in
  rate b' = rate b /\ b_last b' = b_last b /\ bucket_ok b' /\
  val (tokens b') = Z.min (val (tokens b)) (val (bucket_cap (rate b) factor preserve)) /\
  (ok = true <-> unit64 <= val (tokens b')).
Proof.
  intros Hb He Hf Hn.
  pose proof (Bucket_available_ok b now factor preserve Hb Hf) as A.
  rewrite Bucket_available_spec in * by done. cbv zeta in A |- *.
  destruct A as (A1 & A2 & A3). cbn [rate b_last tokens] in *.
  specialize (A2 He). specialize (A3 He). split_and!; auto; try lia.
  destruct Hb as [Hd | (_ & Nt & Ft & _)];
    [destruct He as [Hp _]; now rewrite positive_not_zero in Hd |].
  pose proof (f64_add_nonneg _ _ Nt (bucket_refill_nonneg b now factor He Hf)) as Na.
  destruct (bucket_refill_reversed b now factor He Hf Hn) as [s R]. rewrite R in Na |- *.
  destruct (bucket_cap_ok (rate b) factor preserve He Hf) as (Nc & Fc & _).
  destruct (f64_add_zero_r (tokens b) s Nt) as [V F].
  destruct (f64_min_nonneg _ _ Na Nc Fc) as (_ & _ & _ & M & _).
  rewrite M by congruence. now rewrite V.
Qed.

Lemma Bucket_take_reversed (b : Bucket) (now : Instant) :
  bucket_ok b -> enabled_rate (rate b) -> factor_ok factor -> now <= b_last b ->
  let '(ok, b') := Bucket_take b now factor preserve in
  let held := Z.min (val (tokens b)) (val (bucket_cap (rate b) factor preserve)) in
  rate b' = rate b /\ b_last b' = b_last b /\ bucket_ok b' /\
  ok = (unit64 <=? held) /\ val (tokens b') = held - (if ok then unit64 else 0).
Proof.
  intros Hb He Hf Hn. pose proof (Bucket_available_reversed b now Hb He Hf Hn) as A.
  unfold Bucket_take. destruct (Bucket_available _ _ _ _) as [ok b1].
  destruct A as (R & L & O & V & I). destruct ok; cbn [negb].
  - assert (U : unit64 <= val (tokens b1)) by now apply I.
    destruct (Bucket_consume_ok b1 O (fun _ => U)) as [O' V']. rewrite R in V'.
    assert (rate (Bucket_consume b1) = rate b1 /\ b_last (Bucket_consume b1) = b_last b1) as [-> ->]
      by (unfold Bucket_consume; now destruct (f64_ltb _ _)).
    split_and!; auto; [symmetry; apply Z.leb_le; lia | rewrite V' by done; lia].
  - assert (~ unit64 <= val (tokens b1)) by (intros ?%I; done).
    split_and!; auto; [symmetry; apply Z.leb_gt; lia | lia].
Qed.

Lemma held_nonneg (b : Bucket) :
  bucket_ok b -> enabled_rate (rate b) -> factor_ok factor ->
  0 <= Z.min (val (tokens b)) (val (bucket_cap (rate b) factor preserve)).
Proof.
  intros Hb He Hf. destruct (bucket_cap_ok (rate b) factor preserve He Hf) as (Nc & _).
  destruct Hb as [Hd | (_ & Nt & _)];
    [destruct He as [Hp _]; now rewrite positive_not_zero in Hd |].
  pose proof (nonneg_val _ Nt). pose proof (nonneg_val _ Nc). lia.
Qed.

(** A bucket grants no more than it holds: over any sequence of takes at clock readings that do
    not advance past the last refill (a burst within one instant, or readings that arrive out of
    order), the number granted is exactly the whole tokens held, capped as the mode caps it, or
    the number of takes when that is less; the clock of the bucket does not move. *)
Theorem burst_exact (b : Bucket) (nows : list Instant) :
  bucket_ok b -> enabled_rate (rate b) -> factor_ok factor ->
  Forall (fun now => now <= b_last b) nows ->
  let held := Z.min (val (tokens b)) (val (bucket_cap (rate b) factor preserve)) in
  fst (take_run b nows) = Z.min (Z.of_nat (length nows)) (held / unit64) /\
  b_last (snd (take_run b nows)) = b_last b.
Proof.
  intros Hb He Hf Hall. assert (U : 0 < unit64) by (vm_compute; reflexivity). revert b Hb He Hall.
  induction nows as [| now rest IH]; intros b Hb He Hall held.
  - cbn [take_run length fst snd]. split; [| done].
    pose proof (Z.div_pos held unit64 (held_nonneg b Hb He Hf) U). lia.
  - cbn [take_run length]. inversion Hall as [| ? ? Hn Hrest]; subst.
    pose proof (Bucket_take_reversed b now Hb He Hf Hn) as T.
    destruct (Bucket_take b now factor preserve) as [ok b'].
    destruct T as (R & L & O & -> & V). fold held in V |- *.
    destruct (IH b' O) as [N T]; [now rewrite R | now rewrite L |]. rewrite R in N.
    destruct (take_run b' rest) as [n b'']. cbn [fst snd] in *. rewrite T, L. split; [| done].
    rewrite N. fold held in V.
    assert (C : Z.min (val (tokens b')) (val (bucket_cap (rate b) factor preserve)) =
      val (tokens b')) by (unfold held in V; destruct (unit64 <=? _); lia).
    rewrite C, V. destruct (Z.leb_spec unit64 held) as [G | G].
    + pose proof (Z.div_add (held - unit64) 1 unit64 ltac:(lia)) as D.
      replace (held - unit64 + 1 * unit64) with held in D by lia. lia.
    + rewrite Z.sub_0_r, (Z.div_small held) by (split; [now apply held_nonneg | done]). lia.
Qed.
End Burst.
