(* ===== verification/LimiterWitness.v ===== *)
(** * Instances of the limiter's properties

    Concrete runs of the sample configuration on which the hypotheses of the properties in
    [LimiterProps.v] hold. *)
From S2P Require Import Prelude Machine Float64 Metrics Net Config Limiter LimiterFacts.
From S2P Require Import LimiterSystem LimiterEffects LimiterInv Samples LimiterProps.
From stdpp Require Import base option list gmap relations.
From Stdlib Require Import ZArith Lia SpecFloat.
Local Open Scope Z_scope.

(** The limiter an operation leaves; the operations below do not panic. *)
Definition left_by {A : Type} (r : exec (A * Limiter)) : Limiter :=
  match r with Some (_, l) => l | None => w_lim world0 end.

Lemma left_by_result {A : Type} (r : exec (A * Limiter)) (x : A) :
  fst <$> r = Some x -> r = Some (x, left_by r).
Proof. destruct r as [[y l] |]; cbn; [now intros [= ->] | done]. Qed.

Lemma reachable_ok (w : World) :
  reachable sample_powf 10000 sample_limits w -> limiter_ok (w_lim w) /\ l_cfg (w_lim w) = sample_limits.
Proof.
  intros R. pose proof (inv_reachable sample_powf 10000 sample_limits sample_cfg_ok ltac:(lia) w R) as I.
  split; [apply (i_ok _ _ _ I) | apply (i_cfg _ _ _ I)].
Qed.

(** Three admissions exhaust the global connect burst. *)
Definition world3 : World := admit_world world2 2 addr3 2000.

Lemma world3_reachable : reachable sample_powf 10000 sample_limits world3.
Proof.
  apply admit_world_reachable; [vm_compute; reflexivity | vm_compute; reflexivity |].
  apply world2_reachable.
Qed.

Definition lim2 : Limiter := w_lim world2.
Definition lim3 : Limiter := w_lim world3.

Lemma lim2_ok : limiter_ok lim2.
Proof. exact (proj1 (reachable_ok _ world2_reachable)). Qed.
Lemma lim2_cfg : cfg_ok (l_cfg lim2).
Proof. unfold lim2. rewrite (proj2 (reachable_ok _ world2_reachable)). exact sample_cfg_ok. Qed.
Lemma lim3_ok : limiter_ok lim3.
Proof. exact (proj1 (reachable_ok _ world3_reachable)). Qed.

(** The world after an event of a live ticket. *)
Definition event_world (w : World) (t : Ticket) (ev : Event) (now : Instant) : World :=
  mkWorld (left_by (Limiter_event (w_lim w) t ev enforcing now)) (w_live w).

Lemma event_world_reachable (w : World) (tid : nat) (t : Ticket) (ev : Event) (now : Instant)
  (b : bool) :
  w_live w !! tid = Some (mkCell t Idle) ->
  fst <$> Limiter_event (w_lim w) t ev enforcing now = Some b ->
  reachable sample_powf 10000 sample_limits w ->
  reachable sample_powf 10000 sample_limits (event_world w t ev now).
Proof.
  intros L E (w0 & I & R). exists w0. split; [done |]. eapply rtc_r; [exact R |].
  eapply step_event; [exact L | exact (left_by_result _ b E)].
Qed.

(** Two logins leave half a token in the address's login bucket. *)
Definition world_logins : World := event_world (event_world world2 ticket1 Login 3000) ticket1 Login 4000.

Lemma world_logins_reachable : reachable sample_powf 10000 sample_limits world_logins.
Proof.
  apply (event_world_reachable _ 0 _ _ _ true); [vm_compute; reflexivity | vm_compute; reflexivity |].
  apply (event_world_reachable _ 0 _ _ _ true); [exact world2_ticket1 | vm_compute; reflexivity |].
  apply world2_reachable.
Qed.

Lemma accept_refusal_spends_nothing_witness :
  exists l', Limiter_accept lim3 addr1 enforcing 2000 = Some (None, l') /\
    limiter_kept (l_cfg lim3) enforcing 2000 lim3 l'.
Proof.
  eexists. assert (H : Limiter_accept lim3 addr1 enforcing 2000 =
    Some (None, left_by (Limiter_accept lim3 addr1 enforcing 2000)))
    by (apply left_by_result; vm_compute; reflexivity).
  split; [exact H |].
  exact (accept_refusal_spends_nothing lim3 addr1 enforcing 2000 _ lim3_ok H).
Defined.

Lemma event_rejection_spends_nothing_witness :
  exists l', Limiter_event (w_lim world_logins) ticket1 Login enforcing 5000 = Some (false, l') /\
    limiter_kept (l_cfg (w_lim world_logins)) enforcing 5000 (w_lim world_logins) l'.
Proof.
  eexists. assert (H : Limiter_event (w_lim world_logins) ticket1 Login enforcing 5000 =
    Some (false, left_by (Limiter_event (w_lim world_logins) ticket1 Login enforcing 5000)))
    by (apply left_by_result; vm_compute; reflexivity).
  split; [exact H |].
  exact (event_rejection_spends_nothing _ ticket1 Login enforcing 5000 _
    (proj1 (reachable_ok _ world_logins_reachable)) H).
Defined.

(** An admission and a login, each taking the global bucket's token. *)
Lemma accept_enforces_witness :
  exists l' f, Limiter_accept lim2 addr3 enforcing 2000 =
      Some (Some (mkTicket addr3 (V4 3325256704) false false false false false), l') /\
    debited (l_cfg lim2) 2000 f (quad_get (l_global lim2) Connect) (quad_get (l_global l') Connect).
Proof.
  assert (H : Limiter_accept lim2 addr3 enforcing 2000 =
    Some (Some (mkTicket addr3 (V4 3325256704) false false false false false),
      left_by (Limiter_accept lim2 addr3 enforcing 2000)))
    by (apply left_by_result; vm_compute; reflexivity).
  destruct (accept_enforces lim2 addr3 enforcing 2000 _ _ lim2_cfg lim2_ok eq_refl eq_refl H)
    as (f & i' & n' & _ & _ & _ & _ & _ & D).
  exists (left_by (Limiter_accept lim2 addr3 enforcing 2000)), f. split; [exact H | exact D].
Defined.

Lemma event_enforces_witness :
  exists l' f, Limiter_event lim2 ticket1 Login enforcing 3000 = Some (true, l') /\
    debited (l_cfg lim2) 3000 f (quad_get (l_global lim2) Login) (quad_get (l_global l') Login).
Proof.
  assert (H : Limiter_event lim2 ticket1 Login enforcing 3000 =
    Some (true, left_by (Limiter_event lim2 ticket1 Login enforcing 3000)))
    by (apply left_by_result; vm_compute; reflexivity).
  destruct (event_enforces lim2 ticket1 Login enforcing 3000 _ lim2_cfg lim2_ok eq_refl eq_refl H)
    as (f & i & n & i' & n' & _ & _ & _ & _ & _ & _ & _ & D).
  exists (left_by (Limiter_event lim2 ticket1 Login enforcing 3000)), f. split; [exact H | exact D].
Defined.

Lemma limiter_decides_witness :
  exists r l', Limiter_accept lim2 addr1 (mkPolicy 3 false false) 0 = Some (r, l').
Proof.
  exact (proj1 (limiter_decides lim2 addr1 ticket1 Login (mkPolicy 3 false false) 0 lim2_cfg
    ltac:(cbn; lia))).
Defined.

(** Closing the first connection without a handshake penalises its address for ten seconds. *)
Definition lim_churned : Limiter := Ticket_drop sample_powf lim2 ticket1 5000.

Lemma lim_churned_penalized : penalized (l_ip lim_churned) (key_ip addr1) 9000000000.
Proof.
  unfold penalized. destruct (table_get (l_ip lim_churned) (key_ip addr1)) as [e |] eqn:E.
  - exists e. split; [done |]. vm_compute in E. injection E as <-. reflexivity.
  - vm_compute in E. discriminate.
Qed.

Lemma penalty_refuses_witness :
  exists l', Limiter_accept lim_churned addr1 enforcing 9000000000 = Some (None, l').
Proof.
  exact (penalty_refuses lim_churned addr1 enforcing 9000000000 lim2_cfg ltac:(cbn; lia)
    eq_refl eq_refl (or_introl lim_churned_penalized)).
Defined.

Lemma drop_without_churn_witness :
  standing (l_ip (Ticket_drop sample_powf lim2 (set_ticket_admitted ticket1) 5000)) addr1 =
  standing (l_ip lim2) addr1.
Proof.
  exact (proj1 (drop_without_churn sample_powf lim2 (set_ticket_admitted ticket1) 5000 lim2_ok
    (or_intror (or_intror eq_refl))) addr1).
Defined.

Lemma lim2_addr1 : e_active <$> table_get (l_ip lim2) addr1 = Some 1.
Proof. vm_compute. reflexivity. Qed.

(** An hour later a sweep keeps the identity, because its connection is still open. *)
Lemma sweep_exact_witness :
  is_Some (table_get (l_ip (Limiter_sweep lim2 3 (from_secs 3600))) addr1).
Proof.
  pose proof lim2_addr1 as A.
  pose proof (proj1 (sweep_exact lim2 3 (from_secs 3600) addr1 lim2_ok)) as H. cbv zeta in H.
  revert A H. generalize (table_get (l_ip lim2) addr1) as o.
  generalize (table_get (l_ip (Limiter_sweep lim2 3 (from_secs 3600))) addr1) as o'.
  intros [e' |] [e |] A H; [now exists e' | destruct H | | discriminate A].
  destruct H as (_ & B & _). cbn in A. injection A as A. lia.
Defined.

(** The address of [lim2] still holds a connection, however late the sweeps are. *)
Lemma maintenance_reclaims_witness :
  exists e, table_get (l_ip (sweep_cycle lim2 5 (replicate 64 (from_secs 100000)))) addr1 = Some e.
Proof.
  pose proof lim2_addr1 as A. destruct (table_get (l_ip lim2) addr1) as [e |] eqn:E; [| discriminate A].
  exists e. refine (proj2 (proj1 (maintenance_reclaims lim2 5 (replicate 64 (from_secs 100000)) addr1 e lim2_ok eq_refl) E) _).
  apply Forall_replicate. left. cbn in A. injection A as A. lia.
Defined.

(** Five takes on a fresh bucket of burst 3 grant three. *)
Lemma burst_exact_witness :
  fst (take_run f64_one true (Bucket_new sample_rate 0) [0; 0; 0; 0; 0]) = 3.
Proof.
  rewrite (proj1 (burst_exact f64_one true (Bucket_new sample_rate 0) [0; 0; 0; 0; 0]
    (Bucket_new_ok _ _ (sample_rates_ok Connect))
    ltac:(destruct (sample_rates_ok Connect) as [H | H]; [vm_compute in H; discriminate | exact H])
    f64_one_factor ltac:(repeat constructor; cbn; lia))).
  vm_compute. reflexivity.
Defined.
