(* ===== verification/Wire.v ===== *)
(** * Wire primitives ([gate/src/protocol.rs])

    VarInts, length-prefixed frames and the bounds-checked cursor. Bytes are integers below 256;
    [is_bytes] says so of a buffer. *)
From S2P Require Import Prelude Machine.
From stdpp Require Import base option list.
From Stdlib Require Import ZArith Lia.
Local Open Scope Z_scope.
Local Open Scope gate_scope.

Definition is_bytes (l : list Z) : Prop := Forall is_u8 l.

Inductive Error : Type := Eof | Io | VarInt | Oversized | Invalid | Unsupported | Deadline | Slow.

#[global] Instance Error_eq_dec : EqDecision Error.
Proof. solve_decision. Defined.

(** ** VarInts *)

(** The loop of [varint] from index [i] on: [data] is what is left of the buffer and [n] the
    number of iterations left. *)
Fixpoint varint_from (n : nat) (i value : Z) (data : list Z) : result (option (Z * Z)) Error :=
  match n with
  | O => Err VarInt
  | S n =>
    match data with
    | [] => Ok None
    | b :: rest =>
      if (i =? 4) && negb (Z.land b 240 =? 0) then Err VarInt
      else
        let value := Z.lor value (wrap 32 (Z.shiftl (Z.land b 127) (7 * i))) in
        if Z.land b 128 =? 0 then Ok (Some (u32_as_i32 value, i + 1))
        else varint_from n (i + 1) value rest
    end
  end.

Definition varint (data : list Z) : result (option (Z * Z)) Error := varint_from 5 0 0 data.

(** The loop of [put_varint]; a 32-bit value leaves after at most five rounds. *)
Fixpoint put_varint_loop (fuel : nat) (v : Z) : list Z :=
  match fuel with
  | O => []
  | S fuel =>
    let b := Z.land v 127 in
    let v := Z.shiftr v 7 in
    let b := if negb (v =? 0) then Z.lor b 128 else b in
    b :: (if v =? 0 then [] else put_varint_loop fuel v)
  end.

Definition put_varint (value : Z) (out : list Z) : list Z :=
  out ++ put_varint_loop 5 (i32_as_u32 value).

(** [len as i32] of a buffer length. *)
Definition len_as_i32 (l : list Z) : Z := u32_as_i32 (wrap 32 (Z.of_nat (length l))).

Definition frame (body : list Z) : list Z := put_varint (len_as_i32 body) [] ++ body.

(** ** Cursors *)

Record Cursor : Type := mkCursor { data : list Z; pos : nat }.

Definition Cursor_new (d : list Z) : Cursor := mkCursor d 0.

Definition Cursor_int (c : Cursor) : result (Z * Cursor) Error :=
  let? r := varint (drop (pos c) (data c)) in
  let? (n, used) := ok_or r Invalid in
  Ok (n, mkCursor (data c) (pos c + Z.to_nat used)).

Definition Cursor_bytes (c : Cursor) (n : Z) : result (list Z * Cursor) Error :=
  if n >? usize_sub (Z.of_nat (length (data c))) (Z.of_nat (pos c)) then Err Invalid
  else Ok (take (Z.to_nat n) (drop (pos c) (data c)), mkCursor (data c) (pos c + Z.to_nat n)).

Definition Cursor_boolean (c : Cursor) : result (bool * Cursor) Error :=
  let? (b, c) := Cursor_bytes c 1 in
  match b with
  | 0 :: _ => Ok (false, c)
  | 1 :: _ => Ok (true, c)
  | _ => Err Invalid
  end.

Definition Cursor_blob (c : Cursor) (max : Z) : result (list Z * Cursor) Error :=
  let? (n, c) := Cursor_int c in
  if (n <? 0) || (n >? max) then Err Oversized else Cursor_bytes c n.

Definition Cursor_finish (c : Cursor) : result unit Error :=
  if (pos c =? length (data c))%nat then Ok tt else Err Invalid.

(** ** Bytes *)

Lemma u8_forall (P : Z -> bool) : forallb P (seqZ 0 256) = true -> forall b, is_u8 b -> P b = true.
Proof.
  intros H b Hb. rewrite forallb_forall in H. apply H, list_elem_of_In, elem_of_seqZ.
  unfold is_u8 in Hb. lia.
Qed.

Lemma land_127 (b : Z) : Z.land b 127 = b mod 128.
Proof. change 127 with (Z.ones 7). now rewrite Z.land_ones by lia. Qed.

Lemma land_128_u8 (b : Z) : is_u8 b -> (Z.land b 128 =? 0) = (b <? 128).
Proof.
  intros Hb. apply eqb_prop.
  revert b Hb. apply u8_forall. vm_compute. reflexivity.
Qed.

Lemma land_240_u8 (b : Z) : is_u8 b -> (Z.land b 240 =? 0) = (b <? 16).
Proof.
  intros Hb. apply eqb_prop.
  revert b Hb. apply u8_forall. vm_compute. reflexivity.
Qed.

Lemma lor_128 (b : Z) : 0 <= b < 128 -> Z.lor b 128 = b + 128.
Proof.
  intros H. rewrite <- Z.add_nocarry_lor; [done |].
  assert (Hb : is_u8 b) by (unfold is_u8; lia).
  pose proof (land_128_u8 b Hb) as E. destruct (Z.ltb_spec b 128); [| lia]. now apply Z.eqb_eq in E.
Qed.

(** Or-ing a value shifted above another adds it. *)
Lemma lor_shiftl_add (a b k : Z) :
  0 <= k -> 0 <= a < 2 ^ k -> 0 <= b -> Z.lor a (Z.shiftl b k) = a + b * 2 ^ k.
Proof.
  intros Hk Ha Hb. rewrite <- Z.shiftl_mul_pow2 by lia. symmetry. apply Z.add_nocarry_lor.
  apply Z.bits_inj'. intros n Hn. rewrite Z.land_spec, Z.bits_0.
  destruct (Z.ltb_spec n k); [now rewrite Z.shiftl_spec_low, andb_false_r |].
  destruct (Z.eq_dec a 0) as [-> | Hz]; [now rewrite Z.bits_0 |].
  rewrite Z.bits_above_log2; [done | lia |].
  apply Z.log2_lt_pow2; [lia |]. apply Z.lt_le_trans with (2 ^ k); [lia |].
  apply Z.pow_le_mono_r; lia.
Qed.

(** ** The reference reading of a VarInt: little-endian base 128 *)

Fixpoint leb_value (vs : list Z) : option Z :=
  match vs with
  | [] => None
  | b :: rest =>
    if b <? 128 then (match rest with [] => Some b | _ => None end)
    else (fun u => b - 128 + 128 * u) <$> leb_value rest
  end.

(** One round of the decoding loop. *)
Lemma varint_from_cons (n : nat) (i value b : Z) (rest : list Z) :
  0 <= i <= 4 -> 0 <= value < 2 ^ (7 * i) -> is_u8 b -> ((i =? 4) && (16 <=? b)) = false ->
  varint_from (S n) i value (b :: rest) =
  if b <? 128 then Ok (Some (u32_as_i32 (value + b * 2 ^ (7 * i)), i + 1))
  else varint_from n (i + 1) (value + (b - 128) * 2 ^ (7 * i)) rest.
Proof.
  intros Hi Hv Hb Hg. cbn [varint_from].
  rewrite land_240_u8, land_128_u8 by done.
  replace (negb (b <? 16)) with (16 <=? b) by (symmetry; now rewrite Z.ltb_antisym, negb_involutive).
  rewrite Hg, land_127.
  assert (Hm : 0 <= b mod 128 < 128) by (apply Z.mod_pos_bound; lia).
  assert (P : 0 < 2 ^ (7 * i)) by (apply Z.pow_pos_nonneg; lia).
  assert (W : wrap 32 (Z.shiftl (b mod 128) (7 * i)) = Z.shiftl (b mod 128) (7 * i)).
  { apply wrap_small. rewrite Z.shiftl_mul_pow2 by lia. split; [nia |].
    destruct (Z.eqb_spec i 4) as [-> | Hne].
    - cbn [andb] in Hg. breflect. rewrite Z.mod_small by (unfold is_u8 in Hb; lia). lia.
    - apply Z.lt_le_trans with (128 * 2 ^ (7 * i)); [nia |].
      change 128 with (2 ^ 7). rewrite <- Z.pow_add_r by lia. apply Z.pow_le_mono_r; lia. }
  rewrite W, lor_shiftl_add by lia. unfold is_u8 in Hb.
  destruct (Z.ltb_spec b 128); [now rewrite Z.mod_small by lia |].
  replace (b mod 128) with (b - 128); [done |].
  rewrite <- (Z.mod_add b (-1)) by lia. rewrite Z.mod_small; lia.
Qed.

Lemma pow7_succ (i : Z) : 0 <= i -> 2 ^ (7 * (i + 1)) = 128 * 2 ^ (7 * i).
Proof. intros. replace (7 * (i + 1)) with (7 + 7 * i) by lia. rewrite Z.pow_add_r by lia. done. Qed.

Lemma pow7_bound (i : Z) : 0 <= i <= 3 -> 128 * 2 ^ (7 * i) <= 2 ^ 28.
Proof. intros. rewrite <- pow7_succ by lia. apply Z.pow_le_mono_r; lia. Qed.

Lemma leb_value_nonneg (vs : list Z) (u : Z) : is_bytes vs -> leb_value vs = Some u -> 0 <= u.
Proof.
  revert u. induction vs as [| b vs IH]; intros u Hb H; [discriminate |].
  inversion Hb as [| ? ? Hu Hr]; subst. unfold is_u8 in Hu. cbn in H.
  destruct (Z.ltb_spec b 128).
  - destruct vs; [injection H as <-; lia | discriminate].
  - destruct (leb_value vs) as [w |]; [| discriminate]. injection H as <-.
    pose proof (IH w Hr eq_refl). lia.
Qed.

Lemma leb_value_app (vs vs' : list Z) (u : Z) :
  leb_value vs = Some u -> is_Some (leb_value (vs ++ vs')) -> vs' = [].
Proof.
  revert u. induction vs as [| b vs IH]; intros u H [w H']; [discriminate |].
  cbn in H, H'. destruct (Z.ltb_spec b 128).
  - destruct vs; [| discriminate]. now destruct vs'.
  - destruct (leb_value vs) as [x |] eqn:E; [| discriminate].
    destruct (leb_value (vs ++ vs')) eqn:E'; [| discriminate]. eapply IH; eauto.
Qed.

(** What the loop returns, against the reference reading. *)
Lemma varint_from_some (n : nat) (i value : Z) (data : list Z) (r k : Z) :
  Z.of_nat n = 5 - i -> 0 <= i -> 0 <= value < 2 ^ (7 * i) -> is_bytes data ->
  varint_from n i value data = Ok (Some (r, k)) <->
  exists vs rest u, data = vs ++ rest /\ leb_value vs = Some u /\ k = i + Z.of_nat (length vs) /\
    k <= 5 /\ value + u * 2 ^ (7 * i) < 2 ^ 32 /\ r = u32_as_i32 (value + u * 2 ^ (7 * i)).
Proof.
  revert i value data. induction n as [| n IH]; intros i value data Hn Hi Hv Hb.
  { split; [done |]. intros (vs & rest & u & -> & Hl & -> & Hk & _).
    destruct vs; [discriminate |]. cbn in Hk. lia. }
  destruct data as [| b rest].
  { split; [done |]. intros (vs & rest & u & E & Hl & _). destruct vs; [discriminate Hl | discriminate E]. }
  inversion Hb as [| ? ? Hu Hr]; subst. assert (0 < 2 ^ (7 * i)) by (apply Z.pow_pos_nonneg; lia).
  destruct ((i =? 4) && (16 <=? b)) eqn:G.
  - breflect. subst i. split.
    + cbn [varint_from]. rewrite land_240_u8 by done. destruct (Z.ltb_spec b 16); [lia | done].
    + intros (vs & rest' & u & E & Hl & -> & Hk & Hlt & _). exfalso.
      destruct vs as [| b' [| b2 vs]]; [discriminate | | cbn in Hk; lia]. injection E as <- <-.
      cbn in Hl. destruct (Z.ltb_spec b 128); [injection Hl as <-; lia | discriminate].
  - rewrite varint_from_cons by (done || lia). destruct (Z.ltb_spec b 128) as [Hlt | Hge].
    + split.
      * intros [= <- <-]. exists [b], rest, b. cbn. destruct (Z.ltb_spec b 128); [| lia].
        split_and!; auto; try lia.
        destruct (Z.eqb_spec i 4) as [-> | Hne]; [cbn [andb] in G; breflect; lia |].
        pose proof (pow7_bound i ltac:(lia)). unfold is_u8 in Hu. nia.
      * intros (vs & rest' & u & E & Hl & -> & Hk & _ & ->).
        destruct vs as [| b' vs]; [discriminate |]. injection E as <- ->. cbn in Hl.
        destruct (Z.ltb_spec b 128); [| lia]. destruct vs; [| discriminate]. injection Hl as <-. done.
    + unfold is_u8 in Hu. destruct (Z.eq_dec i 4) as [-> | Hne]; [cbn [Z.eqb Pos.eqb andb] in G; breflect; lia |].
      rewrite IH; [| lia | lia | rewrite pow7_succ by lia; nia | done]. rewrite pow7_succ by lia.
      split.
      * intros (vs & rest' & u & -> & Hl & -> & Hk & Hlt & ->).
        exists (b :: vs), rest', (b - 128 + 128 * u). cbn [leb_value app length].
        destruct (Z.ltb_spec b 128); [lia |]. rewrite Hl.
        split_and!; auto; try lia. f_equal. lia.
      * intros (vs & rest' & u & E & Hl & -> & Hk & Hlt & ->).
        destruct vs as [| b' vs]; [discriminate |]. injection E as <- ->. cbn [leb_value] in Hl.
        destruct (Z.ltb_spec b 128); [lia |].
        destruct (leb_value vs) as [w |] eqn:Ew; [| discriminate]. injection Hl as <-.
        exists vs, rest', w. cbn [length] in *. split_and!; auto; try lia. f_equal. lia.
Qed.

(** An encoding of [n]: one to five bytes that [varint] reads entirely as [n]. *)
Definition encodes (n : Z) (vs : list Z) : Prop :=
  exists u, leb_value vs = Some u /\ (length vs <= 5)%nat /\ u < 2 ^ 32 /\ n = u32_as_i32 u.

Lemma encodes_varint (n : Z) (vs rest : list Z) :
  is_bytes (vs ++ rest) -> encodes n vs -> varint (vs ++ rest) = Ok (Some (n, Z.of_nat (length vs))).
Proof.
  intros Hb (u & Hl & Hk & Hu & ->). apply varint_from_some; try done; try lia.
  exists vs, rest, u. rewrite Z.mul_1_r, !Z.add_0_l. split_and!; auto; lia.
Qed.

Lemma varint_encodes (d : list Z) (n k : Z) :
  is_bytes d -> varint d = Ok (Some (n, k)) ->
  exists vs rest, d = vs ++ rest /\ encodes n vs /\ k = Z.of_nat (length vs).
Proof.
  intros Hb H. apply varint_from_some in H; try done; try lia.
  destruct H as (vs & rest & u & -> & Hl & -> & Hk & Hlt & ->).
  rewrite Z.mul_1_r, Z.add_0_l in *. exists vs, rest. split_and!; try done. exists u. split_and!; auto; lia.
Qed.

Lemma encodes_length (n : Z) (vs : list Z) : encodes n vs -> (1 <= length vs <= 5)%nat.
Proof. intros (u & Hl & Hk & _). destruct vs; [discriminate | cbn in *; lia]. Qed.

Lemma encodes_i32 (n : Z) (vs : list Z) : is_bytes vs -> encodes n vs -> is_i32 n.
Proof.
  intros Hb (u & Hl & _ & Hu & ->). apply u32_as_i32_range. split; [| done].
  eapply leb_value_nonneg; eauto.
Qed.

(** ** The encoder *)

Lemma put_varint_loop_value (fuel : nat) (v : Z) :
  (0 < fuel)%nat -> 0 <= v < 128 ^ Z.of_nat fuel -> leb_value (put_varint_loop fuel v) = Some v.
Proof.
  revert v. induction fuel as [| fuel IH]; intros v Hf Hv; [lia |].
  cbn [put_varint_loop]. rewrite land_127, Z.shiftr_div_pow2 by lia. change (2 ^ 7) with 128.
  assert (Hm : 0 <= v mod 128 < 128) by (apply Z.mod_pos_bound; lia).
  pose proof (Z.div_mod v 128 ltac:(lia)) as D.
  destruct (Z.eqb_spec (v / 128) 0) as [E | E]; cbn [negb leb_value].
  - destruct (Z.ltb_spec (v mod 128) 128); [f_equal; lia | lia].
  - rewrite lor_128 by done. destruct (Z.ltb_spec (v mod 128 + 128) 128); [lia |].
    assert (0 <= v / 128 < 128 ^ Z.of_nat fuel).
    { split; [apply Z.div_pos; lia |]. apply Z.div_lt_upper_bound; [lia |].
      rewrite Nat2Z.inj_succ, Z.pow_succ_r in Hv by lia. lia. }
    assert ((0 < fuel)%nat) by (destruct fuel; [cbn in *; lia | lia]).
    rewrite IH by done. cbn. f_equal. lia.
Qed.

Lemma put_varint_loop_bytes (fuel : nat) (v : Z) : 0 <= v -> is_bytes (put_varint_loop fuel v).
Proof.
  revert v. induction fuel as [| fuel IH]; intros v Hv; [constructor |].
  cbn [put_varint_loop]. rewrite land_127, Z.shiftr_div_pow2 by lia. change (2 ^ 7) with 128.
  assert (Hm : 0 <= v mod 128 < 128) by (apply Z.mod_pos_bound; lia).
  destruct (Z.eqb_spec (v / 128) 0); cbn [negb]; constructor;
    rewrite ?lor_128 by done; unfold is_u8; try lia; [constructor |].
  apply IH, Z.div_pos; lia.
Qed.

Lemma put_varint_loop_length (fuel : nat) (v : Z) : (length (put_varint_loop fuel v) <= fuel)%nat.
Proof.
  revert v. induction fuel as [| fuel IH]; intros v; [done |]. cbn [put_varint_loop].
  destruct (Z.shiftr v 7 =? 0); cbn [length]; [lia |]. specialize (IH (Z.shiftr v 7)). lia.
Qed.

Lemma put_varint_bytes (v : Z) (out : list Z) : is_bytes out -> is_bytes (put_varint v out).
Proof.
  intros H. apply Forall_app_2; [done |]. apply put_varint_loop_bytes.
  unfold i32_as_u32. pose proof (wrap_range 32 v). lia.
Qed.

Lemma put_varint_encodes (v : Z) : is_i32 v -> encodes v (put_varint v []).
Proof.
  intros Hv. exists (i32_as_u32 v). pose proof (wrap_range 32 v ltac:(lia)) as W.
  unfold put_varint. cbn [app]. split_and!.
  - apply put_varint_loop_value; [lia |]. unfold i32_as_u32. split; [lia |].
    apply Z.lt_le_trans with (2 ^ 32); [lia | vm_compute; discriminate].
  - apply put_varint_loop_length.
  - unfold i32_as_u32. lia.
  - now rewrite i32_roundtrip.
Qed.

(** VarInt round trip: every 32-bit integer is read back from its own encoding, whatever bytes
    follow it, and the reader consumes exactly the encoding. *)
Theorem varint_roundtrip (v : Z) (rest : list Z) :
  is_i32 v -> is_bytes rest ->
  varint (put_varint v [] ++ rest) = Ok (Some (v, Z.of_nat (length (put_varint v [])))).
Proof.
  intros Hv Hr. apply encodes_varint; [| now apply put_varint_encodes].
  apply Forall_app_2; [apply put_varint_bytes; constructor | done].
Qed.

Lemma varint_roundtrip_witness : varint (put_varint (-1) [] ++ [7; 9]) = Ok (Some (-1, 5)).
Proof.
  exact (varint_roundtrip (-1) [7; 9] ltac:(unfold is_i32; lia)
    ltac:(repeat constructor; unfold is_u8; lia)).
Defined.

Lemma varint_from_none (n : nat) (i value : Z) (data : list Z) :
  Z.of_nat n = 5 - i -> 0 <= i -> 0 <= value < 2 ^ (7 * i) -> is_bytes data ->
  varint_from n i value data = Ok None <-> (length data < n)%nat /\ Forall (fun b => 128 <= b) data.
Proof.
  revert i value data. induction n as [| n IH]; intros i value data Hn Hi Hv Hb.
  { split; [done | intros [H _]; lia]. }
  destruct data as [| b rest].
  { split; [intros _; cbn; split; [lia | constructor] | done]. }
  inversion Hb as [| ? ? Hu Hr]; subst. assert (0 < 2 ^ (7 * i)) by (apply Z.pow_pos_nonneg; lia).
  destruct ((i =? 4) && (16 <=? b)) eqn:G.
  - breflect. subst i. cbn [varint_from]. rewrite land_240_u8 by done.
    destruct (Z.ltb_spec b 16); [lia |]. split; [done | cbn; intros [L _]; lia].
  - rewrite varint_from_cons by (done || lia). rewrite Forall_cons. destruct (Z.ltb_spec b 128).
    { split; [done | intros (_ & ? & _); lia]. }
    unfold is_u8 in Hu. destruct (Z.eq_dec i 4) as [-> | Hne]; [cbn [Z.eqb Pos.eqb andb] in G; breflect; lia |].
    rewrite IH; [| lia | lia | rewrite pow7_succ by lia; nia | done]. cbn [length]. split; intros; intuition lia.
Qed.

Lemma varint_from_err (n : nat) (i value : Z) (data : list Z) (e : Error) :
  Z.of_nat n = 5 - i -> 0 <= i <= 4 -> 0 <= value < 2 ^ (7 * i) -> is_bytes data ->
  varint_from n i value data = Err e <->
  e = VarInt /\ exists vs b rest, data = vs ++ b :: rest /\ S (length vs) = n /\
    Forall (fun b => 128 <= b) vs /\ 16 <= b.
Proof.
  revert i value data. induction n as [| n IH]; intros i value data Hn Hi Hv Hb; [lia |].
  destruct data as [| b rest].
  { split; [done | intros (_ & [] & ? & ? & ? & _); discriminate]. }
  inversion Hb as [| ? ? Hu Hr]; subst. assert (0 < 2 ^ (7 * i)) by (apply Z.pow_pos_nonneg; lia).
  destruct ((i =? 4) && (16 <=? b)) eqn:G.
  - breflect. subst i. cbn [varint_from]. rewrite land_240_u8 by done.
    destruct (Z.ltb_spec b 16); [lia |]. split.
    + intros [= <-]. split; [done |]. exists [], b, rest. split_and!; auto; cbn; lia.
    + now intros [-> _].
  - rewrite varint_from_cons by (done || lia). destruct (Z.ltb_spec b 128).
    { split; [done |]. intros (_ & vs & b' & r & E & L & A & B). exfalso.
      destruct vs as [| v vs]; injection E as <- ->; [| inversion A; lia].
      cbn in L. assert (i = 4) as -> by lia. cbn [Z.eqb Pos.eqb andb] in G. breflect. lia. }
    unfold is_u8 in Hu. destruct (Z.eq_dec i 4) as [-> | Hne]; [cbn [Z.eqb Pos.eqb andb] in G; breflect; lia |].
    rewrite IH; [| lia | lia | rewrite pow7_succ by lia; nia | done].
    split; intros [-> (vs & b' & r & E & L & A & B)]; (split; [done |]).
    + exists (b :: vs), b', r. rewrite E. split_and!; auto; cbn; lia.
    + destruct vs as [| v vs]; [cbn in L; lia |]. injection E as <- ->.
      exists vs, b', r. inversion A; subst. cbn in L. split_and!; auto; lia.
Qed.

(** [varint] against its reference reading, on every buffer: it returns a value exactly for a
    little-endian base-128 encoding of at most five bytes below 2^32 at the front of the buffer
    (non-minimal encodings included), asks for more bytes exactly when the buffer is a proper
    prefix of continuation bytes, and rejects exactly when five bytes do not fit 32 bits. *)
Theorem varint_classifies (d : list Z) :
  is_bytes d ->
  (forall n k, varint d = Ok (Some (n, k)) <->
    exists vs rest, d = vs ++ rest /\ encodes n vs /\ k = Z.of_nat (length vs)) /\
  (varint d = Ok None <-> (length d < 5)%nat /\ Forall (fun b => 128 <= b) d) /\
  (forall e, varint d = Err e <-> e = VarInt /\ exists vs b rest, d = vs ++ b :: rest /\
    length vs = 4%nat /\ Forall (fun b => 128 <= b) vs /\ 16 <= b).
Proof.
  intros Hb. split_and!.
  - intros n k. split; [now apply varint_encodes |].
    intros (vs & rest & -> & He & ->). now apply encodes_varint.
  - apply varint_from_none; done || lia.
  - intros e. rewrite (varint_from_err 5 0 0 d e) by (done || lia).
    split; intros [-> (vs & b & rest & -> & L & A & B)]; (split; [done |]);
      exists vs, b, rest; split_and!; auto; lia.
Qed.

Lemma varint_classifies_witness :
  varint [255; 255; 255; 255; 16; 0] = Err VarInt /\
  exists vs b rest, [255; 255; 255; 255; 16; 0] = vs ++ b :: rest /\ length vs = 4%nat /\ 16 <= b.
Proof.
  assert (Hb : is_bytes [255; 255; 255; 255; 16; 0]) by (repeat constructor; unfold is_u8; lia).
  split; [reflexivity |].
  destruct (proj1 (proj2 (proj2 (varint_classifies _ Hb)) VarInt) eq_refl)
    as (_ & vs & b & rest & E & L & _ & B).
  exists vs, b, rest. auto.
Defined.

(** ** Cursors over a buffer *)

(** The cursor stands in a well-formed buffer with [l] left to read. *)
Definition reads (c : Cursor) (l : list Z) : Prop :=
  (pos c <= length (data c))%nat /\ Z.of_nat (length (data c)) < 2 ^ 64 /\ is_bytes (data c) /\
  drop (pos c) (data c) = l.

Definition advance (c : Cursor) (k : nat) : Cursor := mkCursor (data c) (pos c + k).

Lemma reads_new (d : list Z) : is_bytes d -> Z.of_nat (length d) < 2 ^ 64 -> reads (Cursor_new d) d.
Proof. intros Hb Hl. split_and!; auto. cbn. lia. Qed.

Lemma reads_bytes (c : Cursor) (l : list Z) : reads c l -> is_bytes l.
Proof. intros (_ & _ & Hb & <-). now apply Forall_drop. Qed.

Lemma reads_length (c : Cursor) (l : list Z) : reads c l -> length l = (length (data c) - pos c)%nat.
Proof. intros (_ & _ & _ & <-). apply length_drop. Qed.

Lemma reads_advance (c : Cursor) (vs r : list Z) :
  reads c (vs ++ r) -> reads (advance c (length vs)) r.
Proof.
  intros H. pose proof (reads_length c _ H) as L. rewrite length_app in L.
  destruct H as (Hp & Hl & Hb & E). unfold reads, advance. cbn [data pos].
  split_and!; auto; [lia |]. rewrite <- drop_drop, E. apply drop_app_length.
Qed.

Lemma Cursor_int_iff (c : Cursor) (l : list Z) (n : Z) (c' : Cursor) :
  reads c l ->
  Cursor_int c = Ok (n, c') <->
  exists vs r, l = vs ++ r /\ encodes n vs /\ c' = advance c (length vs).
Proof.
  intros H. pose proof (reads_bytes c l H) as Hb. destruct H as (_ & _ & _ & E).
  unfold Cursor_int. rewrite E. split.
  - intros I. destruct (varint l) as [[[m k] |] | e] eqn:V; cbn [result_bind ok_or] in I;
      [| discriminate | discriminate]. injection I as -> <-.
    apply varint_encodes in V as (vs & r & -> & He & ->); [| done].
    exists vs, r. rewrite Nat2Z.id. auto.
  - intros (vs & r & -> & He & ->). rewrite (encodes_varint n) by done. cbn [result_bind ok_or].
    now rewrite Nat2Z.id.
Qed.

Lemma Cursor_bytes_iff (c : Cursor) (l : list Z) (n : Z) (b : list Z) (c' : Cursor) :
  reads c l -> 0 <= n ->
  Cursor_bytes c n = Ok (b, c') <->
  exists r, l = b ++ r /\ Z.of_nat (length b) = n /\ c' = advance c (length b).
Proof.
  intros H Hn. pose proof (reads_length c l H) as L. destruct H as (Hp & Hl & _ & E).
  unfold Cursor_bytes. rewrite usize_sub_exact, E by (unfold is_u64; lia).
  rewrite Z.gtb_ltb. destruct (Z.ltb_spec (Z.of_nat (length (data c)) - Z.of_nat (pos c)) n) as [G | G].
  - split; [done |]. intros (r & -> & <- & _). rewrite length_app in L. lia.
  - assert (Lt : length (take (Z.to_nat n) l) = Z.to_nat n) by (rewrite length_take; lia). split.
    + intros [= <- <-]. exists (drop (Z.to_nat n) l). rewrite take_drop, Lt. split_and!; auto. lia.
    + intros (r & -> & <- & ->). rewrite Nat2Z.id, take_app_length. reflexivity.
Qed.

Lemma Cursor_blob_iff (c : Cursor) (l : list Z) (max : Z) (b : list Z) (c' : Cursor) :
  reads c l ->
  Cursor_blob c max = Ok (b, c') <->
  exists vs r, l = vs ++ b ++ r /\ encodes (Z.of_nat (length b)) vs /\ Z.of_nat (length b) <= max /\
    c' = advance c (length (vs ++ b)).
Proof.
  intros H. unfold Cursor_blob. split.
  - intros I. destruct (Cursor_int c) as [[n c1] | e] eqn:E; cbn [result_bind] in I; [| discriminate].
    destruct ((n <? 0) || (n >? max)) eqn:G; [discriminate |]. breflect.
    apply (Cursor_int_iff c l) in E as (vs & r & -> & He & ->); [| done].
    apply (Cursor_bytes_iff _ r) in I as (r' & -> & <- & ->); [| now apply reads_advance | done].
    exists vs, r'. split_and!; auto. unfold advance. cbn [data pos]. now rewrite length_app, Nat.add_assoc.
  - intros (vs & r & -> & He & Hm & ->).
    rewrite (proj2 (Cursor_int_iff c (vs ++ b ++ r) (Z.of_nat (length b)) (advance c (length vs)) H)) by eauto.
    cbn [result_bind]. rewrite Z.gtb_ltb. destruct (Z.ltb_spec (Z.of_nat (length b)) 0); [lia |].
    destruct (Z.ltb_spec max (Z.of_nat (length b))); [lia |]. cbn [orb].
    apply (Cursor_bytes_iff _ (b ++ r)); [now apply reads_advance | lia |].
    exists r. split_and!; auto. unfold advance. cbn [data pos]. now rewrite length_app, Nat.add_assoc.
Qed.

Lemma Cursor_boolean_iff (c : Cursor) (l : list Z) (b : bool) (c' : Cursor) :
  reads c l ->
  Cursor_boolean c = Ok (b, c') <->
  exists r, l = (if b then 1 else 0) :: r /\ c' = advance c 1.
Proof.
  intros H. unfold Cursor_boolean. split.
  - intros I. destruct (Cursor_bytes c 1) as [[x c1] | e] eqn:E; cbn [result_bind] in I; [| discriminate].
    apply (Cursor_bytes_iff c l) in E as (r & -> & Hx & ->); [| done | lia].
    destruct x as [| x [| y z]]; [cbn in Hx; lia | | cbn in Hx; lia].
    exists r. destruct x as [| [] |]; try discriminate; injection I as <- <-; done.
  - intros (r & -> & ->).
    rewrite (proj2 (Cursor_bytes_iff c _ 1 [if b then 1 else 0] (advance c 1) H ltac:(lia)))
      by (exists r; done).
    cbn [result_bind]. now destruct b.
Qed.

Lemma Cursor_finish_iff (c : Cursor) (l : list Z) (u : unit) :
  reads c l -> Cursor_finish c = Ok u <-> l = [].
Proof.
  intros H. pose proof (reads_length c l H) as L. destruct H as (Hp & _). unfold Cursor_finish. destruct u.
  destruct (Nat.eqb_spec (pos c) (length (data c))) as [E | E].
  - split; [intros _; apply length_zero_iff_nil; lia | done].
  - split; [done |]. intros ->. cbn in L. lia.
Qed.

(** ** Prefixes of an encoding *)

Lemma leb_value_prefix (p q : list Z) (u : Z) :
  leb_value (p ++ q) = Some u -> q <> [] -> Forall (fun b => 128 <= b) p.
Proof.
  revert u. induction p as [| b p IH]; intros u H Hq; [constructor |]. cbn in H.
  destruct (Z.ltb_spec b 128) as [L | L].
  - destruct (p ++ q) eqn:E; [| discriminate]. apply app_nil in E as [_ ->]. done.
  - destruct (leb_value (p ++ q)) as [w |] eqn:E; [| discriminate]. constructor; [lia |]. eauto.
Qed.

(** A proper prefix of an encoding asks for more bytes. *)
Lemma varint_prefix (n : Z) (p q : list Z) :
  is_bytes p -> encodes n (p ++ q) -> q <> [] -> varint p = Ok None.
Proof.
  intros Hb (u & Hl & Hk & _) Hq. apply varint_from_none; try done; try lia.
  split; [| now apply (leb_value_prefix p q u)].
  rewrite length_app in Hk. destruct q; [done | cbn in Hk; lia].
Qed.

Lemma put_varint_loop_short (fuel : nat) (v : Z) (k : nat) :
  (0 < k)%nat -> 0 <= v < 128 ^ Z.of_nat k -> (length (put_varint_loop fuel v) <= k)%nat.
Proof.
  revert v k. induction fuel as [| fuel IH]; intros v k Hk Hv; [cbn; lia |].
  cbn [put_varint_loop]. rewrite Z.shiftr_div_pow2 by lia. change (2 ^ 7) with 128.
  destruct (Z.eqb_spec (v / 128) 0) as [E | E]; cbn [length]; [lia |].
  destruct k as [| k]; [lia |]. rewrite Nat2Z.inj_succ, Z.pow_succ_r in Hv by lia.
  assert (D : 0 <= v / 128 < 128 ^ Z.of_nat k)
    by (split; [apply Z.div_pos; lia | apply Z.div_lt_upper_bound; lia]).
  assert ((0 < k)%nat) by (destruct k; [cbn in D; lia | lia]).
  specialize (IH (v / 128) k ltac:(lia) D). lia.
Qed.
