(* ===== verification/Utf8.v ===== *)
(** * Strings of the Rust standard library

    [str] is a byte buffer that holds well-formed UTF-8; this file models the operations of [str]
    and [char] that the gate uses on network input: validation, iteration over characters, UTF-16
    length, control characters, ASCII case-insensitive comparison and splitting at NUL. *)
From S2P Require Import Prelude Machine Wire.
From stdpp Require Import base option list.
From Stdlib Require Import ZArith Lia.
Local Open Scope Z_scope.

(** A continuation byte. *)
Definition is_cont (b : Z) : bool := (128 <=? b) && (b <=? 191).

(** A Unicode scalar value. *)
Definition is_scalar (c : Z) : bool :=
  (0 <=? c) && (c <=? 1114111) && negb ((55296 <=? c) && (c <=? 57343)).

(** The characters of a buffer, when it is well-formed UTF-8: shortest forms only, no surrogates,
    nothing above U+10FFFF. *)
Fixpoint utf8_decode (l : list Z) : option (list Z) :=
  match l with
  | [] => Some []
  | b0 :: r0 =>
    if b0 <? 128 then cons b0 <$> utf8_decode r0
    else match r0 with
    | [] => None
    | b1 :: r1 =>
      if (192 <=? b0) && (b0 <=? 223) then
        let c := (b0 - 192) * 64 + (b1 - 128) in
        if is_cont b1 && (128 <=? c) then cons c <$> utf8_decode r1 else None
      else match r1 with
      | [] => None
      | b2 :: r2 =>
        if (224 <=? b0) && (b0 <=? 239) then
          let c := ((b0 - 224) * 64 + (b1 - 128)) * 64 + (b2 - 128) in
          if is_cont b1 && is_cont b2 && (2048 <=? c) && is_scalar c
          then cons c <$> utf8_decode r2 else None
        else match r2 with
        | [] => None
        | b3 :: r3 =>
          let c := (((b0 - 240) * 64 + (b1 - 128)) * 64 + (b2 - 128)) * 64 + (b3 - 128) in
          if (240 <=? b0) && (b0 <=? 247) && is_cont b1 && is_cont b2 && is_cont b3 &&
             (65536 <=? c) && is_scalar c
          then cons c <$> utf8_decode r3 else None
        end
      end
    end
  end.

(** [std::str::from_utf8] succeeds. *)
Definition is_utf8 (l : list Z) : bool := match utf8_decode l with Some _ => true | None => false end.

(** [chars()] of a string. *)
Definition chars (s : list Z) : list Z := default [] (utf8_decode s).

(** [char::is_control]: general category Cc. *)
Definition is_control (c : Z) : bool := (c <=? 31) || ((127 <=? c) && (c <=? 159)).

(** [encode_utf16().count()]. *)
Definition utf16_count (s : list Z) : Z :=
  fold_right (fun c n => (if c <? 65536 then 1 else 2) + n) 0 (chars s).

Definition to_ascii_lowercase (b : Z) : Z := if (65 <=? b) && (b <=? 90) then b + 32 else b.
Definition eq_ignore_ascii_case (a b : list Z) : bool :=
  bool_decide (map to_ascii_lowercase a = map to_ascii_lowercase b).

Definition is_ascii_alphanumeric (b : Z) : bool :=
  ((48 <=? b) && (b <=? 57)) || ((65 <=? b) && (b <=? 90)) || ((97 <=? b) && (b <=? 122)).

(** [split('\0').next()]: what precedes the first NUL. *)
Fixpoint before_nul (s : list Z) : list Z :=
  match s with
  | [] => []
  | b :: r => if b =? 0 then [] else b :: before_nul r
  end.

Definition contains_nul (s : list Z) : bool := existsb (fun b => b =? 0) s.

(** ** Facts *)

(** The first character of a well-formed string and what follows it. *)
Lemma utf8_decode_inv (l cs : list Z) :
  utf8_decode l = Some cs ->
  l = [] /\ cs = [] \/
  exists c enc r cs', l = enc ++ r /\ cs = c :: cs' /\ utf8_decode r = Some cs' /\ enc <> [] /\
    (c = 0 <-> enc = [0]) /\ (enc <> [0] -> Forall (fun b => b <> 0) enc) /\
    forall r', utf8_decode (enc ++ r') = cons c <$> utf8_decode r'.
Proof.
  intros H. destruct l as [| b0 r0]; [left; injection H as <-; done | right].
  cbn [utf8_decode] in H. destruct (Z.ltb_spec b0 128) as [L | L].
  { destruct (utf8_decode r0) as [cs' |] eqn:E; [| discriminate]. injection H as <-.
    exists b0, [b0], r0, cs'. do 3 (split; [done |]). split; [discriminate |]. split; [| split].
    - split; [now intros -> | now intros [= ->]].
    - intros N. repeat constructor. intros ->. done.
    - intros r'. cbn [app utf8_decode]. destruct (Z.ltb_spec b0 128); [done | lia]. }
  destruct r0 as [| b1 r1]; [discriminate |].
  destruct ((192 <=? b0) && (b0 <=? 223)) eqn:T2.
  { destruct (is_cont b1 && _) eqn:G in H; [| discriminate].
    destruct (utf8_decode r1) as [cs' |] eqn:E; [| discriminate]. injection H as <-.
    exists ((b0 - 192) * 64 + (b1 - 128)), [b0; b1], r1, cs'.
    assert (A : forall r', utf8_decode ([b0; b1] ++ r') =
      cons ((b0 - 192) * 64 + (b1 - 128)) <$> utf8_decode r').
    { intros r'. cbn [app utf8_decode]. destruct (Z.ltb_spec b0 128); [lia |]. now rewrite T2, G. }
    unfold is_cont in G. breflect. do 3 (split; [done |]). split; [discriminate |]. split; [| split].
    - split; [lia | discriminate].
    - intros _. repeat constructor; lia.
    - exact A. }
  destruct r1 as [| b2 r2]; [discriminate |].
  destruct ((224 <=? b0) && (b0 <=? 239)) eqn:T3.
  { destruct (_ && is_scalar _) eqn:G in H; [| discriminate].
    destruct (utf8_decode r2) as [cs' |] eqn:E; [| discriminate]. injection H as <-.
    exists (((b0 - 224) * 64 + (b1 - 128)) * 64 + (b2 - 128)), [b0; b1; b2], r2, cs'.
    assert (A : forall r', utf8_decode ([b0; b1; b2] ++ r') =
      cons (((b0 - 224) * 64 + (b1 - 128)) * 64 + (b2 - 128)) <$> utf8_decode r').
    { intros r'. cbn [app utf8_decode]. destruct (Z.ltb_spec b0 128); [lia |]. now rewrite T2, T3, G. }
    unfold is_cont in G. breflect. do 3 (split; [done |]). split; [discriminate |]. split; [| split].
    - split; [lia | discriminate].
    - intros _. repeat constructor; lia.
    - exact A. }
  destruct r2 as [| b3 r3]; [discriminate |].
  destruct (_ && is_scalar _) eqn:G in H; [| discriminate].
  destruct (utf8_decode r3) as [cs' |] eqn:E; [| discriminate]. injection H as <-.
  exists ((((b0 - 240) * 64 + (b1 - 128)) * 64 + (b2 - 128)) * 64 + (b3 - 128)), [b0; b1; b2; b3], r3, cs'.
  assert (A : forall r', utf8_decode ([b0; b1; b2; b3] ++ r') =
      cons ((((b0 - 240) * 64 + (b1 - 128)) * 64 + (b2 - 128)) * 64 + (b3 - 128)) <$> utf8_decode r').
    { intros r'. cbn [app utf8_decode]. destruct (Z.ltb_spec b0 128); [lia |]. now rewrite T2, T3, G. }
    unfold is_cont in G. breflect. do 3 (split; [done |]). split; [discriminate |]. split; [| split].
  - split; [lia | discriminate].
  - intros _. repeat constructor; lia.
  - exact A.
Qed.

Lemma before_nul_app (a r : list Z) : Forall (fun b => b <> 0) a -> before_nul (a ++ r) = a ++ before_nul r.
Proof.
  induction 1 as [| b a Hb Ha IH]; [done |]. cbn.
  destruct (Z.eqb_spec b 0); [done |]. now rewrite IH.
Qed.

(** Cutting a string at its first NUL cuts its characters there, so the part before it is a string
    again. *)
Lemma utf8_before_nul (l cs : list Z) :
  utf8_decode l = Some cs -> utf8_decode (before_nul l) = Some (before_nul cs).
Proof.
  remember (length l) as n eqn:Hn. revert l cs Hn.
  induction n as [n IH] using lt_wf_ind. intros l cs Hn H.
  destruct (utf8_decode_inv l cs H) as [[-> ->] | (c & enc & r & cs' & -> & -> & Hr & Hne & H0 & Hz & Ha)];
    [done |].
  cbn [before_nul]. destruct (Z.eqb_spec c 0) as [E | E].
  - apply H0 in E as ->. done.
  - assert (enc <> [0]) as N by tauto. rewrite before_nul_app by now apply Hz.
    rewrite Ha, (IH (length r)) with (cs := cs'); [done | | done | done].
    rewrite Hn, length_app. destruct enc; [done | cbn; lia].
Qed.

Lemma utf8_ascii (l : list Z) : Forall (fun b => 0 <= b < 128) l -> utf8_decode l = Some l.
Proof.
  induction 1 as [| b l Hb Hl IH]; [done |]. cbn [utf8_decode].
  destruct (Z.ltb_spec b 128); [| lia]. now rewrite IH.
Qed.

Lemma is_utf8_decode (l : list Z) : is_utf8 l = true -> utf8_decode l = Some (chars l).
Proof. unfold is_utf8, chars. now destruct (utf8_decode l). Qed.

(** ** The encoding *)

(** UTF-8, as an encoding of scalar values. *)
Definition scalar (c : Z) : Prop := (0 <= c < 0xd800) \/ (0xe000 <= c <= 0x10ffff).
Definition utf8_of (c : Z) : list Z :=
  if c <? 0x80 then [c]
  else if c <? 0x800 then [0xc0 + c / 64; 0x80 + c mod 64]
  else if c <? 0x10000 then [0xe0 + c / 4096; 0x80 + c / 64 mod 64; 0x80 + c mod 64]
  else [0xf0 + c / 262144; 0x80 + c / 4096 mod 64; 0x80 + c / 64 mod 64; 0x80 + c mod 64].

(** The bytes [b] spell the characters [cs]. *)
Definition spells (cs b : list Z) : Prop := Forall scalar cs /\ b = flat_map utf8_of cs.

Ltac divs := zify; Z.to_euclidean_division_equations; lia.

Lemma is_cont_spec (b : Z) : is_cont b = true <-> 128 <= b <= 191.
Proof. unfold is_cont. rewrite andb_true_iff, !Z.leb_le. reflexivity. Qed.
Lemma is_scalar_spec (c : Z) : is_scalar c = true <-> scalar c.
Proof. unfold is_scalar, scalar. rewrite !andb_true_iff, negb_true_iff, andb_false_iff, !Z.leb_le, !Z.leb_gt. lia. Qed.


(** One step of decoding, by the length of the character. *)
Lemma decode1 (b0 : Z) (r : list Z) : b0 < 128 -> utf8_decode (b0 :: r) = cons b0 <$> utf8_decode r.
Proof. intros H. cbn [utf8_decode]. now rewrite (proj2 (Z.ltb_lt _ _) H). Qed.
Lemma decode2 (b0 b1 : Z) (r : list Z) :
  utf8_decode (b0 :: b1 :: r) =
  if b0 <? 128 then cons b0 <$> utf8_decode (b1 :: r)
  else if (192 <=? b0) && (b0 <=? 223) then
    if is_cont b1 && (128 <=? (b0 - 192) * 64 + (b1 - 128)) then cons ((b0 - 192) * 64 + (b1 - 128)) <$> utf8_decode r else None
  else match r with
  | [] => None
  | b2 :: r2 =>
    if (224 <=? b0) && (b0 <=? 239) then
      let c := ((b0 - 224) * 64 + (b1 - 128)) * 64 + (b2 - 128) in
      if is_cont b1 && is_cont b2 && (2048 <=? c) && is_scalar c then cons c <$> utf8_decode r2 else None
    else match r2 with
    | [] => None
    | b3 :: r3 =>
      let c := (((b0 - 240) * 64 + (b1 - 128)) * 64 + (b2 - 128)) * 64 + (b3 - 128) in
      if (240 <=? b0) && (b0 <=? 247) && is_cont b1 && is_cont b2 && is_cont b3 && (65536 <=? c) && is_scalar c
      then cons c <$> utf8_decode r3 else None
    end
  end.
Proof. reflexivity. Qed.

Lemma decode_char (c : Z) (r : list Z) : scalar c -> utf8_decode (utf8_of c ++ r) = cons c <$> utf8_decode r.
Proof.
  intros S. unfold utf8_of. unfold scalar in S. pose proof (proj2 (is_scalar_spec c) S) as Sb.
  destruct (Z.ltb_spec c 0x80); [now apply decode1 |].
  destruct (Z.ltb_spec c 0x800); [| destruct (Z.ltb_spec c 0x10000)]; cbn [app]; rewrite decode2; cbv zeta.
  - rewrite (proj2 (Z.ltb_ge (192 + c / 64) 128)), (proj2 (Z.leb_le 192 (192 + c / 64))), (proj2 (Z.leb_le (192 + c / 64) 223)) by divs.
    assert (E : (0xc0 + c / 64 - 192) * 64 + (0x80 + c mod 64 - 128) = c) by divs. rewrite E, (proj2 (is_cont_spec _)) by divs.
    now rewrite (proj2 (Z.leb_le 128 c)) by lia.
  - rewrite (proj2 (Z.ltb_ge (224 + c / 4096) 128)), (proj2 (Z.leb_gt (224 + c / 4096) 223)), andb_false_r,
      (proj2 (Z.leb_le 224 (224 + c / 4096))), (proj2 (Z.leb_le (224 + c / 4096) 239)) by divs.
    assert (E : ((0xe0 + c / 4096 - 224) * 64 + (0x80 + c / 64 mod 64 - 128)) * 64 + (0x80 + c mod 64 - 128) = c) by divs.
    rewrite E, (proj2 (is_cont_spec (128 + c / 64 mod 64))), (proj2 (is_cont_spec (128 + c mod 64))) by divs.
    now rewrite (proj2 (Z.leb_le 2048 c)), Sb by lia.
  - rewrite (proj2 (Z.ltb_ge (240 + c / 262144) 128)), (proj2 (Z.leb_gt (240 + c / 262144) 223)), andb_false_r,
      (proj2 (Z.leb_gt (240 + c / 262144) 239)), andb_false_r,
      (proj2 (Z.leb_le 240 (240 + c / 262144))), (proj2 (Z.leb_le (240 + c / 262144) 247)) by divs.
    assert (E : (((0xf0 + c / 262144 - 240) * 64 + (0x80 + c / 4096 mod 64 - 128)) * 64 + (0x80 + c / 64 mod 64 - 128)) * 64 + (0x80 + c mod 64 - 128) = c) by divs.
    rewrite E, (proj2 (is_cont_spec (128 + c / 4096 mod 64))), (proj2 (is_cont_spec (128 + c / 64 mod 64))), (proj2 (is_cont_spec (128 + c mod 64))) by divs.
    now rewrite (proj2 (Z.leb_le 65536 c)), Sb by lia.
Qed.

(** The decoder accepts exactly the encodings. *)
Lemma decode_spells (b cs : list Z) : Forall is_u8 b -> utf8_decode b = Some cs -> spells cs b.
Proof.
  remember (length b) as n eqn:N. revert b cs N. induction n as [n IH] using lt_wf_ind. intros b cs N B E.
  assert (Step : forall x e r, b = e ++ r -> e <> [] -> scalar x -> utf8_of x = e -> (exists cs', cs = x :: cs' /\ utf8_decode r = Some cs') -> spells cs b).
  { intros x e r Q Ne S U (cs' & -> & D). destruct (IH (length r)) with (b := r) (cs := cs') as [Sc Er]; [| reflexivity | | exact D |].
    - rewrite N, Q, length_app. destruct e; [done | cbn; lia].
    - rewrite Q in B. now apply Forall_app in B.
    - split; [now constructor |]. cbn [flat_map]. rewrite U. now rewrite <- Er. }
  destruct b as [| b0 r0]; [injection E as <-; now split |]. apply Forall_cons_1 in B as [B0 Br]. unfold is_u8 in B0.
  destruct (Z.lt_ge_cases b0 128) as [L | L].
  { rewrite decode1 in E by done. destruct (utf8_decode r0) as [cs' |] eqn:D; [| discriminate]. injection E as <-.
    apply (Step b0 [b0] r0); eauto; [unfold scalar; lia |]. unfold utf8_of. now rewrite (proj2 (Z.ltb_lt _ _)) by lia. }
  destruct r0 as [| b1 r1]; [cbn [utf8_decode] in E; rewrite (proj2 (Z.ltb_ge _ _)) in E by lia; discriminate |].
  rewrite decode2, (proj2 (Z.ltb_ge b0 128)) in E by lia. cbv zeta in E.
  destruct ((192 <=? b0) && (b0 <=? 223)) eqn:T2.
  { destruct (_ && _) eqn:G in E; [| discriminate]. destruct (utf8_decode r1) as [cs' |] eqn:D; [| discriminate]. injection E as <-.
    unfold is_cont in G. breflect. set (c := (b0 - 192) * 64 + (b1 - 128)) in *. apply (Step c [b0; b1] r1); eauto; [unfold scalar; lia |].
    unfold utf8_of. rewrite (proj2 (Z.ltb_ge c 128)), (proj2 (Z.ltb_lt c 2048)) by lia. f_equal; [divs | f_equal; divs]. }
  destruct r1 as [| b2 r2]; [discriminate |]. destruct ((224 <=? b0) && (b0 <=? 239)) eqn:T3.
  { destruct (_ && _) eqn:G in E; [| discriminate]. destruct (utf8_decode r2) as [cs' |] eqn:D; [| discriminate]. injection E as <-.
    set (c := ((b0 - 224) * 64 + (b1 - 128)) * 64 + (b2 - 128)) in *. apply andb_true_iff in G as [G S]. apply is_scalar_spec in S.
    unfold is_cont in G. breflect. apply (Step c [b0; b1; b2] r2); eauto.
    unfold utf8_of. rewrite (proj2 (Z.ltb_ge c 128)), (proj2 (Z.ltb_ge c 2048)), (proj2 (Z.ltb_lt c 65536)) by lia.
    f_equal; [divs | f_equal; [divs | f_equal; divs]]. }
  destruct r2 as [| b3 r3]; [discriminate |].
  destruct (_ && _) eqn:G in E; [| discriminate]. destruct (utf8_decode r3) as [cs' |] eqn:D; [| discriminate]. injection E as <-.
  set (c := (((b0 - 240) * 64 + (b1 - 128)) * 64 + (b2 - 128)) * 64 + (b3 - 128)) in *. apply andb_true_iff in G as [G S]. apply is_scalar_spec in S.
  unfold is_cont in G. breflect. apply (Step c [b0; b1; b2; b3] r3); eauto.
  unfold utf8_of. rewrite (proj2 (Z.ltb_ge c 128)), (proj2 (Z.ltb_ge c 2048)), (proj2 (Z.ltb_ge c 65536)) by lia.
  f_equal; [divs | f_equal; [divs | f_equal; [divs | f_equal; divs]]].
Qed.
Lemma spells_decode (cs b : list Z) : spells cs b -> utf8_decode b = Some cs.
Proof.
  intros [S ->]. induction S as [| c cs S _ IH]; [done |]. cbn [flat_map]. now rewrite decode_char, IH.
Qed.

Lemma spells_iff (cs b : list Z) : Forall is_u8 b -> spells cs b <-> is_utf8 b = true /\ chars b = cs.
Proof.
  intros B. unfold is_utf8, chars. split.
  - intros S. now rewrite (spells_decode cs b S).
  - intros [U C]. destruct (utf8_decode b) as [x |] eqn:E; [| discriminate]. cbn in C. subst x. now apply decode_spells.
Qed.
