(* ===== verification/Protocol.v ===== *)
(** * Pre-login packets ([gate/src/protocol.rs])

    The parsers of the handshake, login, status-request and ping packets, the per-version login
    schemas and the size bounds. Each parser is proved equivalent to a grammar of the packet. *)
From S2P Require Import Prelude Machine Config Wire Utf8.
From stdpp Require Import base option list gmap strings.
From Stdlib Require Import ZArith Lia.
Local Open Scope Z_scope.
Local Open Scope gate_scope.

(** ** Parsers *)

(** [Cursor::string]: strings are returned as their bytes. *)
Definition Cursor_string (c : Cursor) (max : Z) : result (list Z * Cursor) Error :=
  let? (b, c) := Cursor_blob c max in
  if is_utf8 b then Ok (b, c) else Err Invalid.

Record HandshakePacket : Type := mkHandshakePacket { hs_version : Z; hs_state : Z }.

Definition handshake_max (cfg : Protocol) : Z :=
  Z.min (max_frame cfg) (5 + 5 + 5 + max_host_bytes cfg + 2 + 5).

(** The conditions under which a host is refused. *)
Definition bad_host (cfg : Protocol) (host : list Z) : bool :=
  let base := before_nul host in
  match base with [] => true | _ => false end || existsb is_control (chars base) ||
  (negb (allow_host_suffix cfg) && contains_nul host) ||
  (negb (match allowed_hosts cfg with [] => true | _ => false end) &&
   negb (existsb (fun h => eq_ignore_ascii_case h base) (allowed_hosts cfg))).

Definition bad_port (cfg : Protocol) (port : Z) : bool :=
  (port =? 0) || (negb (match allowed_ports cfg with [] => true | _ => false end) &&
                  negb (existsb (fun p => p =? port) (allowed_ports cfg))).

Definition handshake (d : list Z) (cfg : Protocol) : result HandshakePacket Error :=
  let c := Cursor_new d in
  let? (id, c) := Cursor_int c in
  if negb (id =? 0) then Err Invalid else
  let? (version, c) := Cursor_int c in
  let? (host, c) := Cursor_string c (max_host_bytes cfg) in
  if bad_host cfg host then Err Invalid else
  let? (b, c) := Cursor_bytes c 2 in
  let port := from_be_bytes (nth 0 b 0) (nth 1 b 0) in
  if bad_port cfg port then Err Invalid else
  let? (state, c) := Cursor_int c in
  if negb (state =? 1) && negb (state =? 2) then Err Invalid else
  if (state =? 2) && (version <? 0) then Err Unsupported else
  let? _ := Cursor_finish c in
  Ok (mkHandshakePacket version state).

(** The schema names the parsers know. *)
Definition known_schema (s : string) : bool :=
  existsb (String.eqb s) ["legacy"; "signed"; "signed_uuid"; "optional_uuid"; "uuid"; "backend"]%string.

Definition login_schema (version : Z) (cfg : Protocol) : result string Error :=
  if (version <? min_protocol cfg) || (version >? max_protocol cfg) then Err Unsupported else
  let? schema :=
    match login_schemas cfg !! version with
    | Some schema => Ok schema
    | None =>
      if (4 <=? version) && (version <=? 758) then Ok "legacy"%string
      else if version =? 759 then Ok "signed"%string
      else if version =? 760 then Ok "signed_uuid"%string
      else if (761 <=? version) && (version <=? 763) then Ok "optional_uuid"%string
      else if (764 <=? version) && (version <=? 776) then Ok "uuid"%string
      else if (777 <=? version) && (version <=? i32_max) then Ok (future_login_schema cfg)
      else Err Unsupported
    end in
  if known_schema schema then Ok schema else Err Unsupported.

Definition login_max (version : Z) (cfg : Protocol) : result Z Error :=
  let? s := login_schema version cfg in
  if (s =? "backend")%string then Ok (max_frame cfg) else
  let? extra :=
    if (s =? "legacy")%string then Ok 0
    else if (s =? "signed")%string then Ok (1 + 8 + 5 + 4096 + 5 + 4096)
    else if (s =? "signed_uuid")%string then Ok (1 + 8 + 5 + 4096 + 5 + 4096 + 17)
    else if (s =? "optional_uuid")%string then Ok 17
    else if (s =? "uuid")%string then Ok 16
    else Err Unsupported in
  Ok (Z.min (max_frame cfg) (5 + 5 + 64 + extra)).

Definition bad_name (cfg : Protocol) (name : list Z) : bool :=
  match name with [] => true | _ => false end || (utf16_count name >? 16) ||
  existsb is_control (chars name) ||
  (strict_username cfg && negb (forallb (fun x => is_ascii_alphanumeric x || (x =? 95)) name)).

(** The public-key block of the signed schemas. *)
Definition login_key (c : Cursor) : result Cursor Error :=
  let? (present, c) := Cursor_boolean c in
  if present then
    let? (_, c) := Cursor_bytes c 8 in
    let? (_, c) := Cursor_blob c 4096 in
    let? (_, c) := Cursor_blob c 4096 in
    Ok c
  else Ok c.

(** The optional profile identifier. *)
Definition login_uuid (c : Cursor) : result Cursor Error :=
  let? (present, c) := Cursor_boolean c in
  if present then let? (_, c) := Cursor_bytes c 16 in Ok c else Ok c.

Definition login (d : list Z) (version : Z) (cfg : Protocol) : result unit Error :=
  let? schema := login_schema version cfg in
  let c := Cursor_new d in
  let? (id, c) := Cursor_int c in
  if negb (id =? 0) then Err Invalid else
  if (schema =? "backend")%string then Ok tt else
  let? (name, c) := Cursor_string c 64 in
  if bad_name cfg name then Err Invalid else
  let? c := if (schema =? "signed")%string || (schema =? "signed_uuid")%string
            then login_key c else Ok c in
  let? c := if (schema =? "signed_uuid")%string || (schema =? "optional_uuid")%string
            then login_uuid c
            else if (schema =? "uuid")%string then let? (_, c) := Cursor_bytes c 16 in Ok c
            else Ok c in
  Cursor_finish c.

Definition status_request (d : list Z) : result unit Error :=
  let? (id, c) := Cursor_int (Cursor_new d) in
  if negb (id =? 0) then Err Invalid else Cursor_finish c.

Definition ping (d : list Z) : result unit Error :=
  let? (id, c) := Cursor_int (Cursor_new d) in
  if negb (id =? 1) then Err Invalid else
  let? (_, c) := Cursor_bytes c 8 in
  Cursor_finish c.

(** The body of the status handshake the gate itself sends to the backend. *)
Definition status_handshake_body (host : list Z) (port version : Z) : list Z :=
  put_varint (len_as_i32 host) (put_varint version [0]) ++ host ++ to_be_bytes port ++ [1].
Definition status_handshake (host : list Z) (port version : Z) : list Z :=
  frame (status_handshake_body host port version).

(** ** Grammars *)

(** A length-prefixed field of at most [max] bytes. *)
Definition blob_enc (max : Z) (b enc : list Z) : Prop :=
  exists vs, encodes (Z.of_nat (length b)) vs /\ Z.of_nat (length b) <= max /\ enc = vs ++ b.

(** A character that is no control character. *)
Definition plain (c : Z) : Prop := 32 <= c <= 126 \/ 160 <= c.
(** Bytes that differ at most in the case of ASCII letters. *)
Definition same_letter (x y : Z) : Prop := x = y \/ (65 <= x <= 90 /\ y = x + 32) \/ (65 <= y <= 90 /\ x = y + 32).

(** The characters [cs] of a host: what precedes the first NUL is not empty, has no control characters and is on the list of
    allowed hosts, if there is one; a NUL and what follows it are there only where suffixes are allowed. *)
Definition host_grammar (cfg : Protocol) (cs : list Z) : Prop :=
  exists base rest, cs = base ++ rest /\ (rest = [] \/ allow_host_suffix cfg = true /\ exists more, rest = 0 :: more) /\
    base <> [] /\ Forall plain base /\
    (allowed_hosts cfg = [] \/ exists h, In h (allowed_hosts cfg) /\ Forall2 same_letter h (flat_map utf8_of base)).

Definition port_grammar (cfg : Protocol) (port : Z) : Prop := port <> 0 /\ (allowed_ports cfg = [] \/ In port (allowed_ports cfg)).

Definition handshake_grammar (cfg : Protocol) (d : list Z) (h : HandshakePacket) : Prop :=
  exists v0 vv host cs eh hi lo vs,
    d = v0 ++ vv ++ eh ++ [hi; lo] ++ vs /\ encodes 0 v0 /\ encodes (hs_version h) vv /\
    blob_enc (max_host_bytes cfg) host eh /\ spells cs host /\ host_grammar cfg cs /\
    port_grammar cfg (hi * 256 + lo) /\ encodes (hs_state h) vs /\
    (hs_state h = 1 \/ hs_state h = 2 /\ 0 <= hs_version h).

(** The same with the program's own tests. *)
Definition handshake_fields (cfg : Protocol) (d : list Z) (h : HandshakePacket) : Prop :=
  exists v0 vv host eh hi lo vs,
    d = v0 ++ vv ++ eh ++ [hi; lo] ++ vs /\ encodes 0 v0 /\ encodes (hs_version h) vv /\
    blob_enc (max_host_bytes cfg) host eh /\ is_utf8 host = true /\ bad_host cfg host = false /\
    bad_port cfg (hi * 256 + lo) = false /\ encodes (hs_state h) vs /\
    (hs_state h = 1 \/ hs_state h = 2 /\ 0 <= hs_version h).

Definition key_block (l : list Z) : Prop :=
  l = [0] \/ exists expiry k1 e1 k2 e2, l = 1 :: expiry ++ e1 ++ e2 /\ length expiry = 8%nat /\
    blob_enc 4096 k1 e1 /\ blob_enc 4096 k2 e2.
Definition uuid_block (l : list Z) : Prop :=
  l = [0] \/ exists u, l = 1 :: u /\ length u = 16%nat.

(** What follows the name, by schema. *)
Definition login_tail (schema : string) (l : list Z) : Prop :=
  exists k u, l = k ++ u /\
    (if (schema =? "signed")%string || (schema =? "signed_uuid")%string then key_block k else k = []) /\
    (if (schema =? "signed_uuid")%string || (schema =? "optional_uuid")%string then uuid_block u
     else if (schema =? "uuid")%string then length u = 16%nat else u = []).

(** The schema of a version: that of the configuration's table, or of the release, within the configured range. *)
Inductive schema_of (cfg : Protocol) (version : Z) : string -> Prop :=
| sc_table s : login_schemas cfg !! version = Some s ->
    In s ["legacy"; "signed"; "signed_uuid"; "optional_uuid"; "uuid"; "backend"]%string -> schema_of cfg version s
| sc_legacy : login_schemas cfg !! version = None -> 4 <= version <= 758 -> schema_of cfg version "legacy"
| sc_signed : login_schemas cfg !! version = None -> version = 759 -> schema_of cfg version "signed"
| sc_signed_uuid : login_schemas cfg !! version = None -> version = 760 -> schema_of cfg version "signed_uuid"
| sc_optional_uuid : login_schemas cfg !! version = None -> 761 <= version <= 763 -> schema_of cfg version "optional_uuid"
| sc_uuid : login_schemas cfg !! version = None -> 764 <= version <= 776 -> schema_of cfg version "uuid"
| sc_future s : login_schemas cfg !! version = None -> 777 <= version <= 2147483647 -> future_login_schema cfg = s ->
    In s ["legacy"; "signed"; "signed_uuid"; "optional_uuid"; "uuid"; "backend"]%string -> schema_of cfg version s.

(** The characters [cs] of a name, whose bytes are [name]: one to sixteen units of UTF-16, no control characters, and, where
    names are strict, ASCII letters, digits and underscores only. *)
Definition name_grammar (cfg : Protocol) (cs name : list Z) : Prop :=
  cs <> [] /\ Z.of_nat (length cs) + Z.of_nat (length (filter (fun c => 65536 <= c) cs)) <= 16 /\ Forall plain cs /\
  (strict_username cfg = true -> Forall (fun b => 48 <= b <= 57 \/ 65 <= b <= 90 \/ 97 <= b <= 122 \/ b = 95) name).

Definition login_grammar (cfg : Protocol) (schema : string) (d : list Z) : Prop :=
  exists v0 r, d = v0 ++ r /\ encodes 0 v0 /\
    (schema = "backend"%string \/
     schema <> "backend"%string /\
     exists name cs en tail, r = en ++ tail /\ blob_enc 64 name en /\ spells cs name /\
       name_grammar cfg cs name /\ login_tail schema tail).

(** The same with the program's own tests. *)
Definition login_fields (cfg : Protocol) (schema : string) (d : list Z) : Prop :=
  exists v0 r, d = v0 ++ r /\ encodes 0 v0 /\
    (schema = "backend"%string \/
     schema <> "backend"%string /\
     exists name en tail, r = en ++ tail /\ blob_enc 64 name en /\ is_utf8 name = true /\
       bad_name cfg name = false /\ login_tail schema tail).

(** ** The parsers accept exactly the grammars *)

Lemma Cursor_string_iff (c : Cursor) (l : list Z) (max : Z) (b : list Z) (c' : Cursor) :
  reads c l ->
  Cursor_string c max = Ok (b, c') <->
  exists enc r, l = enc ++ r /\ blob_enc max b enc /\ is_utf8 b = true /\ c' = advance c (length enc).
Proof.
  intros H. unfold Cursor_string. split.
  - intros I. destruct (Cursor_blob c max) as [[x c1] | e] eqn:E; cbn [result_bind] in I; [| discriminate].
    destruct (is_utf8 x) eqn:U; [| discriminate]. injection I as <- <-.
    apply (Cursor_blob_iff c l) in E as (vs & r & -> & He & Hm & ->); [| done].
    exists (vs ++ x), r. rewrite app_assoc. split_and!; auto. now exists vs.
  - intros (enc & r & -> & (vs & He & Hm & ->) & U & ->).
    rewrite (proj2 (Cursor_blob_iff c _ max b (advance c (length (vs ++ b))) H)).
    + cbn [result_bind]. now rewrite U.
    + exists vs, r. rewrite app_assoc. auto.
Qed.


(** The reading lemmas in the direction of evaluation. *)
Section Reading.
Context (c : Cursor).

Lemma int_read (n : Z) (vs r : list Z) :
  reads c (vs ++ r) -> encodes n vs -> Cursor_int c = Ok (n, advance c (length vs)).
Proof. intros H He. apply (Cursor_int_iff c (vs ++ r)); eauto. Qed.

Lemma bytes_read (n : Z) (b r : list Z) :
  reads c (b ++ r) -> Z.of_nat (length b) = n -> Cursor_bytes c n = Ok (b, advance c (length b)).
Proof. intros H Hn. apply (Cursor_bytes_iff c (b ++ r)); eauto; lia. Qed.

Lemma blob_read (max : Z) (b enc r : list Z) :
  reads c (enc ++ r) -> blob_enc max b enc -> Cursor_blob c max = Ok (b, advance c (length enc)).
Proof.
  intros H (vs & He & Hm & ->). apply (Cursor_blob_iff c _ max b _ H).
  exists vs, r. rewrite app_assoc. auto.
Qed.

Lemma string_read (max : Z) (b enc r : list Z) :
  reads c (enc ++ r) -> blob_enc max b enc -> is_utf8 b = true ->
  Cursor_string c max = Ok (b, advance c (length enc)).
Proof. intros H Hb U. apply (Cursor_string_iff c _ max b _ H). eauto 7. Qed.

Lemma boolean_read (b : bool) (r : list Z) :
  reads c ((if b then 1 else 0) :: r) -> Cursor_boolean c = Ok (b, advance c 1).
Proof. intros H. apply (Cursor_boolean_iff c _ b _ H). eauto. Qed.

Lemma blob_inv (l : list Z) (max : Z) (b : list Z) (c' : Cursor) :
  reads c l -> Cursor_blob c max = Ok (b, c') ->
  exists enc r, l = enc ++ r /\ blob_enc max b enc /\ c' = advance c (length enc).
Proof.
  intros H I. apply (Cursor_blob_iff c l) in I as (vs & r & -> & He & Hm & ->); [| done].
  exists (vs ++ b), r. rewrite app_assoc. split_and!; auto. now exists vs.
Qed.
End Reading.

(** Peel the next field off a successful parse [I] of the cursor that reads [l]. *)
Ltac next_field I :=
  let E := fresh "E" in let Q := fresh "Q" in
  apply result_bind_ok in I as ([? ?] & E & I); cbv beta iota in I;
  match type of E with
  | Cursor_int _ = _ =>
      eapply Cursor_int_iff in E as (? & ? & Q & ? & ->); [| eassumption]
  | Cursor_string _ _ = _ =>
      eapply Cursor_string_iff in E as (? & ? & Q & ? & ? & ->); [| eassumption]
  | Cursor_blob _ _ = _ =>
      eapply blob_inv in E as (? & ? & Q & ? & ->); [| eassumption]
  | Cursor_bytes _ _ = _ =>
      eapply Cursor_bytes_iff in E as (? & Q & ? & ->); [| eassumption | lia]
  | Cursor_boolean _ = _ =>
      eapply Cursor_boolean_iff in E as (? & Q & ->); [| eassumption]
  end;
  match type of Q with ?l = _ => subst l end;
  match goal with
  | H : reads ?c (?vs ++ _) |- _ =>
      match type of I with context [advance c (length vs)] => apply reads_advance in H end
  | H : reads ?c (?b :: ?r) |- _ =>
      match type of I with context [advance c 1] => apply (reads_advance c [b] r) in H; cbn [length] in H end
  end.

Lemma handshake_parse (cfg : Protocol) (d : list Z) (h : HandshakePacket) :
  is_bytes d -> Z.of_nat (length d) < 2 ^ 64 ->
  handshake d cfg = Ok h -> handshake_fields cfg d h.
Proof.
  intros Hb Hl I. unfold handshake in I. cbv zeta in I.
  pose proof (reads_new d Hb Hl) as R.
  next_field I. destruct (Z.eqb_spec z 0) as [Ez |]; cbn [negb] in I; [subst z | discriminate].
  next_field I. next_field I. destruct (bad_host cfg l) eqn:BH; [discriminate |].
  next_field I. destruct l0 as [| hi [| lo []]]; cbn in H3; try lia. cbn [nth] in I.
  rewrite from_be_bytes_val in I.
  2:{ unfold is_bytes in Hb. rewrite !Forall_app in Hb. destruct Hb as (_ & _ & _ & Hb & _).
      inversion Hb as [| ? ? _ H']; now inversion H'. }
  destruct (bad_port cfg (hi * 256 + lo)) eqn:BP; [discriminate |].
  next_field I. match type of I with context [mkHandshakePacket ?v ?s] => rename s into st, v into ver end.
  destruct (negb (st =? 1) && negb (st =? 2)) eqn:S12; [discriminate |].
  destruct ((st =? 2) && (ver <? 0)) eqn:SV; [discriminate |].
  apply result_bind_ok in I as ([] & F & [= <-]).
  eapply Cursor_finish_iff in F; [| eassumption]. subst.
  rewrite app_nil_r. eexists _, _, _, _, _, _, _. split; [reflexivity |]. cbn [hs_version hs_state].
  do 7 (split; [eassumption |]).
  destruct (Z.eqb_spec st 1); [now left |]. destruct (Z.eqb_spec st 2); [right | discriminate].
  split; [done |]. destruct (Z.ltb_spec ver 0); [discriminate | done].
Qed.

(** Evaluate the next field of a parse whose cursor reads a known sequence of fields. *)
Ltac read_field R :=
  match type of R with
  | reads ?c (?vs ++ ?r) =>
      match goal with
      | |- context [Cursor_int c] => erewrite (int_read c _ vs r R) by eassumption
      | |- context [Cursor_string c _] => erewrite (string_read c _ _ vs r R) by eassumption
      | |- context [Cursor_blob c _] => erewrite (blob_read c _ _ vs r R) by eassumption
      | |- context [Cursor_bytes c _] => erewrite (bytes_read c _ vs r R) by (cbn; lia)
      end; apply reads_advance in R
  end; cbn [result_bind].

Lemma handshake_accept (cfg : Protocol) (d : list Z) (h : HandshakePacket) :
  is_bytes d -> Z.of_nat (length d) < 2 ^ 64 ->
  handshake_fields cfg d h -> handshake d cfg = Ok h.
Proof.
  intros Hb Hl (v0 & vv & host & eh & hi & lo & vs & Q & E0 & Ev & Bh & U & BH & BP & Es & S). subst d.
  pose proof (reads_new _ Hb Hl) as R. unfold handshake. cbv zeta.
  read_field R. cbn [Z.eqb negb]. read_field R. read_field R. rewrite BH.
  read_field R. cbn [nth].
  rewrite from_be_bytes_val, BP.
  2:{ unfold is_bytes in Hb. rewrite !Forall_app in Hb. destruct Hb as (_ & _ & _ & Hb & _).
      inversion Hb as [| ? ? _ H']; now inversion H'. }
  pose proof (eq_ind_r (reads _) R (app_nil_r vs)) as R'. clear R. rename R' into R. read_field R.
  destruct h as [ver st]. cbn [hs_version hs_state] in *.
  assert (negb (st =? 1) && negb (st =? 2) = false) as ->
    by (destruct S as [-> | [-> _]]; done).
  assert ((st =? 2) && (ver <? 0) = false) as ->.
  { destruct S as [-> | [-> Hv]]; [done |]. cbn. lia. }
  rewrite (proj2 (Cursor_finish_iff _ [] tt R) eq_refl). reflexivity.
Qed.

(** ** The tests on hosts, ports and names *)

Lemma plain_test (c : Z) : is_control c = false <-> plain c.
Proof. unfold is_control, plain. rewrite orb_false_iff, andb_false_iff, !Z.leb_gt. lia. Qed.
Lemma plain_all (cs : list Z) : existsb is_control cs = false <-> Forall plain cs.
Proof.
  induction cs as [| c cs IH]; cbn [existsb]; [split; [constructor | reflexivity] |].
  rewrite orb_false_iff, plain_test, IH, Forall_cons. reflexivity.
Qed.

Lemma same_letter_test (a b : list Z) : eq_ignore_ascii_case a b = true <-> Forall2 same_letter a b.
Proof.
  unfold eq_ignore_ascii_case. rewrite bool_decide_eq_true. revert b. induction a as [| x a IH]; intros [| y b]; cbn [map].
  - split; [constructor | reflexivity].
  - split; [discriminate | intros X; inversion X].
  - split; [discriminate | intros X; inversion X].
  - rewrite Forall2_cons, <- IH. unfold same_letter, to_ascii_lowercase.
    destruct (Z.leb_spec 65 x), (Z.leb_spec x 90), (Z.leb_spec 65 y), (Z.leb_spec y 90); cbn [andb];
      (split; [intros [= E1 E2]; split; [lia | exact E2] | intros [E1 E2]; f_equal; [lia | exact E2]]).
Qed.

(** The characters before the first NUL. *)
Lemma before_nul_split (cs : list Z) : exists rest, cs = before_nul cs ++ rest /\ (rest = [] \/ exists more, rest = 0 :: more) /\ ~ In 0 (before_nul cs).
Proof.
  induction cs as [| c cs IH]; cbn [before_nul]; [exists []; cbn; auto |].
  destruct (Z.eqb_spec c 0) as [-> | N]; [exists (0 :: cs); cbn; split_and!; eauto |].
  destruct IH as (rest & E & R & I). exists rest. cbn [app In]. split; [f_equal; exact E |]. split; [exact R |]. intros [X | X]; [now apply N | now apply I].
Qed.
Lemma before_nul_base (base rest : list Z) : ~ In 0 base -> (rest = [] \/ exists more, rest = 0 :: more) -> before_nul (base ++ rest) = base.
Proof.
  intros N R. induction base as [| c base IH]; cbn [app before_nul].
  - destruct R as [-> | [more ->]]; reflexivity.
  - destruct (Z.eqb_spec c 0) as [-> |]; [destruct N; now left |]. rewrite IH; [done |]. intros X. apply N. now right.
Qed.
Lemma plain_no_nul (base : list Z) : Forall plain base -> ~ In 0 base.
Proof. intros F I. apply (proj1 (List.Forall_forall _ _) F) in I. unfold plain in I. lia. Qed.

Lemma nul_spelled (cs b : list Z) : spells cs b -> contains_nul b = false <-> ~ In 0 cs.
Proof.
  intros [S ->]. unfold contains_nul. induction S as [| c cs Sc _ IH]; cbn [flat_map existsb]; [cbn; tauto |].
  rewrite existsb_app, orb_false_iff, IH. cbn [In].
  assert (E : existsb (fun x => x =? 0) (utf8_of c) = false <-> c <> 0); [| rewrite E; tauto].
  unfold utf8_of, scalar in *. destruct (Z.ltb_spec c 128); [cbn [existsb]; rewrite orb_false_r, Z.eqb_neq; reflexivity |].
  split; [lia |]. intros _. destruct (c <? 2048); [| destruct (c <? 65536)]; cbn [existsb]; rewrite !orb_false_iff, !Z.eqb_neq; split_and!; divs.
Qed.

Lemma spells_app (a b x : list Z) : spells (a ++ b) x -> spells a (flat_map utf8_of a).
Proof. intros [S _]. apply Forall_app in S as [S _]. now split. Qed.

Lemma empty_test {A : Type} (l : list A) : match l with [] => true | _ => false end = true <-> l = [].
Proof. destruct l; split; done. Qed.

Lemma allowed_host_test (cfg : Protocol) (base : list Z) :
  negb (match allowed_hosts cfg with [] => true | _ => false end) && negb (existsb (fun h => eq_ignore_ascii_case h base) (allowed_hosts cfg)) = false <->
  allowed_hosts cfg = [] \/ exists h, In h (allowed_hosts cfg) /\ Forall2 same_letter h base.
Proof.
  rewrite andb_false_iff, !negb_false_iff, empty_test, existsb_exists. split; (intros [E | (h & I & E)]; [now left | right; exists h; split; [exact I | now apply same_letter_test]]).
Qed.

(** The host test against the grammar. *)
Lemma host_test (cfg : Protocol) (cs host : list Z) : spells cs host -> bad_host cfg host = false <-> host_grammar cfg cs.
Proof.
  intros S. pose proof (spells_decode cs host S) as D. pose proof (utf8_before_nul host cs D) as Db.
  destruct (before_nul_split cs) as (rest & Ec & R & Nn). set (base := before_nul cs) in *.
  assert (Bs : Forall scalar base) by (destruct S as [Sc _]; rewrite Ec in Sc; now apply Forall_app in Sc).
  assert (Eb : before_nul host = flat_map utf8_of base).
  { destruct S as [_ ->]. rewrite Ec, flat_map_app. clear - Nn R Bs. induction Bs as [| c base Sc Bs IH]; cbn [flat_map app].
    - destruct R as [-> | [more ->]]; reflexivity.
    - rewrite <- app_assoc, before_nul_app; [rewrite IH; [reflexivity | intros X; apply Nn; now right] |].
      assert (c <> 0) by (intros ->; apply Nn; now left). unfold utf8_of, scalar in *.
      destruct (Z.ltb_spec c 128); [repeat constructor; lia |].
      destruct (c <? 2048); [| destruct (c <? 65536)]; repeat constructor; divs. }
  assert (Ch : chars (before_nul host) = base) by (unfold chars; now rewrite Db).
  assert (Be : before_nul host = [] <-> base = []).
  { rewrite Eb. destruct base as [| c l]; [done |]. cbn [flat_map]. split; [| discriminate]. intros X. exfalso. unfold utf8_of in X.
    destruct (c <? 128); [discriminate |]. destruct (c <? 2048); [discriminate |]. destruct (c <? 65536); discriminate. }
  unfold bad_host. cbv zeta. rewrite Ch, !orb_false_iff, plain_all, allowed_host_test, <- not_true_iff_false, empty_test, Be, andb_false_iff, negb_false_iff, (nul_spelled cs host S), Eb.
  unfold host_grammar. split.
  - intros (((Ne & Pl) & Su) & Al). exists base, rest. split_and!; auto. destruct Su as [Su | Su]; [destruct R as [-> | R]; auto |].
    left. destruct R as [-> | [more ->]]; [reflexivity |]. destruct Su. rewrite Ec. apply in_or_app. right. now left.
  - intros (base' & rest' & Ec' & R' & Ne & Pl & Al). assert (E : base = base').
    { unfold base. rewrite Ec'. apply before_nul_base; [now apply plain_no_nul |]. destruct R' as [-> | [_ R']]; auto. }
    rewrite E in *. split_and!; auto. destruct R' as [-> | [Su _]]; [right | now left]. rewrite Ec', app_nil_r. now apply plain_no_nul.
Qed.

Lemma port_test (cfg : Protocol) (port : Z) : bad_port cfg port = false <-> port_grammar cfg port.
Proof.
  unfold bad_port, port_grammar. rewrite orb_false_iff, andb_false_iff, !negb_false_iff, empty_test, Z.eqb_neq, existsb_exists.
  split; (intros [N [E | E]]; (split; [exact N |]); [now left | right]).
  - destruct E as (p & I & E). now apply Z.eqb_eq in E as ->.
  - exists port. split; [exact E | apply Z.eqb_refl].
Qed.

Lemma name_test (cfg : Protocol) (cs name : list Z) : spells cs name -> bad_name cfg name = false <-> name_grammar cfg cs name.
Proof.
  intros S. pose proof (spells_decode cs name S) as D. assert (Ch : chars name = cs) by (unfold chars; now rewrite D).
  assert (Be : name = [] <-> cs = []).
  { split; [intros ->; now injection D as <- |]. intros ->. now destruct S as [_ ->]. }
  assert (Un : utf16_count name = Z.of_nat (length cs) + Z.of_nat (length (filter (fun c => 65536 <= c) cs))).
  { unfold utf16_count. rewrite Ch. clear. induction cs as [| c cs IH]; [reflexivity |]. cbn [fold_right length]. rewrite IH, filter_cons.
    destruct (Z.ltb_spec c 65536); case_decide; cbn [length]; lia. }
  unfold bad_name, name_grammar. rewrite !orb_false_iff, <- not_true_iff_false, empty_test, Be, Ch, plain_all, Un.
  rewrite Z.gtb_ltb, Z.ltb_ge, andb_false_iff, negb_false_iff.
  assert (W : forall x, is_ascii_alphanumeric x || (x =? 95) = true <-> 48 <= x <= 57 \/ 65 <= x <= 90 \/ 97 <= x <= 122 \/ x = 95).
  { intros x. unfold is_ascii_alphanumeric. rewrite !orb_true_iff, !andb_true_iff, !Z.leb_le, Z.eqb_eq. lia. }
  assert (Wa : forallb (fun x => is_ascii_alphanumeric x || (x =? 95)) name = true <->
    Forall (fun b => 48 <= b <= 57 \/ 65 <= b <= 90 \/ 97 <= b <= 122 \/ b = 95) name)
    by (rewrite forallb_forall, List.Forall_forall; now setoid_rewrite W).
  rewrite Wa. clear W Wa Un Be Ch D. destruct (strict_username cfg); intuition congruence.
Qed.

Lemma schema_test (cfg : Protocol) (version : Z) (s : string) :
  login_schema version cfg = Ok s <-> min_protocol cfg <= version <= max_protocol cfg /\ schema_of cfg version s.
Proof.
  assert (K : forall x, known_schema x = true <-> In x ["legacy"; "signed"; "signed_uuid"; "optional_uuid"; "uuid"; "backend"]%string).
  { intros x. unfold known_schema. rewrite existsb_exists. split; [intros (y & I & E); now apply String.eqb_eq in E as -> | intros I; exists x; split; [exact I | apply String.eqb_refl]]. }
  unfold login_schema. destruct (_ || _) eqn:G.
  { split; [discriminate |]. intros [R _]. apply orb_true_iff in G as [G | G]; breflect; lia. }
  breflect. assert (Kn : forall x, (if known_schema x then Ok x else Err Unsupported) = Ok s <-> x = s /\ In s ["legacy"; "signed"; "signed_uuid"; "optional_uuid"; "uuid"; "backend"]%string).
  { intros x. rewrite <- K. destruct (known_schema x) eqn:Kx; split; try discriminate; [intros [= ->]; auto | intros [-> _]; reflexivity | intros [-> X]; congruence]. }
  split.
  - intros E. split; [lia |]. destruct (login_schemas cfg !! version) as [x |] eqn:L.
    + cbn [result_bind] in E. apply Kn in E as [-> I]. now apply sc_table.
    + destruct (_ && _) eqn:R1 in E; [breflect; cbn [result_bind] in E; apply Kn in E as [<- _]; apply sc_legacy; [done | lia] |].
      destruct (Z.eqb_spec version 759); [cbn [result_bind] in E; apply Kn in E as [<- _]; now apply sc_signed |].
      destruct (Z.eqb_spec version 760); [cbn [result_bind] in E; apply Kn in E as [<- _]; now apply sc_signed_uuid |].
      destruct (_ && _) eqn:R2 in E; [breflect; cbn [result_bind] in E; apply Kn in E as [<- _]; apply sc_optional_uuid; [done | lia] |].
      destruct (_ && _) eqn:R3 in E; [breflect; cbn [result_bind] in E; apply Kn in E as [<- _]; apply sc_uuid; [done | lia] |].
      destruct (_ && _) eqn:R4 in E; [breflect; cbn [result_bind] in E; apply Kn in E as [F I]; apply sc_future; auto; unfold i32_max in *; lia | discriminate].
  - intros [_ S].
    destruct S as [x L I | L V | L V | L V | L V | L V | x L V F I]; rewrite L; cbn [result_bind]; [apply Kn; auto | ..].
    all: unfold i32_max; repeat lazymatch goal with |- context [if ?b then Ok _ else _] => (replace b with true by lia) || (replace b with false by lia) end;
      cbn [result_bind]; apply Kn; split; auto; try (rewrite F; exact I); cbn; auto 8.
Qed.

Lemma handshake_fields_grammar (cfg : Protocol) (d : list Z) (h : HandshakePacket) :
  is_bytes d -> handshake_fields cfg d h <-> handshake_grammar cfg d h.
Proof.
  intros B. assert (Hb : forall v0 vv host eh hi lo vs, d = v0 ++ vv ++ eh ++ [hi; lo] ++ vs -> blob_enc (max_host_bytes cfg) host eh -> Forall is_u8 host).
  { intros v0 vv host eh hi lo vs E (ln & _ & _ & ->). unfold is_bytes in B. rewrite E, !Forall_app in B. apply B. }
  split.
  - intros (v0 & vv & host & eh & hi & lo & vs & E & E0 & Ev & Bh & U & BH & BP & Es & S). pose proof (Hb _ _ _ _ _ _ _ E Bh) as Bb.
    pose proof (proj2 (spells_iff (chars host) host Bb) (conj U eq_refl)) as Sp. exists v0, vv, host, (chars host), eh, hi, lo, vs.
    split_and!; auto; [now apply (host_test cfg _ host) | now apply port_test].
  - intros (v0 & vv & host & cs & eh & hi & lo & vs & E & E0 & Ev & Bh & Sp & HG & PG & Es & S). pose proof (Hb _ _ _ _ _ _ _ E Bh) as Bb.
    exists v0, vv, host, eh, hi, lo, vs. split_and!; auto; [now apply (spells_iff cs host Bb) | now apply (host_test cfg cs) | now apply port_test].
Qed.

(** C30: The handshake parser accepts exactly the handshake grammar: packet id 0, a protocol version, a host within the configured
    length that is the UTF-8 of characters of which those before the first NUL are not empty, free of control characters and,
    ASCII letters in either case, on the allow-list if there is one, a NUL only where suffixes are allowed, a port other than 0 that is
    on the list of ports if there is one, and next state 1, or 2 with a non-negative version; with nothing after it. Integers may be
    encoded non-minimally. *)
Theorem handshake_exact (cfg : Protocol) (d : list Z) (h : HandshakePacket) :
  is_bytes d -> Z.of_nat (length d) < 2 ^ 64 ->
  handshake d cfg = Ok h <-> handshake_grammar cfg d h.
Proof.
  intros Hb Hl. rewrite <- handshake_fields_grammar by done. split; [now apply handshake_parse | now apply handshake_accept].
Qed.

(** ** Login *)

Lemma login_key_parse (c : Cursor) (l : list Z) (c' : Cursor) :
  reads c l -> login_key c = Ok c' ->
  exists k r, l = k ++ r /\ key_block k /\ c' = advance c (length k).
Proof.
  intros R I. unfold login_key in I. apply result_bind_ok in I as ([b c1] & E & I). cbv beta iota in I.
  eapply Cursor_boolean_iff in E as (r & Q & ->); [| exact R]. subst l.
  apply (reads_advance c [if b then 1 else 0] r) in R. cbn [length] in R.
  destruct b.
  2:{ injection I as <-. exists [0], r. split_and!; auto. now left. }
  next_field I. next_field I. next_field I. injection I as <-.
  match goal with H : Z.of_nat (length ?e) = 8, A : blob_enc 4096 ?k1 ?e1, B : blob_enc 4096 ?k2 ?e2
    |- exists k r, 1 :: ?e ++ ?e1 ++ ?e2 ++ ?t = _ /\ _ =>
      exists (1 :: e ++ e1 ++ e2), t; split_and!;
        [cbn; now rewrite <- !app_assoc | right; exists e, k1, e1, k2, e2; split_and!; auto; lia |] end.
  unfold advance. cbn [data pos length]. f_equal. rewrite !length_app. lia.
Qed.

Lemma login_key_accept (c : Cursor) (k r : list Z) :
  reads c (k ++ r) -> key_block k -> login_key c = Ok (advance c (length k)).
Proof.
  intros R [-> | (e & k1 & e1 & k2 & e2 & -> & Le & B1 & B2)]; unfold login_key.
  - rewrite (boolean_read c false r R). reflexivity.
  - assert (R' : reads c (1 :: e ++ e1 ++ e2 ++ r)) by (cbn in R; now rewrite <- !app_assoc in R).
    rewrite (boolean_read c true _ R'). cbn [result_bind].
    apply (reads_advance c [1]) in R'. cbn [length] in R'.
    read_field R'. read_field R'. read_field R'.
    unfold advance. cbn [data pos length]. do 2 f_equal. rewrite !length_app. lia.
Qed.

Lemma login_uuid_parse (c : Cursor) (l : list Z) (c' : Cursor) :
  reads c l -> login_uuid c = Ok c' ->
  exists u r, l = u ++ r /\ uuid_block u /\ c' = advance c (length u).
Proof.
  intros R I. unfold login_uuid in I. apply result_bind_ok in I as ([b c1] & E & I). cbv beta iota in I.
  eapply Cursor_boolean_iff in E as (r & Q & ->); [| exact R]. subst l.
  apply (reads_advance c [if b then 1 else 0] r) in R. cbn [length] in R.
  destruct b.
  2:{ injection I as <-. exists [0], r. split_and!; auto. now left. }
  next_field I. injection I as <-.
  match goal with H : Z.of_nat (length ?u) = 16 |- exists k r, 1 :: ?u ++ ?t = _ /\ _ =>
    exists (1 :: u), t; split_and!; [done | right; exists u; split; [done | lia] |] end.
  unfold advance. cbn [data pos length]. f_equal. lia.
Qed.

Lemma login_uuid_accept (c : Cursor) (u r : list Z) :
  reads c (u ++ r) -> uuid_block u -> login_uuid c = Ok (advance c (length u)).
Proof.
  intros R [-> | (u' & -> & Lu)]; unfold login_uuid.
  - rewrite (boolean_read c false r R). reflexivity.
  - rewrite (boolean_read c true (u' ++ r) R). cbn [result_bind].
    apply (reads_advance c [1] (u' ++ r)) in R. cbn [length] in R.
    read_field R.
    unfold advance. cbn [data pos length]. do 2 f_equal. lia.
Qed.

(** The two schema-dependent stages after the name. *)
Definition tail_stage (schema : string) (c : Cursor) : result unit Error :=
  let? c := if (schema =? "signed")%string || (schema =? "signed_uuid")%string
            then login_key c else Ok c in
  let? c := if (schema =? "signed_uuid")%string || (schema =? "optional_uuid")%string
            then login_uuid c
            else if (schema =? "uuid")%string then let? (_, c) := Cursor_bytes c 16 in Ok c
            else Ok c in
  Cursor_finish c.

Lemma advance_zero (c : Cursor) : advance c 0 = c.
Proof. destruct c. unfold advance. cbn. now rewrite Nat.add_0_r. Qed.

Lemma tail_stage_iff (schema : string) (c : Cursor) (l : list Z) :
  reads c l -> tail_stage schema c = Ok tt <-> login_tail schema l.
Proof.
  intros R. unfold tail_stage, login_tail. split.
  - intros I. apply result_bind_ok in I as (c1 & E1 & I). apply result_bind_ok in I as (c2 & E2 & I).
    assert (K : exists k r, l = k ++ r /\ (if (schema =? "signed")%string || (schema =? "signed_uuid")%string
      then key_block k else k = []) /\ c1 = advance c (length k)).
    { destruct ((schema =? "signed")%string || (schema =? "signed_uuid")%string);
        [now apply login_key_parse |]. injection E1 as <-. exists [], l. now rewrite advance_zero. }
    destruct K as (k & r & -> & Hk & ->). apply reads_advance in R.
    assert (U : exists u r', r = u ++ r' /\ (if (schema =? "signed_uuid")%string || (schema =? "optional_uuid")%string
      then uuid_block u else if (schema =? "uuid")%string then length u = 16%nat else u = []) /\
      c2 = advance (advance c (length k)) (length u)).
    { destruct ((schema =? "signed_uuid")%string || (schema =? "optional_uuid")%string);
        [now apply login_uuid_parse |]. destruct (schema =? "uuid")%string.
      - apply result_bind_ok in E2 as ([b c3] & E2 & [= <-]).
        apply (Cursor_bytes_iff _ r) in E2 as (r' & Q & Hb & ->); [| exact R | lia].
        exists b, r'. split_and!; auto; lia.
      - injection E2 as <-. exists [], r. now rewrite advance_zero. }
    destruct U as (u & r' & -> & Hu & ->). apply reads_advance in R.
    apply (Cursor_finish_iff _ _ _ R) in I as ->. exists k, u. rewrite app_nil_r. auto.
  - intros (k & u & -> & Hk & Hu).
    assert (E1 : (if (schema =? "signed")%string || (schema =? "signed_uuid")%string then login_key c
      else Ok c) = Ok (advance c (length k))).
    { destruct ((schema =? "signed")%string || _); [now apply (login_key_accept c k u) |].
      subst k. now rewrite advance_zero. }
    rewrite E1. cbn [result_bind]. apply reads_advance in R. rewrite <- (app_nil_r u) in R.
    assert (E2 : (if (schema =? "signed_uuid")%string || (schema =? "optional_uuid")%string
      then login_uuid (advance c (length k)) else if (schema =? "uuid")%string
      then let? (_, c) := Cursor_bytes (advance c (length k)) 16 in Ok c else Ok (advance c (length k)))
      = Ok (advance (advance c (length k)) (length u))).
    { destruct ((schema =? "signed_uuid")%string || _); [now apply (login_uuid_accept _ u []) |].
      destruct (schema =? "uuid")%string.
      - now rewrite (bytes_read _ 16 u [] R) by lia.
      - subst u. now rewrite advance_zero. }
    rewrite E2. cbn [result_bind]. apply reads_advance in R. now apply (Cursor_finish_iff _ [] tt).
Qed.

Lemma login_iff (cfg : Protocol) (d : list Z) (version : Z) :
  is_bytes d -> Z.of_nat (length d) < 2 ^ 64 ->
  login d version cfg = Ok tt <->
  exists schema, login_schema version cfg = Ok schema /\ login_fields cfg schema d.
Proof.
  intros Hb Hl. pose proof (reads_new d Hb Hl) as R. unfold login, login_fields. cbv zeta. split.
  - intros I. apply result_bind_ok in I as (schema & Es & I). exists schema. split; [done |].
    next_field I. destruct (Z.eqb_spec z 0) as [Ez |]; cbn [negb] in I; [subst z | discriminate].
    eexists _, _. split; [reflexivity |]. split; [eassumption |].
    destruct (String.eqb_spec schema "backend"); [now left | right]. split; [done |].
    next_field I. destruct (bad_name cfg l) eqn:BN; [discriminate |].
    apply (tail_stage_iff schema _ _ R) in I. eexists _, _, _. split; [reflexivity |].
    split_and!; eassumption.
  - intros (schema & -> & v0 & r & -> & E0 & G). cbn [result_bind]. read_field R. cbn [Z.eqb negb].
    destruct (String.eqb_spec schema "backend"); [done |]. destruct G as [? | [_ G]]; [done |].
    destruct G as (name & en & tail & -> & Bn & U & BN & T). read_field R. rewrite BN.
    now apply (tail_stage_iff schema _ _ R).
Qed.

Lemma login_fields_grammar (cfg : Protocol) (schema : string) (d : list Z) :
  is_bytes d -> login_fields cfg schema d <-> login_grammar cfg schema d.
Proof.
  intros B. assert (Hb : forall v0 r name en tail, d = v0 ++ r -> r = en ++ tail -> blob_enc 64 name en -> Forall is_u8 name).
  { intros v0 r name en tail E E' (ln & _ & _ & ->). unfold is_bytes in B. rewrite E, E', !Forall_app in B. apply B. }
  split; (intros (v0 & r & E & E0 & G); exists v0, r; split; [exact E |]; split; [exact E0 |]; destruct G as [G | [N G]]; [now left | right; split; [exact N |]]).
  - destruct G as (name & en & tail & E' & Bn & U & BN & T). pose proof (Hb _ _ _ _ _ E E' Bn) as Bb.
    pose proof (proj2 (spells_iff (chars name) name Bb) (conj U eq_refl)) as Sp. exists name, (chars name), en, tail.
    split_and!; auto. now apply (name_test cfg _ name).
  - destruct G as (name & cs & en & tail & E' & Bn & Sp & NG & T). pose proof (Hb _ _ _ _ _ E E' Bn) as Bb.
    exists name, en, tail. split_and!; auto; [now apply (spells_iff cs name Bb) | now apply (name_test cfg cs)].
Qed.

(** C31: The login parser accepts exactly the grammar of the schema of the protocol version, which must be in the configured range: that of
    the configuration's table, or the one of its release (signed keys in 759 and 760, an optional profile identifier from 760 to 763, a
    mandatory one from 764 on), or the configured one for versions after 776. The grammar: packet id 0 and, unless the schema delegates to the
    backend, a name of at most 64 bytes that is the UTF-8 of characters without control characters, of one to 16 units of UTF-16
    (ASCII word characters only when strict), followed by the key block and profile identifier that the schema prescribes, with
    nothing after them. *)
Theorem login_exact (cfg : Protocol) (d : list Z) (version : Z) :
  is_bytes d -> Z.of_nat (length d) < 2 ^ 64 ->
  login d version cfg = Ok tt <->
  min_protocol cfg <= version <= max_protocol cfg /\ exists schema, schema_of cfg version schema /\ login_grammar cfg schema d.
Proof.
  intros Hb Hl. rewrite login_iff by done. split.
  - intros (s & E & G). apply schema_test in E as [R S]. split; [exact R |]. exists s. split; [exact S |]. now apply login_fields_grammar.
  - intros (R & s & S & G). exists s. split; [now apply schema_test |]. now apply login_fields_grammar.
Qed.

(** ** Size bounds *)

Lemma blob_enc_length (max : Z) (b enc : list Z) :
  blob_enc max b enc -> Z.of_nat (length enc) <= 5 + max.
Proof. intros (vs & He & Hm & ->). apply encodes_length in He. rewrite length_app. lia. Qed.

Lemma key_block_length (l : list Z) : key_block l -> Z.of_nat (length l) <= 1 + 8 + 5 + 4096 + 5 + 4096.
Proof.
  intros [-> | (e & k1 & e1 & k2 & e2 & -> & Le & B1 & B2)]; [cbn; lia |].
  apply blob_enc_length in B1, B2. cbn [length]. rewrite !length_app. lia.
Qed.

Lemma uuid_block_length (l : list Z) : uuid_block l -> Z.of_nat (length l) <= 17.
Proof. intros [-> | (u & -> & L)]; cbn; lia. Qed.

Lemma login_schema_known (version : Z) (cfg : Protocol) (s : string) :
  login_schema version cfg = Ok s ->
  min_protocol cfg <= version <= max_protocol cfg /\
  In s ["legacy"; "signed"; "signed_uuid"; "optional_uuid"; "uuid"; "backend"]%string.
Proof.
  intros H. unfold login_schema in H. destruct (_ || _) eqn:G in H; [discriminate |].
  apply result_bind_ok in H as (s' & _ & H). destruct (known_schema s') eqn:K; [| discriminate].
  injection H as <-. breflect. split; [lia |]. unfold known_schema in K.
  apply existsb_exists in K as (x & Hin & Hx). now apply String.eqb_eq in Hx as ->.
Qed.

(** The frame bounds applied before a packet is read are tight enough to reject nothing that is
    acceptable: any handshake, and any login start, that its parser accepts and that fits the
    configured frame size also fits the packet-specific bound [handshake_max] or [login_max]. *)
Theorem packet_bounds_sufficient (cfg : Protocol) (d : list Z) :
  is_bytes d -> Z.of_nat (length d) < 2 ^ 64 -> Z.of_nat (length d) <= max_frame cfg ->
  (forall h, handshake d cfg = Ok h -> Z.of_nat (length d) <= handshake_max cfg) /\
  (forall version, login d version cfg = Ok tt ->
    exists m, login_max version cfg = Ok m /\ Z.of_nat (length d) <= m).
Proof.
  intros Hb Hl Hm. split.
  - intros h H. apply handshake_parse in H; [| done | done].
    destruct H as (v0 & vv & host & eh & hi & lo & vs & -> & E0 & Ev & Bh & _ & _ & _ & Es & _).
    apply encodes_length in E0, Ev, Es. apply blob_enc_length in Bh. unfold handshake_max.
    rewrite !length_app in *. cbn [length] in *. lia.
  - intros version H. apply login_iff in H; [| done | done].
    destruct H as (s & Es & v0 & r & -> & E0 & G). apply encodes_length in E0.
    unfold login_max. rewrite Es. cbn [result_bind]. rewrite length_app in *.
    destruct (String.eqb_spec s "backend"); [eauto |]. destruct G as [? | [_ G]]; [done |].
    destruct G as (name & en & tail & -> & Bn & _ & _ & k & u & -> & Hk & Hu).
    apply blob_enc_length in Bn. rewrite !length_app in *.
    destruct (login_schema_known _ _ _ Es) as [_ Hin].
    destruct Hin as [<- | [<- | [<- | [<- | [<- | [<- | []]]]]]]; try done; cbn in Hk, Hu |- *;
      try apply key_block_length in Hk; try apply uuid_block_length in Hu; subst;
      (eexists; split; [reflexivity | cbn [length] in *; lia]).
Qed.

(** ** The gate's own handshake, and the other packets *)

(** The status handshake the gate sends is one its own parser accepts, with the same version, when
    the host and port satisfy the configured restrictions. *)
Theorem status_handshake_roundtrip (cfg : Protocol) (host : list Z) (port version : Z) :
  is_bytes host -> is_u16 port -> is_i32 version ->
  Z.of_nat (length host) <= max_host_bytes cfg -> max_host_bytes cfg <= 4096 ->
  is_utf8 host = true -> bad_host cfg host = false -> bad_port cfg port = false ->
  handshake (status_handshake_body host port version) cfg = Ok (mkHandshakePacket version 1).
Proof.
  intros Hb Hp Hv Hh H4 U BH BP.
  assert (Ll : len_as_i32 host = Z.of_nat (length host)).
  { unfold len_as_i32. rewrite wrap_small by lia. apply u32_as_i32_nonneg. lia. }
  assert (Li : is_i32 (Z.of_nat (length host))) by (unfold is_i32; lia).
  assert (Hhi : Z.shiftr port 8 = port / 256 /\ Z.land port 255 = port mod 256).
  { pose proof (to_be_bytes_val port) as E. now injection E. }
  pose proof (put_varint_encodes version Hv) as Ev. pose proof (put_varint_encodes _ Li) as El.
  assert (E : status_handshake_body host port version =
    [0] ++ put_varint version [] ++ (put_varint (Z.of_nat (length host)) [] ++ host) ++
    [port / 256; port mod 256] ++ [1]).
  { unfold status_handshake_body, to_be_bytes. rewrite Ll. destruct Hhi as [-> ->].
    unfold put_varint. cbn [app]. now rewrite <- !app_assoc. }
  unfold is_u16 in Hp.
  assert (0 <= port / 256 < 256) by (split; [apply Z.div_pos; lia | apply Z.div_lt_upper_bound; lia]).
  pose proof (Z.mod_pos_bound port 256 ltac:(lia)). pose proof (Z.div_mod port 256 ltac:(lia)).
  rewrite E. apply handshake_accept.
  - unfold is_bytes. rewrite !Forall_app. split_and!; try exact Hb;
      try (apply put_varint_bytes; apply Forall_nil_2);
      repeat (apply Forall_cons; split); try apply Forall_nil_2; unfold is_u8; lia.
  - rewrite !length_app. apply encodes_length in Ev, El. cbn [length]. lia.
  - exists [0], (put_varint version []), host, (put_varint (Z.of_nat (length host)) [] ++ host),
      (port / 256), (port mod 256), [1].
    assert (E01 : encodes 0 [0] /\ encodes 1 [1]).
    { split; [exists 0 | exists 1]; split_and!; cbn; lia || done. }
    destruct E01 as [E0 E1]. cbn [hs_version hs_state].
    do 3 (split; [assumption || reflexivity |]).
    split; [exists (put_varint (Z.of_nat (length host)) []); exact (conj El (conj Hh eq_refl)) |].
    replace (port / 256 * 256 + port mod 256) with port by lia.
    do 4 (split; [assumption |]). now left.
Qed.

(** A status request is exactly packet id 0 and nothing else; a ping is exactly packet id 1 and
    eight bytes. *)
Theorem status_packets_exact (d : list Z) :
  is_bytes d -> Z.of_nat (length d) < 2 ^ 64 ->
  (status_request d = Ok tt <-> encodes 0 d) /\
  (ping d = Ok tt <-> exists v payload, d = v ++ payload /\ encodes 1 v /\ length payload = 8%nat).
Proof.
  intros Hb Hl. pose proof (reads_new d Hb Hl) as R. unfold status_request, ping. split; split.
  - intros I. next_field I. destruct (Z.eqb_spec z 0) as [Ez |]; cbn [negb] in I; [subst z | discriminate].
    apply (Cursor_finish_iff _ _ _ R) in I. subst. now rewrite app_nil_r.
  - intros E. pose proof (eq_ind_r (reads _) R (app_nil_r d)) as R'. rewrite (int_read _ _ _ _ R' E).
    cbn [result_bind Z.eqb negb]. apply reads_advance in R'. now apply (Cursor_finish_iff _ [] tt).
  - intros I. next_field I. destruct (Z.eqb_spec z 1) as [Ez |]; cbn [negb] in I; [subst z | discriminate].
    next_field I. apply (Cursor_finish_iff _ _ _ R) in I. subst. rewrite app_nil_r.
    eexists _, _. split; [reflexivity |]. split; [eassumption | lia].
  - intros (v & p & Q & E & L). subst d. read_field R. cbn [Z.eqb Pos.eqb negb].
    pose proof (eq_ind_r (reads _) R (app_nil_r p)) as R'.
    rewrite (bytes_read _ 8 _ _ R') by lia. cbn [result_bind]. apply reads_advance in R'.
    now apply (Cursor_finish_iff _ [] tt).
Qed.

(** ** Instances *)

(** The host "mc.example" and the name "Alex_1". *)
Definition sample_host : list Z := [109; 99; 46; 101; 120; 97; 109; 112; 108; 101].
Definition sample_name : list Z := [65; 108; 101; 120; 95; 49].

Definition sample_protocol : Protocol := {|
  min_protocol := 4; max_protocol := 776; max_frame := 16384; max_initial_bytes := 32768;
  max_host_bytes := 255; allow_host_suffix := false; allowed_hosts := [sample_host];
  allowed_ports := []; strict_username := true; login_schemas := ∅;
  future_login_schema := "uuid" |}.

Definition sample_login : list Z := [0; 6] ++ sample_name ++ repeat 7 16.

Ltac bytes_tac := vm_compute; repeat constructor; discriminate.

Lemma handshake_exact_witness :
  handshake_grammar sample_protocol (status_handshake_body sample_host 25565 765)
    (mkHandshakePacket 765 1).
Proof.
  refine (proj1 (handshake_exact sample_protocol (status_handshake_body sample_host 25565 765) _ _ _) _);
    [bytes_tac | vm_compute; reflexivity | vm_compute; reflexivity].
Defined.

Lemma login_exact_witness :
  exists schema, schema_of sample_protocol 765 schema /\ login_grammar sample_protocol schema sample_login.
Proof.
  refine (proj2 (proj1 (login_exact sample_protocol sample_login 765 _ _) _));
    [bytes_tac | vm_compute; reflexivity | vm_compute; reflexivity].
Defined.

Lemma packet_bounds_sufficient_witness :
  exists m, login_max 765 sample_protocol = Ok m /\ Z.of_nat (length sample_login) <= m.
Proof.
  refine (proj2 (packet_bounds_sufficient sample_protocol sample_login _ _ _) 765 _);
    [bytes_tac | vm_compute; reflexivity | vm_compute; discriminate | vm_compute; reflexivity].
Defined.

Lemma status_handshake_roundtrip_witness :
  handshake (status_handshake_body sample_host 25565 (-1)) sample_protocol =
  Ok (mkHandshakePacket (-1) 1).
Proof.
  apply (status_handshake_roundtrip sample_protocol sample_host 25565 (-1));
    first [bytes_tac | vm_compute; reflexivity | unfold is_u16, is_i32; lia | vm_compute; discriminate].
Defined.

Lemma status_packets_exact_witness : encodes 0 [128; 0].
Proof.
  refine (proj1 (proj1 (status_packets_exact [128; 0] _ _)) _);
    [bytes_tac | vm_compute; reflexivity | vm_compute; reflexivity].
Defined.
