(* ===== verification/FrameIO.v ===== *)
(** * Reading frames from a connection ([gate/src/protocol.rs])

    [read_bounded] and [read_frame] over an arbitrary reader. The reader and the clock are the
    environment: a script of what successive clock readings return and of what arrives on the
    connection. A read may return any non-empty part of what has arrived, fail, or elapse its
    timeout; a read of no bytes is the end of the stream. [None] means the script ended while the
    operation was still waiting. *)
From S2P Require Import Prelude Machine Wire.
From stdpp Require Import base option list.
From Stdlib Require Import ZArith Lia.
Local Open Scope Z_scope.
Local Open Scope gate_scope.

(** What the next read finds. *)
Inductive Arrival : Type :=
| Chunk (bs : list Z)   (** bytes waiting; the empty chunk is the end of the stream *)
| IoError               (** the read fails *)
| Elapsed.              (** nothing arrives before the timer fires *)

Record Reader : Type := mkReader { clock : list Instant; arrivals : list Arrival }.

(** [Instant::now()]. *)
Definition now_reading (r : Reader) : option (Instant * Reader) :=
  match clock r with
  | [] => None
  | t :: rest => Some (t, mkReader rest (arrivals r))
  end.

(** [timeout_at(until, r.read(out))] with room for [want] bytes: the bytes read, a failure, or the
    timeout. Bytes that do not fit stay for the next read. *)
Inductive ReadOutcome : Type := Got (bs : list Z) | Failed | TimedOut.

Definition reader_read (r : Reader) (want : nat) : option (ReadOutcome * Reader) :=
  match arrivals r with
  | [] => None
  | Chunk bs :: rest =>
      Some (Got (take want bs),
            mkReader (clock r) (match drop want bs with [] => rest | more => Chunk more :: rest end))
  | IoError :: rest => Some (Failed, mkReader (clock r) rest)
  | Elapsed :: rest => Some (TimedOut, mkReader (clock r) rest)
  end.

(** [read_bounded] into a buffer of [want] bytes; every round reads at least one byte, so [fuel]
    at [want] never runs out. *)
Fixpoint read_bounded_loop (fuel : nat) (r : Reader) (want : nat) (acc : list Z) (absolute : Instant)
  (progress : Duration) : option (result (list Z) Error * Reader) :=
  match want, fuel with
  | O, _ => Some (Ok acc, r)
  | _, O => None
  | S _, S fuel =>
    '(now, r) ← now_reading r;
    if absolute <=? now then Some (Err Deadline, r)
    else
      let until := Z.min absolute (now + progress) in
      '(o, r) ← reader_read r want;
      match o with
      | TimedOut => Some (Err (if until =? absolute then Deadline else Slow), r)
      | Failed => Some (Err Io, r)
      | Got [] => Some (Err Eof, r)
      | Got bs => read_bounded_loop fuel r (want - length bs) (acc ++ bs) absolute progress
      end
  end.

Definition read_bounded (r : Reader) (want : nat) (absolute : Instant) (progress : Duration)
  : option (result (list Z) Error * Reader) :=
  read_bounded_loop want r want [] absolute progress.

(** A frame is its wire bytes and the offset of its body. *)
Record Frame : Type := mkFrame { wire : list Z; body_offset : nat }.
Definition Frame_body (f : Frame) : list Z := drop (body_offset f) (wire f).

Section ReadFrame.
Context (max : Z) (deadline : Instant) (progress first_progress : Duration).

(** The prefix loop of [read_frame]: [prefix] holds the bytes read so far. It stops after the
    third byte at the latest. *)
Fixpoint read_prefix (fuel : nat) (r : Reader) (remaining : Z) (prefix : list Z)
  : option (result (list Z * Z) Error * Z * Reader) :=
  match fuel with
  | O => None
  | S fuel =>
    if remaining =? 0 then Some (Err Oversized, remaining, r)
    else
      let wait := match prefix with [] => first_progress | _ => progress end in
      '(b, r) ← read_bounded r 1 deadline wait;
      match b with
      | Err e => Some (Err e, remaining, r)
      | Ok b =>
        let remaining := usize_sub remaining 1 in
        let prefix := prefix ++ b in
        match varint prefix with
        | Err e => Some (Err e, remaining, r)
        | Ok (Some (n, _)) =>
            if n <=? 0 then Some (Err Invalid, remaining, r) else Some (Ok (prefix, n), remaining, r)
        | Ok None =>
            if (length prefix =? 3)%nat then Some (Err VarInt, remaining, r)
            else read_prefix fuel r remaining prefix
        end
      end
  end.

Definition read_frame (r : Reader) (remaining : Z) : option (result Frame Error * Z * Reader) :=
  '(p, remaining, r) ← read_prefix 3 r remaining [];
  match p with
  | Err e => Some (Err e, remaining, r)
  | Ok (prefix, len) =>
    if (len >? max) || (len >? remaining) then Some (Err Oversized, remaining, r)
    else
      let remaining := usize_sub remaining len in
      '(b, r) ← read_bounded r (Z.to_nat len) deadline progress;
      match b with
      | Err e => Some (Err e, remaining, r)
      | Ok body => Some (Ok (mkFrame (prefix ++ body) (length prefix)), remaining, r)
      end
  end.
End ReadFrame.

(** ** Lengths *)

Lemma reader_read_length (r r' : Reader) (want : nat) (bs : list Z) :
  reader_read r want = Some (Got bs, r') -> (length bs <= want)%nat.
Proof.
  unfold reader_read. destruct (arrivals r) as [| [c | |] ?]; try discriminate. intros [= <- _].
  rewrite length_take. lia.
Qed.

(** A buffer that is filled is filled completely. *)
Lemma read_bounded_length (fuel : nat) (absolute : Instant) (progress : Duration) :
  forall (r r' : Reader) (want : nat) (acc b : list Z),
    read_bounded_loop fuel r want acc absolute progress = Some (Ok b, r') -> (length b = length acc + want)%nat.
Proof.
  induction fuel as [| fuel IH]; intros r r' want acc b E; (destruct want as [| want];
    [injection E as <- _; lia |]); [discriminate |]. cbn [read_bounded_loop] in E.
  destruct (now_reading r) as [[t r1] |]; [| discriminate]. cbn [mbind option_bind] in E.
  destruct (absolute <=? t); [discriminate |].
  destruct (reader_read r1 (S want)) as [[o r2] |] eqn:Er; [| discriminate]. cbn [mbind option_bind] in E.
  destruct o as [bs | |]; try discriminate. apply reader_read_length in Er. destruct bs as [| x bs]; [discriminate |].
  apply IH in E. rewrite E, length_app. cbn [length] in *. lia.
Qed.

Lemma read_prefix_length (progress first_progress : Duration) (deadline : Instant) (fuel : nat) :
  forall (r r' : Reader) (remaining left' : Z) (p prefix : list Z) (n : Z),
    read_prefix deadline progress first_progress fuel r remaining p = Some (Ok (prefix, n), left', r') ->
    (length prefix <= length p + fuel)%nat.
Proof.
  induction fuel as [| fuel IH]; intros r r' remaining left' p prefix n E; [discriminate |]. cbn [read_prefix] in E.
  destruct (remaining =? 0); [discriminate |].
  destruct (read_bounded r 1 deadline _) as [[b r1] |] eqn:Eb; [| discriminate]. cbn [mbind option_bind] in E.
  destruct b as [b | e]; [| discriminate]. apply read_bounded_length in Eb. cbn [length] in Eb.
  destruct (varint (p ++ b)) as [[[v k] |] | e]; [destruct (v <=? 0); [discriminate |] | | discriminate].
  - injection E as <- _ _ _. rewrite length_app. lia.
  - destruct (_ =? 3)%nat; [discriminate |]. apply IH in E. rewrite length_app in E. lia.
Qed.

Lemma read_frame_wire (max : Z) (deadline : Instant) (progress first_progress : Duration) (r r' : Reader)
  (remaining left' : Z) (f : Frame) :
  read_frame max deadline progress first_progress r remaining = Some (Ok f, left', r') ->
  Z.of_nat (length (wire f)) <= 3 + Z.max 0 max.
Proof.
  unfold read_frame. destruct (read_prefix _ _ _ _ _ _ _) as [[[p rem] r1] |] eqn:Ep; [| discriminate].
  cbn [mbind option_bind]. destruct p as [[prefix len] | e]; [| discriminate]. apply read_prefix_length in Ep.
  destruct ((len >? max) || (len >? rem)) eqn:G; [discriminate |]. breflect.
  destruct (read_bounded _ _ _ _) as [[b r2] |] eqn:Eb; [| discriminate]. cbn [mbind option_bind].
  destruct b as [b | e]; [| discriminate]. apply read_bounded_length in Eb. intros [= <- _ _]. cbn [wire].
  rewrite length_app. cbn [length] in *. lia.
Qed.

(** ** Rounds *)

(** A script long enough for [n] more rounds. *)
Definition rounds (r : Reader) (n : nat) : Prop := (n <= length (clock r))%nat /\ (n <= length (arrivals r))%nat.

(** A read round uses one clock reading and at most one arrival. *)
Lemma read_round (r : Reader) (n want : nat) (absolute : Instant) (progress : Duration) :
  rounds r (S n) ->
  exists t r1 o r2, now_reading r = Some (t, r1) /\ reader_read r1 want = Some (o, r2) /\ rounds r1 n /\ rounds r2 n.
Proof.
  destruct r as [[| t ck] ar]; [intros [L _]; cbn in L; lia |]. intros [L1 L2]. cbn [clock arrivals length] in *.
  destruct ar as [| a ar]; [cbn in L2; lia |]. exists t, (mkReader ck (a :: ar)). cbn [length] in *.
  destruct a as [bs | |]; do 2 eexists; (split; [reflexivity |]); (split; [reflexivity |]); unfold rounds;
    cbn [clock arrivals length]; try destruct (drop want bs); cbn [length]; lia.
Qed.

(** The error is the answer. *)
Ltac returns := solve [repeat eexists].

Lemma read_bounded_returns (fuel : nat) (absolute : Instant) (progress : Duration) :
  forall (r : Reader) (want n : nat) (acc : list Z),
    (want <= fuel)%nat -> rounds r (want + n) ->
    exists res r', read_bounded_loop fuel r want acc absolute progress = Some (res, r') /\
      match res with Ok _ => rounds r' n | Err _ => True end.
Proof.
  induction fuel as [| fuel IH]; intros r want n acc Hf R; (destruct want as [| want]; [cbn; eauto |]); [lia |].
  cbn [read_bounded_loop]. destruct (read_round r (want + n) (S want) absolute progress R) as (t & r1 & o & r2 & -> & E & _ & R2).
  cbn [mbind option_bind]. destruct (absolute <=? t); [returns |]. rewrite E. cbn [mbind option_bind].
  destruct o as [[| b bs] | |]; try returns. cbn [length].
  assert (R3 : rounds r2 (want - length bs + n)) by (unfold rounds in *; lia).
  destruct (IH r2 (want - length bs)%nat n (acc ++ b :: bs)) as (res & r' & E' & Rr); [lia | exact R3 |].
  replace (S want - S (length bs))%nat with (want - length bs)%nat by lia. eauto.
Qed.

Lemma read_prefix_returns (progress first_progress : Duration) (deadline : Instant) (fuel : nat) :
  forall (r : Reader) (n : nat) (remaining : Z) (prefix : list Z),
    (length prefix + fuel = 3)%nat -> (0 < fuel)%nat -> rounds r (fuel + n) ->
    exists res left' r', read_prefix deadline progress first_progress fuel r remaining prefix = Some (res, left', r') /\
      match res with Ok _ => rounds r' n | Err _ => True end.
Proof.
  induction fuel as [| fuel IH]; intros r n remaining prefix Hl Hf R; [lia |]. cbn [read_prefix].
  destruct (remaining =? 0); [returns |].
  destruct (read_bounded_returns 1 deadline (match prefix with [] => first_progress | _ => progress end) r 1 (fuel + n) []
    ltac:(lia) R) as (b & r1 & E & R1). unfold read_bounded. rewrite E. cbn [mbind option_bind].
  destruct b as [b | e]; [| returns].
  assert (Lb : length b = 1%nat) by (apply read_bounded_length in E; exact E).
  destruct (varint (prefix ++ b)) as [[[v k] |] | e]; [destruct (v <=? 0) | | returns].
  - returns.
  - do 3 eexists. split; [reflexivity |]. unfold rounds in *. lia.
  - rewrite length_app, Lb. destruct (Nat.eqb_spec (length prefix + 1) 3); [returns |].
    apply IH; [rewrite length_app, Lb; lia | lia | exact R1].
Qed.

(** C40: Reading a frame takes a bounded number of rounds: a connection and a clock that answer
    [3 + max] times are enough for [read_frame] to return, whatever arrives and in however small
    pieces, with a frame or with an error. *)
Theorem read_frame_returns (max : Z) (deadline : Instant) (progress first_progress : Duration) (r : Reader) (remaining : Z) :
  rounds r (3 + Z.to_nat max) ->
  exists res left' r', read_frame max deadline progress first_progress r remaining = Some (res, left', r').
Proof.
  intros R. unfold read_frame.
  destruct (read_prefix_returns progress first_progress deadline 3 r (Z.to_nat max) remaining [] eq_refl ltac:(lia) R)
    as (p & rem & r1 & -> & R1). cbn [mbind option_bind].
  destruct p as [[prefix len] | e]; [| eauto]. destruct ((len >? max) || (len >? rem)) eqn:G; [eauto |]. breflect.
  destruct (read_bounded_returns (Z.to_nat len) deadline progress r1 (Z.to_nat len) (Z.to_nat max - Z.to_nat len) [] ltac:(lia))
    as (b & r2 & E & _); [unfold rounds in *; lia |].
  unfold read_bounded. rewrite E. cbn [mbind option_bind]. destruct b; eauto.
Qed.

(** Seven clock readings and seven single bytes, none of them ending the length prefix. *)
Lemma read_frame_returns_witness :
  exists res left' r', read_frame 4 100 10 10 (mkReader (replicate 7 0) (replicate 7 (Chunk [255]))) 50 = Some (res, left', r').
Proof. apply (read_frame_returns 4 100 10 10 (mkReader (replicate 7 0) (replicate 7 (Chunk [255]))) 50). split; vm_compute; lia. Defined.

(** ** Streams of data *)

(** The bytes a script of arrivals delivers before anything else happens. *)
Fixpoint delivered (l : list Arrival) : list Z :=
  match l with
  | Chunk bs :: rest => bs ++ delivered rest
  | _ => []
  end.

Definition chunk_data (a : Arrival) : bool := match a with Chunk (_ :: _) => true | _ => false end.

(** Only data arrives, in non-empty chunks, and every clock reading is before the deadline; the
    clock is read at most once per byte. *)
Definition flowing (r : Reader) (bs : list Z) (deadline : Instant) : Prop :=
  forallb chunk_data (arrivals r) = true /\ delivered (arrivals r) = bs /\
  Forall (fun t => t < deadline) (clock r) /\ (length bs <= length (clock r))%nat.

Lemma flowing_step (r : Reader) (bs : list Z) (deadline : Instant) (want : nat) :
  flowing r bs deadline -> bs <> [] -> (0 < want)%nat ->
  exists t r1 x got r2, now_reading r = Some (t, r1) /\ t < deadline /\
    reader_read r1 want = Some (Got (x :: got), r2) /\
    (length (x :: got) <= want)%nat /\ bs = (x :: got) ++ delivered (arrivals r2) /\
    flowing r2 (delivered (arrivals r2)) deadline.
Proof.
  intros (Hc & Hd & Ht & Hl) Hne Hw. destruct r as [ck ar]. cbn in *.
  destruct bs as [| b0 bs]; [done |]. destruct ck as [| t ck]; [cbn in Hl; lia |].
  inversion Ht as [| ? ? Ht0 Htr]; subst.
  destruct ar as [| [[| x xs] | |] ar]; try discriminate. cbn in Hd, Hc. injection Hd as -> Hd.
  destruct want as [| want]; [lia |].
  exists t, (mkReader ck (Chunk (b0 :: xs) :: ar)), b0, (take want xs),
    (mkReader ck (match drop want xs with [] => ar | more => Chunk more :: ar end)).
  split; [done |]. split; [done |]. split; [done |].
  assert (D : delivered (arrivals (mkReader ck (match drop want xs with [] => ar
    | more => Chunk more :: ar end))) = drop want xs ++ delivered ar).
  { cbn [arrivals]. now destruct (drop want xs). }
  split; [cbn; rewrite length_take; lia |]. rewrite D. split.
  { cbn. f_equal. now rewrite app_assoc, take_drop. }
  split_and!; [| exact D | done |].
  - cbn [arrivals]. destruct (drop want xs) eqn:E; [done |]. cbn. done.
  - cbn [clock length] in *. rewrite length_app, length_drop. rewrite <- Hd, length_app in Hl. lia.
Qed.

(** Data that keeps arriving is collected exactly, however it is fragmented. *)
Lemma read_bounded_flowing (fuel : nat) (r : Reader) (a b acc : list Z) (absolute : Instant)
  (progress : Duration) :
  flowing r (a ++ b) absolute -> (length a <= fuel)%nat ->
  exists r', read_bounded_loop fuel r (length a) acc absolute progress = Some (Ok (acc ++ a), r') /\
    flowing r' b absolute.
Proof.
  revert r a acc. induction fuel as [| fuel IH]; intros r a acc F Hf.
  { destruct a; [| cbn in Hf; lia]. exists r. cbn. now rewrite app_nil_r. }
  destruct a as [| a0 a]; [exists r; cbn; now rewrite app_nil_r |].
  destruct (flowing_step r ((a0 :: a) ++ b) absolute (length (a0 :: a)) F ltac:(done) ltac:(cbn; lia))
    as (t & r1 & x & got & r2 & En & Ht & Er & Lw & Ebs & F2).
  set (g := x :: got) in *.
  destruct (app_split_prefix _ _ _ _ Ebs Lw) as (a' & Ea & Ed). rewrite Ed in F2.
  cbn [length]. cbn [read_bounded_loop]. rewrite En. cbn [mbind option_bind].
  destruct (Z.leb_spec absolute t); [lia |].
  change (S (length a)) with (length (a0 :: a)). rewrite Er. cbn [mbind option_bind]. fold g.
  assert (L : (length (a0 :: a) - length g = length a')%nat) by (rewrite Ea, length_app; lia).
  unfold g at 1. cbv iota. fold g. rewrite L.
  destruct (IH r2 a' (acc ++ g) F2) as (r' & Hr & Fr).
  { apply (f_equal length) in Ea. rewrite length_app in Ea. unfold g in Ea. cbn in *. lia. }
  exists r'. rewrite Hr, Ea, app_assoc. done.
Qed.

(** ** Frames in a flowing stream *)

Lemma read_prefix_flowing (progress first_progress : Duration) (deadline : Instant) (n : Z)
  (fuel : nat) (q : list Z) :
  forall (r : Reader) (p rest : list Z) (remaining : Z),
  flowing r (q ++ rest) deadline -> is_bytes (p ++ q) -> encodes n (p ++ q) -> 0 < n ->
  q <> [] -> (length (p ++ q) <= 3)%nat -> (length q <= fuel)%nat ->
  Z.of_nat (length q) <= remaining < 2 ^ 64 ->
  exists r', read_prefix deadline progress first_progress fuel r remaining p =
    Some (Ok (p ++ q, n), remaining - Z.of_nat (length q), r') /\ flowing r' rest deadline.
Proof.
  revert q. induction fuel as [| fuel IH]; intros [| b q] r p rest remaining F Hb He Hn Hq H3 Hf Hr;
    try done; [cbn in Hf; lia |].
  cbn [read_prefix]. destruct (Z.eqb_spec remaining 0); [cbn in Hr; lia |].
  destruct (read_bounded_flowing 1 r [b] (q ++ rest) [] deadline
    (match p with [] => first_progress | _ => progress end) F ltac:(cbn; lia)) as (r1 & E1 & F1).
  cbn [length app] in E1. unfold read_bounded. rewrite E1. cbn [mbind option_bind].
  rewrite usize_sub_exact by (unfold is_u64; cbn [length] in Hr; lia).
  destruct q as [| b' q].
  - rewrite <- (app_nil_r (p ++ [b])), (encodes_varint n) by (now rewrite ?app_nil_r).
    destruct (Z.leb_spec n 0); [lia |]. exists r1. split; [now rewrite app_nil_r | done].
  - assert (Hb' : is_bytes (p ++ [b])).
    { unfold is_bytes in *. rewrite !Forall_app, !Forall_cons in *. intuition auto. }
    change (p ++ b :: b' :: q) with (p ++ [b] ++ b' :: q) in *. rewrite app_assoc in *.
    rewrite (varint_prefix n (p ++ [b]) (b' :: q)) by done.
    assert ((length (p ++ [b]) =? 3)%nat = false) as ->.
    { apply Nat.eqb_neq. rewrite length_app in H3. cbn [length] in *. lia. }
    destruct (IH (b' :: q) r1 (p ++ [b]) rest (remaining - 1)) as (r' & E' & F'); auto.
    + cbn [length] in *. lia.
    + cbn [length] in *. lia.
    + exists r'. split; [| done]. rewrite E'. do 2 f_equal. f_equal. cbn [length]. lia.
Qed.

(** C32: Frame round trip: whatever way the bytes of a frame are fragmented on the wire, [read_frame]
    returns exactly that frame, with the body that was framed, charges its wire length to the
    connection's byte budget and leaves every byte that follows it unread; provided the body is
    non-empty, within [max] and below 2^21 bytes, the budget covers the frame, and the data keeps
    arriving before the deadline. *)
Theorem read_frame_roundtrip (max : Z) (deadline : Instant) (progress first_progress : Duration)
  (r : Reader) (body rest : list Z) (remaining : Z) :
  flowing r (frame body ++ rest) deadline -> is_bytes body ->
  1 <= Z.of_nat (length body) <= max -> Z.of_nat (length body) < 2 ^ 21 ->
  Z.of_nat (length (frame body)) <= remaining < 2 ^ 64 ->
  exists f r', read_frame max deadline progress first_progress r remaining =
      Some (Ok f, remaining - Z.of_nat (length (frame body)), r') /\
    wire f = frame body /\ Frame_body f = body /\ flowing r' rest deadline.
Proof.
  intros F Hb Hm H21 Hr.
  assert (Ll : len_as_i32 body = Z.of_nat (length body)).
  { unfold len_as_i32. rewrite wrap_small by lia. apply u32_as_i32_nonneg. lia. }
  unfold frame in *. rewrite Ll in *. set (n := Z.of_nat (length body)) in *.
  assert (Hi : is_i32 n) by (unfold is_i32; lia).
  set (v := put_varint n []) in *.
  assert (Ev : encodes n v) by now apply put_varint_encodes.
  assert (Bv : is_bytes v) by (apply put_varint_bytes; constructor).
  pose proof (encodes_length _ _ Ev) as Lv.
  assert (L3 : (length v <= 3)%nat).
  { unfold v, put_varint. cbn [app]. unfold i32_as_u32. rewrite wrap_small by lia.
    apply put_varint_loop_short; [lia |]. change (128 ^ Z.of_nat 3) with (2 ^ 21). lia. }
  rewrite <- app_assoc in F. rewrite length_app in *.
  destruct (read_prefix_flowing progress first_progress deadline n 3 v r [] (body ++ rest) remaining)
    as (r1 & E1 & F1); [exact F | exact Bv | exact Ev | lia | | exact L3 | lia | lia |].
  { intros Z. rewrite Z in Lv. cbn in Lv. lia. }
  cbn [app] in E1. unfold read_frame. rewrite E1. cbn [mbind option_bind].
  rewrite !Z.gtb_ltb. destruct (Z.ltb_spec max n); [lia |].
  destruct (Z.ltb_spec (remaining - Z.of_nat (length v)) n); [lia |]. cbn [orb].
  destruct (read_bounded_flowing (Z.to_nat n) r1 body rest [] deadline progress F1) as (r2 & E2 & F2);
    [lia |].
  unfold read_bounded. replace (Z.to_nat n) with (length body) in * by lia. rewrite E2.
  cbn [mbind option_bind app]. eexists _, r2. split; [| split_and!; [| | exact F2]].
  - rewrite usize_sub_exact by (unfold is_u64; lia). do 3 f_equal. lia.
  - done.
  - unfold Frame_body. cbn [wire body_offset]. apply drop_app_length.
Qed.

Lemma read_frame_roundtrip_witness :
  exists f r', read_frame 100 10 5 5 (mkReader [0; 1; 2; 3; 4; 5; 6; 7] [Chunk [2; 7]; Chunk [9; 1; 0]]) 8 =
      Some (Ok f, 5, r') /\ wire f = [2; 7; 9] /\ Frame_body f = [7; 9] /\ flowing r' [1; 0] 10.
Proof.
  refine (read_frame_roundtrip 100 10 5 5
    (mkReader [0; 1; 2; 3; 4; 5; 6; 7] [Chunk [2; 7]; Chunk [9; 1; 0]]) [7; 9] [1; 0] 8 _ _ _ _ _).
  - split_and!; [reflexivity | reflexivity | cbn [clock] | apply Nat.leb_le; vm_compute; reflexivity].
    repeat (apply Forall_cons; split; [lia |]). apply Forall_nil_2.
  - repeat (apply Forall_cons; split; [unfold is_u8; lia |]). apply Forall_nil_2.
  - cbn. lia.
  - cbn. lia.
  - vm_compute. split; [discriminate | reflexivity].
Defined.

(** ** Any environment *)

(** The bytes still to arrive. *)
Fixpoint bytes_left (l : list Arrival) : Z :=
  match l with
  | [] => 0
  | Chunk bs :: rest => Z.of_nat (length bs) + bytes_left rest
  | _ :: rest => bytes_left rest
  end.

Definition reader_bytes (r : Reader) : Prop :=
  Forall (fun a => match a with Chunk bs => is_bytes bs | _ => True end) (arrivals r).

(** What an operation may have done to the reader: it used some clock readings and took [taken]
    bytes. *)
Record progressed (r r' : Reader) (used : list Instant) (taken : Z) : Prop := {
  pr_clock : clock r = used ++ clock r';
  pr_total : bytes_left (arrivals r) = bytes_left (arrivals r') + taken;
  pr_bytes : reader_bytes r';
  pr_nonneg : 0 <= taken }.

Lemma progressed_refl (r : Reader) : reader_bytes r -> progressed r r [] 0.
Proof. intros H. split; auto; lia. Qed.

Lemma progressed_trans (r1 r2 r3 : Reader) (u1 u2 : list Instant) (n1 n2 : Z) :
  progressed r1 r2 u1 n1 -> progressed r2 r3 u2 n2 -> progressed r1 r3 (u1 ++ u2) (n1 + n2).
Proof.
  intros [C1 T1 B1 N1] [C2 T2 B2 N2]. split; auto; [now rewrite C1, C2, app_assoc | lia | lia].
Qed.

Lemma now_progressed (r r1 : Reader) (t : Instant) :
  reader_bytes r -> now_reading r = Some (t, r1) -> progressed r r1 [t] 0.
Proof.
  intros B. unfold now_reading. destruct (clock r) as [| t' ck] eqn:E; [discriminate |].
  intros [= <- <-]. split; auto; cbn; lia.
Qed.

Lemma read_progressed (r r1 : Reader) (want : nat) (o : ReadOutcome) :
  reader_bytes r -> reader_read r want = Some (o, r1) ->
  progressed r r1 [] (match o with Got bs => Z.of_nat (length bs) | _ => 0 end) /\
  match o with Got bs => is_bytes bs /\ (length bs <= want)%nat | _ => True end.
Proof.
  intros B. unfold reader_read, reader_bytes in *. destruct (arrivals r) as [| a rest] eqn:E; [discriminate |].
  inversion B as [| ? ? Ba Br]; subst.
  destruct a as [bs | |]; intros [= <- <-]; (split; [split; cbn [arrivals clock]; auto; try lia |]); try done.
  - rewrite E. cbn [bytes_left]. rewrite <- (take_drop want bs) at 1. rewrite length_app.
    destruct (drop want bs); cbn [bytes_left length]; lia.
  - unfold reader_bytes. cbn [arrivals]. assert (D : is_bytes (drop want bs)) by now apply Forall_drop.
    destruct (drop want bs); [done | now constructor].
  - split; [now apply Forall_take | rewrite length_take; lia].
  - rewrite E. cbn. lia.
  - rewrite E. cbn. lia.
Qed.

Lemma read_bounded_any (fuel : nat) (r : Reader) (want : nat) (acc : list Z) (absolute : Instant)
  (progress : Duration) (res : result (list Z) Error) (r' : Reader) :
  reader_bytes r -> read_bounded_loop fuel r want acc absolute progress = Some (res, r') ->
  exists used taken, progressed r r' used taken /\
    match res with
    | Ok out => exists bs, out = acc ++ bs /\ length bs = want /\ is_bytes bs /\ taken = Z.of_nat want /\
                           Forall (fun t => t < absolute) used
    | Err _ => taken < Z.of_nat want
    end.
Proof.
  revert r want acc. induction fuel as [| fuel IH]; intros r want acc B H.
  { destruct want; [| discriminate]. injection H as <- <-. exists [], 0.
    split; [now apply progressed_refl |]. exists []. rewrite app_nil_r.
    split_and!; try done; apply Forall_nil_2. }
  destruct want as [| want].
  { injection H as <- <-. exists [], 0. split; [now apply progressed_refl |].
    exists []. rewrite app_nil_r. split_and!; try done; apply Forall_nil_2. }
  cbn [read_bounded_loop] in H.
  destruct (now_reading r) as [[t r1] |] eqn:En; [| discriminate]. cbn [mbind option_bind] in H.
  pose proof (now_progressed r r1 t B En) as P1.
  destruct (Z.leb_spec absolute t) as [G | G]; [injection H as <- <-; exists [t], 0; split; [done | lia] |].
  destruct (reader_read r1 (S want)) as [[o r2] |] eqn:Er; [| discriminate]. cbn [mbind option_bind] in H.
  destruct (read_progressed r1 r2 (S want) o (pr_bytes _ _ _ _ P1) Er) as [P2 Ho].
  pose proof (progressed_trans _ _ _ _ _ _ _ P1 P2) as P12. cbn [app] in P12.
  destruct o as [[| x bs] | |]; [| | |];
    try (injection H as <- <-; eexists _, _; split; [exact P12 | cbn; lia]).
  destruct Ho as [Hb Hle].
  destruct (IH _ _ _ (pr_bytes _ _ _ _ P2) H) as (used & taken & P3 & Hres).
  exists ([t] ++ used), (Z.of_nat (length (x :: bs)) + taken). split.
  { pose proof (progressed_trans _ _ _ _ _ _ _ P12 P3) as P. now rewrite Z.add_0_l in P. }
  destruct res as [out | e]; [| cbn [length] in *; lia].
  destruct Hres as (bs' & -> & L & Hb' & -> & Hu). exists ((x :: bs) ++ bs').
  rewrite app_assoc. split_and!; auto; [rewrite length_app; lia | now apply Forall_app_2 | lia |].
  now constructor.
Qed.

Lemma encodes_short (n : Z) (vs : list Z) : is_bytes vs -> encodes n vs -> (length vs <= 3)%nat -> n < 2 ^ 21.
Proof.
  intros Hb (u & Hl & _ & Hu & ->) L.
  assert (B : forall k vs u, is_bytes vs -> leb_value vs = Some u -> (length vs <= k)%nat ->
    u < 128 ^ Z.of_nat k).
  { clear. induction k as [| k IH]; intros [| b vs] u Hb Hl L; try discriminate; [cbn in L; lia |].
    inversion Hb as [| ? ? Hu Hr]; subst. unfold is_u8 in Hu. cbn in Hl.
    assert (0 < 128 ^ Z.of_nat k) by (apply Z.pow_pos_nonneg; lia).
    rewrite Nat2Z.inj_succ, Z.pow_succ_r by lia. destruct (Z.ltb_spec b 128).
    - destruct vs; [injection Hl as <-; lia | discriminate].
    - destruct (leb_value vs) as [w |] eqn:E; [| discriminate]. injection Hl as <-.
      specialize (IH vs w Hr E ltac:(cbn in L; lia)). lia. }
  specialize (B 3%nat vs u Hb Hl L). change (128 ^ Z.of_nat 3) with (2 ^ 21) in B.
  unfold u32_as_i32. destruct (Z.ltb_spec u (2 ^ 31)); lia.
Qed.

Lemma read_bounded_not_oversized (fuel : nat) (r : Reader) (want : nat) (acc : list Z)
  (absolute : Instant) (progress : Duration) (r' : Reader) :
  read_bounded_loop fuel r want acc absolute progress <> Some (Err Oversized, r').
Proof.
  revert r want acc. induction fuel as [| fuel IH]; intros r want acc; destruct want; try discriminate.
  cbn [read_bounded_loop]. destruct (now_reading r) as [[t r1] |]; [| discriminate].
  cbn [mbind option_bind]. destruct (absolute <=? t); [discriminate |].
  destruct (reader_read r1 (S want)) as [[o r2] |]; [| discriminate]. cbn [mbind option_bind].
  destruct o as [[|] | |]; try discriminate; [apply IH | destruct (_ =? _); discriminate].
Qed.

Section AnyEnvironment.
Context (max : Z) (deadline : Instant) (progress first_progress : Duration).

Lemma read_prefix_any (fuel : nat) :
  forall (r : Reader) (remaining : Z) (p : list Z) res rem' r',
  reader_bytes r -> is_bytes p -> (length p + fuel <= 3)%nat -> 0 <= remaining < 2 ^ 64 ->
  read_prefix deadline progress first_progress fuel r remaining p = Some (res, rem', r') ->
  exists used taken, progressed r r' used taken /\ taken = remaining - rem' /\
    0 <= rem' /\ taken <= Z.of_nat fuel /\
    match res with
    | Ok (prefix, n) => exists bs, prefix = p ++ bs /\ Z.of_nat (length bs) = taken /\
        (length prefix <= 3)%nat /\ 0 < n < 2 ^ 21 /\ Forall (fun t => t < deadline) used
    | Err _ => True
    end.
Proof.
  induction fuel as [| fuel IH]; intros r remaining p res rem' r' B Hp L Hr H; [discriminate |].
  cbn [read_prefix] in H. destruct (Z.eqb_spec remaining 0) as [-> | Hne].
  { injection H as <- <- <-. exists [], 0. split_and!; auto using progressed_refl; lia. }
  destruct (read_bounded r 1 deadline _) as [[b r1] |] eqn:Eb; [| discriminate]. cbn [mbind option_bind] in H.
  destruct (read_bounded_any _ _ _ _ _ _ _ _ B Eb) as (u1 & t1 & P1 & H1).
  destruct b as [b | e].
  2:{ injection H as <- <- <-. exists u1, t1. pose proof (pr_nonneg _ _ _ _ P1).
      split_and!; auto; lia. }
  destruct H1 as (bs & -> & Lb & Bb & -> & U1). cbn [app] in H.
  rewrite usize_sub_exact in H by (unfold is_u64; lia).
  assert (Bp : is_bytes (p ++ bs)) by now apply Forall_app_2.
  assert (Lp : length (p ++ bs) = S (length p)) by (rewrite length_app; lia).
  destruct (varint (p ++ bs)) as [[[n k] |] | e] eqn:V.
  - assert (X : exists used taken, progressed r r1 used taken /\ taken = remaining - (remaining - 1) /\
      0 <= remaining - 1 /\ taken <= Z.of_nat (S fuel) /\ Forall (fun t => t < deadline) used).
    { exists u1, (Z.of_nat 1). split_and!; auto; lia. }
    destruct X as (u & t & P & Ht & Hr1 & Hf & Hu).
    destruct (Z.leb_spec n 0) as [G | G]; injection H as <- <- <-; exists u, t; split_and!; auto.
    exists bs. split_and!; auto; try lia.
    apply varint_encodes in V as (vs & rest & Evs & En & _); [| done].
    apply (encodes_short n vs); [| done |].
    + rewrite Evs in Bp. now apply Forall_app in Bp as [? _].
    + apply (f_equal length) in Evs. rewrite Lp, length_app in Evs. lia.
  - destruct (length (p ++ bs) =? 3)%nat eqn:E3.
    { injection H as <- <- <-. exists u1, (Z.of_nat 1). split_and!; auto; lia. }
    destruct (IH r1 (remaining - 1) (p ++ bs) res rem' r' (pr_bytes _ _ _ _ P1) Bp ltac:(lia) ltac:(lia) H)
      as (u2 & t2 & P2 & T2 & R2 & F2 & X2).
    exists (u1 ++ u2), (Z.of_nat 1 + t2). split; [eapply progressed_trans; eauto |].
    split; [lia |]. split; [done |]. split; [lia |].
    destruct res as [[prefix n] |]; [| done].
    destruct X2 as (bs' & -> & Lbs & Lpre & Hn & U2).
    exists (bs ++ bs'). rewrite app_assoc. split_and!; auto; [rewrite length_app; lia | lia | lia |].
    now apply Forall_app_2.
  - injection H as <- <- <-. exists u1, (Z.of_nat 1). split_and!; auto; lia.
Qed.

(** Whatever arrives, and in whatever way reading ends, [read_frame] takes no more bytes from
    the connection than it charges to the connection's budget and never charges more than the
    budget. A frame it returns has a body of 1 to [max] bytes and at most three prefix bytes, was
    charged exactly its wire length, and was completed with every clock reading before the
    deadline; a frame that is refused as oversized has none of its body read. *)
Theorem read_frame_budget (r : Reader) (remaining : Z) (res : result Frame Error) (rem' : Z) (r' : Reader) :
  reader_bytes r -> 0 <= remaining < 2 ^ 64 ->
  read_frame max deadline progress first_progress r remaining = Some (res, rem', r') ->
  exists used, clock r = used ++ clock r' /\
    0 <= bytes_left (arrivals r) - bytes_left (arrivals r') <= remaining - rem' /\ 0 <= rem' /\
    match res with
    | Ok f => bytes_left (arrivals r) - bytes_left (arrivals r') = remaining - rem' /\
        Z.of_nat (length (wire f)) = remaining - rem' /\ (body_offset f <= 3)%nat /\
        1 <= Z.of_nat (length (Frame_body f)) <= max /\ Forall (fun t => t < deadline) used
    | Err Oversized => remaining - rem' <= 3
    | Err _ => True
    end.
Proof.
  intros B Hr H. unfold read_frame in H.
  destruct (read_prefix _ _ _ _ _ _ _) as [[[p rem1] r1] |] eqn:Ep; [| discriminate].
  cbn [mbind option_bind] in H.
  destruct (read_prefix_any 3 r remaining [] p rem1 r1 B ltac:(apply Forall_nil_2) ltac:(cbn; lia) Hr Ep)
    as (u1 & t1 & P1 & T1 & R1 & F1 & X1).
  pose proof (pr_total _ _ _ _ P1). pose proof (pr_nonneg _ _ _ _ P1).
  destruct p as [[prefix len] | e].
  2:{ injection H as <- <- <-. exists u1. split; [apply P1 |].
      split; [lia |]. split; [lia |]. destruct e; lia || done. }
  destruct X1 as (bs & Epre & Lb & L3 & Hn & U1). cbn [app] in Epre. subst bs.
  destruct ((len >? max) || (len >? rem1)) eqn:G.
  { injection H as <- <- <-. exists u1. split; [apply P1 |]. split; [lia |]. split; lia. }
  breflect. rewrite usize_sub_exact in H by (unfold is_u64; lia).
  destruct (read_bounded r1 (Z.to_nat len) deadline progress) as [[b r2] |] eqn:Eb; [| discriminate].
  cbn [mbind option_bind] in H.
  destruct (read_bounded_any _ _ _ _ _ _ _ _ (pr_bytes _ _ _ _ P1) Eb) as (u2 & t2 & P2 & X2).
  pose proof (progressed_trans _ _ _ _ _ _ _ P1 P2) as [C T _ N].
  pose proof (pr_nonneg _ _ _ _ P2).
  destruct b as [body | e]; injection H as <- <- <-; exists (u1 ++ u2).
  - destruct X2 as (bs & -> & Lbs & _ & -> & U2). cbn [app] in *.
    split; [done |]. split; [lia |]. split; [lia |]. unfold Frame_body. cbn [wire body_offset].
    rewrite drop_app_length, length_app. split_and!; try lia. now apply Forall_app_2.
  - split; [done |]. split; [lia |]. split; [lia |].
    destruct e; try done. now apply read_bounded_not_oversized in Eb.
Qed.
End AnyEnvironment.

(** An announced length above the bound: one prefix byte is read, the body is not. *)
Lemma read_frame_budget_witness :
  exists used, [0; 1] = used ++ [1] /\ 100 - 99 <= 3.
Proof.
  destruct (read_frame_budget 10 50 5 5 (mkReader [0; 1] [Chunk [60; 7; 9]]) 100 (Err Oversized) 99
    (mkReader [1] [Chunk [7; 9]])) as (used & C & _ & _ & X).
  - repeat (apply Forall_cons; split); try apply Forall_nil_2; unfold is_u8; lia.
  - lia.
  - vm_compute. reflexivity.
  - exists used. split; [exact C | exact X].
Defined.
