(* ===== verification/Proxy.v ===== *)
(** * PROXY protocol v2 ([gate/src/incoming_proxy.rs], [cache.rs])

    The header the gate writes to its backend and the receiver that accepts one from a trusted
    load balancer, with the grammar of the headers that it accepts ([asserts], [assertable]). CIDR membership
    is that of the [ipnet] interface. *)
From S2P Require Import Prelude Machine Net Wire FrameIO.
From stdpp Require Import base option list.
From Stdlib Require Import ZArith Lia.
Local Open Scope Z_scope.
Local Open Scope gate_scope.

(** ** The writer *)

(** CR LF CR LF NUL CR LF QUIT LF. *)
Definition SIGNATURE : list Z := [13; 10; 13; 10; 0; 13; 10; 81; 85; 73; 84; 10].

Inductive ProxyError : Type := AddressFamilyMismatch.

Definition proxy_header (src dst : SocketAddr) : result (list Z) ProxyError :=
  let b := SIGNATURE ++ [33] in
  let? b :=
    match sa_ip src, sa_ip dst with
    | V4 s, V4 d => Ok (b ++ [17] ++ to_be_bytes 12 ++ be_octets 4 s ++ be_octets 4 d)
    | V6 s, V6 d => Ok (b ++ [33] ++ to_be_bytes 36 ++ be_octets 16 s ++ be_octets 16 d)
    | _, _ => Err AddressFamilyMismatch
    end in
  Ok (b ++ to_be_bytes (sa_port src) ++ to_be_bytes (sa_port dst)).

(** ** The receiver *)

Definition MAX_ADDRESS_AND_TLVS : Z := 4096.

(** [timeout_at(deadline, stream.read_exact(buf))]: the end of the stream is an I/O error. Every
    round reads at least one byte, so [fuel] at [want] never runs out. *)
Fixpoint read_exact_loop (fuel : nat) (r : Reader) (want : nat) (acc : list Z)
  : option (result (list Z) Error * Reader) :=
  match want, fuel with
  | O, _ => Some (Ok acc, r)
  | _, O => None
  | S _, S fuel =>
    '(o, r) ← reader_read r want;
    match o with
    | TimedOut => Some (Err Deadline, r)
    | Failed => Some (Err Io, r)
    | Got [] => Some (Err Io, r)
    | Got bs => read_exact_loop fuel r (want - length bs) (acc ++ bs)
    end
  end.

Definition read_exact (r : Reader) (want : nat) : option (result (list Z) Error * Reader) :=
  read_exact_loop want r want [].

Section Receiver.
Context {IpNet : Type} `{IpNetLib IpNet}.

Record IncomingProxyV2 : Type := mkIncomingProxyV2 { enabled : bool; trusted_proxies : list IpNet }.

Definition is_trusted (peer : IpAddr) (cfg : IncomingProxyV2) : bool :=
  existsb (fun net => net_contains net (normalize peer)) (trusted_proxies cfg).

(** The two endpoints of an address block of the family announced by [min]. *)
Definition proxy_endpoints (min : Z) (body : list Z) : SocketAddr * SocketAddr :=
  let at_ i := nth i body 0 in
  if min =? 12 then
    (SocketAddr_new (V4 (from_octets (take 4 body))) (from_be_bytes (at_ 8%nat) (at_ 9%nat)),
     SocketAddr_new (V4 (from_octets (take 4 (drop 4 body)))) (from_be_bytes (at_ 10%nat) (at_ 11%nat)))
  else
    (SocketAddr_new (V6 (from_octets (take 16 body))) (from_be_bytes (at_ 32%nat) (at_ 33%nat)),
     SocketAddr_new (V6 (from_octets (take 16 (drop 16 body)))) (from_be_bytes (at_ 34%nat) (at_ 35%nat))).

(** Endpoints that may not be asserted. *)
Definition bad_endpoints (src dst : SocketAddr) : bool :=
  is_unspecified (sa_ip src) || is_multicast (sa_ip src) || (sa_port src =? 0) ||
  is_unspecified (sa_ip dst) || (sa_port dst =? 0).

(** The fixed header: the length of the address block and what follows it, and the minimum its
    family needs. *)
Definition proxy_fixed_header (header : list Z) : result (Z * Z) Error :=
  if negb (bool_decide (take 12 header = SIGNATURE)) || negb (nth 12 header 0 =? 33) then Err Invalid
  else
    let? min := (if nth 13 header 0 =? 17 then Ok 12
                 else if nth 13 header 0 =? 33 then Ok 36 else Err Invalid) in
    let len := from_be_bytes (nth 14 header 0) (nth 15 header 0) in
    if len <? min then Err Invalid
    else if len >? MAX_ADDRESS_AND_TLVS then Err Oversized
    else Ok (len, min).

Definition proxy_read (r : Reader) (socket_peer : SocketAddr) (cfg : IncomingProxyV2)
  : option (result (SocketAddr * SocketAddr) Error * Reader) :=
  if negb (is_trusted (sa_ip socket_peer) cfg) then Some (Err Invalid, r)
  else
    '(h, r) ← read_exact r 16;
    match h with
    | Err e => Some (Err e, r)
    | Ok header =>
      match proxy_fixed_header header with
      | Err e => Some (Err e, r)
      | Ok (len, min) =>
        '(b, r) ← read_exact r (Z.to_nat len);
        match b with
        | Err e => Some (Err e, r)
        | Ok body =>
          let '(src, dst) := proxy_endpoints min body in
          if bad_endpoints src dst then Some (Err Invalid, r) else Some (Ok (src, dst), r)
        end
      end
    end.
End Receiver.

Arguments IncomingProxyV2 IpNet : clear implicits.

(** ** Octets *)

Lemma be_octets_length (n : nat) (a : Z) : length (be_octets n a) = n.
Proof. revert a. induction n as [| n IH]; intros a; [done |]. cbn. rewrite length_app, IH. cbn. lia. Qed.

Lemma be_octets_bytes (n : nat) (a : Z) : is_bytes (be_octets n a).
Proof.
  revert a. induction n as [| n IH]; intros a; [apply Forall_nil_2 |]. cbn.
  apply Forall_app_2; [apply IH |]. apply Forall_cons. split; [| apply Forall_nil_2].
  change 255 with (Z.ones 8). rewrite Z.land_ones by lia. unfold is_u8. apply Z.mod_pos_bound. lia.
Qed.

Lemma from_octets_be (n : nat) (a : Z) : 0 <= a < 256 ^ Z.of_nat n -> from_octets (be_octets n a) = a.
Proof.
  revert a. induction n as [| n IH]; intros a Ha; [cbn in *; lia |].
  cbn [be_octets]. unfold from_octets in *. rewrite fold_left_app. cbn [fold_left].
  rewrite Nat2Z.inj_succ, Z.pow_succ_r in Ha by lia. rewrite Z.shiftr_div_pow2 by lia.
  change (2 ^ 8) with 256. rewrite IH.
  - change 255 with (Z.ones 8). rewrite Z.land_ones by lia. change (2 ^ 8) with 256.
    pose proof (Z.div_mod a 256). lia.
  - split; [apply Z.div_pos; lia | apply Z.div_lt_upper_bound; lia].
Qed.

(** ** Exact reads *)

(** Only data arrives, in non-empty chunks. *)
Definition delivers (r : Reader) (bs : list Z) : Prop :=
  forallb chunk_data (arrivals r) = true /\ delivered (arrivals r) = bs.

Lemma delivers_step (r : Reader) (bs : list Z) (want : nat) :
  delivers r bs -> bs <> [] -> (0 < want)%nat ->
  exists x got r2, reader_read r want = Some (Got (x :: got), r2) /\
    (length (x :: got) <= want)%nat /\ bs = (x :: got) ++ delivered (arrivals r2) /\
    delivers r2 (delivered (arrivals r2)).
Proof.
  intros [Hc Hd] Hne Hw.
  destruct (flowing_step (mkReader (repeat 0 (length bs)) (arrivals r)) bs 1 want)
    as (t & r1 & x & got & r2 & En & _ & Er & L & E & F2); auto.
  { split_and!; auto; cbn [clock]; [| now rewrite repeat_length].
    apply Forall_lookup. intros i y Hy. apply list_elem_of_lookup_2, list_elem_of_In, repeat_spec in Hy. lia. }
  unfold now_reading in En. cbn [clock] in En. destruct (repeat 0 (length bs)) as [| c0 cr]; [discriminate |].
  injection En as <- <-. cbn [arrivals] in *.
  unfold reader_read in Er |- *. cbn [arrivals clock] in Er.
  destruct (arrivals r) as [| [b | |] rest]; try discriminate. injection Er as Et <-. cbn [arrivals] in *.
  exists x, got, (mkReader (clock r) (match drop want b with [] => rest | more => Chunk more :: rest end)).
  rewrite Et. cbn [arrivals]. split_and!; auto. destruct F2 as (? & ? & _). split; auto.
Qed.

Lemma read_exact_delivers (fuel : nat) (r : Reader) (a b acc : list Z) :
  delivers r (a ++ b) -> (length a <= fuel)%nat ->
  exists r', read_exact_loop fuel r (length a) acc = Some (Ok (acc ++ a), r') /\ delivers r' b.
Proof.
  revert r a acc. induction fuel as [| fuel IH]; intros r a acc F Hf.
  { destruct a; [| cbn in Hf; lia]. exists r. cbn. now rewrite app_nil_r. }
  destruct a as [| a0 a]; [exists r; cbn; now rewrite app_nil_r |].
  destruct (delivers_step r ((a0 :: a) ++ b) (length (a0 :: a)) F ltac:(done) ltac:(cbn; lia))
    as (x & got & r2 & Er & Lw & Ebs & F2).
  set (g := x :: got) in *.
  destruct (app_split_prefix _ _ _ _ Ebs Lw) as (a' & Ea & Ed). rewrite Ed in F2.
  cbn [length]. cbn [read_exact_loop]. change (S (length a)) with (length (a0 :: a)).
  rewrite Er. cbn [mbind option_bind]. unfold g at 1. cbv iota. fold g.
  replace (length (a0 :: a) - length g)%nat with (length a') by (rewrite Ea, length_app; lia).
  destruct (IH r2 a' (acc ++ g) F2) as (r' & Hr & Fr).
  { apply (f_equal length) in Ea. rewrite length_app in Ea. unfold g in Ea. cbn in *. lia. }
  exists r'. rewrite Hr, Ea, app_assoc. done.
Qed.

Lemma read_exact_any (fuel : nat) (r : Reader) (want : nat) (acc : list Z)
  (res : result (list Z) Error) (r' : Reader) :
  reader_bytes r -> read_exact_loop fuel r want acc = Some (res, r') ->
  exists taken, progressed r r' [] taken /\
    match res with
    | Ok out => exists bs, out = acc ++ bs /\ length bs = want /\ is_bytes bs /\ taken = Z.of_nat want
    | Err _ => taken < Z.of_nat want
    end.
Proof.
  revert r want acc. induction fuel as [| fuel IH]; intros r want acc B H.
  { destruct want; [| discriminate]. injection H as <- <-. exists 0.
    split; [now apply progressed_refl |]. exists []. rewrite app_nil_r.
    split_and!; try done; apply Forall_nil_2. }
  destruct want as [| want].
  { injection H as <- <-. exists 0. split; [now apply progressed_refl |].
    exists []. rewrite app_nil_r. split_and!; try done; apply Forall_nil_2. }
  cbn [read_exact_loop] in H.
  destruct (reader_read r (S want)) as [[o r2] |] eqn:Er; [| discriminate]. cbn [mbind option_bind] in H.
  destruct (read_progressed r r2 (S want) o B Er) as [P2 Ho].
  destruct o as [[| x bs] | |];
    try (injection H as <- <-; eexists; split; [exact P2 | cbn; lia]).
  destruct Ho as [Hb Hle].
  destruct (IH _ _ _ (pr_bytes _ _ _ _ P2) H) as (taken & P3 & Hres).
  exists (Z.of_nat (length (x :: bs)) + taken).
  split; [exact (progressed_trans _ _ _ _ _ _ _ P2 P3) |].
  destruct res as [out | e]; [| cbn [length] in *; lia].
  destruct Hres as (bs' & -> & L & Hb' & ->). exists ((x :: bs) ++ bs').
  rewrite app_assoc. split_and!; auto; [rewrite length_app; lia | now apply Forall_app_2 | lia].
Qed.

(** What an exact read returns is what the stream delivered. *)
Lemma read_exact_prefix (fuel : nat) (r : Reader) (want : nat) (acc out : list Z) (r' : Reader) :
  read_exact_loop fuel r want acc = Some (Ok out, r') ->
  exists bs, out = acc ++ bs /\ delivered (arrivals r) = bs ++ delivered (arrivals r').
Proof.
  revert r want acc. induction fuel as [| fuel IH]; intros r want acc H;
    (destruct want as [| want]; [injection H as <- <-; exists []; now rewrite app_nil_r |]); [discriminate |].
  cbn [read_exact_loop] in H. unfold reader_read in H.
  destruct (arrivals r) as [| [bs | |] rest] eqn:E; try discriminate. cbn [mbind option_bind] in H.
  destruct (take (S want) bs) as [| x got] eqn:Et; [discriminate |].
  destruct (IH _ _ _ H) as (bs' & -> & D). exists ((x :: got) ++ bs').
  split; [now rewrite app_assoc |]. rewrite <- app_assoc, <- D, <- Et. cbn [arrivals delivered].
  rewrite <- (take_drop (S want) bs) at 1. rewrite <- app_assoc. f_equal.
  now destruct (drop (S want) bs).
Qed.

(** ** Round trip *)

(** An endpoint a receiver accepts as a source or a destination. *)
Definition endpoint_wf (s : SocketAddr) : Prop := ip_wf (sa_ip s) /\ is_u16 (sa_port s).

Lemma be_bytes_split (v : Z) :
  is_u16 v -> exists hi lo, to_be_bytes v = [hi; lo] /\ from_be_bytes hi lo = v.
Proof.
  intros Hv. exists (Z.shiftr v 8), (Z.land v 255). split; [done | now apply be_bytes_roundtrip].
Qed.

(** The parts of the header a receiver reads. *)
Lemma proxy_header_shape (src dst : SocketAddr) (h : list Z) :
  endpoint_wf src -> endpoint_wf dst -> proxy_header src dst = Ok h ->
  exists header body len min, h = header ++ body /\ length header = 16%nat /\
    Z.of_nat (length body) = len /\ proxy_fixed_header header = Ok (len, min) /\
    proxy_endpoints min body =
      (SocketAddr_new (sa_ip src) (sa_port src), SocketAddr_new (sa_ip dst) (sa_port dst)).
Proof.
  intros [Ws Ps] [Wd Pd] H. destruct (be_bytes_split _ Ps) as (s1 & s2 & Es & Rs).
  destruct (be_bytes_split _ Pd) as (d1 & d2 & Ed & Rd).
  unfold proxy_header in H. rewrite Es, Ed in H. cbv zeta in H.
  destruct (sa_ip src) as [s | s], (sa_ip dst) as [d | d]; try discriminate; cbn [result_bind] in H;
    injection H as <-; cbn [ip_wf] in Ws, Wd.
  - exists (SIGNATURE ++ [33; 17; 0; 12]), (be_octets 4 s ++ be_octets 4 d ++ [s1; s2; d1; d2]), 12, 12.
    split; [now rewrite <- !app_assoc |]. split; [done |].
    split; [rewrite !length_app, !be_octets_length; done |]. split; [reflexivity |].
    unfold proxy_endpoints. cbn [Z.eqb Pos.eqb].
    rewrite take_app_length', drop_app_length', take_app_length' by now rewrite be_octets_length.
    rewrite !from_octets_be by (unfold is_u32 in *; cbn; lia).
    cbn [be_octets app nth]. now rewrite Rs, Rd.
  - exists (SIGNATURE ++ [33; 33; 0; 36]), (be_octets 16 s ++ be_octets 16 d ++ [s1; s2; d1; d2]), 36, 36.
    split; [now rewrite <- !app_assoc |]. split; [done |].
    split; [rewrite !length_app, !be_octets_length; done |]. split; [reflexivity |].
    unfold proxy_endpoints. cbn [Z.eqb Pos.eqb].
    rewrite take_app_length', drop_app_length', take_app_length' by now rewrite be_octets_length.
    rewrite !from_octets_be by (unfold is_u128 in *; cbn; lia).
    cbn [be_octets app nth]. now rewrite Rs, Rd.
Qed.

(** What an accepted fixed header says. *)
Lemma proxy_fixed_header_inv (header : list Z) (len min : Z) :
  proxy_fixed_header header = Ok (len, min) ->
  take 12 header = SIGNATURE /\ nth 12 header 0 = 33 /\ (min = 12 \/ min = 36) /\ min <= len <= 4096.
Proof.
  unfold proxy_fixed_header. intros E. destruct (_ || _) eqn:G in E; [discriminate |].
  apply orb_false_iff in G as [G1 G2]. apply negb_false_iff, bool_decide_eq_true in G1.
  apply negb_false_iff, Z.eqb_eq in G2. apply result_bind_ok in E as (m & Em & E).
  destruct (_ <? m) eqn:L1 in E; [discriminate |]. destruct (_ >? _) eqn:L2 in E; [discriminate |].
  injection E as <- <-. unfold MAX_ADDRESS_AND_TLVS in L2. breflect. split_and!; auto.
  destruct (nth 13 header 0 =? 17); [injection Em as <-; now left |].
  destruct (nth 13 header 0 =? 33); [injection Em as <-; now right | discriminate].
Qed.

(** ** The header a receiver accepts *)

(** The networks of the configuration are asked for a peer's IPv4 address, also when the peer is
    the IPv4-mapped [::ffff:a.b.c.d] of a dual-stack socket. *)
Definition transport_ip (ip : IpAddr) : IpAddr :=
  match ip with
  | V6 a => if (65535 * 2 ^ 32 <=? a) && (a <? 65536 * 2 ^ 32) then V4 (a - 65535 * 2 ^ 32) else ip
  | V4 _ => ip
  end.

(** 224.0.0.0/4 and ff00::/8. *)
Definition multicast (ip : IpAddr) : Prop :=
  match ip with
  | V4 a => 224 * 2 ^ 24 <= a < 240 * 2 ^ 24
  | V6 a => 255 * 2 ^ 120 <= a < 256 * 2 ^ 120
  end.

Definition unspecified (ip : IpAddr) : Prop := match ip with V4 a | V6 a => a = 0 end.

(** A version 2 PROXY header that asserts a TCP connection from [src] to [dst]: the signature, the
    version and command, the family, the length of what follows, the two addresses, the two ports
    and the extensions, which assert nothing. *)
Definition asserts (frame : list Z) (src dst : SocketAddr) : Prop :=
  exists (fam hi lo p1 p2 q1 q2 : Z) (s d tlvs : list Z),
    let block := s ++ d ++ [p1; p2; q1; q2] ++ tlvs in
    frame = [13; 10; 13; 10; 0; 13; 10; 81; 85; 73; 84; 10] ++ [33; fam; hi; lo] ++ block /\
    hi * 256 + lo = Z.of_nat (length block) /\ hi * 256 + lo <= 4096 /\
    ((fam = 17 /\ length s = 4%nat /\ length d = 4%nat /\
      src = SocketAddr_new (V4 (from_octets s)) (p1 * 256 + p2) /\
      dst = SocketAddr_new (V4 (from_octets d)) (q1 * 256 + q2)) \/
     (fam = 33 /\ length s = 16%nat /\ length d = 16%nat /\
      src = SocketAddr_new (V6 (from_octets s)) (p1 * 256 + p2) /\
      dst = SocketAddr_new (V6 (from_octets d)) (q1 * 256 + q2))).

(** The endpoints that may be asserted; a destination may be multicast. *)
Definition assertable (src dst : SocketAddr) : Prop :=
  ~ unspecified (sa_ip src) /\ ~ multicast (sa_ip src) /\ sa_port src <> 0 /\
  ~ unspecified (sa_ip dst) /\ sa_port dst <> 0.

Lemma normalize_transport (ip : IpAddr) : normalize ip = transport_ip ip.
Proof.
  destruct ip as [a | a]; [done |]. unfold normalize, transport_ip, to_ipv4_mapped.
  rewrite Z.shiftr_div_pow2 by lia. unfold u32_max. pose proof (Z.div_mod a (2 ^ 32)).
  pose proof (Z.mod_pos_bound a (2 ^ 32)).
  change (2 ^ 32 - 1) with (Z.ones 32). rewrite Z.land_ones by lia.
  destruct (Z.eqb_spec (a / 2 ^ 32) 65535) as [E | E].
  - destruct (Z.leb_spec (65535 * 2 ^ 32) a), (Z.ltb_spec a (65536 * 2 ^ 32)); try lia.
    cbn [andb]. f_equal. lia.
  - destruct (Z.leb_spec (65535 * 2 ^ 32) a); [| done].
    destruct (Z.ltb_spec a (65536 * 2 ^ 32)); [| done]. exfalso. apply E.
    symmetry. apply (Z.div_unique a (2 ^ 32) 65535 (a - 65535 * 2 ^ 32)); lia.
Qed.

Lemma is_multicast_spec (ip : IpAddr) : is_multicast ip = true <-> multicast ip.
Proof.
  destruct ip as [a | a]; unfold is_multicast, multicast; rewrite Z.eqb_eq, Z.shiftr_div_pow2 by lia.
  - pose proof (Z.div_mod a (2 ^ 28)). pose proof (Z.mod_pos_bound a (2 ^ 28)). split; [lia |].
    intros. symmetry. apply (Z.div_unique a (2 ^ 28) 14 (a - 14 * 2 ^ 28)); lia.
  - pose proof (Z.div_mod a (2 ^ 120)). pose proof (Z.mod_pos_bound a (2 ^ 120)). split; [lia |].
    intros. symmetry. apply (Z.div_unique a (2 ^ 120) 255 (a - 255 * 2 ^ 120)); lia.
Qed.

Lemma bad_endpoints_spec (src dst : SocketAddr) : bad_endpoints src dst = false <-> assertable src dst.
Proof.
  unfold bad_endpoints, assertable. rewrite !orb_false_iff, <- is_multicast_spec.
  assert (U : forall ip, is_unspecified ip = false <-> ~ unspecified ip)
    by (intros [a | a]; apply Z.eqb_neq).
  rewrite !U, !Z.eqb_neq, <- not_true_iff_false. tauto.
Qed.

(** ** The frame and the parser *)

Lemma address_block (n : nat) (body : list Z) :
  (2 * n + 4 <= length body)%nat ->
  exists s d p1 p2 q1 q2 tlvs, body = s ++ d ++ [p1; p2; q1; q2] ++ tlvs /\ length s = n /\ length d = n.
Proof.
  intros L. destruct (drop (n + n) body) as [| p1 [| p2 [| q1 [| q2 tlvs]]]] eqn:E;
    try (apply (f_equal length) in E; rewrite length_drop in E; cbn in E; lia).
  exists (take n body), (take n (drop n body)), p1, p2, q1, q2, tlvs.
  split; [| rewrite !length_take, length_drop; lia].
  change ([p1; p2; q1; q2] ++ tlvs) with (p1 :: p2 :: q1 :: q2 :: tlvs).
  rewrite <- E, <- drop_drop, !take_drop. done.
Qed.

Lemma nth_third (s d l : list Z) (i : nat) : nth (length s + length d + i) (s ++ d ++ l) 0 = nth i l 0.
Proof. rewrite !app_nth2 by lia. f_equal. lia. Qed.

Lemma endpoints_v4 (s d tlvs : list Z) (p1 p2 q1 q2 : Z) :
  length s = 4%nat -> length d = 4%nat -> is_u8 p2 -> is_u8 q2 ->
  proxy_endpoints 12 (s ++ d ++ [p1; p2; q1; q2] ++ tlvs) =
    (SocketAddr_new (V4 (from_octets s)) (p1 * 256 + p2), SocketAddr_new (V4 (from_octets d)) (q1 * 256 + q2)).
Proof.
  intros Ls Ld B1 B2. unfold proxy_endpoints. cbn [Z.eqb Pos.eqb].
  pose proof (nth_third s d ([p1; p2; q1; q2] ++ tlvs)) as N. rewrite Ls, Ld in N.
  rewrite (N 0%nat : nth 8 _ 0 = _), (N 1%nat : nth 9 _ 0 = _), (N 2%nat : nth 10 _ 0 = _),
    (N 3%nat : nth 11 _ 0 = _). cbn [nth app].
  rewrite take_app_length', drop_app_length', take_app_length', !from_be_bytes_val by done. done.
Qed.

Lemma endpoints_v6 (s d tlvs : list Z) (p1 p2 q1 q2 : Z) :
  length s = 16%nat -> length d = 16%nat -> is_u8 p2 -> is_u8 q2 ->
  proxy_endpoints 36 (s ++ d ++ [p1; p2; q1; q2] ++ tlvs) =
    (SocketAddr_new (V6 (from_octets s)) (p1 * 256 + p2), SocketAddr_new (V6 (from_octets d)) (q1 * 256 + q2)).
Proof.
  intros Ls Ld B1 B2. unfold proxy_endpoints. cbn [Z.eqb Pos.eqb].
  pose proof (nth_third s d ([p1; p2; q1; q2] ++ tlvs)) as N. rewrite Ls, Ld in N.
  rewrite (N 0%nat : nth 32 _ 0 = _), (N 1%nat : nth 33 _ 0 = _), (N 2%nat : nth 34 _ 0 = _),
    (N 3%nat : nth 35 _ 0 = _). cbn [nth app].
  rewrite take_app_length', drop_app_length', take_app_length', !from_be_bytes_val by done. done.
Qed.

(** What an accepted fixed header says, byte by byte. *)
Lemma fixed_header_bytes (header : list Z) (len min : Z) :
  length header = 16%nat -> is_bytes header -> proxy_fixed_header header = Ok (len, min) ->
  exists fam hi lo,
    header = [13; 10; 13; 10; 0; 13; 10; 81; 85; 73; 84; 10] ++ [33; fam; hi; lo] /\
    len = hi * 256 + lo /\ min <= len <= 4096 /\ (fam = 17 /\ min = 12 \/ fam = 33 /\ min = 36).
Proof.
  intros L B H. destruct (proxy_fixed_header_inv _ _ _ H) as (S12 & S33 & _ & Fl).
  assert (E : header = SIGNATURE ++ drop 12 header) by (now rewrite <- S12, take_drop).
  destruct (drop 12 header) as [| c [| fam [| hi [| lo [| ? ?]]]]]; subst header; try (cbn in L; lia).
  cbn in S33. subst c. exists fam, hi, lo. split; [done |].
  assert (B2 : is_u8 lo) by (eapply (Forall_lookup_1 _ _ 15%nat); [exact B | done]).
  unfold proxy_fixed_header in H. cbn [app SIGNATURE take nth] in H.
  rewrite bool_decide_eq_true_2 in H by done. cbn [negb orb Z.eqb Pos.eqb] in H.
  rewrite from_be_bytes_val in H by done.
  destruct (Z.eqb_spec fam 17); [| destruct (Z.eqb_spec fam 33); [| discriminate]]; cbn [result_bind] in H;
    (destruct (_ <? _); [discriminate |]); (destruct (_ >? _); [discriminate |]);
    injection H as <- <-; split_and!; auto; lia.
Qed.

Section Properties.
Context {IpNet : Type} `{IpNetLib IpNet}.

(** PROXY v2 round trip: a header written by the gate for two endpoints of one family, delivered
    by a trusted peer in any fragmentation, is received as exactly those endpoints, and every byte
    after the header stays unread; provided the endpoints are ones a receiver accepts. *)
Theorem proxy_roundtrip (cfg : IncomingProxyV2 IpNet) (peer src dst : SocketAddr) (h rest : list Z)
  (r : Reader) :
  is_trusted (sa_ip peer) cfg = true -> endpoint_wf src -> endpoint_wf dst ->
  bad_endpoints src dst = false -> proxy_header src dst = Ok h -> delivers r (h ++ rest) ->
  exists r', proxy_read r peer cfg =
      Some (Ok (SocketAddr_new (sa_ip src) (sa_port src), SocketAddr_new (sa_ip dst) (sa_port dst)), r') /\
    delivers r' rest.
Proof.
  intros T Ws Wd Be Hh D.
  destruct (proxy_header_shape src dst h Ws Wd Hh) as (hd & body & len & min & -> & Lh & Lb & Ef & Ee).
  unfold proxy_read. rewrite T. cbn [negb]. rewrite <- app_assoc in D.
  destruct (read_exact_delivers 16 r hd (body ++ rest) [] D ltac:(lia)) as (r1 & E1 & D1).
  rewrite Lh in E1. unfold read_exact. rewrite E1. cbn [mbind option_bind app]. rewrite Ef.
  destruct (read_exact_delivers (Z.to_nat len) r1 body rest [] D1 ltac:(lia)) as (r2 & E2 & D2).
  replace (Z.to_nat len) with (length body) in * by lia. rewrite E2. cbn [mbind option_bind app].
  rewrite Ee. exists r2. split; [| done].
  replace (bad_endpoints _ _) with false by (now rewrite <- Be). done.
Qed.

Lemma is_trusted_spec (cfg : IncomingProxyV2 IpNet) (peer : IpAddr) :
  is_trusted peer cfg = true <->
  exists net, In net (trusted_proxies cfg) /\ net_contains net (transport_ip peer) = true.
Proof. unfold is_trusted. rewrite normalize_transport. apply existsb_exists. Qed.

(** A frame the grammar allows passes the checks of the fixed header and yields its endpoints. *)
Lemma asserts_parts (frame : list Z) (src dst : SocketAddr) :
  is_bytes frame -> asserts frame src dst ->
  exists header body len min, frame = header ++ body /\ length header = 16%nat /\
    Z.of_nat (length body) = len /\ proxy_fixed_header header = Ok (len, min) /\
    proxy_endpoints min body = (src, dst).
Proof.
  intros B (fam & hi & lo & p1 & p2 & q1 & q2 & s & d & tlvs & -> & L & M & F).
  cbv zeta in *. rewrite app_assoc in B. apply Forall_app in B as [B1 B2].
  exists (SIGNATURE ++ [33; fam; hi; lo]), (s ++ d ++ [p1; p2; q1; q2] ++ tlvs), (hi * 256 + lo).
  assert (Bl : is_u8 lo) by (eapply (Forall_lookup_1 _ _ 15%nat); [exact B1 | done]).
  assert (Bp : is_u8 p2 /\ is_u8 q2)
    by (apply Forall_app in B2 as [_ B2]; apply Forall_app in B2 as [_ B2];
        split; [apply (Forall_lookup_1 _ _ 1%nat _ B2) | apply (Forall_lookup_1 _ _ 3%nat _ B2)]; done).
  destruct Bp as [Bp Bq].
  destruct F as [(-> & Ls & Ld & -> & ->) | (-> & Ls & Ld & -> & ->)]; [exists 12 | exists 36];
    (split; [now rewrite app_assoc |]); (split; [done |]); (split; [lia |]); split;
    try (now apply endpoints_v4); try (now apply endpoints_v6);
    (unfold proxy_fixed_header; cbn [app SIGNATURE take nth];
     rewrite bool_decide_eq_true_2 by done; cbn [negb orb Z.eqb Pos.eqb result_bind];
     rewrite from_be_bytes_val by done; rewrite !length_app, Ls, Ld in L; cbn [length] in L;
     destruct (Z.ltb_spec (hi * 256 + lo) 12), (Z.ltb_spec (hi * 256 + lo) 36); try lia;
     unfold MAX_ADDRESS_AND_TLVS; rewrite Z.gtb_ltb, (proj2 (Z.ltb_ge _ _)) by lia; done).
Qed.

(** An accepted identity was asserted by the bytes at the head of the stream. *)
Lemma accepted_asserts (header body : list Z) (len min : Z) (src dst : SocketAddr) :
  length header = 16%nat -> is_bytes header -> is_bytes body -> Z.of_nat (length body) = len ->
  proxy_fixed_header header = Ok (len, min) -> proxy_endpoints min body = (src, dst) ->
  asserts (header ++ body) src dst.
Proof.
  intros Lh Bh Bb Lb Hf He.
  destruct (fixed_header_bytes _ _ _ Lh Bh Hf) as (fam & hi & lo & -> & El & Hl & F).
  destruct F as [[-> ->] | [-> ->]];
    [destruct (address_block 4 body) as (s & d & p1 & p2 & q1 & q2 & tlvs & -> & Ls & Ld); [lia |]
    |destruct (address_block 16 body) as (s & d & p1 & p2 & q1 & q2 & tlvs & -> & Ls & Ld); [lia |]];
    (assert (Bp : is_u8 p2 /\ is_u8 q2)
       by (apply Forall_app in Bb as [_ B2]; apply Forall_app in B2 as [_ B2];
           split; [apply (Forall_lookup_1 _ _ 1%nat _ B2) | apply (Forall_lookup_1 _ _ 3%nat _ B2)]; done));
    destruct Bp as [Bp Bq];
    [rewrite endpoints_v4 in He by done | rewrite endpoints_v6 in He by done]; injection He as <- <-;
    [exists 17 | exists 33]; exists hi, lo, p1, p2, q1, q2, s, d, tlvs; cbv zeta;
    (split; [now rewrite <- app_assoc |]); (split; [lia |]); (split; [lia |]); [now left | now right].
Qed.

(** What the receiver did when it returns. *)
Lemma proxy_read_cases (cfg : IncomingProxyV2 IpNet) (peer : SocketAddr) (r : Reader)
  (res : result (SocketAddr * SocketAddr) Error) (r' : Reader) :
  reader_bytes r -> proxy_read r peer cfg = Some (res, r') -> is_trusted (sa_ip peer) cfg = true ->
  bytes_left (arrivals r) - bytes_left (arrivals r') <= 16 + 4096 /\
  forall src dst, res = Ok (src, dst) -> assertable src dst /\
    exists frame, delivered (arrivals r) = frame ++ delivered (arrivals r') /\ asserts frame src dst.
Proof.
  intros B H0 T. unfold proxy_read in H0. rewrite T in H0. cbn [negb] in H0. unfold read_exact in H0.
  destruct (read_exact_loop 16 r 16 []) as [[h r1] |] eqn:E1; [| discriminate]. cbn [mbind option_bind] in H0.
  destruct (read_exact_any _ _ _ _ _ _ B E1) as (t1 & P1 & X1). pose proof (pr_total _ _ _ _ P1).
  destruct h as [header | e]; [| injection H0 as <- <-; split; [lia | discriminate]].
  destruct X1 as (bs & -> & Lh & Bh & ->). cbn [app] in *.
  destruct (proxy_fixed_header bs) as [[len min] | e] eqn:Ef; [| injection H0 as <- <-; split; [lia | discriminate]].
  destruct (proxy_fixed_header_inv _ _ _ Ef) as (_ & _ & Fm & Fl).
  destruct (read_exact_loop (Z.to_nat len) r1 (Z.to_nat len) []) as [[b r2] |] eqn:E2; [| discriminate].
  cbn [mbind option_bind] in H0.
  destruct (read_exact_any _ _ _ _ _ _ (pr_bytes _ _ _ _ P1) E2) as (t2 & P2 & X2).
  pose proof (pr_total _ _ _ _ P2).
  destruct b as [body | e]; [| injection H0 as <- <-; split; [lia | discriminate]].
  destruct X2 as (bs2 & -> & Lb & Bb & ->). cbn [app] in *.
  destruct (proxy_endpoints min bs2) as [s d] eqn:Ee.
  destruct (bad_endpoints s d) eqn:Be; injection H0 as <- <-; (split; [lia |]); intros src dst Q; [discriminate |].
  injection Q as <- <-. split; [now apply bad_endpoints_spec |]. exists (bs ++ bs2). split.
  - destruct (read_exact_prefix _ _ _ _ _ _ E1) as (x1 & -> & ->).
    destruct (read_exact_prefix _ _ _ _ _ _ E2) as (x2 & -> & ->). now rewrite app_assoc.
  - apply (accepted_asserts _ _ len min); auto. lia.
Qed.

(** A well-formed header from a trusted peer is accepted, whatever its fragmentation. *)
Lemma proxy_read_accepts (cfg : IncomingProxyV2 IpNet) (peer src dst : SocketAddr) (frame rest : list Z)
  (r : Reader) :
  is_trusted (sa_ip peer) cfg = true -> is_bytes frame -> asserts frame src dst -> assertable src dst ->
  delivers r (frame ++ rest) ->
  exists r', proxy_read r peer cfg = Some (Ok (src, dst), r') /\ delivers r' rest.
Proof.
  intros T B A G D. destruct (asserts_parts _ _ _ B A) as (hd & body & len & min & -> & Lh & Lb & Ef & Ee).
  unfold proxy_read. rewrite T. cbn [negb]. rewrite <- app_assoc in D.
  destruct (read_exact_delivers 16 r hd (body ++ rest) [] D ltac:(lia)) as (r1 & E1 & D1).
  rewrite Lh in E1. unfold read_exact. rewrite E1. cbn [mbind option_bind app]. rewrite Ef.
  destruct (read_exact_delivers (Z.to_nat len) r1 body rest [] D1 ltac:(lia)) as (r2 & E2 & D2).
  replace (Z.to_nat len) with (length body) in * by lia. rewrite E2. cbn [mbind option_bind app].
  rewrite Ee. exists r2. split; [| done]. now rewrite (proj2 (bad_endpoints_spec src dst) G).
Qed.

(** C33: The PROXY receiver fails closed, is bounded and is exact. A peer whose address - its IPv4
    address when it is an IPv4-mapped one - is in no trusted network is refused without reading a
    byte. An identity is accepted only when the bytes taken from the head of the stream are a
    version 2 TCP header that asserts it - the signature, the command, the family, a length of at
    most 4096 equal to what follows, the addresses and the ports, byte by byte - and only with a
    source that is neither unspecified nor multicast, a destination that is not unspecified and
    non-zero ports. Whatever the outcome at most 16 + 4096 bytes are read. Conversely every such
    header of a trusted peer is accepted in any fragmentation, and the bytes behind it stay
    unread. *)
Theorem proxy_fails_closed (cfg : IncomingProxyV2 IpNet) (peer : SocketAddr) (r : Reader) :
  reader_bytes r ->
  (forall res r', proxy_read r peer cfg = Some (res, r') ->
    bytes_left (arrivals r) - bytes_left (arrivals r') <= 16 + 4096 /\
    ((forall net, In net (trusted_proxies cfg) -> net_contains net (transport_ip (sa_ip peer)) = false) ->
     res = Err Invalid /\ r' = r) /\
    (forall src dst, res = Ok (src, dst) ->
      (exists net, In net (trusted_proxies cfg) /\ net_contains net (transport_ip (sa_ip peer)) = true) /\
      assertable src dst /\
      exists frame, delivered (arrivals r) = frame ++ delivered (arrivals r') /\ asserts frame src dst)) /\
  (forall net frame rest src dst,
    In net (trusted_proxies cfg) -> net_contains net (transport_ip (sa_ip peer)) = true ->
    asserts frame src dst -> assertable src dst -> is_bytes frame -> delivers r (frame ++ rest) ->
    exists r', proxy_read r peer cfg = Some (Ok (src, dst), r') /\ delivers r' rest).
Proof.
  intros B. split.
  - intros res r' H0. destruct (is_trusted (sa_ip peer) cfg) eqn:T.
    + destruct (proxy_read_cases _ _ _ _ _ B H0 T) as [L A]. apply is_trusted_spec in T.
      split; [done |]. split; [| intros src dst E; split; [done | now apply A]].
      intros N. destruct T as (net & I & C). rewrite (N net I) in C. discriminate.
    + unfold proxy_read in H0. rewrite T in H0. cbn [negb] in H0. injection H0 as <- <-.
      split; [lia |]. split; [done | discriminate].
  - intros net frame rest src dst I C A G Bf D. apply (proxy_read_accepts cfg peer src dst frame); auto.
    apply is_trusted_spec. eauto.
Qed.
End Properties.

(** ** Instances *)

(** A load balancer in 192.0.2.0/24 and a client at 198.51.100.9:50000. *)
Definition sample_trust : IncomingProxyV2 Cidr :=
  mkIncomingProxyV2 true [mkCidr (V4 3221225984) 24 eq_refl].
Definition sample_peer : SocketAddr := SocketAddr_new (V4 3221225985) 40000.
Definition sample_client : SocketAddr := SocketAddr_new (V4 3325256713) 50000.
Definition sample_server : SocketAddr := SocketAddr_new (V4 3221225986) 25565.

(** Its header, in two chunks, followed by one more byte. *)
Definition sample_stream : Reader :=
  mkReader [] [Chunk (SIGNATURE ++ [33; 17]);
    Chunk ([0; 12; 198; 51; 100; 9; 192; 0; 2; 2; 195; 80; 99; 221] ++ [7])].

Lemma proxy_roundtrip_witness :
  exists r', proxy_read sample_stream sample_peer sample_trust = Some (Ok (sample_client, sample_server), r') /\
    delivers r' [7].
Proof.
  refine (proxy_roundtrip sample_trust sample_peer sample_client sample_server _ [7] sample_stream
    _ _ _ _ _ _); try (vm_compute; reflexivity).
  - split; [vm_compute; split; [discriminate | reflexivity] | vm_compute; split; [discriminate | reflexivity]].
  - split; [vm_compute; split; [discriminate | reflexivity] | vm_compute; split; [discriminate | reflexivity]].
  - split; vm_compute; reflexivity.
Defined.

(** The load balancer's header is accepted; the client's own connection is refused unread. *)
Lemma proxy_fails_closed_witness :
  (exists r', proxy_read sample_stream sample_peer sample_trust = Some (Ok (sample_client, sample_server), r') /\
    delivers r' [7]) /\
  proxy_read sample_stream sample_client sample_trust = Some (Err Invalid, sample_stream) /\
  bytes_left (arrivals sample_stream) - bytes_left (arrivals sample_stream) <= 16 + 4096.
Proof.
  assert (B : reader_bytes sample_stream).
  { apply Forall_cons. split; [| apply Forall_cons; split; [| apply Forall_nil_2]];
      vm_compute; repeat constructor; discriminate. }
  split.
  - refine (proj2 (proxy_fails_closed sample_trust sample_peer sample_stream B)
      (mkCidr (V4 3221225984) 24 eq_refl)
      (SIGNATURE ++ [33; 17; 0; 12; 198; 51; 100; 9; 192; 0; 2; 2; 195; 80; 99; 221]) [7] _ _ _ _ _ _ _ _).
    + now left.
    + reflexivity.
    + exists 17, 0, 12, 195, 80, 99, 221, [198; 51; 100; 9], [192; 0; 2; 2], []. cbv zeta.
      split; [reflexivity |]. split; [reflexivity |]. split; [lia |]. left. split_and!; reflexivity.
    + split_and!; cbn; lia.
    + repeat constructor; unfold is_u8; lia.
    + split; vm_compute; reflexivity.
  - assert (E : proxy_read sample_stream sample_client sample_trust = Some (Err Invalid, sample_stream))
      by (vm_compute; reflexivity).
    split; [exact E |].
    exact (proj1 (proj1 (proxy_fails_closed sample_trust sample_client sample_stream B) _ _ E)).
Defined.
