(* ===== verification/Backend.v ===== *)
(** * Backend protection ([gate/src/backend.rs])

    The circuit breaker in front of the backend: a failure counter with a generation per outage, a
    single recovery probe, a dial budget and a cap on concurrent dials. The semaphore is its number
    of free permits; [enter] and the completion of an attempt are split at the points where the
    program takes and releases the lock, so that the concurrent system interleaves them there. *)
From S2P Require Import Prelude Machine Float64 Metrics Config.
From stdpp Require Import base option list gmap relations.
From Stdlib Require Import ZArith Lia SpecFloat.
Local Open Scope Z_scope.

(** ** Operations *)

Record State : Type := mkState {
  failures : Z; generation : Z; retry_at : option Instant; probing : bool;
  s_tokens : f64; s_last : Instant }.

Record Protection : Type := mkProtection {
  p_cfg : BackendProtection; p_state : State; p_slots : Z; p_metrics : Metrics }.

Record Attempt : Type := mkAttempt { a_generation : Z; a_finished : bool }.

Definition with_state (p : Protection) (s : State) : Protection :=
  mkProtection (p_cfg p) s (p_slots p) (p_metrics p).
Definition with_slots (p : Protection) (n : Z) : Protection :=
  mkProtection (p_cfg p) (p_state p) n (p_metrics p).

(** The registry is shared with the other components. *)
Definition with_registry (p : Protection) (m : Metrics) : Protection :=
  mkProtection (p_cfg p) (p_state p) (p_slots p) m.

Definition Protection_slots (cfg : BackendProtection) (backend_slots : Z) : Z :=
  if max_connecting cfg =? 0 then backend_slots else max_connecting cfg.

Definition Protection_new (cfg : BackendProtection) (backend_slots : Z) (m : Metrics) (now : Instant)
  : Protection :=
  mkProtection cfg (mkState 0 0 None false (burst (attempts cfg)) now)
    (Protection_slots cfg backend_slots) m.

(** [try_acquire_owned]. *)
Definition acquire_slot (p : Protection) : option Protection :=
  if 0 <? p_slots p then Some (with_slots p (p_slots p - 1)) else None.
Definition release_slot (p : Protection) : Protection := with_slots p (p_slots p + 1).

(** The circuit refuses: cooling down, or a probe is out. *)
Definition circuit_refuses (s : State) (now : Instant) : bool :=
  match retry_at s with
  | Some at_ => (now <? at_) || probing s
  | None => false
  end.

(** The dial budget: refill and, when a whole token is there, debit. *)
Definition dial_budget (rate : Rate) (s : State) (now : Instant) : bool * State :=
  if f64_ltb f64_zero (per_second rate) then
    let t := f64_min
      (f64_add (s_tokens s)
         (f64_mul (as_secs_f64 (saturating_duration_since now (s_last s))) (per_second rate)))
      (burst rate) in
    let last := Z.max (s_last s) now in
    if f64_ltb t f64_one
    then (false, mkState (failures s) (generation s) (retry_at s) (probing s) t last)
    else (true, mkState (failures s) (generation s) (retry_at s) (probing s) (f64_sub t f64_one) last)
  else (true, s).

(** The critical section of [enter]. *)
Definition enter_locked (p : Protection) (now : Instant) : option Attempt * Protection :=
  let s := p_state p in
  if circuit_refuses s now then (None, p)
  else
    let '(ok, s) := dial_budget (attempts (p_cfg p)) s now in
    if negb ok
    then (None, mkProtection (p_cfg p) s (p_slots p) (Metrics_inc (p_metrics p) 50))
    else
      let s := match retry_at s with
        | Some _ => mkState (failures s) (generation s) (retry_at s) true (s_tokens s) (s_last s)
        | None => s
        end in
      (Some (mkAttempt (generation s) false), with_state p s).

(** [enter]: the permit is returned when the attempt is refused. *)
Definition Protection_enter (p : Protection) (now : Instant) : option Attempt * Protection :=
  match acquire_slot p with
  | None => (None, p)
  | Some p =>
    match enter_locked p now with
    | (Some a, p) => (Some a, p)
    | (None, p) => (None, release_slot p)
    end
  end.

Definition Protection_finish (p : Protection) (gen : Z) (ok : bool) (now : Instant) : Protection :=
  let cfg := p_cfg p in
  let s := p_state p in
  if failure_threshold cfg =? 0 then p
  else if negb (gen =? generation s) then p
  else if ok then with_state p (mkState 0 (generation s) None false (s_tokens s) (s_last s))
  else
    let f := saturating_add 32 (failures s) 1 in
    if probing s || (failure_threshold cfg <=? f)
    then mkProtection cfg
           (mkState f (wrap 64 (generation s + 1)) (Some (now + from_millis (cooldown_ms cfg))) false
              (s_tokens s) (s_last s))
           (p_slots p) (Metrics_inc (p_metrics p) 48)
    else with_state p (mkState f (generation s) (retry_at s) (probing s) (s_tokens s) (s_last s)).

(** [Attempt::finish] marks the attempt; its drop, and the drop of an attempt that was never
    finished, then return the permit. *)
Definition Attempt_finish (p : Protection) (a : Attempt) (ok : bool) (now : Instant)
  : Attempt * Protection :=
  (mkAttempt (a_generation a) true, Protection_finish p (a_generation a) ok now).
Definition Attempt_drop (p : Protection) (a : Attempt) (now : Instant) : Protection :=
  release_slot (if negb (a_finished a) then Protection_finish p (a_generation a) false now else p).

(** ** The concurrent system *)

(** A caller of [enter] that holds a permit and waits for the lock, an attempt in flight, and an
    attempt that was completed and has yet to return its permit. *)
Inductive Dial : Type :=
| Entering
| Dialing (a : Attempt)
| Closing.

(** [openings] counts how often the circuit has opened; it is not part of the program. *)
Record BWorld : Type := mkBWorld { bw_p : Protection; bw_live : gmap nat Dial; openings : Z }.

Definition opened (p p' : Protection) : Z :=
  if generation (p_state p) =? generation (p_state p') then 0 else 1.

Inductive bstep (w : BWorld) : BWorld -> Prop :=
| bstep_acquire tid p :
    bw_live w !! tid = None -> acquire_slot (bw_p w) = Some p ->
    bstep w (mkBWorld p (<[tid := Entering]> (bw_live w)) (openings w))
| bstep_granted tid now a p :
    bw_live w !! tid = Some Entering -> enter_locked (bw_p w) now = (Some a, p) ->
    bstep w (mkBWorld p (<[tid := Dialing a]> (bw_live w)) (openings w))
| bstep_refused tid now p :
    bw_live w !! tid = Some Entering -> enter_locked (bw_p w) now = (None, p) ->
    bstep w (mkBWorld p (<[tid := Closing]> (bw_live w)) (openings w))
| bstep_finish tid a ok now :
    bw_live w !! tid = Some (Dialing a) ->
    bstep w (mkBWorld (Protection_finish (bw_p w) (a_generation a) ok now)
      (<[tid := Closing]> (bw_live w))
      (openings w + opened (bw_p w) (Protection_finish (bw_p w) (a_generation a) ok now)))
| bstep_release tid :
    bw_live w !! tid = Some Closing ->
    bstep w (mkBWorld (release_slot (bw_p w)) (delete tid (bw_live w)) (openings w))
| bstep_registry m :
    bstep w (mkBWorld (with_registry (bw_p w) m) (bw_live w) (openings w)).

Definition breachable (cfg : BackendProtection) (backend_slots : Z) (w : BWorld) : Prop :=
  exists m now, rtc bstep (mkBWorld (Protection_new cfg backend_slots m now) ∅ 0) w.

(** The attempts in flight of generation [g]. *)
Definition is_dialing (g : Z) (d : Dial) : bool :=
  match d with Dialing a => a_generation a =? g | _ => false end.
Definition dials (g : Z) (live : gmap nat Dial) : Z := cnt (is_dialing g) live.

(** ** The dial budget *)

Lemma dial_budget_frame (r : Rate) (s : State) (now : Instant) :
  let s' := snd (dial_budget r s now) in
  failures s' = failures s /\ generation s' = generation s /\ retry_at s' = retry_at s /\
  probing s' = probing s.
Proof. unfold dial_budget. destruct (f64_ltb _ _); [| done]. now destruct (f64_ltb _ _). Qed.

(** The critical section of [enter], as far as the circuit is concerned. *)
Lemma enter_locked_circuit (p : Protection) (now : Instant) (o : option Attempt) (p' : Protection) :
  enter_locked p now = (o, p') ->
  p_cfg p' = p_cfg p /\ p_slots p' = p_slots p /\
  generation (p_state p') = generation (p_state p) /\ retry_at (p_state p') = retry_at (p_state p) /\
  match o with
  | None => probing (p_state p') = probing (p_state p)
  | Some a => circuit_refuses (p_state p) now = false /\ a = mkAttempt (generation (p_state p)) false /\
      probing (p_state p') =
        (match retry_at (p_state p) with Some _ => true | None => probing (p_state p) end)
  end.
Proof.
  unfold enter_locked. intros H. destruct (circuit_refuses (p_state p) now) eqn:C.
  { injection H as <- <-. done. }
  pose proof (dial_budget_frame (attempts (p_cfg p)) (p_state p) now) as (_ & G & R & P).
  destruct (dial_budget _ _ _) as [[] s]; cbn [snd negb] in *.
  - injection H as <- <-. cbn. rewrite <- R. destruct (retry_at s) eqn:Er; cbn; split_and!; congruence.
  - injection H as <- <-. cbn. split_and!; congruence.
Qed.

(** What completing an attempt does to the circuit. *)
Lemma finish_cases (p : Protection) (gen : Z) (ok : bool) (now : Instant) :
  let p' := Protection_finish p gen ok now in
  let s := p_state p in let s' := p_state p' in
  p_cfg p' = p_cfg p /\ p_slots p' = p_slots p /\ s_tokens s' = s_tokens s /\ s_last s' = s_last s /\
  (p' = p /\ (failure_threshold (p_cfg p) = 0 \/ gen <> generation s) \/
   failure_threshold (p_cfg p) <> 0 /\ gen = generation s /\
   (ok = true /\ generation s' = generation s /\ retry_at s' = None /\ probing s' = false \/
    ok = false /\ generation s' = wrap 64 (generation s + 1) /\ probing s' = false /\
      retry_at s' = Some (now + from_millis (cooldown_ms (p_cfg p))) \/
    ok = false /\ generation s' = generation s /\ probing s = false /\ probing s' = false /\
      retry_at s' = retry_at s)).
Proof.
  cbv zeta. unfold Protection_finish. destruct (Z.eqb_spec (failure_threshold (p_cfg p)) 0); [tauto |].
  destruct (Z.eqb_spec gen (generation (p_state p))); cbn [negb]; [| tauto].
  destruct ok; [cbn; tauto |].
  destruct (probing (p_state p) || _) eqn:G; cbn.
  - do 4 (split; [done |]). right. do 2 (split; [done |]). right. now left.
  - apply orb_false_iff in G as [G _]. rewrite G. do 4 (split; [done |]). right.
    do 2 (split; [done |]). right. now right.
Qed.

(** ** The invariant *)

Section Breaker.
Context (cfg : BackendProtection) (backend_slots : Z).

(** While fewer than 2^64 outages have happened: the generation counts them, no attempt is from the
    future, and during an outage the attempts of the current generation are the probe. *)
Definition circuit_inv (w : BWorld) : Prop :=
  let s := p_state (bw_p w) in
  0 <= openings w /\ generation s = openings w /\
  (retry_at s = None -> probing s = false) /\
  (retry_at s <> None -> failure_threshold cfg <> 0) /\
  (forall tid a, bw_live w !! tid = Some (Dialing a) -> 0 <= a_generation a <= openings w) /\
  (retry_at s <> None -> dials (generation s) (bw_live w) = Z.b2z (probing s)).

Record binv (w : BWorld) : Prop := {
  bi_cfg : p_cfg (bw_p w) = cfg;
  bi_slots : 0 <= p_slots (bw_p w) /\
    p_slots (bw_p w) + Z.of_nat (size (bw_live w)) = Z.max 0 (Protection_slots cfg backend_slots) \/
    Protection_slots cfg backend_slots < 0;
  bi_circuit : openings w < 2 ^ 64 -> circuit_inv w }.

(** Moving a caller between phases that are not in flight, with the circuit untouched. *)
Lemma circuit_inv_move (w : BWorld) (p : Protection) (live : gmap nat Dial) :
  circuit_inv w ->
  generation (p_state p) = generation (p_state (bw_p w)) ->
  retry_at (p_state p) = retry_at (p_state (bw_p w)) ->
  probing (p_state p) = probing (p_state (bw_p w)) ->
  (forall i a, live !! i = Some (Dialing a) -> 0 <= a_generation a <= openings w) ->
  (retry_at (p_state p) <> None -> dials (generation (p_state p)) live =
    dials (generation (p_state p)) (bw_live w)) ->
  circuit_inv (mkBWorld p live (openings w)).
Proof.
  intros (I1 & I2 & I3 & I4 & I5 & I6) G R P L D. unfold circuit_inv. cbn [bw_p bw_live openings].
  rewrite P, R, G in *. split_and!; auto. intros N. rewrite D by done. auto.
Qed.

Lemma dialing_insert (live : gmap nat Dial) (tid : nat) (d : Dial) (n : Z) :
  (forall i a, live !! i = Some (Dialing a) -> 0 <= a_generation a <= n) ->
  (forall a, d = Dialing a -> 0 <= a_generation a <= n) ->
  forall i a, <[tid := d]> live !! i = Some (Dialing a) -> 0 <= a_generation a <= n.
Proof.
  intros L D i a. destruct (decide (tid = i)) as [-> | N].
  - rewrite lookup_insert_eq. intros [= E]. now apply D.
  - rewrite lookup_insert_ne by done. apply L.
Qed.

(** Completing an attempt preserves the invariant of the circuit. *)
Lemma circuit_inv_finish (w : BWorld) (tid : nat) (a : Attempt) (ok : bool) (now : Instant) :
  p_cfg (bw_p w) = cfg -> circuit_inv w -> bw_live w !! tid = Some (Dialing a) ->
  let p' := Protection_finish (bw_p w) (a_generation a) ok now in
  openings w + opened (bw_p w) p' < 2 ^ 64 ->
  circuit_inv (mkBWorld p' (<[tid := Closing]> (bw_live w)) (openings w + opened (bw_p w) p')).
Proof.
  intros Hcfg I L p' Hop. pose proof I as (I1 & I2 & I3 & I4 & I5 & I6).
  assert (LC : forall i b, <[tid := Closing]> (bw_live w) !! i = Some (Dialing b) ->
    0 <= a_generation b <= openings w) by (apply dialing_insert; [done | discriminate]).
  assert (DC : forall g, dials g (<[tid := Closing]> (bw_live w)) =
    dials g (bw_live w) - Z.b2z (a_generation a =? g)).
  { intros g. unfold dials. rewrite (cnt_update _ _ _ _ Closing L). cbn [is_dialing Z.b2z]. lia. }
  destruct (finish_cases (bw_p w) (a_generation a) ok now) as (_ & _ & _ & _ & C). fold p' in C.
  unfold opened in *. destruct C as [[E C] | (Ht & Eg & C)].
  { rewrite E in *. rewrite Z.eqb_refl, Z.add_0_r in *. apply circuit_inv_move; auto.
    intros N. rewrite DC. destruct C as [C | C]; [rewrite <- Hcfg in I4; now apply I4 in C |].
    destruct (Z.eqb_spec (a_generation a) (generation (p_state (bw_p w)))); [done | cbn; lia]. }
  destruct C as [(-> & G & R & P) | [(-> & G & P & R) | (-> & G & P0 & P & R)]].
  - rewrite G, Z.eqb_refl, Z.add_0_r in *. unfold circuit_inv. cbn [bw_p bw_live openings].
    rewrite R, G. split_and!; auto; done.
  - pose proof (Z.mod_pos_bound (openings w + 1) (2 ^ 64) ltac:(lia)).
    assert (Hne : (generation (p_state (bw_p w)) =? generation (p_state p')) = false).
    { apply Z.eqb_neq. rewrite G, I2. unfold wrap. intros E.
      assert (Hlt : openings w < 2 ^ 64) by (destruct (_ =? _) in Hop; lia).
      destruct (Z.eq_dec (openings w + 1) (2 ^ 64)) as [F | F]; [rewrite F, Z.mod_same in E by lia; lia |].
      rewrite Z.mod_small in E by lia. lia. }
    rewrite Hne in *. unfold circuit_inv. cbn [bw_p bw_live openings].
    rewrite G, I2, wrap_small by lia. rewrite R, P.
    split_and!; auto; try lia; [now rewrite <- Hcfg | intros i b Hb; specialize (LC i b Hb); lia |].
    intros _. apply cnt_none_live. intros i [| b |] Hb; try done. specialize (LC i b Hb). cbn.
    apply Z.eqb_neq. lia.
  - rewrite G, Z.eqb_refl, Z.add_0_r in *. unfold circuit_inv. cbn [bw_p bw_live openings].
    rewrite R, G. split_and!; auto. intros N. exfalso. specialize (I6 N). rewrite P0 in I6.
    pose proof (cnt_pos (is_dialing (generation (p_state (bw_p w)))) _ _ _ L) as Q.
    cbn [is_dialing] in Q. rewrite Eg, Z.eqb_refl in Q. unfold dials in I6. cbn in *. lia.
Qed.

Lemma opened_nonneg (p p' : Protection) : 0 <= opened p p'.
Proof. unfold opened. destruct (_ =? _); lia. Qed.

Lemma binv_step (w w' : BWorld) : binv w -> bstep w w' -> binv w'.
Proof.
  intros [Hcfg Hs Hc] S. destruct S as [tid p L A | tid now a p L E | tid now p L E | tid a ok now L | tid L | m].
  - unfold acquire_slot in A. destruct (Z.ltb_spec 0 (p_slots (bw_p w))); [| discriminate].
    injection A as <-. split; [done | |]; cbn [bw_p bw_live openings with_slots p_slots].
    + rewrite map_size_insert_None by done. lia.
    + intros Ho. specialize (Hc Ho). pose proof Hc as (_ & _ & _ & _ & I5 & _).
      apply circuit_inv_move; auto; [apply dialing_insert; [done | discriminate] |].
      intros _. unfold dials. rewrite cnt_insert_new by done. cbn. lia.
  - destruct (enter_locked_circuit _ _ _ _ E) as (C & Sl & G & R & Rf & -> & P).
    split; [cbn; congruence | |]; cbn [bw_p bw_live openings].
    + rewrite map_size_insert_Some by eauto. now rewrite Sl.
    + intros Ho. destruct (Hc Ho) as (I1 & I2 & I3 & I4 & I5 & I6).
      unfold circuit_inv. cbn [bw_p bw_live openings]. rewrite G, R, P. split_and!; auto.
      * intros N. rewrite N. auto.
      * apply dialing_insert; [done |]. intros b [= <-]. cbn. lia.
      * intros N. unfold dials. rewrite (cnt_update _ _ _ _ _ L). cbn [is_dialing Z.b2z a_generation].
        rewrite Z.eqb_refl. specialize (I6 N). unfold dials in I6. rewrite I6.
        unfold circuit_refuses in Rf. destruct (retry_at (p_state (bw_p w))); [| done].
        apply orb_false_iff in Rf as [_ ->]. done.
  - destruct (enter_locked_circuit _ _ _ _ E) as (C & Sl & G & R & P).
    split; [cbn; congruence | |]; cbn [bw_p bw_live openings].
    + rewrite map_size_insert_Some by eauto. now rewrite Sl.
    + intros Ho. specialize (Hc Ho). pose proof Hc as (_ & _ & _ & _ & I5 & _).
      apply circuit_inv_move; auto; [apply dialing_insert; [done | discriminate] |].
      intros _. unfold dials. rewrite (cnt_update _ _ _ _ _ L). cbn. lia.
  - destruct (finish_cases (bw_p w) (a_generation a) ok now) as (C & Sl & _).
    pose proof (opened_nonneg (bw_p w) (Protection_finish (bw_p w) (a_generation a) ok now)).
    split; [cbn; congruence | |]; cbn [bw_p bw_live openings].
    + rewrite map_size_insert_Some by eauto. now rewrite Sl.
    + intros Ho. apply circuit_inv_finish; auto. apply Hc. lia.
  - split; [done | |]; cbn [bw_p bw_live openings release_slot with_slots p_slots].
    + rewrite map_size_delete_Some by eauto.
      assert (size (bw_live w) <> 0%nat).
      { intros Z. apply map_size_empty_inv in Z. rewrite Z in L. now rewrite lookup_empty in L. }
      lia.
    + intros Ho. specialize (Hc Ho). pose proof Hc as (_ & _ & _ & _ & I5 & _).
      apply circuit_inv_move; auto.
      * intros i b. destruct (decide (tid = i)) as [-> | N]; [now rewrite lookup_delete_eq |].
        rewrite lookup_delete_ne by done. apply I5.
      * intros _. unfold dials. rewrite (cnt_delete _ _ _ _ L). cbn. lia.
  - split; [done | exact Hs |]. exact Hc.
Qed.

Lemma binv_reachable (w : BWorld) : breachable cfg backend_slots w -> binv w.
Proof.
  intros (m & now & R). remember (mkBWorld (Protection_new cfg backend_slots m now) ∅ 0) as w0 eqn:E.
  assert (I : binv w0).
  { subst. split; [done | |].
    - cbn. rewrite map_size_empty. lia.
    - intros _. unfold circuit_inv. cbn. split_and!; try done; intros tid a; now rewrite lookup_empty. }
  clear E. induction R as [| w1 w2 w3 S R IH]; [done |]. apply IH. eapply binv_step; eauto.
Qed.
End Breaker.

(** During an outage there is at most one attempt in flight whose result can affect the circuit,
    the recovery probe, and exactly while the circuit says so; with any number of callers
    interleaving between taking a permit, entering, completing and returning the permit (and fewer
    than 2^64 outages, so that generations are distinct). *)
Theorem backend_single_probe (cfg : BackendProtection) (backend_slots : Z) (w : BWorld) (at_ : Instant) :
  breachable cfg backend_slots w -> openings w < 2 ^ 64 ->
  retry_at (p_state (bw_p w)) = Some at_ ->
  dials (generation (p_state (bw_p w))) (bw_live w) = Z.b2z (probing (p_state (bw_p w))).
Proof.
  intros R Ho E. destruct (bi_circuit _ _ _ (binv_reachable _ _ _ R) Ho) as (_ & _ & _ & _ & _ & I).
  apply I. congruence.
Qed.

(** Permits are conserved: the free permits and the callers that hold one always add up to the
    configured number, so that no more dials than that are ever in flight and every completed,
    refused or cancelled attempt gives its permit back. *)
Theorem backend_permits_conserved (cfg : BackendProtection) (backend_slots : Z) (w : BWorld) :
  breachable cfg backend_slots w -> 0 <= Protection_slots cfg backend_slots ->
  0 <= p_slots (bw_p w) /\
  p_slots (bw_p w) + Z.of_nat (size (bw_live w)) = Protection_slots cfg backend_slots.
Proof.
  intros R Hs. pose proof (bi_slots _ _ _ (binv_reachable _ _ _ R)). lia.
Qed.

(** ** One operation *)

Lemma enter_refused (p : Protection) (now : Instant) :
  circuit_refuses (p_state p) now = true -> Protection_enter p now = (None, p).
Proof.
  intros C. unfold Protection_enter, acquire_slot. destruct (0 <? p_slots p); [| done].
  unfold enter_locked. cbn [with_slots p_state]. rewrite C. unfold release_slot, with_slots. cbn.
  replace (p_slots p - 1 + 1) with (p_slots p) by lia. now destruct p.
Qed.

(** A refusal by the circuit costs nothing: while an outage is cooling down or its probe is out,
    [enter] returns nothing and leaves the protection exactly as it was, dial budget, permits and
    metrics included. *)
Theorem circuit_refusal_is_free (p : Protection) (now : Instant) :
  circuit_refuses (p_state p) now = true -> Protection_enter p now = (None, p).
Proof. apply enter_refused. Qed.

(** A completion from an older outage changes nothing: a late success cannot close, and a late
    failure cannot reopen, the current circuit. *)
Theorem stale_completion_ignored (p : Protection) (gen : Z) (ok : bool) (now : Instant) :
  gen <> generation (p_state p) -> Protection_finish p gen ok now = p.
Proof.
  intros H. unfold Protection_finish. destruct (_ =? 0); [done |].
  destruct (Z.eqb_spec gen (generation (p_state p))); done.
Qed.

(** [n] failures of the current generation. *)
Definition fail_n (n : nat) (now : Instant) (p : Protection) : Protection :=
  Nat.iter n (fun p => Protection_finish p (generation (p_state p)) false now) p.

Lemma fail_n_succ (n : nat) (now : Instant) (p : Protection) :
  fail_n (S n) now p =
  Protection_finish (fail_n n now p) (generation (p_state (fail_n n now p))) false now.
Proof. reflexivity. Qed.

Lemma fail_n_below (n : nat) (now : Instant) (p : Protection) :
  0 <= failures (p_state p) -> failure_threshold (p_cfg p) < 2 ^ 32 ->
  failures (p_state p) + Z.of_nat n < failure_threshold (p_cfg p) -> probing (p_state p) = false ->
  let s := p_state p in
  fail_n n now p = with_state p
    (mkState (failures s + Z.of_nat n) (generation s) (retry_at s) false (s_tokens s) (s_last s)).
Proof.
  intros H0 H32 Hn Hp s. subst s. induction n as [| n IH].
  - cbn. rewrite Z.add_0_r, <- Hp. now destruct p as [c [] sl m].
  - rewrite fail_n_succ, IH by lia.
    unfold Protection_finish. cbn [with_state p_cfg p_state generation failures probing retry_at s_tokens s_last].
    destruct (Z.eqb_spec (failure_threshold (p_cfg p)) 0); [lia |]. rewrite Z.eqb_refl. cbn [negb orb].
    unfold saturating_add. rewrite Z.min_l by lia.
    destruct (Z.leb_spec (failure_threshold (p_cfg p)) (failures (p_state p) + Z.of_nat n + 1)); [lia |].
    unfold with_state. cbn. do 2 f_equal. lia.
Qed.

(** The circuit opens at the threshold and not before: from a closed circuit without failures,
    fewer failures than the threshold leave it closed, and the failure that reaches the threshold
    starts a new generation, refuses every caller until the cooldown has passed and counts one
    opening. *)
Theorem circuit_opens_at_threshold (p : Protection) (n : nat) (now : Instant) :
  let s := p_state p in
  let t := failure_threshold (p_cfg p) in
  failures s = 0 -> retry_at s = None -> probing s = false -> 0 < t < 2 ^ 32 ->
  (Z.of_nat n < t -> retry_at (p_state (fail_n n now p)) = None) /\
  (Z.of_nat n = t -> let p' := fail_n n now p in
    retry_at (p_state p') = Some (now + from_millis (cooldown_ms (p_cfg p))) /\
    generation (p_state p') = wrap 64 (generation s + 1) /\
    p_metrics p' = Metrics_inc (p_metrics p) 48 /\
    forall now', now' < now + from_millis (cooldown_ms (p_cfg p)) ->
      Protection_enter p' now' = (None, p')).
Proof.
  intros s t F R P T. split.
  - intros L. rewrite fail_n_below by (subst s t; lia || done). exact R.
  - intros E. destruct n as [| n]; [lia |].
    assert (X : let p' := fail_n (S n) now p in
      retry_at (p_state p') = Some (now + from_millis (cooldown_ms (p_cfg p))) /\
      generation (p_state p') = wrap 64 (generation s + 1) /\
      p_metrics p' = Metrics_inc (p_metrics p) 48).
    { rewrite fail_n_succ, fail_n_below by (subst s t; lia || done). unfold Protection_finish.
      cbn [with_state p_cfg p_state generation failures probing retry_at s_tokens s_last p_slots p_metrics].
      destruct (Z.eqb_spec (failure_threshold (p_cfg p)) 0); [subst t; lia |].
      rewrite Z.eqb_refl. cbn [negb orb]. unfold saturating_add. rewrite Z.min_l by (subst s t; lia).
      destruct (Z.leb_spec (failure_threshold (p_cfg p)) (failures (p_state p) + Z.of_nat n + 1));
        [done | subst s t; lia]. }
    destruct X as (X1 & X2 & X3). split_and!; auto.
    intros now' Hn. set (p' := fail_n (S n) now p) in *.
    apply enter_refused. unfold circuit_refuses. rewrite X1.
    destruct (Z.ltb_spec now' (now + from_millis (cooldown_ms (p_cfg p)))); [done | lia].
Qed.

(** ** Recovery *)

(** The circuit is open and nobody is probing. *)
Definition cooling (p : Protection) (at_ : Instant) : Prop :=
  failure_threshold (p_cfg p) <> 0 /\ retry_at (p_state p) = Some at_ /\ probing (p_state p) = false.

(** The circuit is closed, without a failure on its account. *)
Definition closed (p : Protection) : Prop :=
  retry_at (p_state p) = None /\ probing (p_state p) = false /\ failures (p_state p) = 0.

Lemma enter_after_cooldown (p : Protection) (at_ now : Instant) :
  cooling p at_ -> at_ <= now -> 0 < p_slots p -> fst (dial_budget (attempts (p_cfg p)) (p_state p) now) = true ->
  exists s, Protection_enter p now =
    (Some (mkAttempt (generation (p_state p)) false),
     mkProtection (p_cfg p) s (p_slots p - 1) (p_metrics p)) /\
    generation s = generation (p_state p) /\ retry_at s = Some at_ /\ probing s = true.
Proof.
  intros (_ & R & P) Hn Hs B. unfold Protection_enter, acquire_slot. destruct (Z.ltb_spec 0 (p_slots p)); [| lia].
  unfold enter_locked, circuit_refuses. cbn [with_slots p_state p_cfg]. rewrite R, P.
  destruct (Z.ltb_spec now at_); [lia |]. cbn [orb].
  pose proof (dial_budget_frame (attempts (p_cfg p)) (p_state p) now) as (_ & G & Rs & _).
  destruct (dial_budget _ _ _) as [b s]. cbn [fst snd] in B, G, Rs. subst b. cbn [negb]. rewrite Rs, R. eexists.
  split; [unfold with_state; cbn; rewrite G; reflexivity | now split_and!].
Qed.

Lemma probe_finish (p : Protection) (ok : bool) (t : Instant) :
  failure_threshold (p_cfg p) <> 0 -> probing (p_state p) = true ->
  let p' := Protection_finish p (generation (p_state p)) ok t in
  if ok then closed p' else cooling p' (t + from_millis (cooldown_ms (p_cfg p))).
Proof.
  intros T P. unfold Protection_finish. destruct (Z.eqb_spec (failure_threshold (p_cfg p)) 0); [done |].
  rewrite Z.eqb_refl. cbn [negb]. destruct ok; [done |]. rewrite P. now split_and!.
Qed.

(** C29: The circuit recovers. Once the cooldown of an outage has passed, the first caller with a free
    permit and a dial token is let through as the probe, and nobody else until it completes; a probe
    that succeeds closes the circuit with no failure on its account, and one that fails, or is
    dropped unfinished, starts the next cooldown, after which the same holds again. *)
Theorem circuit_recovers (p : Protection) (at_ now : Instant) :
  cooling p at_ -> at_ <= now -> 0 < p_slots p -> fst (dial_budget (attempts (p_cfg p)) (p_state p) now) = true ->
  exists a p1, Protection_enter p now = (Some a, p1) /\
    (forall later, Protection_enter p1 later = (None, p1)) /\
    (forall t, closed (Protection_finish p1 (a_generation a) true t)) /\
    (forall t, cooling (Protection_finish p1 (a_generation a) false t) (t + from_millis (cooldown_ms (p_cfg p)))) /\
    (forall t, cooling (Attempt_drop p1 a t) (t + from_millis (cooldown_ms (p_cfg p)))).
Proof.
  intros C Hn Hs B. destruct (enter_after_cooldown p at_ now C Hn Hs B) as (s & E & G & R & P).
  destruct C as (T & _). do 2 eexists. split; [exact E |].
  set (p1 := mkProtection (p_cfg p) s (p_slots p - 1) (p_metrics p)).
  cbn [a_generation]. rewrite <- G. change (generation s) with (generation (p_state p1)).
  assert (F : forall ok t, if ok : bool then closed (Protection_finish p1 (generation (p_state p1)) ok t)
    else cooling (Protection_finish p1 (generation (p_state p1)) ok t) (t + from_millis (cooldown_ms (p_cfg p))))
    by (intros ok t; now apply (probe_finish p1 ok t)).
  split_and!; [| exact (F true) | exact (F false) | exact (F false)].
  intros later. apply enter_refused. unfold circuit_refuses. cbn. rewrite R, P. apply orb_true_r.
Qed.

(** ** The dial budget in binary64 *)

Definition budget_ok (r : Rate) (s : State) : Prop :=
  nonneg (s_tokens s) /\ is_finite (s_tokens s) = true /\ val (s_tokens s) <= val (burst r).

(** Time that does not advance adds nothing. *)
Lemma refill_reversed (r : Rate) (now last : Instant) :
  enabled_rate r -> now <= last ->
  exists sg, f64_mul (as_secs_f64 (saturating_duration_since now last)) (per_second r) = S754_zero sg.
Proof.
  intros (Hp & _) H. rewrite saturating_duration_reversed by done.
  destruct (positive_finite_cases _ Hp) as (m & e & -> & _).
  change (as_secs_f64 0) with (S754_zero false). eauto.
Qed.

(** The dial budget stays between zero and its burst whatever the clock does, and a dial that
    does not advance the clock is granted exactly when a whole token is there, which it then takes
    exactly; a refused dial takes nothing, and a clock reading from the past refills nothing. *)
Theorem dial_budget_exact (r : Rate) (s : State) (now : Instant) :
  enabled_rate r -> budget_ok r s ->
  let '(ok, s') := dial_budget r s now in
  budget_ok r s' /\ s_last s' = Z.max (s_last s) now /\
  (now <= s_last s ->
    (ok = true <-> unit64 <= val (s_tokens s)) /\
    val (s_tokens s') = val (s_tokens s) - (if ok then unit64 else 0)).
Proof.
  intros He (Nt & Ft & Lt). pose proof He as (Hp & Nb & Fb & Lo & Hi). unfold dial_budget.
  destruct (proj1 He) as (E0 & _). rewrite E0.
  set (fill := f64_mul _ (per_second r)).
  assert (Nf : nonneg fill) by (apply f64_mul_nonneg; auto with gate).
  pose proof (f64_add_nonneg _ _ Nt Nf) as Na.
  destruct (f64_min_nonneg _ _ Na Nb Fb) as (Nm & Fm & Lm & V1 & V2).
  set (t := f64_min _ (burst r)) in *. apply leb_val in Lm; auto.
  assert (T : now <= s_last s -> val t = val (s_tokens s)).
  { intros Hn. destruct (refill_reversed r now (s_last s) He Hn) as [sg Z]. fold fill in Z.
    rewrite Z in *. destruct (f64_add_zero_r (s_tokens s) sg Nt) as [V F].
    rewrite V1 by congruence. rewrite V. lia. }
  assert (W : f64_ltb t f64_one = true <-> val t < unit64).
  { rewrite <- val_one. apply ltb_val; auto using f64_one_nonneg. }
  destruct (f64_ltb t f64_one) eqn:G.
  - split; [now split_and! |]. split; [done |]. intros Hn. cbn [s_tokens]. rewrite (T Hn) in *.
    split; [| lia]. split; [done |]. assert (val (s_tokens s) < unit64) by now apply W. lia.
  - assert (U : unit64 <= val t) by (destruct (Z.lt_ge_cases (val t) unit64) as [L | L]; [now apply W in L | done]).
    assert (val t <= 2 ^ 53 * unit64) as H53.
    { apply Z.le_trans with (val (burst r)); [done |]. apply Z.le_trans with (1000000000 * unit64); [done |].
      apply Z.mul_le_mono_nonneg_r; [done | lia]. }
    destruct (f64_sub_one_exact t Nm Fm) as (N & F & V); auto.
    { apply leb_val; auto using f64_one_nonneg; now rewrite val_one. }
    pose proof (nonneg_val _ f64_one_nonneg) as H1. rewrite val_one in H1.
    split; [split_and!; auto; cbn [s_tokens]; lia |]. split; [done |]. intros Hn. cbn [s_tokens].
    rewrite V, (T Hn) in *. split; [| lia]. split; [done |]. done.
Qed.

(** ** Instances *)

Definition sample_protection : BackendProtection :=
  mkBackendProtection 3 2 100 (mkRate (f64_of_Z 2) (f64_of_Z 3)).

Definition sample_breaker : Protection := Protection_new sample_protection 4 Metrics_new 0.

(** Scripts of steps, executed. *)
Inductive BAct : Type :=
| Acquire (tid : nat) | Enter (tid : nat) (now : Instant)
| Finish (tid : nat) (ok : bool) (now : Instant) | Release (tid : nat).

Definition bexec (w : BWorld) (a : BAct) : BWorld :=
  match a with
  | Acquire tid =>
    match bw_live w !! tid, acquire_slot (bw_p w) with
    | None, Some p => mkBWorld p (<[tid := Entering]> (bw_live w)) (openings w)
    | _, _ => w
    end
  | Enter tid now =>
    match bw_live w !! tid, enter_locked (bw_p w) now with
    | Some Entering, (Some a, p) => mkBWorld p (<[tid := Dialing a]> (bw_live w)) (openings w)
    | Some Entering, (None, p) => mkBWorld p (<[tid := Closing]> (bw_live w)) (openings w)
    | _, _ => w
    end
  | Finish tid ok now =>
    match bw_live w !! tid with
    | Some (Dialing a) =>
      let p := Protection_finish (bw_p w) (a_generation a) ok now in
      mkBWorld p (<[tid := Closing]> (bw_live w)) (openings w + opened (bw_p w) p)
    | _ => w
    end
  | Release tid =>
    match bw_live w !! tid with
    | Some Closing => mkBWorld (release_slot (bw_p w)) (delete tid (bw_live w)) (openings w)
    | _ => w
    end
  end.

Lemma bexec_steps (w : BWorld) (a : BAct) : rtc bstep w (bexec w a).
Proof.
  destruct a as [tid | tid now | tid ok now | tid]; cbn [bexec];
    destruct (bw_live w !! tid) as [[] |] eqn:L; try apply rtc_refl.
  - destruct (acquire_slot (bw_p w)) eqn:E; [| apply rtc_refl]. apply rtc_once. now apply bstep_acquire.
  - destruct (enter_locked (bw_p w) now) as [[b |] p] eqn:E; apply rtc_once;
      [eapply bstep_granted | eapply bstep_refused]; eauto.
  - apply rtc_once. now apply bstep_finish.
  - apply rtc_once. now apply bstep_release.
Qed.

Lemma brun_reachable (cfg : BackendProtection) (n : Z) (m : Metrics) (now : Instant) (acts : list BAct) :
  breachable cfg n (fold_left bexec acts (mkBWorld (Protection_new cfg n m now) ∅ 0)).
Proof.
  exists m, now. generalize (mkBWorld (Protection_new cfg n m now) ∅ 0) as w.
  induction acts as [| a acts IH]; intros w; [apply rtc_refl |].
  cbn [fold_left]. etrans; [apply bexec_steps | apply IH].
Qed.

(** Two attempts fail; a third caller is let in as the probe after the cooldown. *)
Definition probe_world : BWorld :=
  fold_left bexec [Acquire 0; Enter 0 0; Acquire 1; Enter 1 0; Finish 0 false 1000;
    Finish 1 false 1000; Release 0; Release 1; Acquire 2; Enter 2 (from_secs 1)]
    (mkBWorld sample_breaker ∅ 0).

Lemma backend_single_probe_witness :
  dials (generation (p_state (bw_p probe_world))) (bw_live probe_world) =
  Z.b2z (probing (p_state (bw_p probe_world))) /\ probing (p_state (bw_p probe_world)) = true.
Proof.
  split; [| vm_compute; reflexivity].
  apply (backend_single_probe sample_protection 4 probe_world (1000 + from_millis 100));
    [apply brun_reachable | vm_compute; reflexivity | vm_compute; reflexivity].
Defined.

Lemma backend_permits_conserved_witness :
  0 <= p_slots (bw_p probe_world) /\ p_slots (bw_p probe_world) + Z.of_nat (size (bw_live probe_world)) = 3.
Proof.
  exact (backend_permits_conserved sample_protection 4 probe_world (brun_reachable _ _ _ _ _)
    ltac:(vm_compute; discriminate)).
Defined.

Lemma circuit_refusal_is_free_witness :
  Protection_enter (bw_p probe_world) (from_secs 2) = (None, bw_p probe_world).
Proof. apply (circuit_refusal_is_free (bw_p probe_world)). vm_compute. reflexivity. Defined.

Lemma stale_completion_ignored_witness :
  Protection_finish (bw_p probe_world) 0 true (from_secs 2) = bw_p probe_world.
Proof. apply (stale_completion_ignored (bw_p probe_world)). vm_compute. discriminate. Defined.

Lemma circuit_opens_at_threshold_witness :
  retry_at (p_state (fail_n 2 1000 sample_breaker)) = Some (1000 + from_millis 100).
Proof.
  refine (proj1 (proj2 (circuit_opens_at_threshold sample_breaker 2 1000 _ _ _ _) _));
    try reflexivity. cbn. lia.
Defined.

Lemma dial_budget_exact_witness :
  fst (dial_budget (attempts sample_protection) (p_state sample_breaker) 0) = true /\
  val (s_tokens (snd (dial_budget (attempts sample_protection) (p_state sample_breaker) 0))) = 2 * unit64.
Proof.
  assert (He : enabled_rate (attempts sample_protection)).
  { apply Rate_valid_enabled; [split; vm_compute; reflexivity | vm_compute; reflexivity | vm_compute; reflexivity]. }
  assert (Hb : budget_ok (attempts sample_protection) (p_state sample_breaker)).
  { split_and!; [split; vm_compute; reflexivity | vm_compute; reflexivity | apply Z.le_refl]. }
  pose proof (dial_budget_exact (attempts sample_protection) (p_state sample_breaker) 0 He Hb) as H.
  split; [vm_compute; reflexivity |].
  destruct (dial_budget (attempts sample_protection) (p_state sample_breaker) 0) as [ok s'] eqn:E.
  destruct H as (_ & _ & X). destruct (X ltac:(cbn; lia)) as [_ V]. cbn [snd].
  replace ok with true in V by (vm_compute in E; now injection E).
  rewrite V. vm_compute. reflexivity.
Defined.

(** The circuit of [sample_breaker] after two failures. *)
Definition outage : Protection := fail_n 2 1000 sample_breaker.

Lemma circuit_recovers_witness :
  exists a p1, Protection_enter outage (from_secs 1) = (Some a, p1) /\
    (forall later, Protection_enter p1 later = (None, p1)) /\
    (forall t, closed (Protection_finish p1 (a_generation a) true t)) /\
    (forall t, cooling (Protection_finish p1 (a_generation a) false t) (t + from_millis 100)) /\
    (forall t, cooling (Attempt_drop p1 a t) (t + from_millis 100)).
Proof.
  apply (circuit_recovers outage (1000 + from_millis 100) (from_secs 1)).
  - split_and!; [vm_compute; discriminate | vm_compute; reflexivity | vm_compute; reflexivity].
  - vm_compute. discriminate.
  - vm_compute. reflexivity.
  - vm_compute. reflexivity.
Defined.
