(* ===== verification/Relay.v ===== *)
(** * The relay ([gate/src/relay.rs])

    The per-connection upload budget and the two stream adapters of the relay: [Monitored], which
    accounts and optionally enforces the budget on what a client sends, and [Guarded], which times
    out a blocked write. A poll of the wrapped stream is an outcome of the environment; a timer is
    the instant at which it fires. The copy loop itself is a library function. *)
From S2P Require Import Prelude Machine Metrics Config.
From stdpp Require Import base option list relations.
From Stdlib Require Import ZArith Lia.
Local Open Scope Z_scope.

(** ** The upload budget *)

Definition SECOND : Z := 1000000000.

Record Budget : Type := mkBudget { credit : Z; bd_last : Instant; bd_cfg : Upload }.

Definition Budget_new (cfg : Upload) (now : Instant) : Budget :=
  mkBudget (burst_bytes cfg * SECOND) now cfg.

(** All quantities are 128-bit, in bytes times nanoseconds per second. *)
Definition Budget_take (b : Budget) (bytes : Z) (now : Instant) : bool * Budget :=
  let cap := burst_bytes (bd_cfg b) * SECOND in
  let refill := saturating_mul 128 (as_nanos (saturating_duration_since now (bd_last b)))
                  (bytes_per_second (bd_cfg b)) in
  let c := Z.min (saturating_add 128 (credit b) refill) cap in
  let last := Z.max (bd_last b) now in
  let cost := bytes * SECOND in
  if cost >? c then (false, mkBudget 0 last (bd_cfg b))
  else (true, mkBudget (c - cost) last (bd_cfg b)).

(** ** Polls *)

Inductive IoKind : Type := TimedOutKind | PermissionDenied | OtherKind.

(** [Poll<io::Result<T>>]. *)
Inductive Poll (A : Type) : Type :=
| Pending
| ReadyOk (a : A)
| ReadyErr (e : IoKind).
Arguments Pending {A}.
Arguments ReadyOk {A} _.
Arguments ReadyErr {A} _.

(** ** The monitored client *)

Record Monitored : Type := mkMonitored { budget : Budget; m_metrics : Metrics; flagged : bool }.

(** [poll_read] with [buf] already filled; the wrapped stream's poll appends to it. *)
Definition Monitored_poll_read (t : Monitored) (inner : Poll (list Z)) (buf : list Z) (now : Instant)
  : Poll unit * list Z * Monitored :=
  match inner with
  | Pending => (Pending, buf, t)
  | ReadyErr e => (ReadyErr e, buf, t)
  | ReadyOk new =>
    let n := Z.of_nat (length new) in
    let m := Metrics_add (m_metrics t) 40 n in
    if 0 <? n then
      let '(ok, b) := Budget_take (budget t) n now in
      if ok then (ReadyOk tt, buf ++ new, mkMonitored b m (flagged t))
      else
        let m := if negb (flagged t) then Metrics_inc m 39 else m in
        if enforce (bd_cfg b) then (ReadyErr PermissionDenied, buf, mkMonitored b m true)
        else (ReadyOk tt, buf ++ new, mkMonitored b m true)
    else (ReadyOk tt, buf ++ new, mkMonitored (budget t) m (flagged t))
  end.

(** [poll_write] and [poll_write_vectored] count what was accepted. *)
Definition Monitored_poll_write (t : Monitored) (inner : Poll Z) : Poll Z * Monitored :=
  match inner with
  | ReadyOk n => (inner, mkMonitored (budget t) (Metrics_add (m_metrics t) 41 n) (flagged t))
  | _ => (inner, t)
  end.

(** The copy loop reads into an empty buffer until the first error and forwards what it read. *)
Fixpoint monitored_run (t : Monitored) (polls : list (Poll (list Z) * Instant)) : list Z * Monitored :=
  match polls with
  | [] => ([], t)
  | (inner, now) :: rest =>
    match Monitored_poll_read t inner [] now with
    | (ReadyErr _, _, t) => ([], t)
    | (_, buf, t) => let '(f, t) := monitored_run t rest in (buf ++ f, t)
    end
  end.

(** ** Guarded writes *)

Record Guarded : Type := mkGuarded { stall_ms : Z; timer : option Instant; g_metrics : Metrics }.

(** [check] at time [now]; a sleep is ready once its instant has passed. *)
Definition Guarded_check {A : Type} (g : Guarded) (result : Poll A) (now : Instant) : Poll A * Guarded :=
  match result with
  | Pending =>
    if stall_ms g =? 0 then (Pending, g)
    else
      let t := default (now + from_millis (stall_ms g)) (timer g) in
      if t <=? now
      then (ReadyErr TimedOutKind, mkGuarded (stall_ms g) (Some t) (Metrics_inc (g_metrics g) 45))
      else (Pending, mkGuarded (stall_ms g) (Some t) (g_metrics g))
  | _ => (result, mkGuarded (stall_ms g) None (g_metrics g))
  end.

(** [poll_write], [poll_flush] and [poll_shutdown] check the wrapped stream's poll. *)
Definition Guarded_poll_write (g : Guarded) (inner : Poll Z) (now : Instant) : Poll Z * Guarded :=
  Guarded_check g inner now.
Definition Guarded_poll_flush (g : Guarded) (inner : Poll unit) (now : Instant) : Poll unit * Guarded :=
  Guarded_check g inner now.
Definition Guarded_poll_shutdown (g : Guarded) (inner : Poll unit) (now : Instant) : Poll unit * Guarded :=
  Guarded_check g inner now.

(** [poll_read]: whether the end of the stream is announced, and whether the read counts as client
    activity; [space] is the room the buffer had. *)
Definition Guarded_poll_read (inner : Poll (list Z)) (space : Z) : bool * bool :=
  match inner with
  | ReadyOk new => ((0 <? space) && (length new =? 0)%nat, (0 <? length new)%nat)
  | _ => (false, false)
  end.

(** ** Client activity *)

Record Activity : Type := mkActivity { ac_start : Instant; last_ms : Z }.

Definition Activity_new (now : Instant) : Activity := mkActivity now 0.
Definition Activity_touch (a : Activity) (now : Instant) : Activity :=
  mkActivity (ac_start a) (Z.min (as_millis (now - ac_start a)) u64_max).

(** One round of [expired]: the instant it sleeps until, and whether it returns when it wakes. *)
Definition Activity_wake (a : Activity) (ms : Z) : Instant :=
  ac_start a + from_millis (saturating_add 64 (last_ms a) ms).
Definition Activity_expired (a : Activity) (ms : Z) (now : Instant) : bool :=
  as_millis (now - ac_start a) >=? last_ms a + ms.

(** ** The protected copy *)

(** What wakes [protected_copy]: the transfer completes, one side has reached the end of its stream,
    the client has sent something, or a timer may be due. *)
Inductive Wake : Type :=
| TransferDone (ok : bool)
| EofNotified
| ClientData
| HalfCloseTimer
| IdleTimer.

Inductive RelayEnd : Type := Transferred (ok : bool) | HalfCloseTimeout | IdleTimeout.

(** The deadline of the half-close phase once it has begun, and the client's activity. *)
Record RelayWait : Type := mkRelayWait { rw_close : option Instant; rw_activity : Activity }.

Section Protected.
Context (half_close_ms client_idle_ms : Z).

Definition relay_start (now : Instant) : RelayWait := mkRelayWait None (Activity_new now).

(** The two nested [select]s: the end of the relay, or what it waits for next. *)
Definition protected_wake (s : RelayWait) (w : Wake) (now : Instant) : RelayEnd + RelayWait :=
  match w with
  | TransferDone ok => inl (Transferred ok)
  | EofNotified =>
    match rw_close s with
    | None => if 0 <? half_close_ms
              then inr (mkRelayWait (Some (now + from_millis half_close_ms)) (rw_activity s)) else inr s
    | Some _ => inr s
    end
  | ClientData =>
    if 0 <? client_idle_ms then inr (mkRelayWait (rw_close s) (Activity_touch (rw_activity s) now)) else inr s
  | HalfCloseTimer =>
    match rw_close s with
    | Some d => if d <=? now then inl HalfCloseTimeout else inr s
    | None => inr s
    end
  | IdleTimer =>
    if (0 <? client_idle_ms) && (Activity_wake (rw_activity s) client_idle_ms <=? now) &&
       Activity_expired (rw_activity s) client_idle_ms now
    then inl IdleTimeout else inr s
  end.

(** The metric of how a relay ended. *)
Definition relay_end_metrics (e : RelayEnd) (m : Metrics) : Metrics :=
  match e with
  | Transferred _ => m
  | HalfCloseTimeout => Metrics_inc m 46
  | IdleTimeout => Metrics_inc m 49
  end.
End Protected.

(** The slots a relay counts in: budget, byte totals and the three deadlines; and what it may do to
    the registry: add to them. *)
Definition relay_slots : list nat := [39; 40; 41; 45; 46; 49]%nat.
Definition counts : Metrics -> Metrics -> Prop := rtc (fun m m' => exists n v, In n relay_slots /\ m' = Metrics_add m n v).

Lemma counts_add (m m' : Metrics) (n : nat) (v : Z) : In n relay_slots -> counts m m' -> counts m (Metrics_add m' n v).
Proof. intros Hn C. eapply rtc_r; [exact C |]. eauto. Qed.

Lemma Monitored_poll_read_counts (m : Metrics) (t : Monitored) (inner : Poll (list Z)) (buf : list Z) (now : Instant) :
  counts m (m_metrics t) -> counts m (m_metrics (snd (Monitored_poll_read t inner buf now))).
Proof.
  intros C. unfold Monitored_poll_read. destruct inner as [| new |]; [done | | done].
  assert (C' : forall v, counts m (Metrics_add (m_metrics t) 40 v)) by (intros v; apply counts_add; [cbn; auto | done]).
  destruct (0 <? _); [| apply C']. destruct (Budget_take _ _ _) as [[] b]; [apply C' |].
  destruct (enforce _), (negb _); cbn [snd m_metrics]; try apply C'; (apply counts_add; [cbn; auto | apply C']).
Qed.

Lemma Monitored_poll_write_counts (m : Metrics) (t : Monitored) (inner : Poll Z) :
  counts m (m_metrics t) -> counts m (m_metrics (snd (Monitored_poll_write t inner))).
Proof. intros C. destruct inner; [done | | done]. apply counts_add; [cbn; auto | done]. Qed.

Lemma Guarded_check_counts {A : Type} (m : Metrics) (g : Guarded) (inner : Poll A) (now : Instant) :
  counts m (g_metrics g) -> counts m (g_metrics (snd (Guarded_check g inner now))).
Proof.
  intros C. unfold Guarded_check. destruct inner; try done. destruct (_ =? 0); [done |]. cbv zeta.
  destruct (_ <=? now); [| done]. apply counts_add; [cbn; auto 10 | done].
Qed.

Lemma relay_end_counts (m m' : Metrics) (e : RelayEnd) : counts m m' -> counts m (relay_end_metrics e m').
Proof. intros C. destruct e; [done | |]; (apply counts_add; [cbn; auto 10 | done]). Qed.

(** ** The budget *)

Definition upload_ok (cfg : Upload) : Prop :=
  0 <= bytes_per_second cfg <= 1000000000 /\ 0 <= burst_bytes cfg <= 1000000000.

Definition credit_ok (b : Budget) : Prop := 0 <= credit b <= burst_bytes (bd_cfg b) * SECOND.

Lemma Budget_new_ok (cfg : Upload) (now : Instant) : upload_ok cfg -> credit_ok (Budget_new cfg now).
Proof. intros [_ H]. unfold credit_ok, Budget_new, SECOND. cbn. lia. Qed.

(** What is granted is paid for: the credit spent never exceeds what time has refilled. *)
Lemma Budget_take_spec (b : Budget) (bytes : Z) (now : Instant) :
  upload_ok (bd_cfg b) -> credit_ok b -> 0 <= bytes ->
  let '(ok, b') := Budget_take b bytes now in
  credit_ok b' /\ bd_cfg b' = bd_cfg b /\ bd_last b' = Z.max (bd_last b) now /\
  credit b' + (if ok then bytes * SECOND else 0) <=
    credit b + bytes_per_second (bd_cfg b) * (bd_last b' - bd_last b).
Proof.
  intros [Hr Hb] Hc Hn. unfold credit_ok in Hc. unfold Budget_take, as_nanos, saturating_duration_since.
  set (d := Z.max 0 (now - bd_last b)).
  assert (Hd : Z.max (bd_last b) now - bd_last b = d) by (unfold d; lia).
  assert (M : 0 <= saturating_mul 128 d (bytes_per_second (bd_cfg b)) <= d * bytes_per_second (bd_cfg b)).
  { unfold saturating_mul. assert (0 <= d) by (unfold d; lia). split; [| lia].
    apply Z.min_glb; [nia | lia]. }
  unfold saturating_add. rewrite Z.gtb_ltb. unfold SECOND in *.
  destruct (Z.ltb_spec (Z.min (Z.min (credit b + saturating_mul 128 d (bytes_per_second (bd_cfg b)))
    (2 ^ 128 - 1)) (burst_bytes (bd_cfg b) * 1000000000)) (bytes * 1000000000));
    unfold credit_ok, SECOND; cbn [credit bd_last bd_cfg]; rewrite Hd; split_and!; auto; lia.
Qed.

(** ** The monitored stream *)

(** The data a poll of the wrapped stream delivers. *)
Definition poll_data (p : Poll (list Z)) : list Z := match p with ReadyOk new => new | _ => [] end.

Lemma monitored_step (t : Monitored) (inner : Poll (list Z)) (buf : list Z) (now : Instant) :
  upload_ok (bd_cfg (budget t)) -> credit_ok (budget t) -> enforce (bd_cfg (budget t)) = true ->
  let '(res, buf', t') := Monitored_poll_read t inner buf now in
  exists kept, buf' = buf ++ kept /\ kept `sublist_of` poll_data inner /\
    bd_cfg (budget t') = bd_cfg (budget t) /\ credit_ok (budget t') /\
    bd_last (budget t) <= bd_last (budget t') <= Z.max (bd_last (budget t)) now /\
    credit (budget t') + Z.of_nat (length kept) * SECOND <=
      credit (budget t) + bytes_per_second (bd_cfg (budget t)) *
        (bd_last (budget t') - bd_last (budget t)).
Proof.
  intros Hu Hc He. unfold Monitored_poll_read.
  destruct inner as [| new | e]; [| | ];
    try (exists []; rewrite app_nil_r, Z.sub_diag; cbn [length]; split_and!; auto using sublist_nil_l; lia).
  destruct (Z.ltb_spec 0 (Z.of_nat (length new))) as [L | L].
  - pose proof (Budget_take_spec (budget t) (Z.of_nat (length new)) now Hu Hc ltac:(lia)) as B.
    destruct (Budget_take _ _ _) as [[] b]; destruct B as (Bc & Bg & Bl & Bs).
    + exists new. cbn [budget]. split_and!; auto; lia.
    + rewrite Bg, He. exists []. rewrite app_nil_r. cbn [budget length]. split_and!; auto using sublist_nil_l; lia.
  - exists new. assert (length new = 0%nat) as -> by lia. cbn [budget]. rewrite Z.sub_diag.
    split_and!; auto; lia.
Qed.

(** Enforced upload budget: whatever a client sends and whenever, the bytes forwarded to the
    backend over any span of the connection are at most the burst plus the configured rate times
    the elapsed time; the chunk that exceeds the budget is not forwarded. *)
Theorem upload_rate_bound (t : Monitored) (polls : list (Poll (list Z) * Instant)) :
  upload_ok (bd_cfg (budget t)) -> credit_ok (budget t) -> enforce (bd_cfg (budget t)) = true ->
  let '(forwarded, t') := monitored_run t polls in
  bd_last (budget t) <= bd_last (budget t') /\
  Z.of_nat (length forwarded) * SECOND <=
    burst_bytes (bd_cfg (budget t)) * SECOND +
    bytes_per_second (bd_cfg (budget t)) * (bd_last (budget t') - bd_last (budget t)).
Proof.
  intros Hu Hc He.
  assert (G : forall t, upload_ok (bd_cfg (budget t)) -> credit_ok (budget t) ->
    enforce (bd_cfg (budget t)) = true ->
    let '(f, t') := monitored_run t polls in
    bd_last (budget t) <= bd_last (budget t') /\
    Z.of_nat (length f) * SECOND <= credit (budget t) +
      bytes_per_second (bd_cfg (budget t)) * (bd_last (budget t') - bd_last (budget t))).
  { clear. induction polls as [| [inner now] polls IH]; intros t Hu Hc He; cbn [monitored_run].
    { unfold credit_ok in Hc. cbn [length]. lia. }
    pose proof (monitored_step t inner [] now Hu Hc He) as S.
    destruct (Monitored_poll_read t inner [] now) as [[res buf] t1].
    destruct S as (kept & Ek & _ & Sc & Sk & Sl & Sb). cbn [app] in Ek. subst kept.
    rewrite <- Sc in Hu, He. specialize (IH t1 Hu Sk He).
    destruct (monitored_run t1 polls) as [f t2]. destruct IH as [I1 I2].
    rewrite Sc in *. unfold credit_ok, SECOND in *. destruct Hu as [Hr _].
    destruct res as [| [] | e]; cbn [length]; rewrite ?length_app; split; lia. }
  specialize (G t Hu Hc He). destruct (monitored_run t polls) as [f t']. destruct G as [G1 G2].
  unfold credit_ok in Hc. split; [done |]. lia.
Qed.

(** The data the wrapped stream delivers before its first error. *)
Fixpoint inner_data (polls : list (Poll (list Z) * Instant)) : list Z :=
  match polls with
  | [] => []
  | (Pending, _) :: rest => inner_data rest
  | (ReadyOk new, _) :: rest => new ++ inner_data rest
  | (ReadyErr _, _) :: _ => []
  end.

Lemma monitored_observe_step (t : Monitored) (inner : Poll (list Z)) (buf : list Z) (now : Instant) :
  enforce (bd_cfg (budget t)) = false ->
  let '(res, buf', t') := Monitored_poll_read t inner buf now in
  enforce (bd_cfg (budget t')) = false /\
  match inner with
  | Pending => res = Pending /\ buf' = buf
  | ReadyOk new => res = ReadyOk tt /\ buf' = buf ++ new
  | ReadyErr e => res = ReadyErr e /\ buf' = buf
  end.
Proof.
  intros He. unfold Monitored_poll_read. destruct inner as [| new | e]; [done | | done].
  destruct (0 <? Z.of_nat (length new)); [| done].
  assert (C : bd_cfg (snd (Budget_take (budget t) (Z.of_nat (length new)) now)) = bd_cfg (budget t))
    by (unfold Budget_take; now destruct (_ >? _)).
  destruct (Budget_take _ _ _) as [[] b]; cbn [snd] in C; [rewrite <- C in He; done |].
  rewrite C, He. cbn [budget]. now rewrite C.
Qed.

(** An upload budget that is only observed never alters the stream: exactly the bytes the client
    sent are forwarded, whatever the budget says. *)
Theorem observed_upload_transparent (t : Monitored) (polls : list (Poll (list Z) * Instant)) :
  enforce (bd_cfg (budget t)) = false -> fst (monitored_run t polls) = inner_data polls.
Proof.
  revert t. induction polls as [| [inner now] polls IH]; intros t He; [done |].
  cbn [monitored_run inner_data]. pose proof (monitored_observe_step t inner [] now He) as S.
  destruct (Monitored_poll_read t inner [] now) as [[res buf] t1]. destruct S as [He1 S].
  specialize (IH t1 He1). destruct (monitored_run t1 polls) as [f t2]. cbn [fst] in IH. subst f.
  destruct inner as [| new | e]; destruct S as [-> ->]; done.
Qed.

(** ** Guarded writes *)

(** The checks of a sequence of polls, up to the first timeout. *)
Fixpoint guard_run (g : Guarded) (polls : list (Poll Z * Instant)) : Guarded :=
  match polls with
  | [] => g
  | (r, now) :: rest => guard_run (snd (Guarded_check g r now)) rest
  end.

(** Since when the stream has been blocked after a sequence of polls. *)
Fixpoint blocked_since (since : option Instant) (polls : list (Poll Z * Instant)) : option Instant :=
  match polls with
  | [] => since
  | (Pending, now) :: rest => blocked_since (Some (default now since)) rest
  | (_, _) :: rest => blocked_since None rest
  end.

Lemma guard_run_timer (g : Guarded) (since : option Instant) (polls : list (Poll Z * Instant)) :
  stall_ms g <> 0 -> timer g = (fun t => t + from_millis (stall_ms g)) <$> since ->
  stall_ms (guard_run g polls) = stall_ms g /\
  timer (guard_run g polls) = (fun t => t + from_millis (stall_ms g)) <$> blocked_since since polls.
Proof.
  intros Hs. revert g since Hs. induction polls as [| [r now] polls IH]; intros g since Hs Ht; [done |].
  cbn [guard_run blocked_since].
  assert (X : let g' := snd (Guarded_check g r now) in
    stall_ms g' = stall_ms g /\
    timer g' = (fun t => t + from_millis (stall_ms g)) <$>
      (match r with Pending => Some (default now since) | _ => None end)).
  { unfold Guarded_check. destruct r; [| done | done].
    destruct (Z.eqb_spec (stall_ms g) 0); [done |]. rewrite Ht.
    destruct since as [t |]; cbn; (destruct (_ <=? now); done). }
  cbv zeta in X. destruct X as [X1 X2]. rewrite <- X1 in Hs, X2 |- *.
  specialize (IH _ _ Hs X2). destruct r; exact IH.
Qed.

(** A relay write is timed out exactly when it has been blocked without interruption for the
    configured time: after any sequence of polls a further blocked poll at [now] fails if and only
    if the stream has been blocked since an instant at least [stall_ms] earlier; any completed
    operation restarts the measurement, and a zero setting disables it. *)
Theorem stall_deadline_exact (g : Guarded) (polls : list (Poll Z * Instant)) (now : Instant) :
  timer g = None -> 0 <= stall_ms g ->
  fst (Guarded_check (A := Z) (guard_run g polls) Pending now) = ReadyErr TimedOutKind <->
  stall_ms g <> 0 /\ default now (blocked_since None polls) + from_millis (stall_ms g) <= now.
Proof.
  intros Ht Hs. destruct (Z.eq_dec (stall_ms g) 0) as [E | E].
  - assert (S : forall ps g, stall_ms g = 0 -> stall_ms (guard_run g ps) = 0).
    { clear. induction ps as [| [r now] ps IH]; intros g H; [done |]. cbn. apply IH.
      unfold Guarded_check. destruct r; [| done | done]. rewrite H. cbn. done. }
    unfold Guarded_check. rewrite S by done. cbn. split; [done | tauto].
  - destruct (guard_run_timer g None polls E) as [T1 T2]; [now rewrite Ht |].
    unfold Guarded_check. rewrite T1, T2. destruct (Z.eqb_spec (stall_ms g) 0); [done |].
    assert (D : default (now + from_millis (stall_ms g))
        ((fun t => t + from_millis (stall_ms g)) <$> blocked_since None polls) =
      default now (blocked_since None polls) + from_millis (stall_ms g))
      by now destruct (blocked_since None polls).
    rewrite D. destruct (Z.leb_spec (default now (blocked_since None polls) + from_millis (stall_ms g)) now);
      cbn [fst]; split; try done; intros [_ ?]; lia.
Qed.

(** ** Client idleness *)

(** The idle deadline only fires for an idle client: when the check succeeds at [now], the last
    recorded activity lies at least [ms] whole milliseconds back; and at the instant the task sleeps
    until, it succeeds unless there was activity in between. *)
Theorem idle_deadline (a : Activity) (ms : Z) (t now : Instant) :
  ac_start a <= t -> 0 < ms -> as_millis (t - ac_start a) + ms < 2 ^ 64 ->
  let a' := Activity_touch a t in
  (Activity_expired a' ms now = true -> t + from_millis ms - 1000000 < now) /\
  (Activity_wake a' ms <= now -> Activity_expired a' ms now = true).
Proof.
  intros Ht Hms H64. unfold Activity_expired, Activity_wake, Activity_touch. cbn [ac_start last_ms].
  unfold as_millis, from_millis, saturating_add, u64_max in *. rewrite Z.geb_leb, Z.leb_le.
  set (x := t - ac_start a) in *. set (y := now - ac_start a).
  assert (0 <= x / 1000000) by (apply Z.div_pos; lia).
  rewrite !Z.min_l by lia.
  pose proof (Z.div_mod x 1000000 ltac:(lia)). pose proof (Z.mod_pos_bound x 1000000 ltac:(lia)).
  pose proof (Z.div_mod y 1000000 ltac:(lia)). pose proof (Z.mod_pos_bound y 1000000 ltac:(lia)).
  split; [lia |]. intros W. apply Z.div_le_lower_bound; lia.
Qed.

(** ** Instances *)

Definition sample_upload (e : bool) : Upload := mkUpload 100 10 e.
Definition sample_monitor (e : bool) : Monitored :=
  mkMonitored (Budget_new (sample_upload e) 0) Metrics_new false.
Definition sample_polls : list (Poll (list Z) * Instant) :=
  [(ReadyOk [1; 2; 3; 4; 5; 6], 0); (Pending, 1000); (ReadyOk [7; 8; 9; 10; 11], 2000)].

(** The second chunk exceeds the burst: only the first is forwarded. *)
Lemma upload_rate_bound_witness :
  Z.of_nat (length (fst (monitored_run (sample_monitor true) sample_polls))) * SECOND <=
  10 * SECOND + 100 * (2000 - 0).
Proof.
  exact (proj2 (upload_rate_bound (sample_monitor true) sample_polls
    ltac:(unfold upload_ok; cbn; lia) (Budget_new_ok (sample_upload true) 0 ltac:(unfold upload_ok; cbn; lia)) eq_refl)).
Defined.

Lemma observed_upload_transparent_witness :
  fst (monitored_run (sample_monitor false) sample_polls) = [1; 2; 3; 4; 5; 6; 7; 8; 9; 10; 11].
Proof. exact (observed_upload_transparent (sample_monitor false) sample_polls eq_refl). Defined.

Definition sample_guard : Guarded := mkGuarded 30 None Metrics_new.

(** Blocked at 1 s, completed at 1.02 s, blocked again from 1.03 s: at 1.06 s the deadline is due. *)
Lemma stall_deadline_exact_witness :
  fst (Guarded_check (A := Z) (guard_run sample_guard
    [(Pending, from_millis 1000); (ReadyOk 5, from_millis 1020); (Pending, from_millis 1030)])
    Pending (from_millis 1060)) = ReadyErr TimedOutKind.
Proof.
  apply (stall_deadline_exact sample_guard _ (from_millis 1060) eq_refl ltac:(cbn; lia)).
  split; [discriminate |]. vm_compute. discriminate.
Defined.

Lemma idle_deadline_witness :
  Activity_expired (Activity_touch (Activity_new 0) (from_millis 20)) 50 (from_millis 70) = true.
Proof.
  refine (proj2 (idle_deadline (Activity_new 0) 50 (from_millis 20) (from_millis 70) _ _ _) _);
    vm_compute; first [reflexivity | discriminate].
Defined.
