(* ===== verification/RelayCopy.v ===== *)
(** * The relay's streams ([gate/src/relay.rs], [copy] and [protected_copy])

    What the byte-copy loop of the library sees of the two sockets: the client through [Monitored],
    when an upload budget is configured, over [Guarded], when any deadline is; the server through
    [Guarded]; and the deadlines of [protected_copy] beside it. The loop may poll either stream in
    any order and as often as it likes, so that what is proved here does not depend on it. *)
From S2P Require Import Prelude Machine Float64 Metrics Config Relay.
From stdpp Require Import base option list relations.
From Stdlib Require Import ZArith Lia.
Local Open Scope Z_scope.

(** ** Streams *)

Inductive Side : Type := ClientSide | ServerSide.

(** The adapters around the sockets, the registry they share, and what the relay waits for. *)
Record Relay : Type := mkRelay {
  r_metrics : Metrics; r_monitor : option Monitored;
  r_client : option Guarded; r_server : option Guarded; r_wait : RelayWait }.

(** A poll of a stream by the copy loop, with the outcome of the socket's own poll; the end of the
    transfer; and the two timers of [protected_copy]. *)
Inductive RelayPoll : Type :=
| PollRead (d : Side) (inner : Poll (list Z)) (space : Z)
| PollWrite (d : Side) (inner : Poll Z)
| PollFlush (d : Side) (inner : Poll unit)
| PollShutdown (d : Side) (inner : Poll unit)
| PollTransfer (ok : bool)
| PollHalfClose
| PollIdle.

(** What the copy loop is told, or how the relay ended. *)
Inductive RelayAnswer : Type :=
| Data (d : Side) (p : Poll (list Z))
| Count (p : Poll Z)
| Done (p : Poll unit)
| Ended (e : RelayEnd).

Definition guard_of (r : Relay) (d : Side) : option Guarded :=
  match d with ClientSide => r_client r | ServerSide => r_server r end.
Definition set_guard (r : Relay) (d : Side) (g : Guarded) : Relay :=
  match d with
  | ClientSide => mkRelay (g_metrics g) (r_monitor r) (Some g) (r_server r) (r_wait r)
  | ServerSide => mkRelay (g_metrics g) (r_monitor r) (r_client r) (Some g) (r_wait r)
  end.
Definition set_monitor (r : Relay) (t : Monitored) : Relay :=
  mkRelay (m_metrics t) (Some t) (r_client r) (r_server r) (r_wait r).

(** The adapters use the shared registry. *)
Definition guarded (r : Relay) (g : Guarded) : Guarded := mkGuarded (stall_ms g) (timer g) (r_metrics r).
Definition monitored (r : Relay) (t : Monitored) : Monitored := mkMonitored (budget t) (r_metrics r) (flagged t).

Section Relay.
Context (cfg : Upload) (stall half_close_ms client_idle_ms : Z).

(** What [protected_copy] and [copy] build around the sockets. *)
Definition unprotected : bool := (stall =? 0) && (half_close_ms =? 0) && (client_idle_ms =? 0).
Definition copy_monitor (m : Metrics) (now : Instant) : option Monitored :=
  if bytes_per_second cfg =? 0 then None else Some (mkMonitored (Budget_new cfg now) m false).
Definition relay_init (m : Metrics) (now : Instant) : Relay :=
  let g := if unprotected then None else Some (mkGuarded stall None m) in
  mkRelay m (copy_monitor m now) g g (relay_start now).

(** [protected_copy] notices [w]. *)
Definition notice (b : bool) (w : Wake) (now : Instant) (s : RelayWait) : RelayWait :=
  if b then match protected_wake half_close_ms client_idle_ms s w now with inr s => s | inl _ => s end else s.

(** [poll_read]: the guard notices the end of the stream and, for the client, activity; the monitor
    accounts the data. *)
Definition stream_read (r : Relay) (d : Side) (inner : Poll (list Z)) (space : Z) (now : Instant) : Poll (list Z) * Relay :=
  let '(eof, active) := match guard_of r d with Some _ => Guarded_poll_read inner space | None => (false, false) end in
  let active := match d with ClientSide => active | ServerSide => false end in
  let r := mkRelay (r_metrics r) (r_monitor r) (r_client r) (r_server r)
    (notice active ClientData now (notice eof EofNotified now (r_wait r))) in
  match d, r_monitor r with
  | ClientSide, Some t =>
    match Monitored_poll_read (monitored r t) inner [] now with
    | (ReadyOk _, buf, t) => (ReadyOk buf, set_monitor r t)
    | (Pending, _, t) => (Pending, set_monitor r t)
    | (ReadyErr e, _, t) => (ReadyErr e, set_monitor r t)
    end
  | _, _ => (inner, r)
  end.

(** [poll_write], [poll_flush] and [poll_shutdown] go through the guard; a write to the client is
    then counted by the monitor. *)
Definition stream_check {A : Type} (check : Guarded -> Poll A -> Instant -> Poll A * Guarded)
  (r : Relay) (d : Side) (inner : Poll A) (now : Instant) : Poll A * Relay :=
  match guard_of r d with
  | Some g => let '(p, g) := check (guarded r g) inner now in (p, set_guard r d g)
  | None => (inner, r)
  end.
Definition stream_write (r : Relay) (d : Side) (inner : Poll Z) (now : Instant) : Poll Z * Relay :=
  let '(p, r) := stream_check Guarded_poll_write r d inner now in
  match d, r_monitor r with
  | ClientSide, Some t => let '(p, t) := Monitored_poll_write (monitored r t) p in (p, set_monitor r t)
  | _, _ => (p, r)
  end.

Definition stream_flush := stream_check Guarded_poll_flush.
Definition stream_shutdown := stream_check Guarded_poll_shutdown.

Definition relay_end (r : Relay) (w : Wake) (now : Instant) : option RelayEnd :=
  match protected_wake half_close_ms client_idle_ms (r_wait r) w now with inl e => Some e | inr _ => None end.

Definition relay_poll (r : Relay) (p : RelayPoll) (now : Instant) : RelayAnswer * Relay :=
  let wake w :=
    match relay_end r w now with
    | Some e => (Ended e, mkRelay (relay_end_metrics e (r_metrics r)) (r_monitor r) (r_client r) (r_server r) (r_wait r))
    | None => (Done Pending, r)
    end in
  match p with
  | PollRead d inner space => let '(x, r) := stream_read r d inner space now in (Data d x, r)
  | PollWrite d inner => let '(x, r) := stream_write r d inner now in (Count x, r)
  | PollFlush d inner => let '(x, r) := stream_flush r d inner now in (Done x, r)
  | PollShutdown d inner => let '(x, r) := stream_shutdown r d inner now in (Done x, r)
  | PollTransfer ok => wake (TransferDone ok)
  | PollHalfClose => wake HalfCloseTimer
  | PollIdle => wake IdleTimer
  end.

(** The answers to a sequence of polls, up to the end of the relay, and the state after them. *)
Fixpoint relay_run (r : Relay) (ps : list (RelayPoll * Instant)) : list RelayAnswer * Relay :=
  match ps with
  | [] => ([], r)
  | (p, now) :: ps =>
    match relay_poll r p now with
    | (Ended e, r) => ([Ended e], r)
    | (a, r) => let '(l, r) := relay_run r ps in (a :: l, r)
    end
  end.
End Relay.

(** ** The registry *)

Lemma stream_check_counts {A : Type} (m : Metrics) (r : Relay) (d : Side) (inner : Poll A) (now : Instant) :
  counts m (r_metrics r) -> counts m (r_metrics (snd (stream_check Guarded_check r d inner now))).
Proof.
  intros C. unfold stream_check. destruct (guard_of r d) as [g |]; [| done].
  pose proof (Guarded_check_counts m (guarded r g) inner now C) as K. destruct (Guarded_check _ _ _) as [x g'].
  now destruct d.
Qed.

(** Every poll only adds to the relay's own counters; this is what the whole gate allows a relay to do
    to the shared registry. *)
Lemma relay_poll_counts (hc ci : Z) (r : Relay) (p : RelayPoll) (now : Instant) :
  counts (r_metrics r) (r_metrics (snd (relay_poll hc ci r p now))).
Proof.
  set (m := r_metrics r). assert (C : counts m (r_metrics r)) by apply rtc_refl.
  assert (T : forall w, counts m (r_metrics (snd (match relay_end hc ci r w now with
    | Some e => (Ended e, mkRelay (relay_end_metrics e (r_metrics r)) (r_monitor r) (r_client r) (r_server r) (r_wait r))
    | None => (Done Pending, r) end)))).
  { intros w. destruct (relay_end _ _ _ _ _) as [e |]; [apply relay_end_counts, C | exact C]. }
  destruct p as [d inner space | d inner | d inner | d inner | ok | |]; cbn [relay_poll]; try apply T.
  - unfold stream_read. destruct (match guard_of r d with Some _ => _ | None => _ end) as [eof active].
    destruct d; cbn [r_monitor]; [| exact C]. destruct (r_monitor r) as [t |]; [| exact C].
    pose proof (Monitored_poll_read_counts m (mkMonitored (budget t) (r_metrics r) (flagged t)) inner [] now C) as K.
    unfold monitored. cbn [r_metrics]. destruct (Monitored_poll_read _ _ _ _) as [[[] buf] t']; exact K.
  - unfold stream_write. change Guarded_poll_write with (@Guarded_check Z).
    pose proof (stream_check_counts m r d inner now C) as K. destruct (stream_check _ _ _ _ _) as [x r1]. cbn [snd] in K.
    destruct d; [| exact K]. destruct (r_monitor r1) as [t |]; [| exact K].
    pose proof (Monitored_poll_write_counts m (monitored r1 t) x K) as W. now destruct (Monitored_poll_write _ _).
  - change stream_flush with (stream_check (@Guarded_check unit)). pose proof (stream_check_counts m r d inner now C) as K.
    now destruct (stream_check _ _ _ _ _).
  - change stream_shutdown with (stream_check (@Guarded_check unit)). pose proof (stream_check_counts m r d inner now C) as K.
    now destruct (stream_check _ _ _ _ _).
Qed.

(** ** What is forwarded *)

#[export] Instance Side_eq_dec : EqDecision Side.
Proof. solve_decision. Defined.

(** The data the socket of side [d] delivers in a poll, and the data an answer hands to the copy loop. *)
Definition delivered (d : Side) (x : RelayPoll * Instant) : list Z :=
  match fst x with PollRead d' (ReadyOk bs) _ => if decide (d' = d) then bs else [] | _ => [] end.
Definition handed (d : Side) (a : RelayAnswer) : list Z :=
  match a with Data d' (ReadyOk bs) => if decide (d' = d) then bs else [] | _ => [] end.

Definition budget_of (r : Relay) : option Budget := budget <$> r_monitor r.

Section Forwarding.
Context (hc ci : Z).
Abbreviation poll := (relay_poll hc ci).

(** Only the client's reads touch the budget. *)
Definition client_read (p : RelayPoll) : option (Poll (list Z)) :=
  match p with PollRead ClientSide inner _ => Some inner | _ => None end.

Lemma set_guard_budget (r : Relay) (d : Side) (g : Guarded) : budget_of (set_guard r d g) = budget_of r.
Proof. now destruct d. Qed.

Lemma stream_check_budget {A : Type} (check : Guarded -> Poll A -> Instant -> Poll A * Guarded)
  (r : Relay) (d : Side) (inner : Poll A) (now : Instant) :
  budget_of (snd (stream_check check r d inner now)) = budget_of r.
Proof.
  unfold stream_check. destruct (guard_of r d) as [g |]; [| done].
  destruct (check _ _ _). apply set_guard_budget.
Qed.

Lemma Monitored_poll_write_budget (t : Monitored) (inner : Poll Z) : budget (snd (Monitored_poll_write t inner)) = budget t.
Proof. now destruct inner. Qed.

Lemma relay_poll_other (r : Relay) (p : RelayPoll) (now : Instant) :
  client_read p = None -> budget_of (snd (poll r p now)) = budget_of r /\ handed ClientSide (fst (poll r p now)) = [] /\
    delivered ClientSide (p, now) = [].
Proof.
  destruct p as [[] inner space | d inner | d inner | d inner | ok | |]; cbn [client_read]; try done; intros _;
    unfold relay_poll.
  - cbn [fst snd]. unfold stream_read. destruct (guard_of r ServerSide); [destruct (Guarded_poll_read inner space) |];
      (split_and!; [done | now destruct inner | now destruct inner]).
  - unfold stream_write. pose proof (stream_check_budget Guarded_poll_write r d inner now) as E.
    destruct (stream_check _ _ _ _ _) as [x r1]. cbn [snd] in E. unfold budget_of in *.
    destruct d; [| now cbn [snd]]. destruct (r_monitor r1) as [t |] eqn:M; [| cbn [snd fst]; rewrite <- E, M; done].
    pose proof (Monitored_poll_write_budget (monitored r1 t) x) as B. destruct (Monitored_poll_write _ _) as [y t'].
    cbn in *. now rewrite B, <- E.
  - unfold stream_flush. pose proof (stream_check_budget Guarded_poll_flush r d inner now) as E. now destruct (stream_check _ _ _ _ _).
  - unfold stream_shutdown. pose proof (stream_check_budget Guarded_poll_shutdown r d inner now) as E. now destruct (stream_check _ _ _ _ _).
  - now destruct (relay_end _ _ _ _ _).
  - now destruct (relay_end _ _ _ _ _).
Qed.

(** What the server sends is never altered. *)
Lemma relay_poll_server (r : Relay) (p : RelayPoll) (now : Instant) :
  handed ServerSide (fst (poll r p now)) = delivered ServerSide (p, now).
Proof.
  destruct p as [d inner space | d inner | d inner | d inner | ok | |]; unfold relay_poll, delivered; cbn [fst].
  - unfold stream_read. destruct (match guard_of r d with Some _ => _ | None => _ end) as [eof active].
    destruct d; cbn [r_monitor]; [| now destruct inner].
    destruct (r_monitor r) as [t |]; [| now destruct inner].
    destruct (Monitored_poll_read _ _ _ _) as [[[] buf] t']; destruct inner; reflexivity.
  - now destruct (stream_write _ _ _ _).
  - now destruct (stream_flush _ _ _ _).
  - now destruct (stream_shutdown _ _ _ _).
  - now destruct (relay_end _ _ _ _ _).
  - now destruct (relay_end _ _ _ _ _).
  - now destruct (relay_end _ _ _ _ _).
Qed.

(** A read of the client is that of the monitor, when there is one. *)
Lemma relay_poll_client (r : Relay) (inner : Poll (list Z)) (space : Z) (now : Instant) :
  exists m, let '(a, r') := poll r (PollRead ClientSide inner space) now in
  match r_monitor r with
  | None => a = Data ClientSide inner /\ r_monitor r' = None
  | Some t => exists res buf t', Monitored_poll_read (mkMonitored (budget t) m (flagged t)) inner [] now = (res, buf, t') /\
      r_monitor r' = Some t' /\
      a = Data ClientSide (match res with Pending => Pending | ReadyOk _ => ReadyOk buf | ReadyErr e => ReadyErr e end)
  end.
Proof.
  exists (r_metrics r). unfold relay_poll, stream_read.
  destruct (match guard_of r ClientSide with Some _ => _ | None => _ end) as [eof active]. cbn [r_monitor].
  destruct (r_monitor r) as [t |] eqn:M; [| done]. unfold monitored. cbn [r_metrics].
  destruct (Monitored_poll_read _ _ _ _) as [[[] buf] t']; eauto 10.
Qed.
Abbreviation run := (relay_run hc ci).

Definition sent (d : Side) (ps : list (RelayPoll * Instant)) : list Z := flat_map (delivered d) ps.
Definition got (d : Side) (l : list RelayAnswer) : list Z := flat_map (handed d) l.

Lemma got_cons (d : Side) (a : RelayAnswer) (l : list RelayAnswer) : got d (a :: l) = handed d a ++ got d l.
Proof. reflexivity. Qed.
Lemma sent_cons (d : Side) (x : RelayPoll * Instant) (ps : list (RelayPoll * Instant)) : sent d (x :: ps) = delivered d x ++ sent d ps.
Proof. reflexivity. Qed.

(** A run answers the polls up to its end, one after the other. *)
Lemma relay_run_ind (P : Relay -> list (RelayPoll * Instant) -> list RelayAnswer -> Prop) :
  (forall r, P r [] []) ->
  (forall r p now ps l, P (snd (poll r p now)) ps l -> P r ((p, now) :: ps) (fst (poll r p now) :: l)) ->
  forall ps r, P r (take (length (fst (run r ps))) ps) (fst (run r ps)).
Proof.
  intros B S. induction ps as [| [p now] ps IH]; intros r; cbn [relay_run]; [apply B |].
  specialize (S r p now). destruct (poll r p now) as [a r1]. cbn [fst snd] in S. specialize (IH r1).
  destruct (run r1 ps) as [l r2]. destruct a; cbn [fst length take] in *; now apply S.
Qed.

Lemma got_server (r : Relay) (ps : list (RelayPoll * Instant)) :
  let l := fst (run r ps) in got ServerSide l = sent ServerSide (take (length l) ps).
Proof.
  cbv zeta. apply (relay_run_ind (fun r ps l => got ServerSide l = sent ServerSide ps)); [done |].
  intros r' p now ps' l IH. rewrite got_cons, sent_cons. now rewrite relay_poll_server, <- IH.
Qed.

(** Without a budget, or with one that is only observed, the client's data is not altered. *)
Definition unlimited (o : option Budget) : Prop := forall b, o = Some b -> enforce (bd_cfg b) = false.

Lemma unlimited_step (r : Relay) (p : RelayPoll) (now : Instant) :
  unlimited (budget_of r) ->
  unlimited (budget_of (snd (poll r p now))) /\ handed ClientSide (fst (poll r p now)) = delivered ClientSide (p, now).
Proof.
  intros U. destruct (client_read p) as [i |] eqn:C.
  - destruct p as [[] inner space | | | | | |]; try discriminate. clear C i.
    destruct (relay_poll_client r inner space now) as [m X].
    destruct (poll r _ now) as [a r1]. unfold unlimited, budget_of in *. cbn [fst snd]. destruct (r_monitor r) as [t |].
    + destruct X as (res & buf & t' & E & M & ->). rewrite M. cbn [fst snd fmap option_fmap option_map].
      pose proof (monitored_observe_step (mkMonitored (budget t) m (flagged t)) inner [] now (U _ eq_refl)) as O.
      rewrite E in O. destruct O as [O1 O2]. split; [now intros b [= <-] |].
      destruct inner; destruct O2 as [-> ->]; reflexivity.
    + destruct X as [-> M]. rewrite M. split; [done |]. now destruct inner.
  - destruct (relay_poll_other r p now C) as (E & -> & ->). now rewrite E.
Qed.

Lemma got_unlimited (r : Relay) (ps : list (RelayPoll * Instant)) :
  unlimited (budget_of r) -> let l := fst (run r ps) in got ClientSide l = sent ClientSide (take (length l) ps).
Proof.
  revert r. intros r. cbv zeta.
  apply (relay_run_ind (fun r ps l => unlimited (budget_of r) -> got ClientSide l = sent ClientSide ps)); [done |].
  intros r' p now ps' l IH U. destruct (unlimited_step r' p now U) as [U' E]. rewrite got_cons, sent_cons.
  rewrite E. f_equal. now apply IH.
Qed.

(** With an enforced one, data is dropped but never invented, and what is kept is paid for. *)
Lemma limited_step (cfg : Upload) (r : Relay) (p : RelayPoll) (now : Instant) (b : Budget) :
  upload_ok cfg -> enforce cfg = true -> budget_of r = Some b -> bd_cfg b = cfg -> credit_ok b ->
  handed ClientSide (fst (poll r p now)) `sublist_of` delivered ClientSide (p, now) /\
  exists b', budget_of (snd (poll r p now)) = Some b' /\ bd_cfg b' = cfg /\ credit_ok b' /\
    bd_last b <= bd_last b' <= Z.max (bd_last b) now /\
    credit b' + Z.of_nat (length (handed ClientSide (fst (poll r p now)))) * SECOND <=
      credit b + bytes_per_second cfg * (bd_last b' - bd_last b).
Proof.
  intros Hu He Hb Hc Hk. destruct (client_read p) as [i |] eqn:C.
  - destruct p as [[] inner space | | | | | |]; try discriminate. clear C i.
    destruct (relay_poll_client r inner space now) as [m X].
    destruct (poll r _ now) as [a r1]. unfold budget_of in *. cbn [fst snd]. destruct (r_monitor r) as [t |]; [| discriminate].
    injection Hb as <-. destruct X as (res & buf & t' & E & M & ->). rewrite M. cbn [fst snd fmap option_fmap option_map].
    rewrite <- Hc in Hu, He.
    pose proof (monitored_step (mkMonitored (budget t) m (flagged t)) inner [] now Hu Hk He) as S.
    rewrite E in S. destruct S as (kept & -> & Sk & S1 & S2 & S3 & S4). cbn [app budget] in *.
    assert (D : delivered ClientSide (PollRead ClientSide inner space, now) = poll_data inner) by now destruct inner.
    rewrite D, <- Hc. unfold SECOND in *. destruct Hu as [Hr _]. split.
    + destruct res; [apply sublist_nil_l | exact Sk | apply sublist_nil_l].
    + exists (budget t'). split_and!; auto; try lia. destruct res; cbn [handed]; [cbn [length]; lia | exact S4 | cbn [length]; lia].
  - destruct (relay_poll_other r p now C) as (E & -> & ->). rewrite E. split; [apply sublist_nil_l |].
    exists b. cbn [length]. split_and!; auto; lia.
Qed.

Lemma got_limited (cfg : Upload) (r : Relay) (ps : list (RelayPoll * Instant)) (b : Budget) (until : Instant) :
  upload_ok cfg -> enforce cfg = true -> budget_of r = Some b -> bd_cfg b = cfg -> credit_ok b ->
  let l := fst (run r ps) in
  got ClientSide l `sublist_of` sent ClientSide (take (length l) ps) /\
  (bd_last b <= until -> Forall (fun x => snd x <= until) ps ->
     Z.of_nat (length (got ClientSide l)) * SECOND <= credit b + bytes_per_second cfg * (until - bd_last b)).
Proof.
  intros Hu He. revert b. cbv zeta.
  set (P := fun r (ps : list (RelayPoll * Instant)) l => forall b, budget_of r = Some b -> bd_cfg b = cfg -> credit_ok b ->
    got ClientSide l `sublist_of` sent ClientSide ps /\
    (bd_last b <= until -> Forall (fun x => snd x <= until) ps ->
       Z.of_nat (length (got ClientSide l)) * SECOND <= credit b + bytes_per_second cfg * (until - bd_last b))).
  assert (G : P r (take (length (fst (run r ps))) ps) (fst (run r ps))).
  { apply (relay_run_ind P); unfold P.
    - intros r' b _ _ [Hk _]. split; [done |]. intros Hl _. destruct Hu as [Hr _]. cbn [got flat_map length].
      unfold SECOND in *. nia.
    - intros r' p now ps' l IH b Hb Hc Hk. rewrite got_cons, sent_cons.
      destruct (limited_step cfg r' p now b Hu He Hb Hc Hk) as (Sk & b' & Hb' & Hc' & Hk' & Hl & S).
      destruct (IH b' Hb' Hc' Hk') as [I1 I2]. split; [now apply sublist_app |].
      intros Ht F. apply Forall_cons in F as [Hn F]. cbn [snd] in Hn. specialize (I2 ltac:(lia) F).
   rewrite length_app. unfold SECOND in *. lia. }
  intros b Hb Hc Hk. destruct (G b Hb Hc Hk) as [G1 G2]. split; [done |]. intros Ht F. apply G2; [done |].
  now apply Forall_take.
Qed.
End Forwarding.

(** C28: The upload budget, whatever the copy loop does. However the loop polls the two streams and
    whatever the sockets deliver: the server's bytes reach the client unaltered; without an enforced
    budget so do the client's bytes; with one, what is forwarded is what the client sent with some
    chunks left out, and at every moment at most the burst plus the rate times the time since the
    relay began. *)
Theorem relay_upload_exact (cfg : Upload) (stall hc ci : Z) (m : Metrics) (start : Instant) (ps : list (RelayPoll * Instant)) :
  upload_ok cfg ->
  let l := fst (relay_run hc ci (relay_init cfg stall hc ci m start) ps) in
  let polled := take (length l) ps in
  got ServerSide l = sent ServerSide polled /\
  got ClientSide l `sublist_of` sent ClientSide polled /\
  (enforce cfg = false \/ bytes_per_second cfg = 0 -> got ClientSide l = sent ClientSide polled) /\
  (enforce cfg = true -> bytes_per_second cfg <> 0 -> forall until,
     start <= until -> Forall (fun x => snd x <= until) ps ->
     Z.of_nat (length (got ClientSide l)) * SECOND <= burst_bytes cfg * SECOND + bytes_per_second cfg * (until - start)).
Proof.
  intros Hu. set (r := relay_init cfg stall hc ci m start). cbv zeta.
  assert (B : budget_of r = if bytes_per_second cfg =? 0 then None else Some (Budget_new cfg start))
    by (unfold r, relay_init, copy_monitor, budget_of; cbn [r_monitor]; now destruct (_ =? 0)).
  assert (U : enforce cfg = false \/ bytes_per_second cfg = 0 -> unlimited (budget_of r)).
  { rewrite B. intros D b. destruct (Z.eqb_spec (bytes_per_second cfg) 0); [done |]. intros [= <-]. cbn. now destruct D. }
  split; [apply got_server |]. split; [| split].
  - destruct (Z.eq_dec (bytes_per_second cfg) 0) as [Z | Z]; [rewrite got_unlimited by auto; done |].
    destruct (enforce cfg) eqn:E; [| rewrite got_unlimited by auto; done].
    destruct (Z.eqb_spec (bytes_per_second cfg) 0) in B; [done |].
    eapply (got_limited hc ci cfg r ps _ 0 Hu E B eq_refl). now apply Budget_new_ok.
  - intros D. apply got_unlimited; auto.
  - intros E Z until Ht F. destruct (Z.eqb_spec (bytes_per_second cfg) 0) in B; [done |].
    destruct (got_limited hc ci cfg r ps _ until Hu E B eq_refl (Budget_new_ok cfg start Hu)) as [_ G].
    exact (G Ht F).
Qed.

(** ** Deadlines *)

(** The end of a stream is seen, the client has sent something, and the outcome of an operation that
    side [d]'s guard checks. *)
Definition eof_seen (x : RelayPoll * Instant) : list Instant :=
  match x with (PollRead _ (ReadyOk []) space, t) => if 0 <? space then [t] else [] | _ => [] end.
Definition client_data (x : RelayPoll * Instant) : list Instant :=
  match x with (PollRead ClientSide (ReadyOk (_ :: _)) _, t) => [t] | _ => [] end.
Definition poll_map {A B : Type} (f : A -> B) (p : Poll A) : Poll B :=
  match p with Pending => Pending | ReadyOk a => ReadyOk (f a) | ReadyErr e => ReadyErr e end.
Definition checked (d : Side) (x : RelayPoll * Instant) : list (Poll Z * Instant) :=
  let on (d' : Side) (p : Poll Z) := if decide (d' = d) then [(p, snd x)] else [] in
  match fst x with
  | PollWrite d' p => on d' p
  | PollFlush d' p | PollShutdown d' p => on d' (poll_map (fun _ => 0) p)
  | _ => []
  end.

(** Since when operations on side [d] have been blocked without interruption. *)
Definition blocked (d : Side) (ps : list (RelayPoll * Instant)) : option Instant :=
  blocked_since None (flat_map (checked d) ps).

Lemma blocked_since_app (since : option Instant) (a b : list (Poll Z * Instant)) :
  blocked_since since (a ++ b) = blocked_since (blocked_since since a) b.
Proof. revert since. induction a as [| [[| |] t] a IH]; intros since; cbn [app blocked_since]; auto. Qed.

Section Deadlines.
Context (cfg : Upload) (stall hc ci : Z) (start : Instant).
Context (Hhc : 0 <= hc).

(** The guard of a stream after the polls [h]. *)
Definition guard_ok (h : list (RelayPoll * Instant)) (d : Side) (o : option Guarded) : Prop :=
  match o with
  | None => unprotected stall hc ci = true
  | Some g => stall_ms g = stall /\ (stall <> 0 -> timer g = (fun t => t + from_millis stall) <$> blocked d h)
  end.

Definition last_data (h : list (RelayPoll * Instant)) : Instant := default start (last (flat_map client_data h)).

Definition wait_ok (h : list (RelayPoll * Instant)) (s : RelayWait) : Prop :=
  rw_close s = (if 0 <? hc then (fun t => t + from_millis hc) <$> head (flat_map eof_seen h) else None) /\
  ac_start (rw_activity s) = start /\
  (0 < ci -> last_ms (rw_activity s) = as_millis (last_data h - start)).

Record relay_ok (h : list (RelayPoll * Instant)) (r : Relay) : Prop := {
  ro_wait : wait_ok h (r_wait r);
  ro_guards : forall d, guard_ok h d (guard_of r d) }.

(** An instant at which the relay runs: its milliseconds since the start fit into 64 bits. *)
Definition in_time (t : Instant) : Prop := start <= t /\ as_millis (t - start) < 2 ^ 64.

Lemma relay_init_ok (m : Metrics) : relay_ok [] (relay_init cfg stall hc ci m start).
Proof.
  split.
  - unfold wait_ok, last_data. cbn. rewrite Z.sub_diag. now destruct (0 <? hc).
  - intros d. assert (G : guard_of (relay_init cfg stall hc ci m start) d =
      if unprotected stall hc ci then None else Some (mkGuarded stall None m)) by now destruct d.
    rewrite G. unfold guard_ok. now destruct (unprotected stall hc ci).
Qed.

Lemma flat_map_snoc {A B : Type} (f : A -> list B) (h : list A) (x : A) : flat_map f (h ++ [x]) = flat_map f h ++ f x.
Proof. rewrite flat_map_app. cbn. now rewrite app_nil_r. Qed.

(** A check moves the guard along. *)
Lemma Guarded_check_ok {A : Type} (f : A -> Z) (h : list (RelayPoll * Instant)) (x : RelayPoll * Instant) (d : Side)
  (g : Guarded) (inner : Poll A) (now : Instant) :
  guard_ok h d (Some g) -> checked d x = [(poll_map f inner, now)] ->
  guard_ok (h ++ [x]) d (Some (snd (Guarded_check g inner now))).
Proof.
  intros [Hs Ht] Hx. unfold guard_ok, blocked in *. rewrite flat_map_snoc, Hx, blocked_since_app.
  unfold Guarded_check. destruct inner; cbn [poll_map blocked_since snd]; try done.
  rewrite Hs. destruct (Z.eqb_spec stall 0) as [E | E]; [done |]. rewrite (Ht E).
  destruct (blocked_since None (flat_map (checked d) h)) as [t |]; cbn; (destruct (_ <=? now); done).
Qed.

Lemma guard_ok_keep (h : list (RelayPoll * Instant)) (x : RelayPoll * Instant) (d : Side) (o : option Guarded) :
  checked d x = [] -> guard_ok h d o -> guard_ok (h ++ [x]) d o.
Proof. intros Hx. unfold guard_ok, blocked. rewrite flat_map_snoc, Hx, app_nil_r. done. Qed.

Lemma wait_ok_keep (h : list (RelayPoll * Instant)) (x : RelayPoll * Instant) (s : RelayWait) :
  eof_seen x = [] -> client_data x = [] -> wait_ok h s -> wait_ok (h ++ [x]) s.
Proof. intros He Hc. unfold wait_ok, last_data. now rewrite !flat_map_snoc, He, Hc, !app_nil_r. Qed.
(** The two notices of a read. *)
Lemma notice_eof_ok (h : list (RelayPoll * Instant)) (x : RelayPoll * Instant) (s : RelayWait) (b : bool) (now : Instant) :
  eof_seen x = (if b then [now] else []) -> client_data x = [] -> wait_ok h s ->
  wait_ok (h ++ [x]) (notice hc ci b EofNotified now s).
Proof.
  intros He Hd (C & A & L). unfold wait_ok, last_data. rewrite !flat_map_snoc, He, Hd, !app_nil_r.
  destruct b; cbn [notice]; [| now rewrite app_nil_r].
  unfold protected_wake. rewrite C. destruct (Z.ltb_spec 0 hc) as [P | P].
  - destruct (flat_map eof_seen h) as [| t l]; cbn [head app fmap option_fmap option_map]; cbn; [split_and!; done |].
    rewrite C. split_and!; done.
  - cbn. rewrite C. split_and!; done.
Qed.

Lemma notice_data_ok (h : list (RelayPoll * Instant)) (x : RelayPoll * Instant) (s : RelayWait) (now : Instant) :
  eof_seen x = [] -> client_data x = [now] -> in_time now -> wait_ok h s ->
  wait_ok (h ++ [x]) (notice hc ci true ClientData now s).
Proof.
  intros He Hd [Hn H64] (C & A & L). unfold wait_ok, last_data. rewrite !flat_map_snoc, He, Hd, !app_nil_r, last_snoc.
  cbn [notice protected_wake]. destruct (Z.ltb_spec 0 ci); [| split_and!; [done | done | intros; lia]]. cbn [rw_close rw_activity].
  unfold Activity_touch. cbn [ac_start last_ms default]. rewrite A. unfold u64_max, id. split_and!; auto. intros _. lia.
Qed.

Lemma stream_read_wait (h : list (RelayPoll * Instant)) (r : Relay) (d : Side) (inner : Poll (list Z)) (space : Z) (now : Instant) :
  in_time now -> relay_ok h r ->
  wait_ok (h ++ [(PollRead d inner space, now)]) (r_wait (snd (stream_read hc ci r d inner space now))) /\
  forall d', guard_of (snd (stream_read hc ci r d inner space now)) d' = guard_of r d'.
Proof.
  intros Hn [W G]. specialize (G d). unfold stream_read.
  set (ea := match guard_of r d with Some _ => Guarded_poll_read inner space | None => (false, false) end).
  assert (E : wait_ok (h ++ [(PollRead d inner space, now)])
    (notice hc ci (match d with ClientSide => snd ea | ServerSide => false end) ClientData now
      (notice hc ci (fst ea) EofNotified now (r_wait r)))).
  { destruct (guard_of r d) as [g |]; subst ea.
    - destruct inner as [| new | e]; cbn [Guarded_poll_read fst snd notice]; try (destruct d; now apply wait_ok_keep).
      destruct new as [| b new]; cbn [length Nat.eqb Nat.ltb Nat.leb andb].
      + rewrite andb_true_r. replace (match d with ClientSide => false | ServerSide => false end) with false by now destruct d.
        now apply notice_eof_ok; [| destruct d |].
      + rewrite andb_false_r. destruct d; [now apply notice_data_ok | now apply wait_ok_keep].
    - unfold guard_ok, unprotected in G. breflect.
      cbn [fst snd]. replace (match d with ClientSide => false | ServerSide => false end) with false by now destruct d.
      cbn [notice]. unfold wait_ok in *. destruct W as (C & A & L). rewrite H1 in *. split_and!; auto; lia. }
  destruct ea as [eof active]. cbn [fst snd] in E.
  destruct d; cbn [r_monitor]; [| now split; [| intros []]].
  destruct (r_monitor r) as [t |]; [| now split; [| intros []]].
  destruct (Monitored_poll_read _ _ _ _) as [[[] buf] t']; (split; [exact E | now intros []]).
Qed.
(** Checked operations move the guard of their side and leave the rest. *)
Lemma stream_check_ok {A : Type} (f : A -> Z) (h : list (RelayPoll * Instant)) (p : RelayPoll) (r : Relay) (d : Side)
  (inner : Poll A) (now : Instant) :
  checked d (p, now) = [(poll_map f inner, now)] -> (forall d', d' <> d -> checked d' (p, now) = []) ->
  eof_seen (p, now) = [] -> client_data (p, now) = [] -> relay_ok h r ->
  relay_ok (h ++ [(p, now)]) (snd (stream_check Guarded_check r d inner now)).
Proof.
  intros Hd Ho He Hc [W G]. pose proof (G d) as Gd. unfold stream_check. destruct (guard_of r d) as [g |] eqn:Eg.
  - pose proof (Guarded_check_ok f h (p, now) d (guarded r g) inner now Gd Hd) as K.
    destruct (Guarded_check (guarded r g) inner now) as [x g']. cbn [snd] in *. split.
    + destruct d; now apply wait_ok_keep.
    + intros d'. destruct (decide (d' = d)) as [-> | N]; [now destruct d |].
      replace (guard_of (set_guard r d g') d') with (guard_of r d') by now destruct d, d'. apply guard_ok_keep; auto.
  - split; [now apply wait_ok_keep |]. intros d'. destruct (decide (d' = d)) as [-> | N].
    + cbn [snd]. now rewrite Eg.
    + apply guard_ok_keep; auto.
Qed.

Lemma set_monitor_ok (h : list (RelayPoll * Instant)) (r : Relay) (t : Monitored) : relay_ok h r -> relay_ok h (set_monitor r t).
Proof. intros [W G]. split; [exact W |]. intros d. specialize (G d). now destruct d. Qed.

Lemma relay_poll_ok (h : list (RelayPoll * Instant)) (r r' : Relay) (p : RelayPoll) (now : Instant) (a : RelayAnswer) :
  in_time now -> relay_ok h r -> relay_poll hc ci r p now = (a, r') -> (forall e, a <> Ended e) ->
  relay_ok (h ++ [(p, now)]) r'.
Proof.
  intros Hn R E Hr.
  assert (T : forall w, match relay_end hc ci r w now with
      | Some e => (Ended e, mkRelay (relay_end_metrics e (r_metrics r)) (r_monitor r) (r_client r) (r_server r) (r_wait r))
      | None => (Done Pending, r) end = (a, r') ->
    (forall d, checked d (p, now) = []) -> eof_seen (p, now) = [] -> client_data (p, now) = [] -> relay_ok (h ++ [(p, now)]) r').
  { intros w X Hc He Hd. destruct (relay_end _ _ _ _ _) as [e |]; injection X as <- <-; [now destruct (Hr e) |].
    destruct R as [W G]. split; [now apply wait_ok_keep |]. intros d. now apply guard_ok_keep. }
  destruct p as [d inner space | d inner | d inner | d inner | ok | |]; cbn [relay_poll] in E; try now apply T in E.
  - destruct (stream_read_wait h r d inner space now Hn R) as [W G].
    destruct (stream_read _ _ _ _ _ _ _) as [x r1]. injection E as <- <-. split; [exact W |].
    intros d'. cbn [snd] in G. rewrite G. apply guard_ok_keep; [done | apply R].
  - pose proof (stream_check_ok id h (PollWrite d inner) r d inner now) as C.
    unfold stream_write in E. change Guarded_poll_write with (@Guarded_check Z) in E.
    destruct (stream_check _ _ _ _ _) as [x r1]. cbn [snd] in C.
    assert (R1 : relay_ok (h ++ [(PollWrite d inner, now)]) r1).
    { apply C; try done.
      - cbn. rewrite decide_True by done. now destruct inner.
      - intros d' N. cbn. now rewrite decide_False by congruence. }
    destruct d; [| now injection E as <- <-]. destruct (r_monitor r1) as [t |]; [| now injection E as <- <-].
    destruct (Monitored_poll_write _ _) as [y t']. injection E as <- <-. now apply set_monitor_ok.
  - pose proof (stream_check_ok (fun _ => 0) h (PollFlush d inner) r d inner now) as C.
    change stream_flush with (stream_check (@Guarded_check unit)) in E.
    destruct (stream_check _ _ _ _ _) as [x r1]. injection E as <- <-. apply C; try done.
    + cbn. now rewrite decide_True.
    + intros d' N. cbn. now rewrite decide_False by congruence.
  - pose proof (stream_check_ok (fun _ => 0) h (PollShutdown d inner) r d inner now) as C.
    change stream_shutdown with (stream_check (@Guarded_check unit)) in E.
    destruct (stream_check _ _ _ _ _) as [x r1]. injection E as <- <-. apply C; try done.
    + cbn. now rewrite decide_True.
    + intros d' N. cbn. now rewrite decide_False by congruence.
Qed.

(** A relay that has not ended. *)
Definition running (l : list RelayAnswer) : Prop := forall e, ~ In (Ended e) l.

Lemma relay_run_ok (h ps : list (RelayPoll * Instant)) (r : Relay) :
  Forall (fun x => in_time (snd x)) ps -> relay_ok h r -> running (fst (relay_run hc ci r ps)) ->
  relay_ok (h ++ ps) (snd (relay_run hc ci r ps)).
Proof.
  revert h r. induction ps as [| [p now] ps IH]; intros h r F R N; [now rewrite app_nil_r |].
  apply Forall_cons in F as [Hn F]. cbn [relay_run] in *. destruct (relay_poll hc ci r p now) as [a r1] eqn:E.
  destruct (relay_run hc ci r1 ps) as [l r2] eqn:E2.
  assert (Q : (forall e, a <> Ended e) -> running l -> relay_ok (h ++ (p, now) :: ps) r2).
  { intros Ha Hl. specialize (IH (h ++ [(p, now)]) r1 F). rewrite E2, <- app_assoc in IH. apply IH; [| done].
    eapply relay_poll_ok; eauto. }
  destruct a; try (apply Q; [done | intros e Hin; apply (N e); now right]).
  destruct (N e). now left.
Qed.

(** The timed-out outcome of a blocked operation on side [d]. *)
Definition times_out (r : Relay) (d : Side) (now : Instant) : Prop :=
  fst (relay_poll hc ci r (PollWrite d Pending) now) = Count (ReadyErr TimedOutKind) /\
  fst (relay_poll hc ci r (PollFlush d Pending) now) = Done (ReadyErr TimedOutKind) /\
  fst (relay_poll hc ci r (PollShutdown d Pending) now) = Done (ReadyErr TimedOutKind).
Definition blocks (r : Relay) (d : Side) (now : Instant) : Prop :=
  fst (relay_poll hc ci r (PollWrite d Pending) now) = Count Pending /\
  fst (relay_poll hc ci r (PollFlush d Pending) now) = Done Pending /\
  fst (relay_poll hc ci r (PollShutdown d Pending) now) = Done Pending.

Lemma blocked_poll (h : list (RelayPoll * Instant)) (r : Relay) (d : Side) (now : Instant) :
  relay_ok h r ->
  if decide (stall <> 0 /\ default now (blocked d h) + from_millis stall <= now) then times_out r d now else blocks r d now.
Proof.
  intros [_ G]. specialize (G d).
  assert (C : forall A, fst (stream_check (A := A) Guarded_check r d Pending now) =
    if decide (stall <> 0 /\ default now (blocked d h) + from_millis stall <= now) then ReadyErr TimedOutKind else Pending).
  { intros A. unfold stream_check. destruct (guard_of r d) as [g |].
    - destruct G as [Hs Ht]. cbn [Guarded_check]. unfold guarded. cbn [stall_ms timer]. rewrite Hs.
      destruct (Z.eqb_spec stall 0) as [E | E]; [now rewrite decide_False by tauto |]. rewrite (Ht E).
      replace (default (now + from_millis stall) ((fun t => t + from_millis stall) <$> blocked d h)) with
        (default now (blocked d h) + from_millis stall) by now destruct (blocked d h).
      destruct (Z.leb_spec (default now (blocked d h) + from_millis stall) now);
        [rewrite decide_True by done | rewrite decide_False by lia]; reflexivity.
    - unfold guard_ok, unprotected in G. breflect. now rewrite decide_False by lia. }
  assert (W : fst (stream_write r d Pending now) = fst (stream_check Guarded_check r d (@Pending Z) now)).
  { unfold stream_write. change Guarded_poll_write with (@Guarded_check Z). specialize (C Z).
    destruct (stream_check _ _ _ _ _) as [x r1]. cbn [fst] in *. destruct d; [| done]. destruct (r_monitor r1); [| done].
    case_decide; subst x; reflexivity. }
  rewrite C in W. pose proof (C unit) as U. unfold times_out, blocks, relay_poll.
  change stream_flush with (stream_check (@Guarded_check unit)). change stream_shutdown with (stream_check (@Guarded_check unit)).
  destruct (stream_write _ _ _ _) as [x r1], (stream_check _ _ _ _ _) as [y r2]. cbn [fst] in *.
  case_decide; now subst.
Qed.
End Deadlines.

(** The relay's three deadlines, whatever the copy loop does. After any polls of a relay that has not
    ended: the half-close deadline ends it exactly when it is enabled and the first end of a stream
    was seen at least that long ago; the idle deadline ends it exactly when it is enabled and that
    many milliseconds have passed since the client last sent something, or since the start, which
    nothing the server sends can prolong; and a blocked write, flush or shutdown of either side times
    out exactly when that deadline is enabled and the side has been blocked that long without
    interruption, and stays pending otherwise. *)
Theorem relay_deadlines_exact (cfg : Upload) (stall hc ci : Z) (m : Metrics) (start : Instant)
  (ps : list (RelayPoll * Instant)) (d : Side) (now : Instant) :
  0 <= hc -> Forall (fun x => in_time start (snd x)) ps ->
  let r := snd (relay_run hc ci (relay_init cfg stall hc ci m start) ps) in
  running (fst (relay_run hc ci (relay_init cfg stall hc ci m start) ps)) ->
  (fst (relay_poll hc ci r PollHalfClose now) = Ended HalfCloseTimeout <->
     0 < hc /\ exists t, head (flat_map eof_seen ps) = Some t /\ t + from_millis hc <= now) /\
  (fst (relay_poll hc ci r PollIdle now) = Ended IdleTimeout <->
     0 < ci /\ start + from_millis (as_millis (last_data start ps - start) + ci) <= now) /\
  (if decide (stall <> 0 /\ default now (blocked d ps) + from_millis stall <= now)
   then times_out hc ci r d now else blocks hc ci r d now).
Proof.
  intros Hh F r N.
  pose proof (relay_run_ok stall hc ci start Hh [] ps _ F (relay_init_ok cfg stall hc ci start m) N) as R.
  cbn [app] in R. fold r in R. split_and!; [| | now apply (blocked_poll stall hc ci start)].
  - destruct R as [(C & _ & _) _]. unfold relay_poll, relay_end, protected_wake. rewrite C.
    destruct (Z.ltb_spec 0 hc) as [P | P]; [| cbn; split; [discriminate | lia]].
    destruct (head (flat_map eof_seen ps)) as [t |]; cbn; [| split; [discriminate | now intros (_ & t & [=] & _)]].
    destruct (Z.leb_spec (t + from_millis hc) now); cbn; (split; [try discriminate | intros (_ & u & [= <-] & L); try done; lia]).
    intros _. split; [done |]. now exists t.
  - destruct R as [(_ & A & L) _]. unfold relay_poll, relay_end, protected_wake.
    destruct (Z.ltb_spec 0 ci) as [P | P]; cbn [andb]; [| cbn; split; [discriminate | lia]].
    specialize (L P). unfold Activity_wake, Activity_expired. rewrite A, L.
    set (x := as_millis (last_data start ps - start)).
    assert (I : (as_millis (now - start) >=? x + ci) = true <-> start + from_millis (x + ci) <= now).
    { rewrite Z.geb_leb, Z.leb_le. unfold as_millis, from_millis. split; intros Hle.
      - pose proof (Z.mul_div_le (now - start) 1000000 ltac:(lia)). lia.
      - apply Z.div_le_lower_bound; lia. }
    assert (S : start + from_millis (x + ci) <= now -> start + from_millis (saturating_add 64 x ci) <= now)
      by (unfold saturating_add, from_millis; lia).
    destruct (as_millis (now - start) >=? x + ci).
    + rewrite (proj2 (Z.leb_le _ _) (S (proj1 I eq_refl))). cbn. tauto.
    + rewrite andb_false_r. cbn. split; [discriminate |]. intros [_ Hle]. now apply I in Hle.
Qed.

(** ** Instances *)

(** A budget of 10 bytes and 100 bytes per second, a stall deadline of 30 ms, a half-close deadline
    of 20 ms and an idle deadline of 50 ms. The client's second chunk is too much; its stream ends at
    4 ms, and from then on the server does not take what is written. *)
Definition sample_relay (e : bool) : Relay := relay_init (sample_upload e) 30 20 50 Metrics_new 0.
Definition sample_relay_polls : list (RelayPoll * Instant) :=
  [(PollRead ClientSide (ReadyOk [1; 2; 3; 4; 5; 6]) 1024, from_millis 1);
   (PollWrite ServerSide (ReadyOk 6), from_millis 1);
   (PollRead ServerSide (ReadyOk [7; 8]) 1024, from_millis 2);
   (PollRead ClientSide (ReadyOk [9; 10; 11; 12; 13]) 1024, from_millis 3);
   (PollRead ClientSide (ReadyOk []) 1024, from_millis 4);
   (PollWrite ServerSide Pending, from_millis 4)].

Lemma relay_upload_exact_witness :
  got ClientSide (fst (relay_run 20 50 (sample_relay true) sample_relay_polls)) = [1; 2; 3; 4; 5; 6] /\
  got ServerSide (fst (relay_run 20 50 (sample_relay true) sample_relay_polls)) = [7; 8] /\
  6 * SECOND <= 10 * SECOND + 100 * (from_millis 4 - 0).
Proof.
  destruct (relay_upload_exact (sample_upload true) 30 20 50 Metrics_new 0 sample_relay_polls
    ltac:(unfold upload_ok; cbn; lia)) as (S & _ & _ & B).
  split; [vm_compute; reflexivity |]. split; [unfold sample_relay; rewrite S; vm_compute; reflexivity |].
  apply (B eq_refl ltac:(discriminate) (from_millis 4) ltac:(vm_compute; discriminate)).
  repeat constructor; vm_compute; discriminate.
Defined.

Lemma relay_deadlines_exact_witness :
  let r := snd (relay_run 20 50 (sample_relay false) sample_relay_polls) in
  fst (relay_poll 20 50 r PollHalfClose (from_millis 24)) = Ended HalfCloseTimeout /\
  fst (relay_poll 20 50 r PollHalfClose (from_millis 23)) <> Ended HalfCloseTimeout /\
  fst (relay_poll 20 50 r PollIdle (from_millis 53)) = Ended IdleTimeout /\
  times_out 20 50 r ServerSide (from_millis 34) /\ blocks 20 50 r ClientSide (from_millis 34).
Proof.
  assert (F : Forall (fun x : RelayPoll * Instant => in_time 0 (snd x)) sample_relay_polls)
    by (repeat constructor; vm_compute; (discriminate || reflexivity)).
  assert (N : running (fst (relay_run 20 50 (sample_relay false) sample_relay_polls)))
    by (intros e Hin; vm_compute in Hin; repeat destruct Hin as [[=] | Hin]; done).
  pose proof (fun d now => relay_deadlines_exact (sample_upload false) 30 20 50 Metrics_new 0 sample_relay_polls d now
    ltac:(lia) F N) as X.
  unfold sample_relay in *. cbv zeta in *.
  set (r := snd (relay_run 20 50 (relay_init (sample_upload false) 30 20 50 Metrics_new 0) sample_relay_polls)) in *.
  destruct (X ServerSide (from_millis 24)) as (A24 & _). destruct (X ServerSide (from_millis 23)) as (A23 & _).
  destruct (X ServerSide (from_millis 53)) as (_ & A53 & _). destruct (X ServerSide (from_millis 34)) as (_ & _ & S34).
  destruct (X ClientSide (from_millis 34)) as (_ & _ & C34). clear X. clearbody r. split_and!.
  - apply A24. split; [lia |]. exists (from_millis 4). split; [reflexivity | vm_compute; discriminate].
  - intros E. apply A23 in E as (_ & t & Ht & L). vm_compute in Ht. injection Ht as <-. now vm_compute in L.
  - apply A53. split; [lia |]. vm_compute. discriminate.
  - rewrite decide_True in S34; [exact S34 |]. split; vm_compute; discriminate.
  - rewrite decide_False in C34; [exact C34 |]. intros [_ L]. now vm_compute in L.
Defined.
