(* ===== verification/Runtime.v ===== *)
(** * Runtime policy ([gate/src/runtime.rs])

    The policy feed of the controller: a prefix index for the allow and block lists, the acceptance
    of published documents, the policy of a connecting address and the feed's telemetry. Parsing a
    document is a library function and a parameter; the wall clock and the monotonic clock are
    arguments. CIDR networks are those of the [ipnet] interface. *)
From S2P Require Import Prelude Machine Net Config Limiter.
From stdpp Require Import base option list gmap.
From Stdlib Require Import ZArith Lia.
Local Open Scope Z_scope.

Definition MAX_DOCUMENT_BYTES : Z := 262144.

Section Runtime.
Context {IpNet : Type} `{IpNetLib IpNet}.

Record Wire : Type := mkWire {
  w_generation : Z; expires_unix : Z; w_mode : Z; w_observe : bool;
  allow : list IpNet; block : list IpNet }.

(** ** Prefix index *)

Record PrefixIndex : Type := mkPrefixIndex {
  small : list IpNet; v4 : list (Z * gset Z); v6 : list (Z * gset Z) }.

(** The network value of a member of one family. *)
Definition network4 (n : IpNet) : option Z := match net_network n with V4 a => Some a | V6 _ => None end.
Definition network6 (n : IpNet) : option Z := match net_network n with V6 a => Some a | V4 _ => None end.

(** [entry(prefix_len).or_default().insert(network)] for every member of the family. *)
Definition index_insert (sel : IpNet -> option Z) (m : gmap Z (gset Z)) (n : IpNet) : gmap Z (gset Z) :=
  match sel n with
  | Some a => <[net_prefix_len n := {[a]} ∪ default ∅ (m !! net_prefix_len n)]> m
  | None => m
  end.

(** [MAX.checked_shl(w - bits).unwrap_or(0)] on a [w]-bit integer. *)
Definition index_mask (w bits : Z) : Z :=
  let s := wrap 32 (w - bits) in
  if s <? w then wrap w (Z.shiftl (2 ^ w - 1) s) else 0.

(** A [BTreeMap] keyed by a [u8] is iterated in ascending order. *)
Definition index_list (w : Z) (m : gmap Z (gset Z)) : list (Z * gset Z) :=
  omap (fun bits => (fun values => (index_mask w bits, values)) <$> m !! bits) (seqZ 0 256).

Definition PrefixIndex_new (nets : list IpNet) : PrefixIndex :=
  if (length nets <=? 8)%nat then mkPrefixIndex nets [] []
  else mkPrefixIndex []
         (index_list 32 (fold_left (index_insert network4) nets ∅))
         (index_list 128 (fold_left (index_insert network6) nets ∅)).

Definition PrefixIndex_contains (i : PrefixIndex) (ip : IpAddr) : bool :=
  match small i with
  | _ :: _ => existsb (fun n => net_contains n ip) (small i)
  | [] =>
    match ip with
    | V4 raw => existsb (fun '(mask, nets) => bool_decide (Z.land raw mask ∈ nets)) (v4 i)
    | V6 raw => existsb (fun '(mask, nets) => bool_decide (Z.land raw mask ∈ nets)) (v6 i)
    end
  end.

(** ** The feed *)

Record Snapshot : Type := mkSnapshot {
  wire : Wire; received : Instant; allow_index : PrefixIndex; block_index : PrefixIndex }.

Record Runtime : Type := mkRuntime {
  r_value : option Snapshot; default_observe : bool; rejected : Z; missing : Z }.

Definition Runtime_new (d : bool) : Runtime := mkRuntime None d 0 0.

(** The lease of a snapshot is over. *)
Definition lease_over (s : Snapshot) (now_unix : Z) (now : Instant) : bool :=
  (saturating_duration_since now (received s) >? from_secs 15) || (expires_unix (wire s) <=? now_unix).

Definition Runtime_telemetry (r : Runtime) (now_unix : Z) (now : Instant) : Z * Z * Z :=
  let g := match r_value r with
    | Some s => if (saturating_duration_since now (received s) <=? from_secs 15) &&
                   (now_unix <? expires_unix (wire s))
                then w_generation (wire s) else 0
    | None => 0
    end in
  (g, rejected r, missing r).

Definition Runtime_apply (parse : list Z -> option Wire) (r : Runtime) (b : list Z)
  (now_unix : Z) (now : Instant) : bool * Runtime :=
  if Z.of_nat (length b) >? MAX_DOCUMENT_BYTES then (false, r) else
  match parse b with
  | None => (false, r)
  | Some w =>
    if (w_mode w >? 3) || (expires_unix w >? saturating_add 64 now_unix 30) ||
       (4096 <? Z.of_nat (length (allow w))) || (4096 <? Z.of_nat (length (block w)))
    then (false, r)
    else
      let publish := (true, mkRuntime
        (Some (mkSnapshot w now (PrefixIndex_new (allow w)) (PrefixIndex_new (block w))))
        (default_observe r) (rejected r) (missing r)) in
      match r_value r with
      | Some previous =>
        if w_generation w <? w_generation (wire previous) then (false, r)
        else if w_generation w =? w_generation (wire previous) then (true, r)
        else publish
      | None => publish
      end
  end.

Definition Runtime_policy (r : Runtime) (ip : IpAddr) (now_unix : Z) (now : Instant) : Policy * bool :=
  match r_value r with
  | None => (mkPolicy 0 (default_observe r) false, false)
  | Some s =>
    if lease_over s now_unix now then (mkPolicy 0 true false, false)
    else
      let ip := normalize ip in
      let exempt := PrefixIndex_contains (allow_index s) ip in
      let p := mkPolicy (w_mode (wire s)) (w_observe (wire s)) exempt in
      (p, negb (observe p) && negb exempt && PrefixIndex_contains (block_index s) ip)
  end.

(** The outcome of opening the policy file. *)
Inductive OpenError : Type := NotFound | OtherError.

Definition record_open_error (r : Runtime) (kind : OpenError) : Runtime :=
  match kind with
  | NotFound => mkRuntime (r_value r) (default_observe r) (rejected r) (wrap 64 (missing r + 1))
  | OtherError => mkRuntime (r_value r) (default_observe r) (wrap 64 (rejected r + 1)) (missing r)
  end.

(** One round of [watch]: what opening and reading the file gave. *)
Inductive FileRead : Type :=
| OpenFailed (kind : OpenError)
| ReadFailed
| Contents (b : list Z).

Definition watch_round (parse : list Z -> option Wire) (r : Runtime) (f : FileRead) (now_unix : Z)
  (now : Instant) : Runtime :=
  let reject r := mkRuntime (r_value r) (default_observe r) (wrap 64 (rejected r + 1)) (missing r) in
  match f with
  | OpenFailed kind => record_open_error r kind
  | ReadFailed => reject r
  | Contents b =>
    let '(accepted, r) := Runtime_apply parse r (take (Z.to_nat (MAX_DOCUMENT_BYTES + 1)) b) now_unix now in
    if negb accepted then reject r else r
  end.
End Runtime.

Arguments Wire IpNet : clear implicits.
Arguments PrefixIndex IpNet : clear implicits.
Arguments Snapshot IpNet : clear implicits.
Arguments Runtime IpNet : clear implicits.

(** ** The index agrees with a linear scan *)

Section Index.
Context {IpNet : Type} `{IpNetLaws IpNet}.

Lemma index_insert_lookup (sel : IpNet -> option Z) (nets : list IpNet) :
  forall (m : gmap Z (gset Z)) (bits a : Z),
  a ∈ (default ∅ (fold_left (index_insert sel) nets m !! bits) : gset Z) <->
  a ∈ (default ∅ (m !! bits) : gset Z) \/ exists n, In n nets /\ sel n = Some a /\ net_prefix_len n = bits.
Proof.
  induction nets as [| n nets IH]; intros m bits a; cbn [fold_left In].
  { split; [now left |]. intros [? | (n & [] & _)]. done. }
  rewrite IH. unfold index_insert. destruct (sel n) as [b |] eqn:E.
  - destruct (decide (net_prefix_len n = bits)) as [<- | N].
    + rewrite lookup_insert_eq. cbn [default from_option id]. rewrite elem_of_union, elem_of_singleton. split.
      * intros [[-> | ?] | (n' & Hin & Hs & Hl)]; [right; exists n; auto | now left | right; exists n'; auto].
      * intros [? | (n' & [<- | Hin] & Hs & Hl)]; [left; now right | left; left; congruence | right; exists n'; auto].
    + rewrite lookup_insert_ne by done. split.
      * intros [? | (n' & Hin & Hs & Hl)]; [now left | right; exists n'; auto].
      * intros [? | (n' & [<- | Hin] & Hs & Hl)]; [now left | done | right; exists n'; auto].
  - split.
    + intros [? | (n' & Hin & Hs & Hl)]; [now left | right; exists n'; auto].
    + intros [? | (n' & [<- | Hin] & Hs & Hl)]; [now left | congruence | right; exists n'; auto].
Qed.

(** The mask of the index clears the host bits. *)
Lemma index_mask_land (w bits a : Z) :
  (w = 32 \/ w = 128) -> 0 <= bits <= w -> 0 <= a < 2 ^ w ->
  Z.land a (index_mask w bits) = a - a mod 2 ^ (w - bits).
Proof.
  intros Hw Hb Ha. unfold index_mask. rewrite wrap_small by lia.
  destruct (Z.ltb_spec (w - bits) w).
  - apply land_ones_high; lia.
  - assert (bits = 0) as -> by lia. rewrite Z.land_0_r, Z.sub_0_r, Z.mod_small by lia. lia.
Qed.

Lemma index_list_exists (w : Z) (m : gmap Z (gset Z)) (raw : Z) :
  existsb (fun '(mask, nets) => bool_decide (Z.land raw mask ∈ (nets : gset Z))) (index_list w m) = true <->
  exists bits, 0 <= bits < 256 /\ Z.land raw (index_mask w bits) ∈ (default ∅ (m !! bits) : gset Z).
Proof.
  unfold index_list. rewrite existsb_exists. split.
  - intros ([mask nets] & Hin & Hd). apply bool_decide_eq_true in Hd.
    apply list_elem_of_In, list_elem_of_omap in Hin as (bits & Hb & E). apply elem_of_seqZ in Hb.
    destruct (m !! bits) as [s |] eqn:Em; [| discriminate]. injection E as <- <-.
    exists bits. split; [lia |]. now rewrite Em.
  - intros (bits & Hb & Hd). destruct (m !! bits) as [s |] eqn:Em; [| now apply not_elem_of_empty in Hd].
    exists (index_mask w bits, s). split; [| now apply bool_decide_eq_true].
    apply list_elem_of_In, list_elem_of_omap. exists bits. rewrite Em. split; [| done].
    apply elem_of_seqZ. lia.
Qed.
Lemma block_aligned (k x : Z) : 0 <= k -> (x - x mod 2 ^ k) mod 2 ^ k = 0.
Proof.
  intros Hk. assert (0 < 2 ^ k) by (apply Z.pow_pos_nonneg; lia).
  pose proof (Z.div_mod x (2 ^ k) ltac:(lia)).
  replace (x - x mod 2 ^ k) with (x / 2 ^ k * 2 ^ k) by lia. apply Z.mod_mul. lia.
Qed.

(** Membership of a network, on the values of one family. *)
Lemma contains_v4 (n : IpNet) (a : Z) :
  is_u32 a ->
  net_contains n (V4 a) = true <->
  network4 n = Some (Z.land a (index_mask 32 (net_prefix_len n))) /\ 0 <= net_prefix_len n <= 32.
Proof.
  intros Ha. destruct (net_wf n) as [Wn Hl]. rewrite net_contains_spec. unfold network4.
  pose proof (net_network_spec n) as S. destruct (net_addr n) as [x | x]; rewrite S; cbn [is_ipv4 ip_wf] in *.
  - rewrite index_mask_land by (unfold is_u32 in *; lia).
    rewrite block_contains, Z.eqb_eq; [| lia |].
    + split; [intros <-; done | intros [[= E] _]; congruence].
    + apply block_aligned. lia.
  - split; [done | intros [? _]; discriminate].
Qed.

Lemma contains_v6 (n : IpNet) (a : Z) :
  is_u128 a ->
  net_contains n (V6 a) = true <->
  network6 n = Some (Z.land a (index_mask 128 (net_prefix_len n))) /\ 0 <= net_prefix_len n <= 128.
Proof.
  intros Ha. destruct (net_wf n) as [Wn Hl]. rewrite net_contains_spec. unfold network6.
  pose proof (net_network_spec n) as S. destruct (net_addr n) as [x | x]; rewrite S; cbn [is_ipv4 ip_wf] in *.
  - split; [done | intros [? _]; discriminate].
  - rewrite index_mask_land by (unfold is_u128 in *; lia).
    rewrite block_contains, Z.eqb_eq; [| lia |].
    + split; [intros <-; done | intros [[= E] _]; congruence].
    + apply block_aligned. lia.
Qed.

(** One family of the index, against a scan of its members. *)
Lemma index_family (w raw : Z) (sel : IpNet -> option Z) (ip : IpAddr) (nets : list IpNet) :
  w <= 128 ->
  (forall n, net_contains n ip = true <->
    sel n = Some (Z.land raw (index_mask w (net_prefix_len n))) /\ 0 <= net_prefix_len n <= w) ->
  (forall n a, sel n = Some a -> 0 <= net_prefix_len n <= w) ->
  existsb (fun '(mask, values) => bool_decide (Z.land raw mask ∈ (values : gset Z)))
    (index_list w (fold_left (index_insert sel) nets ∅)) =
  existsb (fun n => net_contains n ip) nets.
Proof.
  intros Hw C B. apply Bool.eq_iff_eq_true. rewrite index_list_exists, existsb_exists. split.
  - intros (bits & Hb & E). apply index_insert_lookup in E as [E | (n & Hin & Hs & Hl)].
    + rewrite lookup_empty in E. now apply not_elem_of_empty in E.
    + exists n. split; [done |]. apply C. subst bits. eauto.
  - intros (n & Hin & Hc). apply C in Hc as [Hs Hl]. exists (net_prefix_len n). split; [lia |].
    apply index_insert_lookup. right. eauto.
Qed.

Lemma PrefixIndex_scan (nets : list IpNet) (ip : IpAddr) :
  ip_wf ip ->
  PrefixIndex_contains (PrefixIndex_new nets) ip = existsb (fun n => net_contains n ip) nets.
Proof.
  intros Hip. unfold PrefixIndex_new, PrefixIndex_contains. destruct (length nets <=? 8)%nat eqn:L.
  - cbn [small v4 v6]. destruct nets; [now destruct ip | done].
  - cbn [small v4 v6]. destruct ip as [raw | raw]; cbn [ip_wf] in Hip; apply index_family; try lia.
    + intros n. now apply contains_v4.
    + intros n a Hs. destruct (net_wf n) as [_ Hl]. unfold network4 in Hs. rewrite net_network_spec in Hs.
      destruct (net_addr n); [done | discriminate].
    + intros n. now apply contains_v6.
    + intros n a Hs. destruct (net_wf n) as [_ Hl]. unfold network6 in Hs. rewrite net_network_spec in Hs.
      destruct (net_addr n); [discriminate | done].
Qed.

(** The prefix index is an optimisation only: for every list of networks and every address it
    answers exactly what testing each network in turn answers, for lists of any length, both
    address families and every prefix length including /0. *)
Theorem prefix_index_exact (nets : list IpNet) (ip : IpAddr) :
  ip_wf ip ->
  PrefixIndex_contains (PrefixIndex_new nets) ip = existsb (fun n => net_contains n ip) nets.
Proof. apply PrefixIndex_scan. Qed.
End Index.

(** ** The feed *)

Section Feed.
Context {IpNet : Type} `{IpNetLaws IpNet} (parse : list Z -> option (Wire IpNet)).

(** The generation a runtime has reached; none before the first document. *)
Definition generation_of (r : Runtime IpNet) : option Z := (fun s => w_generation (wire s)) <$> r_value r.

(** A snapshot was built from its document, with a mode and list sizes within bounds. *)
Definition snapshot_ok (s : Snapshot IpNet) : Prop :=
  allow_index s = PrefixIndex_new (allow (wire s)) /\ block_index s = PrefixIndex_new (block (wire s)) /\
  w_mode (wire s) <= 3 /\ Z.of_nat (length (allow (wire s))) <= 4096 /\
  Z.of_nat (length (block (wire s))) <= 4096.
Definition runtime_ok (r : Runtime IpNet) : Prop := forall s, r_value r = Some s -> snapshot_ok s.

(** What applying a document does. *)
Lemma apply_cases (r : Runtime IpNet) (b : list Z) (now_unix : Z) (now : Instant) :
  let '(ok, r') := Runtime_apply parse r b now_unix now in
  r' = r \/
  exists w, parse b = Some w /\ ok = true /\ Z.of_nat (length b) <= MAX_DOCUMENT_BYTES /\
    w_mode w <= 3 /\ expires_unix w <= saturating_add 64 now_unix 30 /\
    Z.of_nat (length (allow w)) <= 4096 /\ Z.of_nat (length (block w)) <= 4096 /\
    (forall g, generation_of r = Some g -> g < w_generation w) /\
    r' = mkRuntime (Some (mkSnapshot w now (PrefixIndex_new (allow w)) (PrefixIndex_new (block w))))
           (default_observe r) (rejected r) (missing r).
Proof.
  unfold Runtime_apply. destruct (_ >? MAX_DOCUMENT_BYTES) eqn:L; [now left |].
  destruct (parse b) as [w |] eqn:P; [| now left].
  destruct (_ || _ || _ || _) eqn:G; [now left |]. breflect.
  unfold generation_of. destruct (r_value r) as [prev |] eqn:V.
  - destruct (Z.ltb_spec (w_generation w) (w_generation (wire prev))); [now left |].
    destruct (Z.eqb_spec (w_generation w) (w_generation (wire prev))); [now left |].
    right. exists w. split_and!; auto. cbn. intros g [= <-]. lia.
  - right. exists w. split_and!; auto. done.
Qed.

Lemma apply_ok (r : Runtime IpNet) (b : list Z) (now_unix : Z) (now : Instant) :
  runtime_ok r -> runtime_ok (snd (Runtime_apply parse r b now_unix now)).
Proof.
  intros R. pose proof (apply_cases r b now_unix now) as C.
  destruct (Runtime_apply parse r b now_unix now) as [ok r']. cbn [snd].
  destruct C as [-> | (w & _ & _ & _ & Hm & _ & Ha & Hb & _ & ->)]; [done |].
  intros s [= <-]. split_and!; cbn; auto.
Qed.

(** A round of the watcher leaves the policy alone or publishes a newer one. *)
Lemma watch_round_cases (r : Runtime IpNet) (f : FileRead) (now_unix : Z) (now : Instant) :
  let r' := watch_round parse r f now_unix now in
  default_observe r' = default_observe r /\
  (r_value r' = r_value r \/
   exists s, r_value r' = Some s /\ snapshot_ok s /\ received s = now /\
     expires_unix (wire s) <= saturating_add 64 now_unix 30 /\
     forall g, generation_of r = Some g -> g < w_generation (wire s)).
Proof.
  unfold watch_round. cbv zeta. destruct f as [[] | | b]; [split; auto .. |].
  pose proof (apply_cases r (take (Z.to_nat (MAX_DOCUMENT_BYTES + 1)) b) now_unix now) as C.
  destruct (Runtime_apply parse r _ now_unix now) as [ok r'].
  destruct C as [-> | (w & _ & -> & _ & Hm & He & Ha & Hb & Hg & ->)].
  - destruct (negb ok); split; auto.
  - cbn [negb default_observe r_value]. split; [done |]. right. eexists. split; [reflexivity |].
    split; [unfold snapshot_ok; cbn; split_and!; auto | cbn; auto].
Qed.

(** The feed over time: what each round found and when. *)
Fixpoint watch_run (r : Runtime IpNet) (rounds : list (FileRead * Z * Instant)) : Runtime IpNet :=
  match rounds with
  | [] => r
  | (f, u, now) :: rest => watch_run (watch_round parse r f u now) rest
  end.

Lemma watch_run_ok (r : Runtime IpNet) (rounds : list (FileRead * Z * Instant)) :
  runtime_ok r -> runtime_ok (watch_run r rounds).
Proof.
  revert r. induction rounds as [| [[f u] now] rounds IH]; intros r R; [done |]. cbn [watch_run].
  apply IH. destruct (watch_round_cases r f u now) as [_ [E | (s & E & S & _)]]; intros s' Hs'.
  - apply R. congruence.
  - congruence.
Qed.

(** Policies never go back: over any sequence of watcher rounds, whatever files appear, replay or
    vanish, the generation in force never decreases, and as long as it is the same generation the
    whole snapshot is the same one, so that replaying a document cannot renew its lease or change
    its contents. *)
Theorem policy_never_rolls_back (r : Runtime IpNet) (rounds : list (FileRead * Z * Instant)) (s : Snapshot IpNet) :
  r_value r = Some s ->
  exists s', r_value (watch_run r rounds) = Some s' /\
    w_generation (wire s) <= w_generation (wire s') /\
    (w_generation (wire s') = w_generation (wire s) -> s' = s).
Proof.
  revert r s. induction rounds as [| [[f u] now] rounds IH]; intros r s Hs; cbn [watch_run].
  { exists s. split_and!; auto. lia. }
  destruct (watch_round_cases r f u now) as [_ [E | (s1 & E & _ & _ & _ & Hg)]].
  - apply IH. congruence.
  - destruct (IH _ s1 E) as (s' & Hs' & L & Eq). exists s'.
    assert (w_generation (wire s) < w_generation (wire s1)) by (apply Hg; unfold generation_of; now rewrite Hs).
    split_and!; auto; [lia |]. intros. lia.
Qed.

(** What a connection is subjected to, exactly: without any document the configured default;
    with an expired or stale lease a permissive observing policy; otherwise the mode of the
    document, an exemption exactly for the addresses of the allow list, and a refusal exactly for
    addresses that are on the block list, not on the allow list, while enforcing. *)
Theorem policy_exact (r : Runtime IpNet) (ip : IpAddr) (now_unix : Z) (now : Instant) :
  runtime_ok r -> ip_wf (normalize ip) ->
  let listed l := existsb (fun n => net_contains n (normalize ip)) l in
  Runtime_policy r ip now_unix now =
  match r_value r with
  | None => (mkPolicy 0 (default_observe r) false, false)
  | Some s =>
    if decide (received s + from_secs 15 < now \/ expires_unix (wire s) <= now_unix)
    then (mkPolicy 0 true false, false)
    else (mkPolicy (w_mode (wire s)) (w_observe (wire s)) (listed (allow (wire s))),
          negb (w_observe (wire s)) && negb (listed (allow (wire s))) && listed (block (wire s)))
  end.
Proof.
  intros R Hip listed. unfold Runtime_policy. destruct (r_value r) as [s |] eqn:V; [| done].
  destruct (R s V) as (Ea & Eb & _). unfold lease_over, saturating_duration_since.
  case_decide as D.
  - replace ((Z.max 0 (now - received s) >? from_secs 15) || (expires_unix (wire s) <=? now_unix)) with true;
      [done |]. symmetry. apply orb_true_iff. rewrite Z.gtb_lt, Z.leb_le.
    unfold from_secs, NANOS_PER_SEC in *. lia.
  - replace ((Z.max 0 (now - received s) >? from_secs 15) || (expires_unix (wire s) <=? now_unix)) with false.
    + cbn [observe]. rewrite Ea, Eb, !PrefixIndex_scan by done. done.
    + symmetry. apply orb_false_iff. rewrite Z.gtb_ltb, Z.ltb_ge, Z.leb_gt.
      unfold from_secs, NANOS_PER_SEC in *. lia.
Qed.

(** ** Typing *)

(** A document of machine integers. *)
Definition wire_typed (w : Wire IpNet) : Prop := 0 <= w_mode w /\ is_u64 (w_generation w).

Record runtime_typed (r : Runtime IpNet) : Prop := {
  rt_wire : forall s, r_value r = Some s -> 0 <= w_mode (wire s) <= 3 /\ is_u64 (w_generation (wire s));
  rt_rejected : is_u64 (rejected r);
  rt_missing : is_u64 (missing r) }.

Lemma Runtime_new_typed (d : bool) : runtime_typed (Runtime_new d).
Proof. split; cbn; [discriminate | unfold is_u64; lia ..]. Qed.

Lemma wrap_u64 (z : Z) : is_u64 (wrap 64 z).
Proof. apply Z.mod_pos_bound. lia. Qed.

Lemma watch_round_typed (r : Runtime IpNet) (f : FileRead) (now_unix : Z) (now : Instant) :
  (forall b w, parse b = Some w -> wire_typed w) ->
  runtime_typed r -> runtime_typed (watch_round parse r f now_unix now).
Proof.
  intros Hp [W J M]. unfold watch_round. destruct f as [[] | | b];
    [split; cbn; auto using wrap_u64 .. |].
  pose proof (apply_cases r (take (Z.to_nat (MAX_DOCUMENT_BYTES + 1)) b) now_unix now) as C.
  destruct (Runtime_apply parse r _ now_unix now) as [ok r'].
  destruct C as [-> | (w & Hw & -> & _ & Hm & _ & _ & _ & _ & ->)].
  - destruct (negb ok); split; cbn; auto using wrap_u64.
  - split; cbn; auto. intros s [= <-]. cbn. destruct (Hp _ _ Hw). auto.
Qed.

Lemma Runtime_policy_mode (r : Runtime IpNet) (ip : IpAddr) (now_unix : Z) (now : Instant) :
  runtime_typed r -> 0 <= mode (fst (Runtime_policy r ip now_unix now)) <= 3.
Proof.
  intros [W _ _]. unfold Runtime_policy. destruct (r_value r) as [s |]; [| cbn; lia].
  destruct (lease_over s now_unix now); cbn [fst mode]; [lia | now apply W].
Qed.

Lemma Runtime_telemetry_typed (r : Runtime IpNet) (now_unix : Z) (now : Instant) :
  runtime_typed r ->
  let '(g, j, m) := Runtime_telemetry r now_unix now in is_u64 g /\ is_u64 j /\ is_u64 m.
Proof.
  intros [W J M]. unfold Runtime_telemetry. split_and!; auto. destruct (r_value r) as [s |]; [| unfold is_u64; lia].
  destruct (_ && _); [now apply W | unfold is_u64; lia].
Qed.

End Feed.

(** ** Instances *)

(** 192.0.2.0/24 and eight single addresses: enough networks to be indexed. *)
Definition sample_nets : list Cidr :=
  [mkCidr (V4 3221225984) 24 eq_refl; mkCidr (V4 1) 32 eq_refl; mkCidr (V4 2) 32 eq_refl;
   mkCidr (V4 3) 32 eq_refl; mkCidr (V4 4) 32 eq_refl; mkCidr (V4 5) 32 eq_refl;
   mkCidr (V4 6) 32 eq_refl; mkCidr (V4 7) 32 eq_refl; mkCidr (V4 8) 32 eq_refl].

(** A library that reads a one-byte document as a generation of an enforced policy. *)
Definition sample_parse (b : list Z) : option (Wire Cidr) :=
  match b with
  | [g] => Some (mkWire g 100 2 false [] sample_nets)
  | _ => None
  end.

Definition sample_runtime : Runtime Cidr :=
  watch_run sample_parse (Runtime_new true) [(Contents [7], 80, 0)].

Lemma sample_runtime_ok : runtime_ok sample_runtime.
Proof. apply watch_run_ok. intros s. discriminate. Qed.

Lemma prefix_index_exact_witness :
  PrefixIndex_contains (PrefixIndex_new sample_nets) (V4 3221226000) = true /\
  existsb (fun n => net_contains n (V4 3221226000)) sample_nets = true.
Proof.
  assert (W : ip_wf (V4 3221226000)) by (cbn; unfold is_u32; lia).
  rewrite (prefix_index_exact sample_nets (V4 3221226000) W). split; vm_compute; reflexivity.
Defined.

(** A replayed document, an older one and an unreadable one change nothing. *)
Lemma policy_never_rolls_back_witness :
  exists s', r_value (watch_run sample_parse sample_runtime
      [(Contents [7], 90, 5); (Contents [6], 90, 6); (Contents [], 90, 7)]) = Some s' /\
    7 <= w_generation (wire s').
Proof.
  destruct (policy_never_rolls_back sample_parse sample_runtime
    [(Contents [7], 90, 5); (Contents [6], 90, 6); (Contents [], 90, 7)] _ eq_refl)
    as (s' & E & L & _). exists s'. split; [exact E | exact L].
Defined.

Lemma policy_exact_witness :
  Runtime_policy sample_runtime (V4 3221226000) 90 (from_secs 3) = (mkPolicy 2 false false, true).
Proof.
  rewrite (policy_exact sample_runtime (V4 3221226000) 90 (from_secs 3) sample_runtime_ok)
    by (cbn; unfold is_u32; lia).
  vm_compute. reflexivity.
Defined.
