(* ===== verification/Cache.v ===== *)
(** * The status cache ([gate/src/cache.rs])

    The prepared status response, its size accounting, and the cache that serves it. JSON values
    and their serialisation are those of a library and a parameter of the development. *)
From S2P Require Import Prelude Machine Metrics Config Wire Utf8 Protocol.
From stdpp Require Import base option list.
From Stdlib Require Import ZArith Lia.
Local Open Scope Z_scope.
Local Open Scope gate_scope.

(** ** The JSON library *)

(** The operations of [serde_json] the cache calls; strings are byte sequences. *)
Class JsonLib (Value : Type) := {
  to_vec : Value -> option (list Z);
  key_to_vec : list Z -> option (list Z);
  as_object : Value -> option (list (list Z * Value));
  from_str : list Z -> option Value }.

(** Their documented behaviour, as far as the cache relies on it: objects and integers can be
    built, and serialisation is the compact one, in the order of the members. *)
Definition entry_vec {Value : Type} `{JsonLib Value} (kv : list Z * Value) : option (list Z) :=
  k ← key_to_vec (fst kv); v ← to_vec (snd kv); Some (k ++ [58] ++ v).

(** Members, each preceded by a comma. *)
Fixpoint members_vec {Value : Type} `{JsonLib Value} (es : list (list Z * Value)) : option (list Z) :=
  match es with
  | [] => Some []
  | kv :: rest => e ← entry_vec kv; r ← members_vec rest; Some ([44] ++ e ++ r)
  end.

(** A [u64] or [i32] in decimal; [fuel] bounds the digits. *)
Fixpoint decimal_digits (fuel : nat) (n : Z) : list Z :=
  match fuel with
  | O => []
  | S fuel => if n <? 10 then [48 + n] else decimal_digits fuel (n / 10) ++ [48 + n mod 10]
  end.

(** [to_string] of a non-negative [i32]: at most ten digits. *)
Definition i32_to_string (n : Z) : list Z := decimal_digits 10 n.

(** "version", "protocol" and the literal opening of a rendered status. *)
Definition key_version : list Z := [118; 101; 114; 115; 105; 111; 110].
Definition key_protocol : list Z := [112; 114; 111; 116; 111; 99; 111; 108].
Definition status_prefix : list Z :=
  [123; 34] ++ key_version ++ [34; 58; 123; 34] ++ key_protocol ++ [34; 58].

Class JsonLaws (Value : Type) `{JsonLib Value} := {
  json_object : list (list Z * Value) -> Value;
  json_int : Z -> Value;
  json_object_vec : forall kv rest,
    to_vec (json_object (kv :: rest)) =
      (e ← entry_vec kv; r ← members_vec rest; Some ([123] ++ e ++ r ++ [125]));
  json_int_vec : forall n, 0 <= n < 2 ^ 31 -> to_vec (json_int n) = Some (i32_to_string n);
  json_key_vec : forall k, Forall (fun b => 97 <= b <= 122) k -> key_to_vec k = Some ([34] ++ k ++ [34]) }.

(** ** Sizes *)

(** The loop of [varint_size]; ten rounds cover a 64-bit value. *)
Fixpoint varint_size_loop (fuel : nat) (n : Z) : Z :=
  match fuel with
  | O => 1
  | S fuel => if 128 <=? n then 1 + varint_size_loop fuel (Z.shiftr n 7) else 1
  end.
Definition varint_size (n : Z) : Z := varint_size_loop 10 n.

Definition wire_size (json_len : Z) : option Z :=
  body_len ← (x ← checked_add json_len (varint_size json_len); checked_add x 1);
  checked_add body_len (varint_size body_len).

(** The body of a status packet and the frame around it. *)
Definition status_body (text : list Z) : list Z := put_varint (len_as_i32 text) [0] ++ text.
Definition status_frame (text : list Z) : list Z := frame (status_body text).

(** ** Prepared responses *)

Record Prepared : Type := mkPrepared { original : list Z; parts : option (list Z * list Z) }.

Section Prepare.
Context {Value : Type} `{JsonLib Value}.

(** [value.get(key)]. *)
Definition json_get (v : Value) (key : list Z) : option Value :=
  es ← as_object v; snd <$> find (fun kv => bool_decide (fst kv = key)) es.

(** Members other than [key]. *)
Definition other_members (key : list Z) (es : list (list Z * Value)) : list (list Z * Value) :=
  filter (fun kv => fst kv <> key) es.

(** The members after the protocol number, and the rest of the status. *)
Definition status_suffix (version whole : list (list Z * Value)) : option (list Z) :=
  a ← members_vec (other_members key_protocol version);
  b ← members_vec (other_members key_version whole);
  Some (a ++ [125] ++ b ++ [125]).

Definition Prepared_new (value : Value) (max : Z) : option Prepared :=
  text ← to_vec value;
  size ← wire_size (Z.of_nat (length text));
  if size >? max then None
  else
    let original := status_frame text in
    match json_get value key_version ≫= as_object with
    | None => Some (mkPrepared original None)
    | Some version =>
      whole ← as_object value;
      suffix ← status_suffix version whole;
      len ← (x ← checked_add (Z.of_nat (length status_prefix)) 10;
             checked_add x (Z.of_nat (length suffix)));
      size ← wire_size len;
      if size >? max then None
      else Some (mkPrepared original (Some (status_prefix, suffix)))
    end.

Definition valid_status (value : Value) (max : Z) : bool :=
  match Prepared_new value max with Some _ => true | None => false end.
End Prepare.

Definition Prepared_render (p : Prepared) (version : Z) : list Z :=
  if version <? 0 then original p
  else match parts p with
  | None => original p
  | Some (prefix, suffix) =>
    let number := i32_to_string version in
    frame (put_varint (len_as_i32 (prefix ++ number ++ suffix)) [0] ++ prefix ++ number ++ suffix)
  end.

(** ** The cache *)

Record Cached : Type := mkCached { c_value : Prepared; c_at : Instant }.
Record StatusCache : Type := mkStatusCache { sc_value : option Cached; fallback : Prepared; ttl : Duration }.

Definition StatusCache_get (c : StatusCache) (m : Metrics) (requested_protocol : Z) (now : Instant)
  : list Z * Metrics :=
  let '(value, m) :=
    match sc_value c with
    | Some v => if saturating_duration_since now (c_at v) <? ttl c then (c_value v, m)
                else (fallback c, Metrics_inc m 24)
    | None => (fallback c, Metrics_inc m 24)
    end in
  (Prepared_render value requested_protocol, m).

(** One round of [refresh]: [permit] says whether a socket permit was free, [polled] what polling
    the backend within its deadline gave. *)
Definition refresh_round (c : StatusCache) (m : Metrics) (permit : bool) (polled : option Prepared)
  (now : Instant) : StatusCache * Metrics :=
  if permit then
    let '(g, m) := Gauge_new m 3 in
    let m := Metrics_inc m 31 in
    match polled with
    | Some v => (mkStatusCache (Some (mkCached v now)) (fallback c) (ttl c), Gauge_drop g m)
    | None => (c, Gauge_drop g (Metrics_inc m 23))
    end
  else (c, Metrics_inc m 23).

(** What [poll] makes of the body of the backend's status response. *)
Definition poll_body {Value : Type} `{JsonLib Value} (body : list Z) (max : Z) : option Prepared :=
  match Cursor_int (Cursor_new body) with
  | Ok (0, c) =>
    match Cursor_string c max with
    | Ok (text, c) =>
      value ← from_str text;
      es ← as_object value;
      match Cursor_finish c with Ok _ => Prepared_new value max | Err _ => None end
    | Err _ => None
    end
  | _ => None
  end.

(** ** Sizes are exact *)

Lemma varint_size_put (k f1 f2 : nat) (v : Z) :
  (k <= f1)%nat -> (k < f2)%nat -> 0 <= v < 128 ^ Z.of_nat k -> (0 < k)%nat ->
  Z.of_nat (length (put_varint_loop f1 v)) = varint_size_loop f2 v.
Proof.
  revert f1 f2 v. induction k as [| k IH]; intros f1 f2 v H1 H2 Hv Hk; [lia |].
  destruct f1 as [| f1]; [lia |]. destruct f2 as [| f2]; [lia |].
  cbn [put_varint_loop varint_size_loop]. rewrite !Z.shiftr_div_pow2 by lia. change (2 ^ 7) with 128.
  rewrite Nat2Z.inj_succ, Z.pow_succ_r in Hv by lia.
  destruct (Z.leb_spec 128 v) as [L | L].
  - assert (1 <= v / 128) by (apply Z.div_le_lower_bound; lia).
    assert (v / 128 < 128 ^ Z.of_nat k) by (apply Z.div_lt_upper_bound; lia).
    destruct (Z.eqb_spec (v / 128) 0); [lia |]. cbn [length].
    assert ((0 < k)%nat) by (destruct k; [cbn in *; lia | lia]).
    rewrite Nat2Z.inj_succ, (IH f1 f2 (v / 128)) by lia. lia.
  - rewrite (Z.div_small v 128) by lia. done.
Qed.

Lemma varint_size_i32 (n : Z) :
  0 <= n < 2 ^ 31 -> Z.of_nat (length (put_varint n [])) = varint_size n.
Proof.
  intros H. unfold put_varint, varint_size, i32_as_u32. rewrite wrap_small by lia. cbn [app].
  apply (varint_size_put 5); lia.
Qed.

Lemma varint_size_loop_mono (fuel : nat) (a b : Z) :
  a <= b -> varint_size_loop fuel a <= varint_size_loop fuel b.
Proof.
  revert a b. induction fuel as [| fuel IH]; intros a b H; [done |]. cbn [varint_size_loop].
  rewrite !Z.shiftr_div_pow2 by lia.
  assert (a / 2 ^ 7 <= b / 2 ^ 7) as D by (apply Z.div_le_mono; lia). specialize (IH _ _ D).
  assert (P : forall f n, 1 <= varint_size_loop f n).
  { clear. induction f as [| f IH]; intros n; cbn; [lia |]. destruct (128 <=? n); [| lia].
    specialize (IH (Z.shiftr n 7)). lia. }
  pose proof (P fuel (b / 2 ^ 7)).
  destruct (Z.leb_spec 128 a), (Z.leb_spec 128 b); lia.
Qed.

Lemma varint_size_pos (n : Z) : 1 <= varint_size n.
Proof. unfold varint_size. cbn. repeat (destruct (128 <=? _)); lia. Qed.

(** The number [wire_size] computes. *)
Definition wire_len (l : Z) : Z :=
  let b := l + varint_size l + 1 in b + varint_size b.

Lemma wire_size_some (l s : Z) : wire_size l = Some s -> s = wire_len l.
Proof.
  unfold wire_size, checked_add, wire_len. intros H.
  destruct (l + varint_size l <=? u64_max); [| discriminate]. cbn [mbind option_bind] in H.
  destruct (l + varint_size l + 1 <=? u64_max); [| discriminate]. cbn [mbind option_bind] in H.
  destruct (_ <=? u64_max); [| discriminate]. now injection H.
Qed.

Lemma wire_len_mono (a b : Z) : a <= b -> wire_len a <= wire_len b.
Proof.
  intros H. unfold wire_len. pose proof (varint_size_loop_mono 10 a b H) as V. fold (varint_size a) (varint_size b) in V.
  pose proof (varint_size_loop_mono 10 (a + varint_size a + 1) (b + varint_size b + 1) ltac:(lia)) as W.
  unfold varint_size in *. lia.
Qed.

Lemma wire_len_above (l : Z) : l < wire_len l.
Proof. unfold wire_len. pose proof (varint_size_pos l). pose proof (varint_size_pos (l + varint_size l + 1)). lia. Qed.

Lemma len_as_i32_small (l : list Z) : Z.of_nat (length l) < 2 ^ 31 -> len_as_i32 l = Z.of_nat (length l).
Proof. intros H. unfold len_as_i32. rewrite wrap_small by lia. apply u32_as_i32_nonneg. lia. Qed.

(** A status frame has exactly the announced size. *)
Lemma status_frame_length (text : list Z) :
  wire_len (Z.of_nat (length text)) < 2 ^ 31 ->
  Z.of_nat (length (status_frame text)) = wire_len (Z.of_nat (length text)).
Proof.
  intros H. set (n := Z.of_nat (length text)) in *. pose proof (wire_len_above n).
  assert (Hn : 0 <= n < 2 ^ 31) by lia. pose proof (varint_size_pos n).
  pose proof (varint_size_pos (n + varint_size n + 1)).
  assert (Lb : Z.of_nat (length (status_body text)) = n + varint_size n + 1).
  { unfold status_body. rewrite len_as_i32_small by lia. fold n. unfold put_varint.
    rewrite !length_app. pose proof (varint_size_i32 n Hn) as V. unfold put_varint in V. cbn [app] in V.
    cbn [length]. lia. }
  unfold status_frame, frame. unfold wire_len in H.
  rewrite len_as_i32_small, Lb, length_app by lia. rewrite Nat2Z.inj_add, varint_size_i32 by lia.
  rewrite Lb. unfold wire_len. lia.
Qed.

Lemma decimal_digits_length (fuel : nat) (n : Z) : (length (decimal_digits fuel n) <= fuel)%nat.
Proof.
  revert n. induction fuel as [| fuel IH]; intros n; [done |]. cbn [decimal_digits].
  destruct (n <? 10); cbn [length]; [lia |]. rewrite length_app. specialize (IH (n / 10)). cbn. lia.
Qed.

(** The value of a string of decimal digits. *)
Definition decimal_value (l : list Z) : Z := fold_left (fun acc b => acc * 10 + (b - 48)) l 0.

Lemma decimal_digits_value (fuel : nat) (n : Z) :
  (0 < fuel)%nat -> 0 <= n < 10 ^ Z.of_nat fuel -> decimal_value (decimal_digits fuel n) = n.
Proof.
  revert n. induction fuel as [| fuel IH]; intros n Hf Hn; [lia |]. cbn [decimal_digits].
  destruct (Z.ltb_spec n 10) as [L | L]; [unfold decimal_value; cbn; lia |].
  rewrite Nat2Z.inj_succ, Z.pow_succ_r in Hn by lia.
  assert (n / 10 < 10 ^ Z.of_nat fuel) by (apply Z.div_lt_upper_bound; lia).
  assert (1 <= n / 10) by (apply Z.div_le_lower_bound; lia).
  assert ((0 < fuel)%nat) by (destruct fuel; [cbn in *; lia | lia]).
  unfold decimal_value in *. rewrite fold_left_app. cbn [fold_left].
  rewrite IH by lia. pose proof (Z.div_mod n 10 ltac:(lia)). lia.
Qed.

(** ** Prepared responses *)

Section Prepared.
Context {Value : Type} `{JsonLib Value}.

(** What a successful preparation has checked. *)
Lemma Prepared_new_inv (value : Value) (max : Z) (p : Prepared) :
  Prepared_new value max = Some p ->
  exists text, to_vec value = Some text /\ original p = status_frame text /\
    wire_len (Z.of_nat (length text)) <= max /\
    match json_get value key_version ≫= as_object with
    | None => parts p = None
    | Some version => exists whole suffix, as_object value = Some whole /\
        status_suffix version whole = Some suffix /\ parts p = Some (status_prefix, suffix) /\
        wire_len (Z.of_nat (length status_prefix) + 10 + Z.of_nat (length suffix)) <= max
    end.
Proof.
  unfold Prepared_new. intros E. destruct (to_vec value) as [text |]; [| discriminate]. cbn [mbind option_bind] in E.
  destruct (wire_size _) as [size |] eqn:S; [| discriminate]. cbn [mbind option_bind] in E.
  apply wire_size_some in S. destruct (size >? max) eqn:G; [discriminate |]. breflect.
  exists text. split; [done |].
  destruct (json_get value key_version ≫= as_object) as [version |].
  - destruct (as_object value) as [whole |]; [| discriminate]. cbn [mbind option_bind] in E.
    destruct (status_suffix version whole) as [suffix |] eqn:Sf; [| discriminate]. cbn [mbind option_bind] in E.
    destruct (checked_add (Z.of_nat (length status_prefix)) 10) as [x |] eqn:C1; [| discriminate].
    cbn [mbind option_bind] in E.
    destruct (checked_add x (Z.of_nat (length suffix))) as [y |] eqn:C2; [| discriminate].
    cbn [mbind option_bind] in E. apply checked_add_some in C1 as ->, C2 as ->.
    destruct (wire_size _) as [size2 |] eqn:S2 in E; [| discriminate]. cbn [mbind option_bind] in E.
    apply wire_size_some in S2. destruct (size2 >? max) eqn:G2; [discriminate |]. breflect.
    injection E as <-. split; [done |]. split; [lia |]. exists whole, suffix. split_and!; auto. lia.
  - injection E as <-. split_and!; auto. lia.
Qed.

Lemma render_frame (p : Prepared) (version : Z) (prefix suffix : list Z) :
  0 <= version -> parts p = Some (prefix, suffix) ->
  Prepared_render p version = status_frame (prefix ++ i32_to_string version ++ suffix).
Proof.
  intros Hv Hp. unfold Prepared_render. destruct (Z.ltb_spec version 0); [lia |]. rewrite Hp. done.
Qed.

Lemma render_bounded (value : Value) (max : Z) (p : Prepared) (version : Z) :
  Prepared_new value max = Some p -> max < 2 ^ 31 ->
  Z.of_nat (length (Prepared_render p version)) <= max.
Proof.
  intros E Hm. destruct (Prepared_new_inv value max p E) as (text & _ & Eo & Ht & Pp).
  assert (O : Z.of_nat (length (original p)) <= max) by (rewrite Eo, status_frame_length; lia).
  destruct (Z.lt_ge_cases version 0) as [L | L].
  { unfold Prepared_render. destruct (Z.ltb_spec version 0); [done | lia]. }
  destruct (json_get value key_version ≫= as_object) as [v |].
  2:{ unfold Prepared_render. destruct (version <? 0); [done |]. now rewrite Pp. }
  destruct Pp as (whole & suffix & _ & _ & Pp & Hs). rewrite (render_frame p version _ _ L Pp).
  pose proof (decimal_digits_length 10 version) as D. fold (i32_to_string version) in D.
  assert (W : wire_len (Z.of_nat (length (status_prefix ++ i32_to_string version ++ suffix))) <= max).
  { eapply Z.le_trans; [apply wire_len_mono | exact Hs]. rewrite !length_app. lia. }
  rewrite status_frame_length; lia.
Qed.

End Prepared.

(** The response rendered for a non-negative client version is exactly the frame around the
    compact serialisation of the backend's status with the protocol number replaced by the client's,
    as the first member of the version object, and every other member kept, in order. *)
Theorem status_render_exact {Value : Type} `{JsonLaws Value} (value vv : Value) (max : Z) (p : Prepared)
  (ves es : list (list Z * Value)) (version : Z) :
  Prepared_new value max = Some p -> json_get value key_version = Some vv ->
  as_object vv = Some ves -> as_object value = Some es -> 0 <= version < 2 ^ 31 ->
  exists text,
    to_vec (json_object ((key_version,
        json_object ((key_protocol, json_int version) :: other_members key_protocol ves)) ::
      other_members key_version es)) = Some text /\
    Prepared_render p version = status_frame text.
Proof.
  intros E G Ev Ew Hv. destruct (Prepared_new_inv value max p E) as (_ & _ & _ & _ & Pp).
  rewrite G in Pp. cbn [mbind option_bind] in Pp. rewrite Ev in Pp.
  destruct Pp as (whole & suffix & Ew' & Es & Pp & _). rewrite Ew in Ew'. injection Ew' as <-.
  rewrite (render_frame p version _ _ (proj1 Hv) Pp).
  unfold status_suffix in Es.
  destruct (members_vec (other_members key_protocol ves)) as [a |] eqn:Ea; [| discriminate].
  cbn [mbind option_bind] in Es.
  destruct (members_vec (other_members key_version es)) as [b |] eqn:Eb; [| discriminate].
  cbn [mbind option_bind] in Es. injection Es as <-.
  assert (Lv : Forall (fun b => 97 <= b <= 122) key_version) by (repeat (apply Forall_cons; split; [lia |]); apply Forall_nil_2).
  assert (Lp : Forall (fun b => 97 <= b <= 122) key_protocol) by (repeat (apply Forall_cons; split; [lia |]); apply Forall_nil_2).
  eexists. split.
  - rewrite json_object_vec. unfold entry_vec at 1. cbn [fst snd].
    rewrite (json_key_vec key_version Lv), json_object_vec. cbn [mbind option_bind].
    unfold entry_vec at 1. cbn [fst snd].
    rewrite (json_key_vec key_protocol Lp), (json_int_vec version Hv). cbn [mbind option_bind].
    rewrite Ea. cbn [mbind option_bind]. rewrite Eb. cbn [mbind option_bind]. reflexivity.
  - f_equal. unfold status_prefix. rewrite <- !app_assoc. cbn [app]. now rewrite <- ?app_assoc.
Qed.

(** ** The cache serves bounded responses *)

Section CacheRuns.
Context {Value : Type} `{JsonLib Value} (max : Z).

Definition prepared_ok (p : Prepared) : Prop := exists value : Value, Prepared_new value max = Some p.
Definition cache_ok (c : StatusCache) : Prop :=
  prepared_ok (fallback c) /\ forall v, sc_value c = Some v -> prepared_ok (c_value v).

(** What a round of the refresh task found: whether a permit was free, and the body of the backend's
    answer if one arrived in time. *)
Fixpoint refresh_run (c : StatusCache) (m : Metrics) (rounds : list (bool * option (list Z) * Instant))
  : StatusCache * Metrics :=
  match rounds with
  | [] => (c, m)
  | (permit, body, now) :: rest =>
    let '(c, m) := refresh_round c m permit (body ≫= fun b => poll_body b max) now in
    refresh_run c m rest
  end.

Lemma poll_body_ok (body : list Z) (p : Prepared) : poll_body body max = Some p -> prepared_ok p.
Proof.
  unfold poll_body. destruct (Cursor_int _) as [[[] c] |]; try discriminate.
  destruct (Cursor_string c max) as [[text c'] |]; [| discriminate].
  destruct (from_str text) as [value |]; [| discriminate]. cbn [mbind option_bind].
  destruct (as_object value); [| discriminate]. cbn [mbind option_bind].
  destruct (Cursor_finish c'); [| discriminate]. intros E. now exists value.
Qed.

Lemma refresh_run_ok (c : StatusCache) (m : Metrics) (rounds : list (bool * option (list Z) * Instant)) :
  cache_ok c -> cache_ok (fst (refresh_run c m rounds)).
Proof.
  revert c m. induction rounds as [| [[permit body] now] rounds IH]; intros c m C; [done |].
  cbn [refresh_run]. unfold refresh_round.
  destruct permit; [| apply IH; done].
  destruct body as [b |]; cbn [mbind option_bind]; [| apply IH; done].
  destruct (poll_body b max) as [p |] eqn:E; [| apply IH; done].
  apply IH. split; [apply C |]. intros v [= <-]. cbn. eapply poll_body_ok, E.
Qed.

(** The fallback and the time to live are fixed. *)
Lemma refresh_run_frame (c : StatusCache) (m : Metrics) (rounds : list (bool * option (list Z) * Instant)) :
  fallback (fst (refresh_run c m rounds)) = fallback c /\ ttl (fst (refresh_run c m rounds)) = ttl c.
Proof.
  revert c m. induction rounds as [| [[permit body] now] rounds IH]; intros c m; [done |].
  cbn [refresh_run]. unfold refresh_round. destruct permit; [| apply IH].
  destruct body as [b |]; cbn [mbind option_bind]; [| apply IH].
  destruct (poll_body b max) as [p |]; [| apply IH].
  exact (IH (mkStatusCache (Some (mkCached p now)) (fallback c) (ttl c)) _).
Qed.

Lemma get_bounded (c : StatusCache) (m : Metrics) (version : Z) (now : Instant) :
  cache_ok c -> max < 2 ^ 31 -> Z.of_nat (length (fst (StatusCache_get c m version now))) <= max.
Proof.
  intros [Cf Cv] Hm. assert (B : forall p, prepared_ok p -> Z.of_nat (length (Prepared_render p version)) <= max).
  { intros p (value & E). exact (render_bounded value max p version E Hm). }
  unfold StatusCache_get. destruct (sc_value c) as [v |]; [destruct (_ <? _) |]; cbn [fst]; auto.
Qed.

(** The cache never serves an oversized response: whatever the backend answers to any number of
    polls, at whatever times and to whatever client version, the response is within the configured
    limit; a stale or absent entry is answered from the validated fallback. *)
Theorem cache_serves_bounded (c : StatusCache) (m m' : Metrics)
  (rounds : list (bool * option (list Z) * Instant)) (version : Z) (now : Instant) :
  cache_ok c -> max < 2 ^ 31 ->
  let c' := fst (refresh_run c m rounds) in
  let served := fst (StatusCache_get c' m' version now) in
  Z.of_nat (length served) <= max /\
  (served = Prepared_render (fallback c) version \/
   exists v, sc_value c' = Some v /\ served = Prepared_render (c_value v) version /\
     saturating_duration_since now (c_at v) < ttl c).
Proof.
  intros C Hm c' served. pose proof (refresh_run_ok c m rounds C) as C'. fold c' in C'.
  destruct (refresh_run_frame c m rounds) as [Ff Ft]. fold c' in Ff, Ft.
  split; [now apply get_bounded |]. unfold served, StatusCache_get. rewrite <- Ff, <- Ft.
  destruct (sc_value c') as [v |] eqn:V; [| now left].
  destruct (Z.ltb_spec (saturating_duration_since now (c_at v)) (ttl c')); cbn [fst]; [right | now left].
  exists v. now split_and!.
Qed.
End CacheRuns.

(** ** What a poll accepts *)

Definition status_grammar {Value : Type} `{JsonLib Value} (max : Z) (body : list Z) (value : Value) : Prop :=
  exists id text enc, body = id ++ enc /\ encodes 0 id /\ blob_enc max text enc /\ is_utf8 text = true /\
    from_str text = Some value /\ as_object value <> None.

(** A poll of the backend accepts exactly the status packets: packet id 0, one UTF-8 string within
    the response limit and nothing after it, whose text is JSON for an object which can be prepared
    within the limit; anything else leaves the cache as it was. *)
Theorem poll_exact {Value : Type} `{JsonLib Value} (body : list Z) (max : Z) (p : Prepared) :
  is_bytes body -> Z.of_nat (length body) < 2 ^ 64 ->
  poll_body body max = Some p <->
  exists value, status_grammar max body value /\ Prepared_new value max = Some p.
Proof.
  intros Hb Hl. pose proof (reads_new body Hb Hl) as R. unfold poll_body. split.
  - intros I. destruct (Cursor_int _) as [[[] c] |] eqn:E; try discriminate.
    eapply Cursor_int_iff in E as (id & r & Q & E0 & ->); [| exact R]. subst body. apply reads_advance in R.
    destruct (Cursor_string _ max) as [[text c'] |] eqn:E; [| discriminate].
    eapply Cursor_string_iff in E as (enc & r' & Q & B & U & ->); [| exact R]. subst r. apply reads_advance in R.
    destruct (from_str text) as [value |] eqn:F; [| discriminate]. cbn [mbind option_bind] in I.
    destruct (as_object value) as [es |] eqn:O; [| discriminate]. cbn [mbind option_bind] in I.
    destruct (Cursor_finish _) as [u |] eqn:E; [| discriminate].
    eapply Cursor_finish_iff in E; [| exact R]. subst r'. rewrite app_nil_r in *.
    exists value. split; [| done]. exists id, text, enc. split_and!; auto. congruence.
  - intros (value & (id & text & enc & -> & E0 & B & U & F & O) & P).
    rewrite (int_read _ _ _ _ R E0). apply reads_advance in R.
    pose proof (eq_ind_r (reads _) R (app_nil_r enc)) as R'. clear R.
    rewrite (string_read _ _ _ _ _ R' B U). apply reads_advance in R'.
    rewrite F. cbn [mbind option_bind]. destruct (as_object value) as [es |]; [| done]. cbn [mbind option_bind].
    now rewrite (proj2 (Cursor_finish_iff _ [] tt R') eq_refl).
Qed.

(** ** A concrete document type *)

Inductive Json : Type := JNum (n : Z) | JStr (s : list Z) | JObj (es : list (list Z * Json)).

Definition quoted (s : list Z) : list Z := [34] ++ s ++ [34].

Fixpoint Json_vec (j : Json) : list Z :=
  match j with
  | JNum n => i32_to_string n
  | JStr s => quoted s
  | JObj [] => [123; 125]
  | JObj ((k, v) :: rest) =>
    [123] ++ quoted k ++ [58] ++ Json_vec v ++
    (fix members (es : list (list Z * Json)) : list Z :=
       match es with
       | [] => []
       | (k, v) :: rest => [44] ++ quoted k ++ [58] ++ Json_vec v ++ members rest
       end) rest ++ [125]
  end.

(** [{"version":{"protocol":47,"name":"x"},"players":{}}] *)
Definition sample_status : Json :=
  JObj [(key_version, JObj [(key_protocol, JNum 47); ([110; 97; 109; 101], JStr [120])]);
        ([112; 108; 97; 121; 101; 114; 115], JObj [])].

(** A parser of two documents. *)
#[global] Instance Json_lib : JsonLib Json := {
  to_vec j := Some (Json_vec j);
  key_to_vec k := Some (quoted k);
  as_object j := match j with JObj es => Some es | _ => None end;
  from_str t := find (fun j => bool_decide (Json_vec j = t)) [sample_status; JObj []] }.

#[global] Instance Json_laws : JsonLaws Json.
Proof.
  refine {| json_object := JObj; json_int := JNum |}; [| done | done].
  intros [k v] rest. cbn [to_vec Json_lib Json_vec]. unfold entry_vec at 1.
  cbn [key_to_vec to_vec Json_lib fst snd mbind option_bind].
  assert (M : members_vec rest = Some ((fix members (es : list (list Z * Json)) : list Z :=
       match es with
       | [] => []
       | (k, v) :: rest => [44] ++ quoted k ++ [58] ++ Json_vec v ++ members rest
       end) rest)).
  { induction rest as [| [k' v'] rest IH]; [done |]. cbn [members_vec]. rewrite IH.
    unfold entry_vec. cbn [key_to_vec to_vec Json_lib fst snd mbind option_bind]. now rewrite <- !app_assoc. }
  rewrite M. cbn [mbind option_bind]. now rewrite <- !app_assoc.
Defined.

Definition sample_prepared : Prepared :=
  Eval vm_compute in default (mkPrepared [] None) (Prepared_new sample_status 256).

Lemma sample_prepared_new : Prepared_new sample_status 256 = Some sample_prepared.
Proof. vm_compute. reflexivity. Qed.

Lemma status_render_exact_witness :
  exists text, to_vec (json_object ((key_version,
        json_object ((key_protocol, json_int 776) :: [([110; 97; 109; 101], JStr [120])])) ::
      [([112; 108; 97; 121; 101; 114; 115], JObj [])])) = Some text /\
    Prepared_render sample_prepared 776 = status_frame text.
Proof.
  exact (status_render_exact sample_status (JObj [(key_protocol, JNum 47); ([110; 97; 109; 101], JStr [120])]) 256
    sample_prepared [(key_protocol, JNum 47); ([110; 97; 109; 101], JStr [120])]
    [(key_version, JObj [(key_protocol, JNum 47); ([110; 97; 109; 101], JStr [120])]);
     ([112; 108; 97; 121; 101; 114; 115], JObj [])]
    776 sample_prepared_new eq_refl eq_refl eq_refl ltac:(lia)).
Defined.

(** A cache whose fallback is the empty document. *)
Definition sample_fallback : Prepared :=
  Eval vm_compute in default (mkPrepared [] None) (Prepared_new (JObj []) 256).
Definition sample_cache : StatusCache := mkStatusCache None sample_fallback 5000000000.
Definition sample_body : list Z := Eval vm_compute in status_body (Json_vec sample_status).

Lemma cache_serves_bounded_witness :
  let c' := fst (refresh_run (Value := Json) 256 sample_cache Metrics_new
    [(true, Some sample_body, 1000); (false, None, 2000); (true, Some [1; 2], 3000)]) in
  let served := fst (StatusCache_get c' Metrics_new 776 4000) in
  Z.of_nat (length served) <= 256 /\
  (served = Prepared_render sample_fallback 776 \/
   exists v, sc_value c' = Some v /\ served = Prepared_render (c_value v) 776 /\
     saturating_duration_since 4000 (c_at v) < 5000000000).
Proof.
  refine (cache_serves_bounded (Value := Json) 256 sample_cache Metrics_new Metrics_new _ 776 4000 _ _); [| lia].
  split; [exists (JObj []); vm_compute; reflexivity | intros v E; discriminate].
Defined.

Lemma poll_exact_witness :
  poll_body (Value := Json) sample_body 256 = Some sample_prepared /\
  exists value, status_grammar (Value := Json) 256 sample_body value /\
    Prepared_new value 256 = Some sample_prepared.
Proof.
  assert (E : poll_body (Value := Json) sample_body 256 = Some sample_prepared) by (vm_compute; reflexivity).
  split; [exact E |]. apply (poll_exact (Value := Json) sample_body 256 sample_prepared); [| | exact E].
  - repeat (apply Forall_cons; split; [unfold is_u8; lia |]). apply Forall_nil_2.
  - vm_compute. reflexivity.
Defined.
