(* ===== verification/Registry.v ===== *)
(** * Who touches the metric registry

    Every operation of the limiter, the circuit breaker and the status cache changes the registry by
    atomic operations on existing slots only, so that it stays well typed and no index is ever out of
    range. *)
From S2P Require Import Prelude Machine Float64 Metrics Net Config Limiter LimiterFacts LimiterSystem LimiterEffects.
From S2P Require Import Utf8 Protocol Backend Cache.
From stdpp Require Import base option list gmap relations.
From Stdlib Require Import ZArith Lia.
Local Open Scope Z_scope.

(** Follow the branches of an operation and collect its updates. *)
Ltac touch := repeat first [progress auto 10 with touches | case_match]; auto 10 with touches.

(** ** The limiter *)

Lemma judged_touches (m0 m : Metrics) (a : bool) (n : nat) (p : Policy) :
  (n < length NAMES)%nat -> touches m0 m -> touches m0 (snd (judged m a n p)).
Proof. intros Hn T. unfold judged. destruct (a || exempt p), (observe p); cbn [snd]; auto with touches. Qed.

(** The next verdict of a chain: a refusal ends it with the registry touched so far. *)
Ltac judge :=
  match goal with
  | |- context [judged ?m ?a ?n ?p] =>
    let T := fresh "T" in let j := fresh "j" in let m' := fresh "m" in
    pose proof (fun m0 => judged_touches m0 m a n p ltac:(vm_compute; lia)) as T;
    destruct (judged m a n p) as [j m']; cbn [snd] in T; destruct j; cbn [negb];
    [| solve [intros [= _ <-]; cbn [l_metrics keep_existing]; auto 10 with touches]]
  end.

Lemma accept_tokens_touches (l l' : Limiter) (ip prefix : IpAddr) (i net : Entry) (p : Policy) (now : Instant)
  (r : option Ticket) :
  accept_tokens l ip prefix i net p now = Some (r, l') -> touches (l_metrics l) (l_metrics l').
Proof.
  unfold accept_tokens. destruct (mode_factor _ _) as [f |]; [| discriminate]. cbn [mbind option_bind].
  destruct (entry_available i _ _ _ _) as [ip_ok i']. destruct (entry_available net _ _ _ _) as [prefix_ok net'].
  judge.
  judge.
  destruct (Bucket_available _ _ _ _) as [global_ok g].
  judge.
  intros [= _ <-]. cbn [l_metrics]. touch.
Qed.

Lemma accept_touches (l l' : Limiter) (ip : IpAddr) (p : Policy) (now : Instant) (r : option Ticket) :
  Limiter_accept l ip p now = Some (r, l') -> touches (l_metrics l) (l_metrics l').
Proof.
  unfold Limiter_accept. repeat (destruct (_ || _); [intros [= _ <-]; cbn; touch |]).
  apply accept_tokens_touches.
Qed.

Lemma event_touches (l l' : Limiter) (t : Ticket) (ev : Event) (p : Policy) (now : Instant) (b : bool) :
  Limiter_event l t ev p now = Some (b, l') -> touches (l_metrics l) (l_metrics l').
Proof.
  unfold Limiter_event. destruct (mode_factor _ _) as [f |]; [| discriminate]. cbn [mbind option_bind].
  destruct (table_get _ _) as [ip |]; [| intros [= _ <-]; touch].
  destruct (table_get _ _) as [prefix |]; [| intros [= _ <-]; touch].
  destruct (entry_available _ _ _ _ _) as [ip_ok i'].
  destruct (entry_available _ _ _ _ _) as [prefix_ok net'].
  judge.
  judge.
  destruct (Bucket_available _ _ _ _) as [global_ok g].
  judge. intros [= _ <-]. cbn [l_metrics]. auto 10 with touches.
Qed.

Lemma status_touches (l l' : Limiter) (t t' : Ticket) (b : bool) :
  Ticket_enter_status l t = (b, t', l') -> touches (l_metrics l) (l_metrics l').
Proof.
  unfold Ticket_enter_status. destruct (t_status t); [intros [= _ _ <-]; touch |].
  destruct (table_get _ _); [| intros [= _ _ <-]; touch].
  destruct (reached _ _); intros [= _ _ <-]; cbn; touch.
Qed.

Lemma drop_metrics_touches (t : Ticket) (m : Metrics) : touches m (drop_metrics t m).
Proof. unfold drop_metrics. touch. Qed.

Lemma sweep_touches (cfg : Limits) (now : Instant) (shard : nat) (t : Table) (n : nat) (m : Metrics) :
  (n < length NAMES)%nat -> touches m (snd (sweep_table cfg now shard t n m)).
Proof.
  intros Hn. unfold sweep_table. cbv zeta. cbn [snd]. generalize (size (shard_map t (shard mod Z.to_nat SHARDS)) -
    size (filter (fun kv => sweep_keep cfg now (snd kv) = true) (shard_map t (shard mod Z.to_nat SHARDS))))%nat as k.
  induction k as [| k IH]; [apply touches_refl |]. change (touches m (Metrics_dec (Nat.iter k (fun m => Metrics_dec m n) m) n)).
  auto with touches.
Qed.

Lemma sweep_ip_touches (l : Limiter) (shard : nat) (now : Instant) :
  touches (l_metrics l) (l_metrics (sweep_ip l shard now)).
Proof.
  unfold sweep_ip. pose proof (sweep_touches (l_cfg l) now shard (l_ip l) 32 (l_metrics l) ltac:(vm_compute; lia)) as T.
  now destruct (sweep_table _ _ _ _ _ _).
Qed.

Lemma sweep_prefix_touches (l : Limiter) (shard : nat) (now : Instant) :
  touches (l_metrics l) (l_metrics (sweep_prefix l shard now)).
Proof.
  unfold sweep_prefix. pose proof (sweep_touches (l_cfg l) now shard (l_prefix l) 33 (l_metrics l) ltac:(vm_compute; lia)) as T.
  now destruct (sweep_table _ _ _ _ _ _).
Qed.

(** ** The circuit breaker and the cache *)

Lemma enter_touches (p p' : Protection) (now : Instant) (o : option Attempt) :
  enter_locked p now = (o, p') -> touches (p_metrics p) (p_metrics p').
Proof.
  unfold enter_locked. destruct (circuit_refuses _ _); [intros [= _ <-]; touch |].
  destruct (dial_budget _ _ _) as [[] s]; cbn [negb]; intros [= _ <-]; cbn; touch.
Qed.

Lemma finish_touches (p : Protection) (gen : Z) (ok : bool) (now : Instant) :
  touches (p_metrics p) (p_metrics (Protection_finish p gen ok now)).
Proof.
  unfold Protection_finish. repeat (case_match; cbn [p_metrics with_state]); auto with touches.
Qed.

Lemma get_touches (c : StatusCache) (m : Metrics) (v : Z) (now : Instant) :
  touches m (snd (StatusCache_get c m v now)).
Proof.
  unfold StatusCache_get. destruct (sc_value c) as [x |]; [destruct (_ <? _) |]; cbn [snd]; auto with touches.
Qed.
