(* ===== verification/Exposition.v ===== *)
(** * The metrics page ([gate/src/metrics.rs], [render] and [serve])

    The text page of all metrics, and the loop that reads a request and answers it. Formatting a
    floating-point number is a library function and a parameter. A scrape of the page gives back every
    metric, and the answer depends on the bytes of the request only, not on how they arrive. *)
From S2P Require Import Prelude Machine Float64 Metrics Cache.
From stdpp Require Import base option list strings.
From Stdlib Require Import ZArith Lia.
Local Open Scope Z_scope.

(** ** The page *)

(** The bytes of an ASCII literal. *)
Definition text (s : string) : list Z := map (fun c => Z.of_N (Ascii.N_of_ascii c)) (String.list_ascii_of_string s).

Definition gauge_slots : list nat := [1; 2; 3; 30; 32; 33; 34; 35; 36; 42]%nat.
Definition metric_kind (i : nat) : list Z :=
  if existsb (Nat.eqb i) gauge_slots then text "gauge" else text "counter".

(** A [u64] in decimal has at most twenty digits. *)
Definition u64_to_string (n : Z) : list Z := decimal_digits 20 n.

Definition metric_name (name : string) : list Z := text "xddp_gate_" ++ text name.

(** The two lines of metric [i]. *)
Definition metric_lines (m : Metrics) (i : nat) (name : string) : list (list Z) :=
  [text "# TYPE " ++ metric_name name ++ [32] ++ metric_kind i;
   metric_name name ++ [32] ++ u64_to_string (Metrics_get m i)].

(** [writeln!] of every line. *)
Definition write_lines (ls : list (list Z)) : list Z := flat_map (fun l => l ++ [10]) ls.

Definition f64_million : f64 := Eval vm_compute in f64_of_Z 1000000.
Definition average (m : Metrics) : f64 :=
  let count := Metrics_get m 19 in
  if count =? 0 then f64_zero
  else f64_div (f64_div (f64_of_Z (Metrics_get m 18)) (f64_of_Z count)) f64_million.

Section Page.
(** [f64]'s [Display]. *)
Context (show_f64 : f64 -> list Z).

Definition Metrics_render (m : Metrics) : list Z :=
  write_lines (concat (imap (metric_lines m) NAMES)) ++
  text "xddp_gate_average_prelogin_duration_seconds " ++ show_f64 (average m) ++ [10].

(** ** Requests *)

(** Four bytes that end a request head. *)
Definition crlf2 : list Z := [13; 10; 13; 10].
Fixpoint head_complete (used : list Z) : bool :=
  match used with
  | [] => false
  | _ :: rest => bool_decide (take 4 used = crlf2) || head_complete rest
  end.

Fixpoint starts_with (prefix l : list Z) : bool :=
  match prefix, l with
  | [], _ => true
  | p :: prefix, x :: l => (p =? x) && starts_with prefix l
  | _, _ => false
  end.

(** The request buffer has 2048 bytes; every round reads at least one, so that as many rounds are
    enough. [None] is a connection closed without an answer: its stream ended or the buffer is full. *)
Fixpoint read_request (fuel : nat) (used : list Z) (chunks : list (list Z)) : option (list Z) :=
  match fuel with
  | O => None
  | S fuel =>
    if (length used =? 2048)%nat then None
    else match chunks with
    | [] => None
    | c :: rest =>
      let room := (2048 - length used)%nat in
      match take room c with
      | [] => None
      | got =>
        let used := used ++ got in
        if head_complete used then Some used
        else read_request fuel used (match drop room c with [] => rest | more => more :: rest end)
      end
    end
  end.

Definition request_line : list Z := text "GET /metrics HTTP/1.".

(** The answer to the request in [used]. *)
Definition answer_request (m : Metrics) (used : list Z) : list Z :=
  let ok := starts_with request_line used in
  let body := if ok then Metrics_render m else text "not found" ++ [10] in
  text "HTTP/1.1 " ++ (if ok then text "200 OK" else text "404 Not Found") ++
  [13; 10] ++ text "Content-Type: text/plain; version=0.0.4" ++ [13; 10] ++
  text "Content-Length: " ++ u64_to_string (Z.of_nat (length body)) ++
  [13; 10] ++ text "Connection: close" ++ crlf2 ++ body.

(** One connection of [serve], within its two seconds. *)
Definition metrics_connection (m : Metrics) (chunks : list (list Z)) : option (list Z) :=
  used ← read_request 2049 [] chunks; Some (answer_request m used).
End Page.

(** ** Scraping the page *)

Fixpoint split_lines (acc l : list Z) : list (list Z) :=
  match l with
  | [] => match acc with [] => [] | _ => [rev acc] end
  | b :: l => if b =? 10 then rev acc :: split_lines [] l else split_lines (b :: acc) l
  end.

Fixpoint split_space (acc l : list Z) : option (list Z * list Z) :=
  match l with
  | [] => None
  | b :: l => if b =? 32 then Some (rev acc, l) else split_space (b :: acc) l
  end.

(** A sample: comment lines are skipped. *)
Definition sample_of (l : list Z) : option (list Z * Z) :=
  match l with
  | 35 :: _ => None
  | _ => '(name, digits) ← split_space [] l; Some (name, decimal_value digits)
  end.

Definition scrape (page : list Z) : list (list Z * Z) := omap sample_of (split_lines [] page).

Definition plain (b : Z) : bool := negb (b =? 10) && negb (b =? 32).

Lemma split_lines_app (l rest acc : list Z) :
  Forall (fun b => b <> 10) l -> split_lines acc (l ++ 10 :: rest) = (rev acc ++ l) :: split_lines [] rest.
Proof.
  revert acc. induction l as [| b l IH]; intros acc F; cbn [app split_lines]; [now rewrite app_nil_r |].
  apply Forall_cons in F as [N F]. destruct (Z.eqb_spec b 10); [done |]. rewrite IH by done. cbn [rev].
  now rewrite <- app_assoc.
Qed.

Lemma split_lines_write (ls : list (list Z)) (rest : list Z) :
  Forall (Forall (fun b => b <> 10)) ls -> split_lines [] (write_lines ls ++ rest) = ls ++ split_lines [] rest.
Proof.
  induction ls as [| l ls IH]; intros F; [done |]. apply Forall_cons in F as [Fl F].
  cbn [write_lines flat_map app]. rewrite <- !app_assoc. cbn [app]. rewrite split_lines_app by done. cbn [rev app].
  f_equal. now apply IH.
Qed.

Lemma split_space_app (l rest acc : list Z) :
  Forall (fun b => b <> 32) l -> split_space acc (l ++ 32 :: rest) = Some (rev acc ++ l, rest).
Proof.
  revert acc. induction l as [| b l IH]; intros acc F; cbn [app split_space]; [now rewrite app_nil_r |].
  apply Forall_cons in F as [N F]. destruct (Z.eqb_spec b 32); [done |]. rewrite IH by done. cbn [rev].
  now rewrite <- app_assoc.
Qed.

Lemma decimal_digits_range (fuel : nat) (n : Z) : 0 <= n -> Forall (fun b => 48 <= b <= 57) (decimal_digits fuel n).
Proof.
  revert n. induction fuel as [| fuel IH]; intros n Hn; [constructor |]. cbn [decimal_digits].
  destruct (Z.ltb_spec n 10); [repeat constructor; lia |]. apply Forall_app. split.
  - apply IH, Z.div_pos; lia.
  - pose proof (Z.mod_pos_bound n 10 ltac:(lia)). repeat constructor; lia.
Qed.

(** The names are words. *)
Lemma names_plain : Forall (fun n => forallb plain (metric_name n) = true) NAMES.
Proof. repeat (constructor; [vm_compute; reflexivity |]). constructor. Qed.

Lemma metric_name_plain (name : string) :
  name ∈ NAMES -> Forall (fun b => b <> 10) (metric_name name) /\ Forall (fun b => b <> 32) (metric_name name).
Proof.
  intros Hin. pose proof names_plain as P. rewrite Forall_forall in P. specialize (P name Hin).
  rewrite forallb_forall in P. split; apply Forall_forall; intros b Hb ->; apply list_elem_of_In, P in Hb; discriminate.
Qed.

Lemma decimal_no_newline (n : Z) : 0 <= n -> Forall (fun b => b <> 10) (u64_to_string n).
Proof. intros H. eapply Forall_impl; [apply decimal_digits_range, H |]. cbn. lia. Qed.

Lemma no_newline (l : list Z) : forallb (fun b => negb (b =? 10)) l = true -> Forall (fun b => b <> 10) l.
Proof.
  intros F. rewrite forallb_forall in F. apply Forall_forall. intros b Hb ->. apply list_elem_of_In, F in Hb. discriminate.
Qed.

(** A metric's two lines hold one sample. *)
Lemma metric_lines_ok (m : Metrics) (i : nat) (name : string) :
  name ∈ NAMES -> is_u64 (Metrics_get m i) ->
  Forall (Forall (fun b => b <> 10)) (metric_lines m i name) /\
  omap sample_of (metric_lines m i name) = [(metric_name name, Metrics_get m i)].
Proof.
  intros Hin Hv. destruct (metric_name_plain name Hin) as [N S]. unfold is_u64 in Hv. split.
  - unfold metric_lines. rewrite !Forall_cons, Forall_nil, !Forall_app.
    assert (D : Forall (fun b => b <> 10) (u64_to_string (Metrics_get m i))) by (apply decimal_no_newline; lia).
    assert (B : Forall (fun b => b <> 10) [32]) by now apply no_newline.
    split_and!; auto; [now apply no_newline |]. unfold metric_kind. destruct (existsb _ _); now apply no_newline.
  - unfold metric_lines. cbn [omap list_omap].
    change (sample_of (text "# TYPE " ++ metric_name name ++ [32] ++ metric_kind i)) with (@None (list Z * Z)). cbv iota.
    assert (E : sample_of (metric_name name ++ [32] ++ u64_to_string (Metrics_get m i)) =
      Some (metric_name name, decimal_value (u64_to_string (Metrics_get m i)))).
    { change (sample_of (metric_name name ++ [32] ++ u64_to_string (Metrics_get m i))) with
        ('(a, b) ← split_space [] (metric_name name ++ 32 :: u64_to_string (Metrics_get m i)); Some (a, decimal_value b)).
      now rewrite split_space_app. }
    rewrite E. unfold u64_to_string. rewrite decimal_digits_value; [done | lia |].
    change (10 ^ Z.of_nat 20) with 100000000000000000000. lia.
Qed.

Lemma scrape_lines (names : list string) :
  forall (F : nat -> string -> list (list Z)) (V : nat -> Z),
    (forall i n, n ∈ names -> omap sample_of (F i n) = [(metric_name n, V i)]) ->
    omap sample_of (concat (imap F names)) = imap (fun i n => (metric_name n, V i)) names.
Proof.
  induction names as [| n names IH]; intros F V HF; [done |]. rewrite !imap_cons. cbn [concat].
  rewrite omap_app, HF by now left. cbn [app]. f_equal. apply (IH (F ∘ S) (V ∘ S)). intros i k Hk. apply HF. now right.
Qed.

Lemma typed_get (m : Metrics) (i : nat) : metrics_typed m -> is_u64 (Metrics_get m i).
Proof.
  intros [_ U]. unfold Metrics_get. destruct (values m !! i) as [v |] eqn:E; cbn.
  - eapply Forall_lookup_1 in U; [exact U | exact E].
  - unfold is_u64. lia.
Qed.

(** The metrics page can be read back: scraping it, line by line, skipping comments, splitting at the
    space and reading the decimal number, gives first every metric of the registry under its own
    name, in order, with exactly its value, whatever the formatting of the average at the end. *)
Theorem metrics_page_roundtrip (show_f64 : f64 -> list Z) (m : Metrics) :
  metrics_typed m ->
  take (length NAMES) (scrape (Metrics_render show_f64 m)) = zip_with (fun n v => (metric_name n, v)) NAMES (values m).
Proof.
  intros T. unfold scrape, Metrics_render. rewrite split_lines_write.
  - rewrite omap_app, (scrape_lines NAMES (metric_lines m) (Metrics_get m)).
    + rewrite take_app_le by now rewrite length_imap. rewrite take_ge by now rewrite length_imap.
      apply list_eq. intros i. rewrite list_lookup_imap, lookup_zip_with. destruct (NAMES !! i) as [n |] eqn:E; [| done].
      assert (L : (i < length (values m))%nat) by (rewrite (proj1 T); exact (lookup_lt_Some _ _ _ E)).
      apply lookup_lt_is_Some in L as [v Hv]. unfold Metrics_get. now rewrite Hv.
    + intros i n Hn. apply metric_lines_ok; auto using typed_get.
  - apply Forall_concat, Forall_forall. intros ls Hl. apply elem_of_lookup_imap in Hl as (i & n & -> & Hn).
    apply metric_lines_ok; [exact (list_elem_of_lookup_2 _ _ _ Hn) | now apply typed_get].
Qed.

(** ** The request loop *)

Lemma head_complete_spec (l : list Z) : head_complete l = true <-> exists a b, l = a ++ crlf2 ++ b.
Proof.
  induction l as [| x l IH]; cbn [head_complete].
  - split; [done |]. intros (a & b & E). destruct a; discriminate.
  - rewrite orb_true_iff, IH, bool_decide_eq_true. split.
    + intros [E | (a & b & ->)]; [| now exists (x :: a), b]. exists [], (drop 4 (x :: l)). cbn [app].
      rewrite <- E. symmetry. apply take_drop.
    + intros ([| y a] & b & E).
      * left. rewrite E. reflexivity.
      * right. injection E as -> ->. eauto.
Qed.

Lemma head_complete_prefix (u d : list Z) : u `prefix_of` d -> head_complete u = true -> head_complete d = true.
Proof.
  intros [k ->]. rewrite !head_complete_spec. intros (a & b & ->). exists a, (b ++ k). now rewrite <- !app_assoc.
Qed.

Lemma starts_with_spec (p l : list Z) : starts_with p l = true <-> p `prefix_of` l.
Proof.
  revert l. induction p as [| x p IH]; intros l; cbn [starts_with]; [split; [intros _; apply prefix_nil | done] |].
  destruct l as [| y l]; [split; [discriminate | intros [k E]; discriminate] |].
  rewrite andb_true_iff, Z.eqb_eq, IH. split.
  - intros [-> E]. now apply prefix_cons.
  - intros E. split; [now apply prefix_cons_inv_1 in E | now apply prefix_cons_inv_2 in E].
Qed.

Lemma read_request_spec (fuel : nat) :
  forall used chunks, Forall (fun c => c <> []) chunks -> (2048 - length used < fuel)%nat -> (length used <= 2048)%nat ->
  head_complete used = false ->
  match read_request fuel used chunks with
  | Some u => u `prefix_of` take 2048 (used ++ concat chunks) /\ head_complete u = true
  | None => head_complete (take 2048 (used ++ concat chunks)) = false
  end.
Proof.
  induction fuel as [| fuel IH]; intros used chunks Hc Hf Hl Hn; [lia |]. cbn [read_request].
  destruct (Nat.eqb_spec (length used) 2048) as [E | E]; [now rewrite take_app_le, take_ge by lia |].
  destruct chunks as [| c rest]; [now rewrite app_nil_r, take_ge by lia |].
  apply Forall_cons in Hc as [Hne Hc]. set (room := (2048 - length used)%nat).
  pose proof (take_drop room c) as Td. destruct (take room c) as [| b got] eqn:G.
  { destruct c; [done |]. replace room with (S (room - 1)) in G by lia. discriminate. }
  set (more := match drop room c with [] => rest | x :: l => (x :: l) :: rest end).
  assert (D : used ++ concat (c :: rest) = (used ++ b :: got) ++ concat more).
  { cbn [concat]. rewrite <- Td, <- !app_assoc. do 2 f_equal. unfold more. now destruct (drop room c). }
  assert (Lg : (length (b :: got) <= room)%nat) by (rewrite <- G, length_take; lia).
  rewrite D. destruct (head_complete (used ++ b :: got)) eqn:Hh.
  - split; [| done]. rewrite take_app_ge by (rewrite length_app; lia). apply prefix_app_r. done.
  - apply IH; auto; rewrite ?length_app; cbn [length] in *; try lia.
    unfold more. destruct (drop room c); [done | now constructor].
Qed.

(** A request line does not end a request head. *)
Lemma request_line_incomplete (u : list Z) : u `prefix_of` request_line -> head_complete u = false.
Proof.
  intros P. destruct (head_complete u) eqn:E; [| done]. apply (head_complete_prefix _ _ P) in E.
  vm_compute in E. discriminate.
Qed.

(** The metrics endpoint answers the request, not its packets: for any way the bytes of a request
    arrive, the answer is that of all its bytes, up to 2048, arriving at once: the page for a GET of
    the page, 404 for any other request, and no answer when the request head is not complete within
    the buffer. *)
Theorem serve_exact (show_f64 : f64 -> list Z) (m : Metrics) (chunks : list (list Z)) :
  Forall (fun c => c <> []) chunks ->
  let data := take 2048 (concat chunks) in
  metrics_connection show_f64 m chunks = if head_complete data then Some (answer_request show_f64 m data) else None.
Proof.
  intros Hc data. unfold metrics_connection.
  pose proof (read_request_spec 2049 [] chunks Hc ltac:(cbn [length]; lia) ltac:(cbn [length]; lia) eq_refl) as S.
  change ([] ++ concat chunks) with (concat chunks) in S. fold data in S.
  destruct (read_request 2049 [] chunks) as [u |]; cbn [mbind option_bind]; [| now rewrite S].
  destruct S as [P H]. rewrite (head_complete_prefix _ _ P H). f_equal. unfold answer_request.
  assert (E : starts_with request_line u = starts_with request_line data); [| now rewrite E].
  apply Bool.eq_iff_eq_true. rewrite !starts_with_spec. split; intros Q; [etrans; [exact Q | exact P] |].
  destruct (prefix_weak_total _ _ _ Q P) as [W | W]; [done |]. apply request_line_incomplete in W. congruence.
Qed.

(** ** Instances *)

Definition sample_registry : Metrics := Metrics_add (Metrics_inc (Metrics_inc Metrics_new 0) 55) 18 12345678901234567890.

Lemma metrics_page_roundtrip_witness :
  take 2 (scrape (Metrics_render (fun _ => [48]) sample_registry)) =
  [(metric_name "tcp_accepts", 1); (metric_name "active_connections", 0)].
Proof.
  assert (T : metrics_typed sample_registry) by (apply touches_typed with (m := Metrics_new);
    [unfold sample_registry; auto 10 with touches | apply Metrics_new_typed]).
  pose proof (metrics_page_roundtrip (fun _ => [48]) sample_registry T) as R.
  apply (f_equal (take 2)) in R. rewrite take_take in R. change (2 `min` length NAMES)%nat with 2%nat in R.
  rewrite R. vm_compute. reflexivity.
Defined.

(** A request in two packets. *)
Lemma serve_exact_witness :
  metrics_connection (fun _ => [48]) sample_registry [text "GET /met"; text "rics HTTP/1.1" ++ [13; 10]; [13; 10]] =
  Some (answer_request (fun _ => [48]) sample_registry (text "GET /metrics HTTP/1.1" ++ crlf2)).
Proof.
  rewrite (serve_exact (fun _ => [48]) sample_registry [text "GET /met"; text "rics HTTP/1.1" ++ [13; 10]; [13; 10]]).
  - vm_compute. reflexivity.
  - repeat constructor; discriminate.
Defined.
