(* ===== verification/Validate.v ===== *)
(** * Whole-document validation ([gate/src/config.rs])

    [Config] and [Config::validate]. Sums of sizes are written with the wrap-around of unchecked
    [usize] arithmetic; that no sum wraps is part of what is proved. *)
From S2P Require Import Prelude Machine Float64 Net Config LimiterFacts LimiterEffects Wire Protocol FrameIO Proxy Cache Samples.
From stdpp Require Import base option list gmap strings.
From Stdlib Require Import ZArith Lia SpecFloat.
Local Open Scope Z_scope.
Local Open Scope gate_scope.

Section Config.
Context {Value : Type} `{JsonLib Value} {IpNet : Type} `{IpNetLib IpNet}.

(** The [cache] section. *)
Record Cache : Type := mkCache {
  cc_host : list Z; cc_port : Z; cc_protocol : Z; ttl_seconds : Z; max_response_bytes : Z; cc_fallback : Value }.

Record Config : Type := mkConfig {
  listen : SocketAddr; c_backend : SocketAddr; c_metrics : SocketAddr; proxy_v2 : bool;
  incoming_proxy_v2 : IncomingProxyV2 IpNet; allow_backend_identity_loss : bool; ipv6 : bool;
  c_observe : bool; runtime_file : list Z; workers : Z; relay_buffer : Z; upload : Upload;
  backend_protection : BackendProtection; limits : Limits; timeouts : Timeouts; protocol : Protocol;
  cache : Cache }.

(** [(lo..=hi).contains(&x)]. *)
Definition within (lo hi x : Z) : bool := (lo <=? x) && (x <=? hi).

Definition bad_backend_protection (l : Limits) (b : BackendProtection) : bool :=
  (max_connecting b >? l_backend l) || (failure_threshold b >? 10000) || (cooldown_ms b >? 120000) ||
  negb (Rate_valid (attempts b)) || negb (Bool.eqb (failure_threshold b =? 0) (cooldown_ms b =? 0)).

Definition bad_relay_deadlines (t : Timeouts) : bool :=
  (relay_stall_ms t >? 3600000) || (half_close_ms t >? 3600000) || (client_idle_ms t >? 3600000).

Definition bad_upload (u : Upload) : bool :=
  (bytes_per_second u >? 1000000000) || (burst_bytes u >? 1000000000) ||
  negb (Bool.eqb (bytes_per_second u =? 0) (burst_bytes u =? 0)).

Definition bad_addresses (c : Config) : bool :=
  negb (is_loopback (sa_ip (c_metrics c))) || bool_decide (listen c = c_backend c) ||
  bool_decide (listen c = c_metrics c).
Definition bad_ports (c : Config) : bool :=
  (sa_port (listen c) =? 0) || (sa_port (c_backend c) =? 0) || (sa_port (c_metrics c) =? 0).

Definition bad_trust (c : Config) : bool :=
  let trust := trusted_proxies (incoming_proxy_v2 c) in
  match trust with [] => true | _ => false end || (Z.of_nat (length trust) >? 512) ||
  existsb (fun net => (net_prefix_len net =? 0) || (is_ipv6 (net_addr net) && negb (ipv6 c))) trust.

Definition bad_limits (l : Limits) : bool :=
  (total_sockets l <? 4) || (total_sockets l >? 100000) || (l_prelogin l =? 0) ||
  (status_connections l >? l_prelogin l) ||
  (status_ip l >? if status_connections l =? 0 then l_prelogin l else status_connections l) ||
  (prelogin_ip l >? l_prelogin l) || (prelogin_prefix l >? l_prelogin l) ||
  (l_prelogin l >? total_sockets l) || (l_admitted l >? total_sockets l) || (l_backend l >? total_sockets l) ||
  (l_admitted l =? 0) || (l_backend l <? 2) ||
  (usize_add (usize_add (l_prelogin l) (l_admitted l)) (l_backend l) >? total_sockets l) ||
  (ip_entries l <? 64) || (ip_entries l >? 1000000) || (prefix_entries l <? 64) ||
  (prefix_entries l >? 1000000) || negb (ip_entries l mod 64 =? 0) || negb (prefix_entries l mod 64 =? 0) ||
  (ipv4_prefix l >? 32) || (ipv6_prefix l >? 128) || (idle_entry_seconds l =? 0) ||
  (churn_half_life_seconds l =? 0) || (churn_window_seconds l >? 60) || (penalty_seconds l >? 3600) ||
  negb (is_finite (churn_score_threshold l)) || f64_ltb (churn_score_threshold l) f64_zero ||
  negb (is_finite (churn_prefix_score_threshold l)) || f64_ltb (churn_prefix_score_threshold l) f64_zero.

Definition bad_rates (l : Limits) : bool :=
  existsb (fun rates => existsb (fun r => negb (Rate_valid r)) (quad_to_list (Rates_list rates)))
    [ip_rates l; prefix_rates l; global_rates l].

(** [windows(2).any(|x| x[1] > x[0])]. *)
Fixpoint increases (l : list f64) : bool :=
  match l with
  | x :: (y :: _) as rest => f64_ltb x y || increases rest
  | _ => false
  end.

Definition bad_modes (l : Limits) : bool :=
  existsb (fun x => negb (is_finite x) || f64_leb x f64_zero || f64_ltb f64_one x) (mode_multipliers l) ||
  increases (mode_multipliers l).

Definition bad_protocol (p : Protocol) : bool :=
  negb (within 64 65536 (max_frame p)) || (max_initial_bytes p <? usize_add (max_frame p) 5) ||
  (max_initial_bytes p >? 131072) || negb (within 1 4096 (max_host_bytes p)) ||
  (max_host_bytes p >? max_frame p) || existsb (fun x => x =? 0) (allowed_ports p) ||
  (min_protocol p <? 0) || (min_protocol p >? max_protocol p) ||
  (Z.of_nat (length (allowed_hosts p)) >? 256) || (Z.of_nat (size (login_schemas p)) >? 1024) ||
  existsb (fun kv => negb (known_schema (snd kv))) (map_to_list (login_schemas p)) ||
  negb ((future_login_schema p =? "disabled")%string || known_schema (future_login_schema p)).

Definition bad_phases (t : Timeouts) : bool :=
  existsb (fun ms => (ms =? 0) || (ms >? 120000))
    [first_progress_ms t; progress_ms t; handshake_ms t; login_ms t; status_ms t; backend_ms t].

Definition bad_cache (c : Config) : bool :=
  let k := cache c in
  (shutdown_seconds (timeouts c) >? 3600) || (ttl_seconds k =? 0) || (ttl_seconds k >? 300) ||
  negb (within 256 65536 (max_response_bytes k)) || match cc_host k with [] => true | _ => false end ||
  (Z.of_nat (length (cc_host k)) >? 255) || (cc_port k =? 0) ||
  match as_object (cc_fallback k) with Some _ => false | None => true end ||
  negb (valid_status (cc_fallback k) (max_response_bytes k)).

(** [StatusCache::new]; [None] is the panic on a fallback that cannot be prepared. *)
Definition StatusCache_new (c : Config) : exec StatusCache :=
  p ← Prepared_new (cc_fallback (cache c)) (max_response_bytes (cache c));
  Some (mkStatusCache None p (from_secs (ttl_seconds (cache c)))).

(** The reasons [validate] gives, in the order it checks them. *)
Inductive ConfigError : Type :=
| BadBackendProtection | BadRelayDeadlines | BadUpload | BadWorkers | BadAddresses | BadPorts | NeedsIpv6
| BadTrust | IdentityLoss | FamilyMismatch | BadLimits | BadRates | BadModes | BadProtocol | BadPhases | BadCache.

Definition validate (c : Config) : result unit ConfigError :=
  if bad_backend_protection (limits c) (backend_protection c) then Err BadBackendProtection
  else if bad_relay_deadlines (timeouts c) then Err BadRelayDeadlines
  else if bad_upload (upload c) then Err BadUpload
  else if (workers c =? 0) || (workers c >? 64) || negb (within 1024 65536 (relay_buffer c)) then Err BadWorkers
  else if bad_addresses c then Err BadAddresses
  else if bad_ports c then Err BadPorts
  else if negb (ipv6 c) && (is_ipv6 (sa_ip (listen c)) || is_ipv6 (sa_ip (c_backend c))) then Err NeedsIpv6
  else if enabled (incoming_proxy_v2 c) && bad_trust c then Err BadTrust
  else if negb (proxy_v2 c) && negb (allow_backend_identity_loss c) then Err IdentityLoss
  else if proxy_v2 c && negb (Bool.eqb (is_ipv4 (sa_ip (listen c))) (is_ipv4 (sa_ip (c_backend c))))
  then Err FamilyMismatch
  else if bad_limits (limits c) then Err BadLimits
  else if bad_rates (limits c) then Err BadRates
  else if bad_modes (limits c) then Err BadModes
  else if bad_protocol (protocol c) then Err BadProtocol
  else if bad_phases (timeouts c) then Err BadPhases
  else if bad_cache c then Err BadCache
  else Ok tt.
End Config.

Arguments Cache Value : clear implicits.
Arguments Config Value IpNet : clear implicits.

(** ** What validation establishes *)

(** What the types of the fields already guarantee. *)
Record limits_typed (l : Limits) : Prop := {
  lt_sockets : is_u64 (total_sockets l); lt_prelogin : is_u64 (l_prelogin l);
  lt_admitted : is_u64 (l_admitted l); lt_backend : is_u64 (l_backend l); lt_status : is_u64 (status_connections l);
  lt_rates : Forall (fun rates => quad_all rate_wf (Rates_list rates)) [ip_rates l; prefix_rates l; global_rates l];
  lt_modes : Forall valid (mode_multipliers l); lt_modes_length : length (mode_multipliers l) = 4%nat }.

Lemma bad_rates_ok (l : Limits) :
  limits_typed l -> bad_rates l = false ->
  Forall (fun rates => quad_all rate_ok (Rates_list rates)) [ip_rates l; prefix_rates l; global_rates l].
Proof.
  intros T H. pose proof (lt_rates l T) as W. unfold bad_rates in H.
  apply Forall_forall. intros rates Hin e. rewrite Forall_forall in W.
  apply Rate_valid_ok; [now apply W |].
  destruct (Rate_valid (quad_get (Rates_list rates) e)) eqn:V; [done |]. exfalso.
  rewrite <- Bool.not_true_iff_false in H. apply H, existsb_exists. exists rates.
  split; [now apply list_elem_of_In |]. apply existsb_exists. exists (quad_get (Rates_list rates) e).
  split; [destruct e; cbn; auto | now rewrite V].
Qed.

Lemma factor_ok_cmp (x : f64) :
  valid x -> is_finite x = true -> f64_leb x f64_zero = false -> f64_ltb f64_one x = false -> factor_ok x.
Proof.
  intros V F L O. assert (P : f64_ltb f64_zero x = true).
  { destruct x as [| | | [] m e]; try discriminate; done. }
  split; [done |]. destruct (Z.le_gt_cases (val x) unit64) as [| G]; [done | exfalso].
  assert (N : nonneg x) by (split; [destruct x as [| | | [] m e]; done | done]).
  rewrite <- val_one in G. apply (ltb_val f64_one x) in G; [congruence | done | done | done | done].
Qed.

Lemma bad_modes_ok (l : Limits) :
  limits_typed l -> bad_modes l = false -> Forall factor_ok (mode_multipliers l).
Proof.
  intros T H. pose proof (lt_modes l T) as W. unfold bad_modes in H. apply orb_false_iff in H as [H _].
  apply Forall_forall. intros x Hin. rewrite Forall_forall in W. specialize (W x Hin).
  destruct (negb (is_finite x) || f64_leb x f64_zero || f64_ltb f64_one x) eqn:E.
  { exfalso. rewrite <- Bool.not_true_iff_false in H. apply H, existsb_exists. exists x.
    split; [now apply list_elem_of_In | done]. }
  breflect. apply factor_ok_cmp; auto.
Qed.

Lemma bad_limits_ok (l : Limits) :
  limits_typed l -> bad_limits l = false ->
  (64 <= ip_entries l <= 1000000 /\ 64 <= prefix_entries l <= 1000000) /\
  l_prelogin l + l_admitted l + l_backend l <= total_sockets l <= 100000 /\
  0 < l_prelogin l /\ 0 < l_admitted l /\ 2 <= l_backend l /\ status_connections l <= l_prelogin l.
Proof.
  intros [Ts Tp Ta Tb _ _ _ _] H. unfold bad_limits in H. breflect.
  unfold is_u64, usize_add in *.
  match goal with H : wrap 64 (wrap 64 _ + _) <= _ |- _ => rename H into S end.
  rewrite (wrap_small 64 (l_prelogin l + l_admitted l)), wrap_small in S by lia.
  lia.
Qed.

Lemma validate_limits_ok (l : Limits) :
  limits_typed l -> bad_limits l = false -> bad_rates l = false -> bad_modes l = false -> cfg_ok l.
Proof.
  intros T L R M. destruct (bad_limits_ok l T L) as [[? ?] _].
  pose proof (bad_rates_ok l T R) as W. rewrite !Forall_cons in W. destruct W as (? & ? & ? & _).
  split; auto using bad_modes_ok. apply T.
Qed.

(** Every version in the configured range has a schema, unless it is below the built-in table or
    beyond it with future versions disabled. *)
Lemma bad_protocol_schemas (p : Protocol) (version : Z) :
  bad_protocol p = false -> min_protocol p <= version <= max_protocol p -> version <= i32_max ->
  (is_Some (login_schemas p !! version) \/ 4 <= version /\ (version <= 776 \/ future_login_schema p <> "disabled"%string)) ->
  exists s m, login_schema version p = Ok s /\ login_max version p = Ok m.
Proof.
  intros B Hr Hi Hv. unfold bad_protocol in B. breflect.
  assert (E : exists s, login_schema version p = Ok s).
  { unfold login_schema.
    replace ((version <? min_protocol p) || (version >? max_protocol p)) with false
      by (symmetry; apply orb_false_iff; split; lia).
    destruct (login_schemas p !! version) as [s |] eqn:L.
    - cbn [result_bind]. destruct (known_schema s) eqn:K; [eauto | exfalso].
      match goal with X : existsb _ (map_to_list _) = false |- _ => rewrite <- Bool.not_true_iff_false in X; apply X end.
      apply existsb_exists. exists (version, s). cbn [snd]. rewrite K. split; [| done].
      apply list_elem_of_In. now apply elem_of_map_to_list.
    - destruct Hv as [[? ?] | [Hlo Hf]]; [discriminate |].
      destruct ((4 <=? version) && (version <=? 758)) eqn:G1; [now eexists |].
      destruct (version =? 759) eqn:G2; [now eexists |]. destruct (version =? 760) eqn:G3; [now eexists |].
      destruct ((761 <=? version) && (version <=? 763)) eqn:G4; [now eexists |].
      destruct ((764 <=? version) && (version <=? 776)) eqn:G5; [now eexists |].
      assert (777 <= version) by lia. destruct Hf as [Hf | Hf]; [lia |].
      replace ((777 <=? version) && (version <=? i32_max)) with true
        by (symmetry; apply andb_true_iff; rewrite !Z.leb_le; lia).
      cbn [result_bind]. match goal with X : _ || known_schema _ = true |- _ =>
        apply orb_true_iff in X as [X | X]; [now apply String.eqb_eq in X | rewrite X; now eexists] end. }
  destruct E as [s E]. pose proof (login_schema_known _ _ _ E) as [_ K]. exists s.
  unfold login_max. rewrite E. cbn [result_bind].
  repeat (destruct K as [<- | K]; [eexists; split; reflexivity |]). destruct K.
Qed.

Section Sound.
Context {Value : Type} `{JsonLib Value} {IpNet : Type} `{IpNetLib IpNet}.

(** The unsigned fields outside [limits]. *)
Record config_typed (c : Config Value IpNet) : Prop := {
  ct_limits : limits_typed (limits c);
  ct_upload : is_u64 (bytes_per_second (upload c)) /\ is_u64 (burst_bytes (upload c));
  ct_phases : Forall is_u64 [first_progress_ms (timeouts c); progress_ms (timeouts c); handshake_ms (timeouts c);
    login_ms (timeouts c); status_ms (timeouts c); backend_ms (timeouts c)];
  ct_relay : Forall is_u64 [relay_stall_ms (timeouts c); half_close_ms (timeouts c); client_idle_ms (timeouts c)];
  ct_shutdown : is_u64 (shutdown_seconds (timeouts c));
  ct_workers : is_u64 (workers c);
  ct_churn : is_u64 (idle_entry_seconds (limits c)) /\ is_u64 (churn_half_life_seconds (limits c)) /\
    is_u64 (churn_window_seconds (limits c)) /\ is_u64 (penalty_seconds (limits c));
  ct_identity : 0 <= status_ip (limits c) /\ 0 <= prelogin_ip (limits c) /\ 0 <= prelogin_prefix (limits c) /\
    0 <= ipv4_prefix (limits c) /\ 0 <= ipv6_prefix (limits c);
  ct_circuit : 0 <= max_connecting (backend_protection c) /\ 0 <= failure_threshold (backend_protection c) /\
    0 <= cooldown_ms (backend_protection c);
  ct_cache : 0 <= cc_port (cache c) /\ 0 <= ttl_seconds (cache c);
  ct_ports : 0 <= sa_port (listen c) /\ 0 <= sa_port (c_backend c) /\ 0 <= sa_port (c_metrics c) }.

(** The schema names of a login parser. *)
Definition schema_names : list string :=
  ["legacy"; "signed"; "signed_uuid"; "optional_uuid"; "uuid"; "backend"]%string.

(** What a component may rely on once the gate has started. *)
Record config_sound (c : Config Value IpNet) : Prop := {
  cs_limiter : cfg_ok (limits c);
  cs_stripes : ip_entries (limits c) mod 64 = 0 /\ prefix_entries (limits c) mod 64 = 0;
  cs_sockets : l_prelogin (limits c) + l_admitted (limits c) + l_backend (limits c) <= total_sockets (limits c) <= 100000;
  cs_permits : 0 < l_prelogin (limits c) /\ 0 < l_admitted (limits c) /\ 2 <= l_backend (limits c);
  cs_status : status_connections (limits c) <= l_prelogin (limits c) /\
    0 <= status_ip (limits c) <= l_prelogin (limits c) /\
    (status_connections (limits c) <> 0 -> status_ip (limits c) <= status_connections (limits c));
  cs_shares : 0 <= prelogin_ip (limits c) <= l_prelogin (limits c) /\
    0 <= prelogin_prefix (limits c) <= l_prelogin (limits c);
  cs_prefixes : 0 <= ipv4_prefix (limits c) <= 32 /\ 0 <= ipv6_prefix (limits c) <= 128;
  cs_churn : 0 < idle_entry_seconds (limits c) /\ 0 < churn_half_life_seconds (limits c) /\
    0 <= churn_window_seconds (limits c) <= 60 /\ 0 <= penalty_seconds (limits c) <= 3600;
  cs_scores : Forall (fun x => is_finite x = true /\ f64_ltb x f64_zero = false)
    [churn_score_threshold (limits c); churn_prefix_score_threshold (limits c)];
  cs_modes : forall i x y, mode_multipliers (limits c) !! i = Some x -> mode_multipliers (limits c) !! S i = Some y ->
    f64_ltb x y = false;
  cs_handshake : handshake_max (protocol c) + 5 <= max_initial_bytes (protocol c) <= 131072;
  cs_frames : 64 <= max_frame (protocol c) <= 65536 /\ 1 <= max_host_bytes (protocol c) <= 4096 /\
    max_host_bytes (protocol c) <= max_frame (protocol c);
  cs_names : (0 ∉ allowed_ports (protocol c)) /\ (length (allowed_hosts (protocol c)) <= 256)%nat;
  cs_versions : 0 <= min_protocol (protocol c) <= max_protocol (protocol c);
  cs_overrides : (size (login_schemas (protocol c)) <= 1024)%nat /\
    (forall version s, login_schemas (protocol c) !! version = Some s -> s ∈ schema_names) /\
    (future_login_schema (protocol c) = "disabled"%string \/ future_login_schema (protocol c) ∈ schema_names);
  cs_schemas : forall version, min_protocol (protocol c) <= version <= max_protocol (protocol c) -> version <= i32_max ->
    is_Some (login_schemas (protocol c) !! version) \/
    4 <= version /\ (version <= 776 \/ future_login_schema (protocol c) <> "disabled"%string) ->
    exists s m, login_schema version (protocol c) = Ok s /\ login_max version (protocol c) = Ok m;
  cs_upload : 0 <= bytes_per_second (upload c) <= 1000000000 /\ 0 <= burst_bytes (upload c) <= 1000000000 /\
    (bytes_per_second (upload c) = 0 <-> burst_bytes (upload c) = 0);
  cs_phases : Forall (fun ms => 1 <= ms <= 120000)
    [first_progress_ms (timeouts c); progress_ms (timeouts c); handshake_ms (timeouts c);
     login_ms (timeouts c); status_ms (timeouts c); backend_ms (timeouts c)];
  cs_relay : Forall (fun ms => 0 <= ms <= 3600000)
    [relay_stall_ms (timeouts c); half_close_ms (timeouts c); client_idle_ms (timeouts c)];
  cs_shutdown : 0 <= shutdown_seconds (timeouts c) <= 3600;
  cs_workers : 1 <= workers c <= 64 /\ 1024 <= relay_buffer c <= 65536;
  cs_fallback : (exists s, StatusCache_new c = Some s) /\ is_Some (as_object (cc_fallback (cache c)));
  cs_response : 256 <= max_response_bytes (cache c) <= 65536;
  cs_cache : 1 <= ttl_seconds (cache c) <= 300 /\ cc_host (cache c) <> [] /\
    (length (cc_host (cache c)) <= 255)%nat /\ 0 < cc_port (cache c);
  cs_circuit : (failure_threshold (backend_protection c) = 0 <-> cooldown_ms (backend_protection c) = 0) /\
    0 <= failure_threshold (backend_protection c) <= 10000 /\ 0 <= cooldown_ms (backend_protection c) <= 120000 /\
    0 <= max_connecting (backend_protection c) <= l_backend (limits c);
  cs_dial : Rate_valid (attempts (backend_protection c)) = true;
  cs_addresses : is_loopback (sa_ip (c_metrics c)) = true /\ listen c <> c_backend c /\ listen c <> c_metrics c /\
    0 < sa_port (listen c) /\ 0 < sa_port (c_backend c) /\ 0 < sa_port (c_metrics c);
  cs_family : ipv6 c = false -> is_ipv4 (sa_ip (listen c)) = true /\ is_ipv4 (sa_ip (c_backend c)) = true;
  cs_trust : enabled (incoming_proxy_v2 c) = true ->
    trusted_proxies (incoming_proxy_v2 c) <> [] /\ (length (trusted_proxies (incoming_proxy_v2 c)) <= 512)%nat /\
    Forall (fun n => net_prefix_len n <> 0 /\ (ipv6 c = false -> is_ipv4 (net_addr n) = true))
      (trusted_proxies (incoming_proxy_v2 c));
  cs_identity : if proxy_v2 c then is_ipv4 (sa_ip (listen c)) = is_ipv4 (sa_ip (c_backend c))
    else allow_backend_identity_loss c = true }.

(** The checks a successful validation has passed. *)
Lemma validate_passed (c : Config Value IpNet) :
  validate c = Ok tt ->
  bad_backend_protection (limits c) (backend_protection c) = false /\
  enabled (incoming_proxy_v2 c) && bad_trust c = false /\
  proxy_v2 c && negb (Bool.eqb (is_ipv4 (sa_ip (listen c))) (is_ipv4 (sa_ip (c_backend c)))) = false /\
  bad_limits (limits c) = false /\ bad_rates (limits c) = false /\ bad_modes (limits c) = false /\
  bad_protocol (protocol c) = false /\ bad_cache c = false.
Proof.
  unfold validate. intros V.
  repeat match type of V with (if ?b then _ else _) = _ => destruct b; [discriminate |] end.
  done.
Qed.

Lemma validate_passed_too (c : Config Value IpNet) :
  validate c = Ok tt ->
  bad_relay_deadlines (timeouts c) = false /\ bad_upload (upload c) = false /\
  (workers c =? 0) || (workers c >? 64) || negb (within 1024 65536 (relay_buffer c)) = false /\
  bad_addresses c = false /\ bad_ports c = false /\
  negb (ipv6 c) && (is_ipv6 (sa_ip (listen c)) || is_ipv6 (sa_ip (c_backend c))) = false /\
  negb (proxy_v2 c) && negb (allow_backend_identity_loss c) = false /\ bad_phases (timeouts c) = false.
Proof.
  unfold validate. intros V.
  repeat match type of V with (if ?b then _ else _) = _ => destruct b; [discriminate |] end.
  done.
Qed.

Lemma existsb_none {A : Type} (f : A -> bool) (l : list A) : existsb f l = false -> Forall (fun x => f x = false) l.
Proof.
  induction l as [| x l IH]; [constructor |]. cbn. intros H1. apply orb_false_iff in H1 as [? ?]. constructor; auto.
Qed.

Lemma bad_trust_ok (c : Config Value IpNet) :
  bad_trust c = false ->
  trusted_proxies (incoming_proxy_v2 c) <> [] /\ (length (trusted_proxies (incoming_proxy_v2 c)) <= 512)%nat /\
  Forall (fun n => net_prefix_len n <> 0 /\ (ipv6 c = false -> is_ipv4 (net_addr n) = true))
    (trusted_proxies (incoming_proxy_v2 c)).
Proof.
  unfold bad_trust. intros B. apply orb_false_iff in B as [B Ex]. apply orb_false_iff in B as [Ne L].
  split; [now destruct (trusted_proxies _) |]. split; [breflect; lia |].
  apply existsb_none in Ex. eapply Forall_impl; [exact Ex |]. cbn beta. intros n E.
  apply orb_false_iff in E as [Z6 F6]. split; [now apply Z.eqb_neq |]. intros V6. rewrite V6 in F6.
  unfold is_ipv6 in F6. now destruct (is_ipv4 (net_addr n)).
Qed.

Lemma increases_ok (l : list f64) (i : nat) (x y : f64) :
  increases l = false -> l !! i = Some x -> l !! S i = Some y -> f64_ltb x y = false.
Proof.
  revert i. induction l as [| a [| b l] IH]; intros i I Hx Hy; [discriminate | now destruct i |].
  cbn [increases] in I. apply orb_false_iff in I as [I1 I2]. destruct i as [| i].
  - cbn in Hx, Hy. now injection Hx as <-; injection Hy as <-.
  - exact (IH i I2 Hx Hy).
Qed.

Lemma known_schema_names (s : string) : known_schema s = true -> s ∈ schema_names.
Proof.
  unfold known_schema, schema_names. intros K. apply list_elem_of_In. apply existsb_exists in K as (x & I & E).
  apply String.eqb_eq in E. subst x. cbn in *. tauto.
Qed.

Lemma bad_limits_bounds (l : Limits) :
  bad_limits l = false ->
  ip_entries l mod 64 = 0 /\ prefix_entries l mod 64 = 0 /\ status_ip l <= l_prelogin l /\
  (status_connections l <> 0 -> status_ip l <= status_connections l) /\
  prelogin_ip l <= l_prelogin l /\ prelogin_prefix l <= l_prelogin l /\ ipv4_prefix l <= 32 /\ ipv6_prefix l <= 128 /\
  idle_entry_seconds l <> 0 /\ churn_half_life_seconds l <> 0 /\ churn_window_seconds l <= 60 /\ penalty_seconds l <= 3600 /\
  Forall (fun x => is_finite x = true /\ f64_ltb x f64_zero = false)
    [churn_score_threshold l; churn_prefix_score_threshold l].
Proof.
  unfold bad_limits. intros B. breflect. rewrite !Forall_cons, Forall_nil.
  destruct (Z.eqb_spec (status_connections l) 0); split_and!; auto; lia.
Qed.

Lemma bad_protocol_bounds (p : Protocol) :
  bad_protocol p = false ->
  (max_frame p + 5 <= max_initial_bytes p <= 131072) /\ 64 <= max_frame p <= 65536 /\ 1 <= max_host_bytes p <= 4096 /\
  max_host_bytes p <= max_frame p /\ (0 ∉ allowed_ports p) /\ (length (allowed_hosts p) <= 256)%nat /\
  0 <= min_protocol p <= max_protocol p /\ (size (login_schemas p) <= 1024)%nat /\
  (forall version s, login_schemas p !! version = Some s -> s ∈ schema_names) /\
  (future_login_schema p = "disabled"%string \/ future_login_schema p ∈ schema_names).
Proof.
  unfold bad_protocol, within. intros B. breflect.
  repeat match goal with X : existsb _ _ = false |- _ => apply existsb_none in X; rewrite Forall_forall in X end.
  match goal with X : usize_add _ _ <= _ |- _ => unfold usize_add in X; rewrite wrap_small in X by lia end.
  split_and!; auto; try lia.
  - intros I. match goal with X : forall x, x ∈ allowed_ports p -> _ |- _ => specialize (X 0 I); discriminate end.
  - intros v s E. apply known_schema_names.
    match goal with X : forall x, x ∈ map_to_list _ -> _ |- _ => apply negb_false_iff, (X (v, s)) end.
    now apply elem_of_map_to_list.
  - match goal with X : (_ =? _)%string || _ = true |- _ => apply orb_true_iff in X as [X | X] end;
      [left; now apply String.eqb_eq | right; now apply known_schema_names].
Qed.

Lemma bad_times_ok (t : Timeouts) :
  Forall is_u64 [first_progress_ms t; progress_ms t; handshake_ms t; login_ms t; status_ms t; backend_ms t] ->
  bad_phases t = false ->
  Forall (fun ms => 1 <= ms <= 120000)
    [first_progress_ms t; progress_ms t; handshake_ms t; login_ms t; status_ms t; backend_ms t].
Proof.
  unfold bad_phases. intros T B. apply existsb_none in B. apply Forall_forall. intros ms I.
  rewrite Forall_forall in T, B. specialize (T ms I). specialize (B ms I). cbn beta in B. unfold is_u64 in T.
  breflect. lia.
Qed.

(** C39: A configuration that passes validation gives every component what its theorems ask for, as
    plain bounds on its fields: the limiter's preconditions, stripes, shares, prefixes, penalties,
    thresholds and non-increasing multipliers; permit pools that add up within the socket budget
    with no wrapped sum; frame, host and byte budgets, with room for a whole handshake; a login
    parser and a size bound for every version in range that has an override, is in the built-in
    table or is beyond it while future versions are allowed; upload rate and burst in bounds and
    both set or both zero; every phase deadline between 1 ms and 2 minutes, relay deadlines of at
    most an hour, a shutdown of at most an hour; a fallback status that can be prepared, so that
    constructing the cache cannot panic, and a response bound; the circuit enabled or disabled as a
    whole and a valid dial rate; distinct addresses, non-zero ports and a loopback scrape endpoint;
    no IPv6 address or trusted network unless enabled; at least one trusted network, never all
    addresses; and identity forwarded between equal families or given up explicitly. *)
Theorem validate_sound (c : Config Value IpNet) :
  config_typed c -> validate c = Ok tt -> config_sound c.
Proof.
  intros [Tl Tu Tp Tr Ts Tw Tc Ti Tb Tk Ta] V.
  destruct (validate_passed c V) as (BB & BT & BF & BL & BR & BM & BP & BC).
  destruct (validate_passed_too c V) as (BD & BU & BW & BA & BN & B6 & BI & BH).
  destruct (bad_limits_ok _ Tl BL) as (_ & Hs & ? & ? & ? & ?).
  destruct (bad_limits_bounds _ BL) as (? & ? & ? & ? & ? & ? & ? & ? & ? & ? & ? & ? & ?).
  destruct (bad_protocol_bounds _ BP) as (? & ? & ? & ? & ? & ? & ? & ? & ? & ?).
  pose proof (proj1 (orb_false_iff _ _) BM) as [_ BM2].
  rewrite ?Forall_cons in Tr. destruct Tr as (? & ? & ? & _).
  unfold bad_backend_protection in BB. unfold bad_cache, within in BC. unfold bad_relay_deadlines in BD.
  unfold bad_upload in BU. unfold within in BW. unfold bad_addresses in BA. unfold bad_ports in BN.
  unfold is_u64 in *. breflect.
  repeat match goal with X : Bool.eqb _ _ = true |- _ => apply Bool.eqb_prop in X; apply Bool.eq_iff_eq_true in X;
    rewrite !Z.eqb_eq in X end.
  repeat match goal with X : bool_decide _ = false |- _ => apply bool_decide_eq_false in X end.
  split; auto using validate_limits_ok, bad_times_ok; try lia; try (split_and!; auto; lia).
  - intros i x y. now apply increases_ok.
  - unfold handshake_max. lia.
  - intros version Hr Hi Hb. now apply bad_protocol_schemas.
  - rewrite !Forall_cons, Forall_nil. lia.
  - split.
    + unfold valid_status, StatusCache_new in *. destruct (Prepared_new _ _); [cbn; eauto | discriminate].
    + destruct (as_object _); [eauto | discriminate].
  - split_and!; auto; try lia. now destruct (cc_host (cache c)).
  - intros E6. rewrite E6 in B6. cbn [negb andb] in B6. apply orb_false_iff in B6 as [? ?].
    split; now apply negb_false_iff.
  - intros En. rewrite En in BT. now apply bad_trust_ok.
  - destruct (proxy_v2 c); cbn [andb negb] in *; [apply negb_false_iff in BF; now apply Bool.eqb_prop | now apply negb_false_iff].
Qed.
End Sound.

(** ** A configuration that validates *)

Definition sample_proxied : Cidr := mkCidr (V4 3221225984) 24 eq_refl.

Definition sample_config : Config Json Cidr := {|
  listen := SocketAddr_new (V4 3221225985) 25565; c_backend := SocketAddr_new (V4 2130706433) 25566;
  c_metrics := SocketAddr_new (V4 2130706433) 9100; proxy_v2 := true;
  incoming_proxy_v2 := mkIncomingProxyV2 true [sample_proxied]; allow_backend_identity_loss := false;
  ipv6 := false; c_observe := false; runtime_file := []; workers := 4; relay_buffer := 16384;
  upload := mkUpload 0 0 false; backend_protection := mkBackendProtection 64 5 1000 no_rate;
  limits := sample_limits; timeouts := mkTimeouts 3000 2000 5000 5000 5000 3000 30 0 0 0;
  protocol := sample_protocol;
  cache := mkCache [108; 111; 99; 97; 108] 25565 765 5 256 (JObj []) |}.

Lemma sample_limits_typed : limits_typed sample_limits.
Proof.
  split; try (cbn; unfold is_u64; lia).
  - repeat (apply Forall_cons; split; [intros []; split; vm_compute; reflexivity |]). apply Forall_nil_2.
  - repeat (apply Forall_cons; split; [vm_compute; reflexivity |]). apply Forall_nil_2.
Qed.

Lemma sample_config_typed : config_typed sample_config.
Proof. split; [exact sample_limits_typed | ..]; rewrite ?Forall_cons, ?Forall_nil; unfold is_u64; cbn; lia. Qed.

Lemma validate_sound_witness : config_sound sample_config.
Proof. apply (validate_sound sample_config sample_config_typed). vm_compute. reflexivity. Defined.
