(* ===== verification/Task.v ===== *)
(** * Connection tasks as programs over the gate's shared services

    The handler in [gate/src/main.rs] is a sequential program which talks to shared services: the
    clock, the limiter, the permit pools, the circuit breaker, the metric registry, the policy feed,
    the status cache and two sockets. A task is a finite tree of such calls. Every answer the
    environment may give is a branch, including, at every [await], the cancellation that happens
    when the gate shuts down and drops the task.

    [triple] is the resource discipline of a task: which permits, gauges, tickets and dial permits
    it holds at every call, and that it never gives up what it does not hold. *)
From S2P Require Import Prelude Machine Net Config Limiter Wire FrameIO Backend Cache.
From stdpp Require Import base option list.
From Stdlib Require Import ZArith Lia.
Local Open Scope Z_scope.

(** ** Calls *)

(** The permit pools of [State]. *)
Inductive Sem : Type := Sockets | Prelogin | AdmittedSlots | BackendSlots | StatusSlots.

#[global] Instance Sem_eq_dec : EqDecision Sem.
Proof. solve_decision. Defined.

(** How a write under a timeout ends. *)
Inductive WriteOutcome : Type := Wrote | WriteFailed | WriteElapsed.

(** Calls on shared services. The two critical sections of [mark_admitted] and of dropping a ticket
    are separate calls, as are taking a dial permit and entering the locked part of [enter]. *)
Inductive Eff : Type :=
| Now
| SetNodelay
| LocalAddr
| ReadProxy (socket_peer : SocketAddr) (deadline : Instant)
| ReadFrame (max left : Z) (deadline : Instant) (progress first_progress : Duration)
| ClientWrite (bytes : list Z) (limit : Duration)
| AskPolicy (ip : IpAddr)
| AcceptTicket (ip : IpAddr) (p : Policy)
| RateEvent (t : Ticket) (ev : Event) (p : Policy)
| EnterStatus (t : Ticket)
| AdmitIp (t : Ticket)
| AdmitPrefix (t : Ticket)
| DropIp (t : Ticket) (now : Instant)
| DropPrefix (t : Ticket) (now : Instant)
| TryAcquire (s : Sem)
| Release (s : Sem)
| MetricInc (n : nat)
| MetricAdd (n : nat) (v : Z)
| GaugeUp (n : nat)
| GaugeDown (n : nat)
| DialAcquire
| DialEnter (now : Instant)
| DialFinish (a : Attempt) (ok : bool) (now : Instant)
| DialRelease
| Connect
| BackendNodelay
| BackendWrite (bytes : list Z)
| RelayCopy
| BackendLocalAddr
| BackendRead (max left : Z) (deadline : Instant) (progress first_progress : Duration)
| CacheGet (version : Z)
| CacheStore (p : Prepared) (at_ : Instant).

(** The type of the answer. Where the answer to an [await] is an option, [None] is the cancellation
    of the task; [Connect] and [BackendWrite] answer whether they succeeded in time, and the inner
    option of [BackendRead] is [None] when the timeout around it elapsed. *)
Definition Ans (e : Eff) : Type :=
  match e with
  | Now => Instant
  | SetNodelay | BackendNodelay => bool
  | LocalAddr => option SocketAddr
  | ReadProxy _ _ => option (result (SocketAddr * SocketAddr) Error)
  | ReadFrame _ _ _ _ _ => option (result Frame Error * Z)
  | ClientWrite _ _ => option WriteOutcome
  | AskPolicy _ => Policy * bool
  | AcceptTicket _ _ => option Ticket
  | RateEvent _ _ _ => bool
  | EnterStatus _ => bool * Ticket
  | TryAcquire _ => bool
  | DialAcquire => bool
  | DialEnter _ => option Attempt
  | Connect | BackendWrite _ | RelayCopy => option bool
  | BackendLocalAddr => option SocketAddr
  | BackendRead _ _ _ _ _ => option (option (result Frame Error))
  | CacheGet _ => list Z
  | _ => unit
  end.

(** ** Programs *)

Inductive Prog (A : Type) : Type :=
| Ret (a : A)
| Act (e : Eff) (k : Ans e -> Prog A).
Arguments Ret {A} _.
Arguments Act {A} _ _.

Fixpoint bind {A B : Type} (p : Prog A) (f : A -> Prog B) : Prog B :=
  match p with
  | Ret a => f a
  | Act e k => Act e (fun x => bind (k x) f)
  end.

Definition call (e : Eff) : Prog (Ans e) := Act e (fun x => Ret x).

Declare Scope prog_scope.
Delimit Scope prog_scope with prog.
Notation "'do' x <- p ; k" := (bind p (fun x => k))
  (at level 10, x pattern, p at level 100, k at level 200) : prog_scope.
Notation "'do_' p ; k" := (bind p (fun _ => k))
  (at level 10, p at level 100, k at level 200) : prog_scope.
Local Open Scope prog_scope.

(** ** Early returns and cancellation *)

(** How a stretch of a handler with local state [L] ends: it goes on, returns early, or was
    cancelled at an [await]. *)
Inductive Ctl (L A : Type) : Type :=
| Next (a : A) (l : L)
| Exit (r : result unit Error) (l : L)
| Cancelled (l : L).
Arguments Next {L A} _ _.
Arguments Exit {L A} _ _.
Arguments Cancelled {L A} _.

Definition M (L A : Type) : Type := L -> Prog (Ctl L A).

Section Control.
Context {L : Type}.

Definition ret {A : Type} (a : A) : M L A := fun l => Ret (Next a l).
Definition exit {A : Type} (r : result unit Error) : M L A := fun l => Ret (Exit r l).
Definition chain {A B : Type} (m : M L A) (f : A -> M L B) : M L B := fun l =>
  do c <- m l;
  match c with
  | Next a l => f a l
  | Exit r l => Ret (Exit r l)
  | Cancelled l => Ret (Cancelled l)
  end.

(** A call that does not wait. *)
Definition ask (e : Eff) : M L (Ans e) := fun l => do x <- call e; Ret (Next x l).
(** A call that waits: its answer is optional. *)
Definition awaited {A : Type} (p : Prog (option A)) : M L A := fun l =>
  do x <- p; match x with Some a => Ret (Next a l) | None => Ret (Cancelled l) end.
Definition update (f : L -> L) : M L unit := fun l => Ret (Next tt (f l)).
Definition get : M L L := fun l => Ret (Next l l).
(** The [?] operator. *)
Definition try {A : Type} (r : result A Error) : M L A :=
  match r with Ok a => ret a | Err e => exit (Err e) end.

(** Values with a destructor: the rest of the scope runs, then the value is dropped. *)
Definition scoped {A : Type} (m : M L A) (drop : Prog unit) : M L A := fun l =>
  do c <- m l; do_ drop; Ret c.
Definition with_gauge {A : Type} (n : nat) (m : M L A) : M L A := fun l =>
  do_ call (GaugeUp n); scoped m (call (GaugeDown n)) l.
Definition with_permit {A : Type} (s : Sem) (m : M L A) : M L A := scoped m (call (Release s)).
End Control.

Notation "'let!' x <- p ; k" := (chain p (fun x => k))
  (at level 10, x pattern, p at level 100, k at level 200) : prog_scope.
Notation "p ';!' k" := (chain p (fun _ => k)) (at level 199, right associativity) : prog_scope.

(** ** What a task holds *)

(** A ticket between the two halves of an operation on both tables. *)
Inductive TicketHeld : Type :=
| NoTicket
| Live (t : Ticket)
| HalfAdmitted (t : Ticket)
| HalfDropped (t : Ticket) (now : Instant).

Record Held : Type := mkHeld {
  n_sockets : Z; n_prelogin : Z; n_admitted : Z; n_backend : Z; n_status : Z;
  gauges : list nat; h_ticket : TicketHeld; h_dial : option Dial }.

Definition nothing : Held := mkHeld 0 0 0 0 0 [] NoTicket None.

Definition permits (h : Held) (s : Sem) : Z :=
  match s with
  | Sockets => n_sockets h | Prelogin => n_prelogin h | AdmittedSlots => n_admitted h
  | BackendSlots => n_backend h | StatusSlots => n_status h
  end.
Definition add_permits (h : Held) (s : Sem) (d : Z) : Held :=
  let 'mkHeld so p a b st g t di := h in
  match s with
  | Sockets => mkHeld (so + d) p a b st g t di
  | Prelogin => mkHeld so (p + d) a b st g t di
  | AdmittedSlots => mkHeld so p (a + d) b st g t di
  | BackendSlots => mkHeld so p a (b + d) st g t di
  | StatusSlots => mkHeld so p a b (st + d) g t di
  end.
Definition with_gauges (h : Held) (g : list nat) : Held :=
  let 'mkHeld so p a b st _ t di := h in mkHeld so p a b st g t di.
Definition with_ticket (h : Held) (t : TicketHeld) : Held :=
  let 'mkHeld so p a b st g _ di := h in mkHeld so p a b st g t di.
Definition with_dial (h : Held) (d : option Dial) : Held :=
  let 'mkHeld so p a b st g t _ := h in mkHeld so p a b st g t d.

Fixpoint remove_one (n : nat) (l : list nat) : list nat :=
  match l with
  | [] => []
  | m :: l => if Nat.eqb m n then l else m :: remove_one n l
  end.

(** The identity of a ticket; a handler may change its other flags on its own. *)
Definition same_ticket (t t' : Ticket) : Prop :=
  t_ip t' = t_ip t /\ t_prefix t' = t_prefix t /\ t_admitted t' = t_admitted t /\ t_status t' = t_status t.

Definition holds_live (h : Held) (t : Ticket) : Prop :=
  match h_ticket h with Live t0 => same_ticket t0 t | _ => False end.

(** The slots of the registry a handler may touch: those that exist, less the two gauges of the
    limiter's tables. *)
Definition own_slot (n : nat) : Prop := (n < 56)%nat /\ n <> 32%nat /\ n <> 33%nat.

(** A call is in order: what it uses is held. *)
Definition allowed (e : Eff) (h : Held) : Prop :=
  match e with
  | AcceptTicket _ _ => h_ticket h = NoTicket /\ 0 < n_sockets h
  | RateEvent t _ _ | EnterStatus t => holds_live h t
  | AdmitIp t => holds_live h t /\ t_admitted t = false
  | AdmitPrefix t => h_ticket h = HalfAdmitted t
  | DropIp t _ => holds_live h t
  | DropPrefix t now => h_ticket h = HalfDropped t now
  | Release s => 0 < permits h s
  | GaugeDown n => In n (gauges h) /\ own_slot n
  | MetricInc n | MetricAdd n _ | GaugeUp n => own_slot n
  | DialAcquire => h_dial h = None
  | DialEnter _ => h_dial h = Some Entering
  | DialFinish a _ _ => h_dial h = Some (Dialing a)
  | DialRelease => h_dial h = Some Closing
  | _ => True
  end.

(** What is held after a call and its answer. *)
Definition after (e : Eff) : Ans e -> Held -> Held :=
  match e with
  | AcceptTicket _ _ => fun x h => match x with Some t => with_ticket h (Live t) | None => h end
  | EnterStatus _ => fun x h => with_ticket h (Live (snd x))
  | AdmitIp t => fun _ h => with_ticket h (HalfAdmitted t)
  | AdmitPrefix t => fun _ h => with_ticket h (Live (set_ticket_admitted t))
  | DropIp t now => fun _ h => with_ticket h (HalfDropped t now)
  | DropPrefix _ _ => fun _ h => with_ticket h NoTicket
  | TryAcquire s => fun x h => if x then add_permits h s 1 else h
  | Release s => fun _ h => add_permits h s (-1)
  | GaugeUp n => fun _ h => with_gauges h (n :: gauges h)
  | GaugeDown n => fun _ h => with_gauges h (remove_one n (gauges h))
  | DialAcquire => fun x h => if x then with_dial h (Some Entering) else h
  | DialEnter _ => fun x h => with_dial h (Some (match x with Some a => Dialing a | None => Closing end))
  | DialFinish _ _ _ => fun _ h => with_dial h (Some Closing)
  | DialRelease => fun _ h => with_dial h None
  | _ => fun _ h => h
  end.

(** The state of a task is sane at every call: at most one of its sockets is not matched by a
    pre-login, admitted or backend permit, and a ticket is only held together with a socket. *)
Definition sane (h : Held) : Prop :=
  0 <= n_sockets h <= n_prelogin h + n_admitted h + n_backend h + 1 /\
  0 <= n_prelogin h /\ 0 <= n_admitted h /\ 0 <= n_backend h /\ 0 <= n_status h /\
  (h_ticket h <> NoTicket -> 1 <= n_sockets h).

(** The discipline: from [h] the program makes only calls that are in order, with a sane state. *)
Definition in_order (e : Eff) (h : Held) : Prop := sane h /\ allowed e h.

(** ** Executions *)

(** A call with its answer. *)
Definition Obs : Type := { e : Eff & Ans e }.
Definition obs (e : Eff) (x : Ans e) : Obs := existT e x.

(** [p] can make the calls of [tr] and return [a]. *)
Fixpoint runs {A : Type} (p : Prog A) (tr : list Obs) (a : A) : Prop :=
  match p with
  | Ret b => tr = [] /\ b = a
  | Act e k => exists x tr', tr = obs e x :: tr' /\ runs (k x) tr' a
  end.

(** [p] can start with the calls of [tr]. *)
Fixpoint starts {A : Type} (p : Prog A) (tr : list Obs) {struct tr} : Prop :=
  match tr with
  | [] => True
  | o :: tr' => match p with
    | Ret _ => False
    | Act e k => exists x, o = obs e x /\ starts (k x) tr'
    end
  end.

Lemma runs_starts {A : Type} (p : Prog A) (tr : list Obs) (a : A) : runs p tr a -> starts p tr.
Proof.
  revert tr. induction p as [b | e k IH]; intros tr R; cbn [runs] in R.
  - now destruct R as [-> _].
  - destruct R as (x & tr' & -> & R). cbn [starts]. eauto.
Qed.

Lemma starts_app {A : Type} (p : Prog A) (tr tr' : list Obs) : starts p (tr ++ tr') -> starts p tr.
Proof.
  revert p. induction tr as [| o tr IH]; intros p S; [done |]. cbn [app starts] in *.
  destruct p as [| e k]; [done |]. destruct S as (x & -> & S). eauto.
Qed.

(** ** A program logic *)

(** [ok e s] is what must hold of the tracked state [s] when call [e] is made; [upd] is how a call and
    its answer change it. [wp s p Q]: whatever the answers, every call of [p] is made in order, and
    [p] returns in [Q]. *)
Section Logic.
Context {St : Type} (ok : Eff -> St -> Prop) (upd : forall e, Ans e -> St -> St).

Fixpoint wp {A : Type} (s : St) (p : Prog A) (Q : A -> St -> Prop) : Prop :=
  match p with
  | Ret a => Q a s
  | Act e k => ok e s /\ forall x : Ans e, wp (upd e x s) (k x) Q
  end.

Lemma wp_ret {A : Type} (s : St) (a : A) (Q : A -> St -> Prop) : Q a s -> wp s (Ret a) Q.
Proof. done. Qed.

Lemma wp_act {A : Type} (s : St) (e : Eff) (k : Ans e -> Prog A) (Q : A -> St -> Prop) :
  ok e s -> (forall x, wp (upd e x s) (k x) Q) -> wp s (Act e k) Q.
Proof. now split. Qed.

Lemma wp_bind {A B : Type} (s : St) (p : Prog A) (f : A -> Prog B) (Q : B -> St -> Prop) :
  wp s p (fun a s' => wp s' (f a) Q) -> wp s (bind p f) Q.
Proof.
  revert s. induction p as [a | e k IH]; intros s; cbn [wp bind]; [done |].
  intros (O & H). split; [done |]. intros x. now apply IH.
Qed.

Lemma wp_weaken {A : Type} (s : St) (p : Prog A) (Q Q' : A -> St -> Prop) :
  (forall a s', Q a s' -> Q' a s') -> wp s p Q -> wp s p Q'.
Proof.
  intros W. revert s. induction p as [a | e k IH]; intros s; cbn [wp]; [apply W |].
  intros (O & H). split; [done |]. intros x. now apply IH.
Qed.

(** The postcondition of a stretch that is followed by more. *)
Definition then_ {L A B : Type} (f : A -> M L B) (Q : Ctl L B -> St -> Prop) (c : Ctl L A) (s : St) : Prop :=
  match c with
  | Next a l => wp s (f a l) Q
  | Exit r l => Q (Exit r l) s
  | Cancelled l => Q (Cancelled l) s
  end.

Lemma wp_chain {L A B : Type} (s : St) (m : M L A) (f : A -> M L B) (l : L) (Q : Ctl L B -> St -> Prop) :
  wp s (m l) (then_ f Q) -> wp s (chain m f l) Q.
Proof.
  intros H. unfold chain. apply wp_bind. eapply wp_weaken; [| exact H]. now intros [] ?.
Qed.

Lemma wp_scoped {L A : Type} (s : St) (m : M L A) (drop : Prog unit) (l : L) (Q : Ctl L A -> St -> Prop) :
  wp s (m l) (fun c s' => wp s' drop (fun _ => Q c)) -> wp s (scoped m drop l) Q.
Proof.
  intros H. unfold scoped. apply wp_bind. eapply wp_weaken; [| exact H].
  intros c s' H'. apply wp_bind. eapply wp_weaken; [| exact H']. now intros [] ?.
Qed.

(** The tracked state after the calls of a trace. *)
Definition track (s : St) (tr : list Obs) : St := fold_left (fun s o => upd (projT1 o) (projT2 o) s) tr s.

(** What the logic says of executions. *)
Lemma wp_runs {A : Type} (s : St) (p : Prog A) (Q : A -> St -> Prop) (tr : list Obs) (a : A) :
  wp s p Q -> runs p tr a -> Q a (track s tr).
Proof.
  revert s tr. induction p as [b | e k IH]; intros s tr W R; cbn [runs] in R.
  - now destruct R as [-> ->].
  - destruct R as (x & tr' & -> & R). unfold track. cbn [fold_left projT1 projT2 obs].
    eapply IH; [apply W | exact R].
Qed.

Lemma wp_starts {A : Type} (s : St) (p : Prog A) (Q : A -> St -> Prop) (tr : list Obs) (e : Eff) (x : Ans e) :
  wp s p Q -> starts p (tr ++ [obs e x]) -> ok e (track s tr).
Proof.
  revert s p. induction tr as [| o tr IH]; intros s p W R; cbn [starts app] in R.
  - destruct p as [| e' k]; [done |]. destruct R as (x' & E & _). apply (f_equal (@projT1 _ _)) in E. cbn in E.
    subst e'. apply W.
  - destruct p as [| e' k]; [done |]. destruct R as (x' & -> & R). unfold track. cbn [fold_left projT1 projT2 obs].
    eapply IH; [apply W | exact R].
Qed.
End Logic.

(** The resource discipline. *)
Abbreviation triple := (wp in_order after).
