(* ===== verification/Gate.v ===== *)
(** * The connection handler ([gate/src/main.rs])

    The acceptance of a connection, its handler from the first byte to the end of the relay, and the
    round of the refresh task that shares its permits, as programs over the calls of [Task.v]. Locals
    with destructors are scoped in the order the program drops them. *)
From S2P Require Import Prelude Machine Metrics Net Config Limiter Wire Protocol FrameIO Proxy Backend Cache Validate Task.
From stdpp Require Import base option list.
From Stdlib Require Import ZArith Lia.
Local Open Scope Z_scope.
Local Open Scope gate_scope.
Local Open Scope prog_scope.

(** ** Errors *)

(** The metric of an error that ends a connection. *)
Definition record_error (e : Error) : Prog unit :=
  match e with
  | VarInt => call (MetricInc 8)
  | Oversized => call (MetricInc 9)
  | Unsupported => call (MetricInc 10)
  | Deadline => call (MetricInc 11)
  | Slow => call (MetricInc 12)
  | Invalid => call (MetricInc 5)
  | Eof | Io => Ret tt
  end.

(** ** Destructors and locals *)

(** [PreloginTime::drop]: the elapsed microseconds, capped at [u64]. *)
Definition PreloginTime_drop (start : Instant) : Prog unit :=
  do now <- call Now;
  do_ call (MetricAdd 18 (Z.min (saturating_duration_since now start / 1000) u64_max));
  call (MetricInc 19).

(** [Admission]: its fields are dropped in order. *)
Definition Admission_drop (start : Instant) : Prog unit :=
  do_ call (Release Prelogin);
  do_ call (GaugeDown 2);
  PreloginTime_drop start.

(** Dropping a ticket: one clock reading, then the two tables. *)
Definition drop_ticket (t : Ticket) : Prog unit :=
  do now <- call Now;
  do_ call (DropIp t now);
  call (DropPrefix t now).

(** The mutable locals of [handle] after acceptance: the ticket, and whether [admission] is still
    there to be dropped. *)
Record Locals : Type := mkLocals { ticket : Ticket; admission : bool }.

Definition set_ticket (f : Ticket -> Ticket) : M Locals unit :=
  update (fun l => mkLocals (f (ticket l)) (admission l)).
Definition set_handshake (t : Ticket) : Ticket :=
  mkTicket (t_ip t) (t_prefix t) true (t_admitted t) (t_status_complete t) (t_server_rejected t) (t_status t).
Definition set_status_complete (t : Ticket) : Ticket :=
  mkTicket (t_ip t) (t_prefix t) (t_handshake t) (t_admitted t) true (t_server_rejected t) (t_status t).

(** [ticket.server_rejected = true; return Ok(())]. *)
Definition reject {A : Type} : M Locals A := set_ticket set_ticket_rejected ;! exit (Ok tt).

(** [Ticket::mark_admitted]. *)
Definition mark_admitted : M Locals unit :=
  let! l <- get;
  if t_admitted (ticket l) then ret tt
  else ask (AdmitIp (ticket l)) ;! ask (AdmitPrefix (ticket l)) ;! set_ticket set_ticket_admitted.

Definition enter_status : M Locals bool :=
  let! l <- get;
  let! (ok, t) <- ask (EnterStatus (ticket l));
  set_ticket (fun _ => t) ;! ret ok.

Definition rate_event (ev : Event) (p : Policy) : M Locals bool :=
  let! l <- get; ask (RateEvent (ticket l) ev p).

Section Handle.
Context {Value : Type} `{JsonLib Value} {IpNet : Type} `{IpNetLib IpNet} (cfg : Config Value IpNet).

(** ** Reading and writing *)

Definition read_frame_call {L : Type} (max budget : Z) (deadline : Instant) (progress first_progress : Duration)
  : M L (Frame * Z) :=
  let! (f, budget) <- awaited (call (ReadFrame max budget deadline progress first_progress));
  let! f <- try f; ret (f, budget).

Definition phase {L : Type} (budget ms max : Z) : M L (Frame * Z) :=
  let! now <- ask Now;
  let progress := from_millis (progress_ms (timeouts cfg)) in
  read_frame_call (Z.min (max_frame (protocol cfg)) max) budget (now + from_millis ms) progress progress.

(** [timeout(.., client.write_all(..)).await]. *)
Definition client_write {L : Type} (bytes : list Z) : M L unit :=
  let! o <- awaited (call (ClientWrite bytes (from_millis (status_ms (timeouts cfg)))));
  match o with
  | Wrote => ret tt
  | WriteFailed => exit (Err Io)
  | WriteElapsed => exit (Err Deadline)
  end.

(** ** Who is connecting *)

Definition identify (socket_peer : SocketAddr) (start : Instant) : M unit (SocketAddr * SocketAddr) :=
  let! ok <- ask SetNodelay;
  if negb ok then exit (Err Io) else
  if enabled (incoming_proxy_v2 cfg) then
    let deadline := start + from_millis (handshake_ms (timeouts cfg)) in
    let header_deadline := Z.min deadline (start + from_millis (first_progress_ms (timeouts cfg))) in
    let! r <- awaited (call (ReadProxy socket_peer header_deadline));
    match r with
    | Ok identity => ask (MetricInc PROXY_V2_ACCEPTED) ;! ret identity
    | Err e =>
      ask (MetricInc (match e with Deadline | Slow => PROXY_V2_TIMEOUT | _ => PROXY_V2_INVALID end)) ;!
      exit (Err e)
    end
  else
    let! local <- ask LocalAddr;
    match local with
    | Some a => ret (socket_peer, a)
    | None => exit (Err Io)
    end.

(** ** Status sessions *)

Definition status_session (peer : SocketAddr) (h : HandshakePacket) (p : Policy) (budget : Z) : M Locals unit :=
  let separate_status := separate_status_budget (limits cfg) in
  let! ok <- enter_status;
  if negb ok then exit (Ok tt) else
  let! got <- ask (TryAcquire StatusSlots);
  if negb got then ask (MetricInc 20) ;! ask (MetricInc 37) ;! reject else
  with_permit StatusSlots (
    let! ok <- rate_event (if separate_status then Status else Handshake) p;
    if negb ok then reject else
    with_gauge 36 (
      let! (request, budget) <- phase budget (status_ms (timeouts cfg)) 5;
      try (status_request (Frame_body request)) ;!
      ask (MetricInc 6) ;!
      let! (p, blocked) <- ask (AskPolicy (sa_ip peer));
      let! denied <-
        (if blocked then ret true
         else if separate_status then ret false
         else let! ok <- rate_event Status p; ret (negb ok));
      if denied then reject else
      let! response <- ask (CacheGet (hs_version h));
      client_write response ;!
      set_ticket set_status_complete ;!
      let! (echo, budget) <- phase budget (status_ms (timeouts cfg)) 13;
      try (ping (Frame_body echo)) ;!
      client_write (wire echo))).

(** ** Logins *)

(** Connecting to the backend and replaying what the client sent, under one timeout. *)
Definition dial (peer dst : SocketAddr) (handshake login : Frame) : Prog (option bool) :=
  let send bytes (k : Prog (option bool)) : Prog (option bool) :=
    do o <- call (BackendWrite bytes);
    match o with Some true => k | o => Ret o end in
  do o <- call Connect;
  match o with
  | Some true =>
    do ok <- call BackendNodelay;
    if negb ok then Ret (Some false) else
    let replay := send (wire handshake) (send (wire login) (Ret (Some true))) in
    if proxy_v2 cfg then
      match proxy_header peer dst with
      | Ok header => send header replay
      | Err _ => Ret (Some false)
      end
    else replay
  | o => Ret o
  end.

(** [Protection::enter]: the permit is returned when the circuit refuses. *)
Definition breaker_enter : Prog (option Attempt) :=
  do now <- call Now;
  do got <- call DialAcquire;
  if got then
    do a <- call (DialEnter now);
    match a with
    | Some a => Ret (Some a)
    | None => do_ call DialRelease; Ret None
    end
  else Ret None.

(** [Attempt::finish], or its drop when the task is cancelled; both return the permit. *)
Definition complete_attempt (a : Attempt) (ok : bool) : Prog unit :=
  do now <- call Now;
  do_ call (DialFinish a ok now);
  call DialRelease.

(** Leaving the pre-login stage and relaying. *)
Definition admit_and_relay (start : Instant) : M Locals unit :=
  with_gauge 30 (
    mark_admitted ;!
    (fun l => do_ Admission_drop start; Ret (Next tt (mkLocals (ticket l) false))) ;!
    let! ok <- awaited (call RelayCopy);
    if ok then ret tt else ask (MetricInc 25) ;! ret tt).

(** From the granted attempt to the end: the backend gauge is dropped before the attempt. *)
Definition connect_backend (start : Instant) (peer dst : SocketAddr) (handshake login : Frame) (a : Attempt)
  : M Locals unit := fun l =>
  do_ call (GaugeUp 3);
  do_ call (MetricInc 31);
  do o <- dial peer dst handshake login;
  match o with
  | None => do_ call (GaugeDown 3); do_ complete_attempt a false; Ret (Cancelled l)
  | Some ok =>
    do_ complete_attempt a ok;
    scoped (if ok then admit_and_relay start else ask (MetricInc 17) ;! reject) (call (GaugeDown 3)) l
  end.

(** Release what a failed tuple of acquisitions obtained. *)
Definition release_if (got : bool) (s : Sem) : M Locals unit :=
  if got then ask (Release s) ;! ret tt else ret tt.

Definition login_session (start : Instant) (peer dst : SocketAddr) (handshake : Frame) (h : HandshakePacket)
  (p : Policy) (budget : Z) : M Locals unit :=
  let! ok <- rate_event Handshake p;
  if negb ok then reject else
  match login_max (hs_version h) (protocol cfg) with
  | Err e => set_ticket set_ticket_rejected ;! exit (Err e)
  | Ok max =>
    let! (lf, budget) <- phase budget (login_ms (timeouts cfg)) max;
    try (login (Frame_body lf) (hs_version h) (protocol cfg)) ;!
    ask (MetricInc 7) ;!
    let! (p, blocked) <- ask (AskPolicy (sa_ip peer));
    let! denied <-
      (if blocked || (negb (observe p) && (mode p =? 3)) then ret true
       else let! ok <- rate_event Login p; ret (negb ok));
    if denied then reject else
    let! a <- ask (TryAcquire AdmittedSlots);
    let! b <- ask (TryAcquire BackendSlots);
    let! c <- ask (TryAcquire Sockets);
    if negb (a && b && c) then
      release_if a AdmittedSlots ;! release_if b BackendSlots ;! release_if c Sockets ;!
      ask (MetricInc 20) ;! reject
    else
    with_permit AdmittedSlots (with_permit BackendSlots (with_permit Sockets (
      let! attempt <- (fun l => do a <- breaker_enter; Ret (Next a l));
      match attempt with
      | None => ask (MetricInc 47) ;! reject
      | Some a => connect_backend start peer dst handshake lf a
      end)))
  end.

(** ** The handler *)

(** From the first client frame on. *)
Definition session (start : Instant) (peer dst : SocketAddr) : M Locals unit :=
  let! (hf, budget) <- read_frame_call (handshake_max (protocol cfg)) (max_initial_bytes (protocol cfg))
    (start + from_millis (handshake_ms (timeouts cfg))) (from_millis (progress_ms (timeouts cfg)))
    (from_millis (first_progress_ms (timeouts cfg)));
  let! h <- try (handshake (Frame_body hf) (protocol cfg));
  set_ticket set_handshake ;!
  ask (MetricInc 4) ;!
  let! (p, blocked) <- ask (AskPolicy (sa_ip peer));
  if blocked then reject
  else if hs_state h =? 1 then status_session peer h p budget
  else login_session start peer dst hf h p budget.

(** The result of a stretch and the locals budget to drop; [None] is a cancelled task. *)
Definition ctl_end {L A : Type} (c : Ctl L A) : option (result unit Error) * L :=
  match c with
  | Next _ l => (Some (Ok tt), l)
  | Exit r l => (Some r, l)
  | Cancelled l => (None, l)
  end.

(** [handle]; [start] is the time of acceptance. *)
Definition handle (socket_peer : SocketAddr) (start : Instant) : Prog (option (result unit Error)) :=
  let finish r := do_ Admission_drop start; Ret r in
  do c <- identify socket_peer start tt;
  match c with
  | Next (peer, dst) _ =>
    do (policy, blocked) <- call (AskPolicy (sa_ip peer));
    if blocked || (negb (observe policy) && (mode policy =? 3)) then finish (Some (Ok tt)) else
    do t <- call (AcceptTicket (sa_ip peer) policy);
    match t with
    | None => finish (Some (Ok tt))
    | Some t =>
      do c <- session start peer dst (mkLocals t true);
      let '(r, l) := ctl_end c in
      do_ drop_ticket (ticket l);
      if admission l then finish r else Ret r
    end
  | c => finish (fst (ctl_end c))
  end.

(** One accepted TCP connection: the body of the accept loop and of the task it spawns. *)
Definition connection (peer : SocketAddr) : Prog unit :=
  do_ call (MetricInc 0);
  if enabled (incoming_proxy_v2 cfg) && negb (is_trusted (sa_ip peer) (incoming_proxy_v2 cfg))
  then call (MetricInc PROXY_V2_UNTRUSTED)
  else
    do socket <- call (TryAcquire Sockets);
    do pre <- call (TryAcquire Prelogin);
    if negb (socket && pre) then
      do_ (if socket then call (Release Sockets) else Ret tt);
      do_ (if pre then call (Release Prelogin) else Ret tt);
      call (MetricInc 20)
    else
      do_ call (GaugeUp 1);
      do_ call (GaugeUp 2);
      do start <- call Now;
      do r <- handle peer start;
      do_ (match r with Some (Err e) => record_error e | _ => Ret tt end);
      do_ call (GaugeDown 1);
      call (Release Sockets).

(** ** The status refresh *)

(** What [poll] writes: the PROXY header of its own connection when configured, the handshake and the
    status request. The header is [None] when the addresses are of different families. *)
Definition poll_header (local : SocketAddr) : option (list Z) :=
  match proxy_header local (c_backend cfg) with Ok h => Some h | Err _ => None end.
Definition poll_request : list (list Z) :=
  [status_handshake (cc_host (cache cfg)) (cc_port (cache cfg)) (cc_protocol (cache cfg)); [1; 0]].

(** Write every string; the outcome of the first write that does not succeed. *)
Fixpoint backend_send (msgs : list (list Z)) : Prog (option bool) :=
  match msgs with
  | [] => Ret (Some true)
  | bytes :: msgs =>
    do o <- call (BackendWrite bytes);
    match o with Some true => backend_send msgs | o => Ret o end
  end.

(** [poll] under its timeout: [None] is the cancellation, [Some None] any failure. *)
Definition poll : Prog (option (option Prepared)) :=
  let stop (o : option bool) := Ret (match o with None => None | Some _ => Some None end) in
  let max := max_response_bytes (cache cfg) in
  let ask_status : Prog (option (option Prepared)) :=
    do o <- backend_send poll_request;
    match o with
    | Some true =>
      let duration := from_millis (backend_ms (timeouts cfg)) in
      do now <- call Now;
      do r <- call (BackendRead max (max + 5) (now + duration) duration duration);
      Ret (match r with
        | None => None
        | Some (Some (Ok f)) => Some (poll_body (Frame_body f) max)
        | Some _ => Some None
        end)
    | o => stop o
    end in
  do o <- call Connect;
  match o with
  | Some true =>
    do ok <- call BackendNodelay;
    if negb ok then Ret (Some None) else
    if proxy_v2 cfg then
      do a <- call BackendLocalAddr;
      match a ≫= poll_header with
      | None => Ret (Some None)
      | Some header =>
        do o <- call (BackendWrite header);
        match o with Some true => ask_status | o => stop o end
      end
    else ask_status
  | o => stop o
  end.

(** One round of [refresh]. *)
Definition refresh_task : Prog unit :=
  do got <- call (TryAcquire Sockets);
  if got then
    do_ call (GaugeUp 3);
    do_ call (MetricInc 31);
    do o <- poll;
    do_ (match o with
      | Some (Some p) => do now <- call Now; call (CacheStore p now)
      | Some None => call (MetricInc 23)
      | None => Ret tt
      end);
    do_ call (GaugeDown 3);
    call (Release Sockets)
  else call (MetricInc 23).
End Handle.
