(* ===== verification/GateResources.v ===== *)
(** * The resource discipline of the connection handler

    Every execution of a connection task, whatever its services answer and wherever it is cancelled,
    gives back exactly what it took: permits, gauges, its ticket, its dial permit. *)
From S2P Require Import Prelude Machine Metrics Net Config Limiter Wire Protocol FrameIO Proxy Backend Cache Validate Task Gate.
From stdpp Require Import base option list.
From Stdlib Require Import ZArith Lia.
Local Open Scope Z_scope.

(** ** Running a program symbolically *)

(** A held state with concrete counts is sane. *)
Ltac sane_tac :=
  try assumption; unfold sane; cbn [n_sockets n_prelogin n_admitted n_backend n_status h_ticket]; split_and!; try lia;
  intros; try congruence; lia.

(** A call on what is visibly held. *)
Ltac allowed_tac :=
  cbn; unfold holds_live, own_slot; cbn; try exact I; try (split_and!; auto; lia); auto; try lia; try congruence;
  try match goal with |- context [match ?e with _ => _ end] =>
    destruct e; unfold PROXY_V2_INVALID, PROXY_V2_TIMEOUT; split_and!; lia end.

(** Branch on an answer. *)
Ltac cases x :=
  lazymatch type of x with
  | bool => destruct x
  | unit => destruct x
  | option (result _ _ * _) => destruct x as [[[] ?] |]
  | option (result _ _) => destruct x as [[] |]
  | option bool => destruct x as [[] |]
  | option (option (result _ _)) => destruct x as [[[] |] |]
  | option _ => destruct x
  | prod _ _ => destruct x
  | WriteOutcome => destruct x
  | _ => idtac
  end.

(** One rule, chosen by the head of the program; [side] proves that a call is in order, [norm] reads
    off the tracked state after it. *)
Ltac wstep side norm :=
  lazymatch goal with
  | |- wp _ _ _ (chain _ _ _) _ => apply wp_chain
  | |- wp _ _ _ (scoped _ _ _) _ => apply wp_scoped
  | |- wp _ _ _ (with_permit _ _ _) _ => apply wp_scoped
  | |- wp _ _ _ (with_gauge _ _ _) _ => unfold with_gauge
  | |- wp _ _ _ (bind _ _) _ => apply wp_bind
  | |- wp _ _ _ (call _) _ => unfold call
  | |- wp _ _ _ (ask _ _) _ => unfold ask
  | |- wp _ _ _ (awaited _ _) _ => unfold awaited
  | |- wp _ _ _ (Act _ _) _ =>
      let x := fresh "x" in apply wp_act; [side | intros x; cbn [Ans] in x; cases x; norm]
  | |- wp _ _ _ (Ret _) _ => apply wp_ret; unfold then_
  | |- wp _ _ _ (try (Ok _) _) _ => unfold try
  | |- wp _ _ _ (try (Err _) _) _ => unfold try
  | |- wp _ _ _ (try ?r _) _ => unfold try; destruct r eqn:?
  | |- wp _ _ _ ((match ?x with _ => _ end) _) _ => destruct x eqn:?
  | |- wp _ _ _ (match ?x with _ => _ end) _ => destruct x eqn:?
  | |- wp _ _ _ ((fun _ => _) _) _ => cbv beta
  | |- wp _ _ _ _ _ =>
      progress unfold ret, exit, update, get, set_ticket, reject, rate_event, enter_status, phase, read_frame_call,
        client_write
  end.
Ltac wexec side norm := repeat (wstep side norm; cbv beta iota; cbn [negb andb orb ticket admission]).

Ltac held_norm :=
  cbn [after fst snd add_permits with_gauges with_ticket with_dial remove_one gauges Nat.eqb].
Ltac held_side := split; [sane_tac | allowed_tac].
Ltac tstep := wstep held_side held_norm.
Ltac texec := wexec held_side held_norm.

Definition connected (s p a b : Z) (g : list nat) (t : Ticket) (d : option Dial) : Held := mkHeld s p a b 0 g (Live t) d.

(** Where a stretch of the session ends: with its ticket live, and the admission still held or
    already dropped; [s], [a] and [b] are permits the enclosing scopes still hold. *)
Definition ends (s a b : Z) (g : list nat) (c : Ctl Locals unit) (h : Held) : Prop :=
  let l := snd (ctl_end c) in
  exists t, same_ticket t (ticket l) /\
    h = (if admission l then connected s 1 a b (g ++ [2; 1]%nat) t None else connected s 0 a b (g ++ [1]%nat) t None).

Ltac leaf :=
  lazymatch goal with
  | |- ends _ _ _ _ _ _ => eexists; split; [| reflexivity]; unfold same_ticket in *; cbn in *; intuition congruence
  end.

Section Sessions.
Context {Value : Type} `{JsonLib Value} {IpNet : Type} `{IpNetLib IpNet} (cfg : Config Value IpNet).

Lemma status_session_ok (peer : SocketAddr) (h : HandshakePacket) (p : Policy) (budget : Z) (t : Ticket) (l : Locals) :
  same_ticket t (ticket l) -> admission l = true ->
  triple (connected 1 1 0 0 [2; 1]%nat t None) (status_session cfg peer h p budget l) (ends 1 0 0 []).
Proof.
  intros St Ad. destruct l as [tk ad]. cbn in St, Ad. subst ad. unfold status_session, connected.
  texec; leaf.
Qed.

Lemma admit_and_relay_ok (start : Instant) (t : Ticket) (l : Locals) :
  same_ticket t (ticket l) -> admission l = true ->
  triple (connected 2 1 1 1 [3; 2; 1]%nat t None) (admit_and_relay start l) (ends 2 1 1 [3]%nat).
Proof.
  intros St Ad. destruct l as [tk ad]. cbn in St, Ad. subst ad.
  unfold admit_and_relay, mark_admitted, connected, Admission_drop, PreloginTime_drop.
  texec; leaf.
Qed.

Lemma dial_ok (peer dst : SocketAddr) (hf lf : Frame) (h : Held) (Q : option bool -> Held -> Prop) :
  sane h -> (forall o, Q o h) -> triple h (dial cfg peer dst hf lf) Q.
Proof.
  intros S HQ. unfold dial. texec; apply HQ.
Qed.

Lemma connect_backend_ok (start : Instant) (peer dst : SocketAddr) (hf lf : Frame) (a : Attempt) (t : Ticket) (l : Locals) :
  same_ticket t (ticket l) -> admission l = true ->
  triple (connected 2 1 1 1 [2; 1]%nat t (Some (Dialing a))) (connect_backend cfg start peer dst hf lf a l) (ends 2 1 1 []).
Proof.
  intros St Ad. unfold connect_backend, connected, complete_attempt.
  do 2 (tstep; tstep; tstep; tstep). tstep. apply dial_ok; [sane_tac |]. intros o.
  destruct o as [[] |].
  - texec. eapply wp_weaken; [| apply (admit_and_relay_ok start t l St Ad)].
    intros c h (t' & St' & ->). destruct (admission (snd (ctl_end c))) eqn:E; unfold connected; texec;
      exists t'; rewrite E; now split.
  - destruct l as [tk ad]. cbn in St, Ad. subst ad. texec; leaf.
  - destruct l as [tk ad]. cbn in St, Ad. subst ad. texec; leaf.
Qed.

(** Returning a permit of an enclosing scope. *)
Lemma ends_release (s a b : Z) (c : Ctl Locals unit) (h : Held) (e : Sem) (s' a' b' : Z) (Q : unit -> Held -> Prop) :
  ends s a b [] c h ->
  (e = Sockets /\ 0 < s /\ s' = s - 1 /\ a' = a /\ b' = b \/
   e = AdmittedSlots /\ 0 < a /\ s' = s /\ a' = a - 1 /\ b' = b \/
   e = BackendSlots /\ 0 < b /\ s' = s /\ a' = a /\ b' = b - 1) ->
  0 <= a -> 0 <= b -> 1 <= s <= a + b + 1 ->
  (forall h', ends s' a' b' [] c h' -> Q tt h') -> triple h (call (Release e)) Q.
Proof.
  intros (t & St & ->) He Ha Hb Hs HQ. unfold call.
  destruct (admission (snd (ctl_end c))) eqn:Ad;
    (apply wp_act; [split; [unfold sane, connected; cbn; split_and!; lia || intros; lia
      | destruct He as [(-> & ?) | [(-> & ?) | (-> & ?)]]; cbn; lia] | intros []];
     apply wp_ret, HQ; exists t; rewrite Ad; split; [done |];
     destruct He as [(-> & ? & -> & -> & ->) | [(-> & ? & -> & -> & ->) | (-> & ? & -> & -> & ->)]];
     unfold connected; cbn [after add_permits]; f_equal; lia).
Qed.

Local Ltac pick_permit :=
  solve [left; split_and!; reflexivity || lia | right; left; split_and!; reflexivity || lia
        | right; right; split_and!; reflexivity || lia].

Lemma unwind_backend (c : Ctl Locals unit) (h : Held) :
  ends 2 1 1 [] c h ->
  triple h (call (Release Sockets)) (fun _ h1 => triple h1 (call (Release BackendSlots))
    (fun _ h2 => triple h2 (call (Release AdmittedSlots)) (fun _ => ends 1 0 0 [] c))).
Proof.
  intros E. eapply (ends_release 2 1 1 c h Sockets 1 1 1); [exact E | pick_permit | lia | lia | lia |].
  intros h1 E1. eapply (ends_release 1 1 1 c h1 BackendSlots 1 1 0); [exact E1 | pick_permit | lia | lia | lia |].
  intros h2 E2. eapply (ends_release 1 1 0 c h2 AdmittedSlots 1 0 0); [exact E2 | pick_permit | lia | lia | lia |]. auto.
Qed.

Lemma login_session_ok (start : Instant) (peer dst : SocketAddr) (hf : Frame) (h : HandshakePacket) (p : Policy)
  (budget : Z) (t : Ticket) (l : Locals) :
  same_ticket t (ticket l) -> admission l = true ->
  triple (connected 1 1 0 0 [2; 1]%nat t None) (login_session cfg start peer dst hf h p budget l) (ends 1 0 0 []).
Proof.
  intros St Ad. destruct l as [tk ad]. cbn in St, Ad. subst ad.
  unfold login_session, connected, release_if, breaker_enter.
  texec; try leaf; (eapply wp_weaken; [exact unwind_backend | now apply (connect_backend_ok _ _ _ _ _ _ t)]).
Qed.

Lemma session_ok (start : Instant) (peer dst : SocketAddr) (t : Ticket) :
  triple (connected 1 1 0 0 [2; 1]%nat t None) (session cfg start peer dst (mkLocals t true)) (ends 1 0 0 []).
Proof.
  unfold session, connected. texec; try leaf;
    first [now apply status_session_ok | now apply login_session_ok].
Qed.

Definition opened : Held := mkHeld 1 1 0 0 0 [2; 1]%nat NoTicket None.
Definition closing : Held := mkHeld 1 0 0 0 0 [1]%nat NoTicket None.

Lemma handle_ok (socket_peer : SocketAddr) (start : Instant) :
  triple opened (handle cfg socket_peer start) (fun _ h => h = closing).
Proof.
  unfold handle, opened, identify, Admission_drop, PreloginTime_drop, drop_ticket. texec; try reflexivity.
  all: eapply wp_weaken; [| apply session_ok]; intros c h (t' & St & ->);
    destruct (ctl_end c) as [r l]; cbn [snd] in *; destruct (admission l); unfold connected; texec; try reflexivity.
Qed.

Lemma connection_ok (peer : SocketAddr) : triple nothing (connection cfg peer) (fun _ h => h = nothing).
Proof.
  unfold connection, nothing. texec; try reflexivity.
  eapply wp_weaken; [| apply handle_ok]. intros r h ->. unfold closing, record_error. texec; reflexivity.
Qed.

Lemma refresh_task_ok : triple nothing (refresh_task cfg) (fun _ h => h = nothing).
Proof. unfold refresh_task, poll, poll_request, nothing. cbn [backend_send]. texec; reflexivity. Qed.
End Sessions.

(** ** Accounts of a trace *)

(** What a task can owe. *)
Inductive Resource : Type :=
| Permit (s : Sem)
| GaugeOf (n : nat)
| TicketIp
| TicketPrefix
| DialSlot
| DialAttemptOf.

(** By how much a call and its answer change what the task owes. *)
Definition delta (r : Resource) (o : Obs) : Z :=
  let 'existT e x := o in
  match r, e return Ans e -> Z with
  | Permit s, TryAcquire s' => fun x => if x && bool_decide (s = s') then 1 else 0
  | Permit s, Release s' => fun _ => if bool_decide (s = s') then -1 else 0
  | GaugeOf n, GaugeUp n' => fun _ => if (n =? n')%nat then 1 else 0
  | GaugeOf n, GaugeDown n' => fun _ => if (n =? n')%nat then -1 else 0
  | TicketIp, AcceptTicket _ _ => fun x => match x with Some _ => 1 | None => 0 end
  | TicketIp, DropIp _ _ => fun _ => -1
  | TicketPrefix, AcceptTicket _ _ => fun x => match x with Some _ => 1 | None => 0 end
  | TicketPrefix, DropPrefix _ _ => fun _ => -1
  | DialSlot, DialAcquire => fun x => if x then 1 else 0
  | DialSlot, DialRelease => fun _ => -1
  | DialAttemptOf, DialEnter _ => fun x => match x with Some _ => 1 | None => 0 end
  | DialAttemptOf, DialFinish _ _ _ => fun _ => -1
  | _, _ => fun _ => 0
  end x.

Definition owed (r : Resource) (tr : list Obs) : Z := fold_left (fun n o => n + delta r o) tr 0.

(** The same amounts, read off the tracked state. *)
Definition amount (r : Resource) (h : Held) : Z :=
  match r with
  | Permit s => permits h s
  | GaugeOf n => Z.of_nat (count_occ Nat.eq_dec (gauges h) n)
  | TicketIp => match h_ticket h with Live _ | HalfAdmitted _ => 1 | _ => 0 end
  | TicketPrefix => match h_ticket h with NoTicket => 0 | _ => 1 end
  | DialSlot => match h_dial h with None => 0 | _ => 1 end
  | DialAttemptOf => match h_dial h with Some (Dialing _) => 1 | _ => 0 end
  end.

Lemma owed_snoc (r : Resource) (tr : list Obs) (o : Obs) : owed r (tr ++ [o]) = owed r tr + delta r o.
Proof. unfold owed. now rewrite fold_left_app. Qed.

Lemma track_snoc {St : Type} (upd : forall e, Ans e -> St -> St) (s : St) (tr : list Obs) (e : Eff) (x : Ans e) :
  track upd s (tr ++ [obs e x]) = upd e x (track upd s tr).
Proof. unfold track. now rewrite fold_left_app. Qed.

Lemma count_remove_one (n m : nat) (l : list nat) :
  In n l -> Z.of_nat (count_occ Nat.eq_dec (remove_one n l) m) =
            Z.of_nat (count_occ Nat.eq_dec l m) - (if (m =? n)%nat then 1 else 0).
Proof.
  induction l as [| k l IH]; [done |]. cbn [In remove_one]. intros Hin.
  destruct (Nat.eqb_spec k n) as [-> | Ne].
  - cbn [count_occ]. destruct (Nat.eq_dec n m), (Nat.eqb_spec m n); subst; lia || congruence.
  - destruct Hin as [? | Hin]; [done |]. specialize (IH Hin). cbn [count_occ].
    destruct (Nat.eq_dec k m); lia.
Qed.

(** A call in order changes the amounts held as the account says. *)
Lemma amount_after (r : Resource) (e : Eff) (x : Ans e) (h : Held) :
  allowed e h -> amount r (after e x h) = amount r h + delta r (obs e x).
Proof.
  destruct h as [so p a b st g t d]. unfold obs, delta.
  destruct e; destruct r as [s0 | n0 | | | |]; cbn in *; intros A; cases x; cbn; try lia;
    try match type of A with _ /\ _ => destruct A as [A _] end;
    first
      [ case_bool_decide; destruct s, s0; cbn; congruence || lia
      | destruct s0; cbn; lia
      | destruct s; cbn; lia
      | subst; cbn; lia
      | unfold holds_live in A; cbn in A; destruct t; cbn; done || lia
      | rewrite count_remove_one by done; destruct (n0 =? n)%nat; lia
      | destruct (Nat.eq_dec n n0), (Nat.eqb_spec n0 n); subst; lia || congruence
      | idtac ].
Qed.

Lemma discipline_owed {A : Type} (p : Prog A) (Q : A -> Held -> Prop) (tr : list Obs) (r : Resource) :
  triple nothing p Q -> starts p tr -> owed r tr = amount r (track after nothing tr).
Proof.
  intros T. induction tr as [| [e x] tr IH] using rev_ind; intros S; [destruct r as [[] | | | | |]; reflexivity |].
  pose proof (wp_starts _ _ nothing p Q tr e x T S) as [_ A0].
  change (existT e x) with (obs e x) in *. rewrite owed_snoc, track_snoc, amount_after by done.
  rewrite IH; [done |]. now apply starts_app in S.
Qed.

Lemma starts_sane {A : Type} (p : Prog A) (Q : A -> Held -> Prop) (tr : list Obs) (e : Eff) (x : Ans e) :
  triple nothing p Q -> starts p (tr ++ [obs e x]) -> sane (track after nothing tr).
Proof. intros T S. now destruct (wp_starts _ _ nothing p Q tr e x T S). Qed.

(** C4: A connection gives back exactly what it took. In every execution of a connection task, whatever
    its services answer and wherever it is cancelled, and for every resource (each permit pool, each
    gauge, the ticket in each identity table, the dial permit and the circuit-breaker attempt): when
    the task ends nothing is owed, and at no call before has it released more than it had taken. *)
Theorem connection_balanced {Value : Type} `{JsonLib Value} {IpNet : Type} `{IpNetLib IpNet} (cfg : Config Value IpNet)
  (peer : SocketAddr) (tr : list Obs) (r : Resource) :
  (runs (connection cfg peer) tr tt -> owed r tr = 0) /\
  (forall e x, starts (connection cfg peer) (tr ++ [obs e x]) -> 0 <= owed r tr).
Proof.
  split.
  - intros R. rewrite (discipline_owed _ _ _ r (connection_ok cfg peer) (runs_starts _ _ _ R)).
    rewrite (wp_runs _ _ nothing _ _ tr tt (connection_ok cfg peer) R). now destruct r as [[] | | | | |].
  - intros e x S. rewrite (discipline_owed _ _ _ r (connection_ok cfg peer) (starts_app _ _ _ S)).
    pose proof (starts_sane _ _ _ _ _ (connection_ok cfg peer) S) as (? & ? & ? & ? & ? & _).
    destruct r as [[] | | | | |]; cbn; try lia; destruct (h_ticket _) || destruct (h_dial _) as [[] |]; lia.
Qed.
