(* ===== verification/GateSafety.v ===== *)
(** * What the handler lets through

    Properties of every execution of a connection task: when the backend is contacted and with which
    bytes, what is ever written to a client, and which connections may be scored as churn. The
    tracked state is the history of calls and answers, or the part of it a property needs. *)
From S2P Require Import Prelude Machine Metrics Net Config Limiter Wire Protocol FrameIO Proxy Backend Cache Validate.
From S2P Require Import Task Gate GateResources.
From stdpp Require Import base option list.
From Stdlib Require Import ZArith Lia.
Local Open Scope Z_scope.

(** ** Histories *)

(** The latest call first. *)
Definition History : Type := list Obs.
Definition log (e : Eff) (x : Ans e) (h : History) : History := obs e x :: h.

Lemma track_log (tr : list Obs) : track log [] tr = rev tr.
Proof.
  induction tr as [| [e x] tr IH] using rev_ind; [done |].
  change (existT e x) with (obs e x). rewrite track_snoc, IH, rev_unit. reflexivity.
Qed.

(** The bytes sent to the backend. *)
Definition sent_by (o : Obs) : list Z := let 'existT e _ := o in match e with BackendWrite bs => bs | _ => [] end.
Fixpoint sent (h : History) : list Z :=
  match h with
  | [] => []
  | o :: h => sent h ++ sent_by o
  end.

(** The call consults the policy. *)
Definition policy_call (o : Obs) : bool := match projT1 o with AskPolicy _ => true | _ => false end.

(** The client sent the frame [f]. *)
Definition received (h : History) (f : Frame) : Prop :=
  exists max budget deadline progress first budget',
    In (obs (ReadFrame max budget deadline progress first) (Some (Ok f, budget'))) h.

Section Safety.
Context {Value : Type} `{JsonLib Value} {IpNet : Type} `{IpNetLib IpNet} (cfg : Config Value IpNet) (socket_peer : SocketAddr).

(** The address the connection is charged to and the address it was made to. *)
Definition identified (h : History) (peer dst : SocketAddr) : Prop :=
  if enabled (incoming_proxy_v2 cfg)
  then is_trusted (sa_ip socket_peer) (incoming_proxy_v2 cfg) = true /\
       exists d, In (obs (ReadProxy socket_peer d) (Some (Ok (peer, dst)))) h
  else peer = socket_peer /\ In (obs LocalAddr (Some dst)) h.

(** [p] is the policy last consulted in [h], for [ip], which it does not block; [early] is the history before. *)
Inductive asked (ip : IpAddr) (p : Policy) (early : History) : History -> Prop :=
| asked_now : asked ip p early (obs (AskPolicy ip) (p, false) :: early)
| asked_before o h : policy_call o = false -> asked ip p early h -> asked ip p early (o :: h).

(** The call [o] was made when [p] was the policy last consulted. *)
Inductive under (ip : IpAddr) (p : Policy) (early : History) (o : Obs) : History -> Prop :=
| under_now h : asked ip p early h -> under ip p early o (o :: h)
| under_before o' h : under ip p early o h -> under ip p early o (o' :: h).

(** The policy enforces EMERGENCY. *)
Definition freezes (p : Policy) : bool := negb (observe p) && (mode p =? 3).

(** Everything that must have happened before the backend is contacted for a client. It was identified. It was admitted by the
    limiter, under a policy that had just let it in. It sent a handshake that asks to log in, and after it the policy was
    consulted again and under that policy the handshake was charged. It sent a well-formed login start,
    after it the policy was consulted once more, and never since: that last policy neither blocks it nor
    freezes logins, and under it the login was charged. Its ticket is the one it was admitted with. It holds every
    permit and an attempt of the circuit breaker. *)
Definition cleared (h : History) (peer dst : SocketAddr) (hf lf : Frame) : Prop :=
  identified h peer dst /\
  exists t,
  (exists p early, under (sa_ip peer) p early (obs (AcceptTicket (sa_ip peer) p) (Some t)) h /\ freezes p = false) /\
  (exists hp, handshake (Frame_body hf) (protocol cfg) = Ok hp /\ hs_state hp <> 1 /\
     login (Frame_body lf) (hs_version hp) (protocol cfg) = Ok tt) /\
  (exists p early, received early hf /\
     under (sa_ip peer) p early (obs (RateEvent (set_handshake t) Handshake p) true) h) /\
  (exists p early, received early lf /\ freezes p = false /\
     under (sa_ip peer) p early (obs (RateEvent (set_handshake t) Login p) true) h /\ asked (sa_ip peer) p early h) /\
  In (obs (TryAcquire AdmittedSlots) true) h /\ In (obs (TryAcquire BackendSlots) true) h /\
  In (obs (TryAcquire Sockets) true) h /\ (exists now a, In (obs (DialEnter now) (Some a)) h).

(** What is replayed to the backend. *)
Definition replayed (peer dst : SocketAddr) (hf lf : Frame) (bytes : list Z) : Prop :=
  exists header, (if proxy_v2 cfg then proxy_header peer dst = Ok header else header = []) /\
    bytes `prefix_of` header ++ wire hf ++ wire lf.

Definition authorised (e : Eff) (h : History) : Prop :=
  match e with
  | Connect => exists peer dst hf lf, cleared h peer dst hf lf /\ sent h = []
  | BackendWrite bs => exists peer dst hf lf, cleared h peer dst hf lf /\ replayed peer dst hf lf (sent h ++ bs)
  | ClientWrite bs _ =>
      (exists f v, received h f /\ status_request (Frame_body f) = Ok tt /\ In (obs (CacheGet v) bs) h) \/
      (exists f, received h f /\ ping (Frame_body f) = Ok tt /\ bs = wire f)
  | _ => True
  end.

(** Facts of a history stay true as it grows. *)
Lemma received_log (e : Eff) (x : Ans e) (h : History) (f : Frame) : received h f -> received (log e x h) f.
Proof. intros (m & b & d & p & q & b' & Hin). exists m, b, d, p, q, b'. now right. Qed.

Lemma identified_log (e : Eff) (x : Ans e) (h : History) (peer dst : SocketAddr) :
  identified h peer dst -> identified (log e x h) peer dst.
Proof.
  unfold identified, log. destruct (enabled _).
  - intros (T & d & Hin). split; [done |]. exists d. now right.
  - intros (E & Hin). split; [done | now right].
Qed.

Lemma under_log (ip : IpAddr) (p : Policy) (early : History) (o : Obs) (e : Eff) (x : Ans e) (h : History) :
  under ip p early o h -> under ip p early o (log e x h).
Proof. apply under_before. Qed.

Lemma cleared_log (e : Eff) (x : Ans e) (h : History) (peer dst : SocketAddr) (hf lf : Frame) :
  policy_call (obs e x) = false -> cleared h peer dst hf lf -> cleared (log e x h) peer dst hf lf.
Proof.
  intros N (I & t & (p0 & e0 & A0 & F0) & Hs & (p1 & e1 & R1 & U1) & (p2 & e2 & R2 & F2 & U2 & L2) & A & B & C & (now & a & D)).
  split; [now apply identified_log |]. exists t. split; [exists p0, e0; auto using under_log |]. split; [exact Hs |].
  split; [exists p1, e1; auto using under_log |]. split; [exists p2, e2; split_and!; auto using under_log; now apply asked_before |].
  split_and!; try (now right). exists now, a. now right.
Qed.

Ltac in_history := unfold log; cbn [In]; repeat (first [left; reflexivity | right]).
Ltac hexec := wexec ltac:(try exact I) ltac:(idtac).

(** Calls that reach neither socket. *)
Definition silent (e : Eff) : Prop :=
  match e with Connect | BackendWrite _ | ClientWrite _ _ => False | _ => True end.

Lemma silent_authorised {A : Type} (p : Prog A) :
  (forall h : History, wp (fun e _ => silent e) log h p (fun _ _ => True)) ->
  forall h, wp authorised log h p (fun _ _ => True).
Proof.
  intros S h. specialize (S h). revert h S. induction p as [a | e k IH]; intros h S; [done |].
  destruct S as [Se S]. split; [now destruct e |]. intros x. now apply IH.
Qed.

Ltac silent_tac := apply silent_authorised; intros; repeat (hexec; cbn; try done).

Lemma Admission_drop_silent (start : Instant) (h : History) : wp authorised log h (Admission_drop start) (fun _ _ => True).
Proof. unfold Admission_drop, PreloginTime_drop. silent_tac. Qed.

Lemma drop_ticket_silent (t : Ticket) (h : History) : wp authorised log h (drop_ticket t) (fun _ _ => True).
Proof. unfold drop_ticket. silent_tac. Qed.

Lemma record_error_silent (e : Error) (h : History) : wp authorised log h (record_error e) (fun _ _ => True).
Proof. unfold record_error. silent_tac. Qed.

Lemma admit_and_relay_silent (start : Instant) (l : Locals) (h : History) :
  wp authorised log h (admit_and_relay start l) (fun _ _ => True).
Proof. unfold admit_and_relay, mark_admitted, Admission_drop, PreloginTime_drop. silent_tac. Qed.

(** Replies to a status client. *)
Lemma status_session_authorised (peer : SocketAddr) (hp : HandshakePacket) (p : Policy) (budget : Z) (l : Locals) (h : History) :
  wp authorised log h (status_session cfg peer hp p budget l) (fun _ _ => True).
Proof.
  unfold status_session. hexec; try exact I; cbn [authorised];
    repeat match goal with u : unit |- _ => destruct u end;
    match goal with
    | |- (exists f v, _ /\ _ /\ In (obs (CacheGet v) (wire ?g)) _) \/ _ =>
        right; exists g; split_and!; [do 6 eexists; in_history | assumption | reflexivity]
    | E : status_request (Frame_body ?f) = _ |- _ =>
        left; exists f; eexists; split_and!; [do 6 eexists; in_history | assumption | in_history]
    end.
Qed.

(** The limiter admitted the client as [t], under a policy that had just let it in. *)
Definition admitted_as (h : History) (peer : SocketAddr) (t : Ticket) : Prop :=
  exists p early, under (sa_ip peer) p early (obs (AcceptTicket (sa_ip peer) p) (Some t)) h /\ freezes p = false.

(** The login path, from a parsed handshake and the policy consulted after it on. *)
Definition greeted (h : History) (peer dst : SocketAddr) (hf : Frame) (hp : HandshakePacket) (t : Ticket) (p : Policy) : Prop :=
  identified h peer dst /\ admitted_as h peer t /\
  (exists early, received early hf /\ asked (sa_ip peer) p early h) /\
  handshake (Frame_body hf) (protocol cfg) = Ok hp /\ hs_state hp <> 1 /\ sent h = [].

Lemma admitted_log (e : Eff) (x : Ans e) (h : History) (peer : SocketAddr) (t : Ticket) :
  admitted_as h peer t -> admitted_as (log e x h) peer t.
Proof. intros (p & early & U & F). exists p, early. auto using under_log. Qed.

(** The policy a call was made under, in a history whose last calls are known. *)
Ltac consulted := first [eassumption | apply asked_now | apply asked_before; [reflexivity |]; consulted].
Ltac made_under := first [apply under_now; consulted | apply under_before; made_under].

Lemma dial_authorised (peer dst : SocketAddr) (hf lf : Frame) (h : History) :
  cleared h peer dst hf lf -> sent h = [] ->
  wp authorised log h (dial cfg peer dst hf lf) (fun _ _ => True).
Proof.
  intros C S. unfold dial. hexec; try exact I; cbn [authorised]; exists peer, dst, hf, lf;
    (split; [auto 10 using cleared_log |]); try done;
    cbn [log sent sent_by]; rewrite S, ?app_nil_r, ?app_nil_l; cbn [app];
    (eexists; split; [match goal with E : proxy_v2 cfg = _ |- _ => rewrite E end; first [reflexivity | eassumption] |]);
    rewrite ?app_nil_l, ?app_assoc; auto using prefix_app_r.
Qed.

Lemma connect_backend_authorised (start : Instant) (peer dst : SocketAddr) (hf lf : Frame) (a : Attempt) (l : Locals) (h : History) :
  cleared h peer dst hf lf -> sent h = [] ->
  wp authorised log h (connect_backend cfg start peer dst hf lf a l) (fun _ _ => True).
Proof.
  intros C S. unfold connect_backend. apply wp_bind, wp_act; [exact I |]. intros []. apply wp_ret, wp_bind, wp_act; [exact I |].
  intros []. apply wp_ret, wp_bind. eapply wp_weaken; [| apply dial_authorised; [auto using cleared_log |]].
  2:{ cbn [log sent sent_by obs]. now rewrite S. }
  intros o h' _. unfold complete_attempt. hexec; try exact I.
  eapply wp_weaken; [| apply admit_and_relay_silent]. intros c h2 _. hexec; exact I.
Qed.

Lemma login_session_authorised (start : Instant) (peer dst : SocketAddr) (hf : Frame) (hp : HandshakePacket) (p : Policy)
  (budget : Z) (l : Locals) (h : History) (t : Ticket) :
  greeted h peer dst hf hp t p -> ticket l = set_handshake t ->
  wp authorised log h (login_session cfg start peer dst hf hp p budget l) (fun _ _ => True).
Proof.
  intros (I & A & (early & R & Ask) & E & S & N) T. unfold login_session, breaker_enter, release_if. hexec; try exact Logic.I.
  match goal with B : _ || _ = false |- _ => apply orb_false_iff in B as [-> B]; rename B into Mo end.
  repeat match goal with u : unit |- _ => destruct u end. rewrite T.
  eapply wp_weaken; [| apply connect_backend_authorised].
  - intros c h' _. hexec; exact Logic.I.
  - split; [auto 20 using identified_log |]. exists t. split; [repeat apply admitted_log; exact A |].
    split; [exists hp; now split_and! |]. split; [exists p, early; split; [exact R | unfold log; made_under] |].
    split; [do 2 eexists; split; [| split; [exact Mo | split; [unfold log; made_under | unfold log; consulted]]]; do 6 eexists; in_history |].
    split_and!; [in_history | in_history | in_history | eexists _, _; in_history].
  - unfold log. cbn [sent sent_by obs]. now rewrite N.
Qed.

Lemma session_authorised (start : Instant) (peer dst : SocketAddr) (l : Locals) (h : History) :
  identified h peer dst -> admitted_as h peer (ticket l) -> sent h = [] ->
  wp authorised log h (session cfg start peer dst l) (fun _ _ => True).
Proof.
  intros I A N. unfold session. hexec; try exact Logic.I.
  - apply status_session_authorised.
  - apply (login_session_authorised _ _ _ _ _ _ _ _ _ (ticket l)); [| reflexivity].
    split; [auto 20 using identified_log |]. split; [repeat apply admitted_log; exact A |].
    split; [eexists; split; [| unfold log; consulted]; do 6 eexists; in_history |]. split; [eassumption |].
    split; [now apply Z.eqb_neq |]. unfold log. cbn [sent sent_by obs]. now rewrite N.
Qed.

Lemma handle_authorised (start : Instant) (h : History) :
  sent h = [] -> (enabled (incoming_proxy_v2 cfg) = true -> is_trusted (sa_ip socket_peer) (incoming_proxy_v2 cfg) = true) ->
  wp authorised log h (handle cfg socket_peer start) (fun _ _ => True).
Proof.
  intros N Tr. unfold handle, identify. hexec; try exact I.
  all: try (eapply wp_weaken; [| apply Admission_drop_silent]; done).
  all: eapply wp_weaken; [| apply session_authorised].
  all: try (match goal with B : _ || _ = false |- admitted_as _ _ _ =>
    apply orb_false_iff in B as [-> B]; do 2 eexists; split; [unfold log; made_under | exact B] end).
  all: try (unfold log; cbn [sent sent_by obs]; now rewrite N).
  all: try (intros c h' _; destruct (ctl_end c) as [r l]; apply wp_bind;
    eapply wp_weaken; [| apply drop_ticket_silent]; intros ? ? _; destruct (admission l); [| exact I];
    apply wp_bind; eapply wp_weaken; [| apply Admission_drop_silent]; done).
  all: unfold identified; match goal with En : enabled _ = _ |- _ => rewrite En end.
  - split; [auto |]. eexists. in_history.
  - split; [done |]. in_history.
Qed.

Lemma connection_authorised : wp authorised log [] (connection cfg socket_peer) (fun _ _ => True).
Proof.
  unfold connection. hexec; try exact I.
  eapply wp_weaken; [| apply handle_authorised]; [| done |].
  - intros r h _. destruct r as [[] |]; hexec; try exact I.
    eapply wp_weaken; [| apply record_error_silent]. intros [] h' _. hexec; exact I.
  - intros En. match goal with T : _ && negb _ = false |- _ => rewrite En in T; cbn [andb] in T; now apply negb_false_iff in T end.
Qed.

(** C1: The backend is contacted only for a cleared client. Whenever a connection task opens a backend
    connection, then before that: the client was identified (by a trusted proxy's header or by its
    own address) and admitted by the limiter under a policy that had just let it in; it sent a handshake and a login start that their
    parsers accept; the handshake was charged under a policy consulted after it was read; after the login start was read
    the policy was consulted again, and that consultation is the last one before the backend: it neither blocks the client nor
    enforces EMERGENCY, and the login was charged under it, on the ticket of the admission; and all three
    permits and a circuit-breaker attempt were obtained. *)
Theorem backend_only_when_cleared (tr : list Obs) (x : Ans Connect) :
  starts (connection cfg socket_peer) (tr ++ [obs Connect x]) ->
  exists peer dst hf lf, cleared (rev tr) peer dst hf lf.
Proof.
  intros S. pose proof (wp_starts _ _ _ _ _ _ _ _ connection_authorised S) as A.
  rewrite track_log in A. destruct A as (peer & dst & hf & lf & C & _). eauto.
Qed.

(** C19: The backend receives exactly what the client sent. Everything a connection task ever writes to
    the backend is a prefix of the PROXY header (when configured) for the client's identity, the
    client's handshake frame and its login-start frame, byte for byte and in this order. *)
Theorem backend_replay_exact (tr : list Obs) (bs : list Z) (x : Ans (BackendWrite bs)) :
  starts (connection cfg socket_peer) (tr ++ [obs (BackendWrite bs) x]) ->
  exists peer dst hf lf, cleared (rev tr) peer dst hf lf /\ replayed peer dst hf lf (sent (rev tr) ++ bs).
Proof.
  intros S. pose proof (wp_starts _ _ _ _ _ _ _ _ connection_authorised S) as A.
  rewrite track_log in A. exact A.
Qed.

(** Clients are told nothing else: every byte string written to a client before relaying is the
    cached status response, after a valid status request, or the echo of a valid ping. *)
Theorem client_replies_exact (tr : list Obs) (bs : list Z) (limit : Duration) (x : Ans (ClientWrite bs limit)) :
  starts (connection cfg socket_peer) (tr ++ [obs (ClientWrite bs limit) x]) ->
  (exists f v, received (rev tr) f /\ status_request (Frame_body f) = Ok tt /\ In (obs (CacheGet v) bs) tr) \/
  (exists f, received (rev tr) f /\ ping (Frame_body f) = Ok tt /\ bs = wire f).
Proof.
  intros S. pose proof (wp_starts _ _ _ _ _ _ _ _ connection_authorised S) as A.
  rewrite track_log in A. destruct A as [(f & v & R & E & I) | A]; [left | now right].
  exists f, v. split_and!; auto. now apply in_rev.
Qed.
End Safety.

(** ** Who may be scored as churn *)

(** The gate turned the client away: its policy blocks it, a rate event or a permit was refused, the
    circuit breaker refused, or the backend could not be reached or set up. *)
Definition refusal (o : Obs) : bool :=
  let 'existT e x := o in
  match e return Ans e -> bool with
  | AskPolicy _ => fun x => snd x
  | RateEvent _ _ _ | TryAcquire _ | DialAcquire | BackendNodelay => negb
  | DialEnter _ => fun x => match x with Some _ => false | None => true end
  | Connect | BackendWrite _ => fun x => match x with Some false => true | _ => false end
  | _ => fun _ => false
  end x.

Definition note (e : Eff) (x : Ans e) (refused : bool) : bool := refused || refusal (obs e x).

Definition fair (e : Eff) (refused : bool) : Prop :=
  match e with
  | DropIp t _ | DropPrefix t _ => refused = true -> t_server_rejected t = true
  | _ => True
  end.

Section Churn.
Context {Value : Type} `{JsonLib Value} {IpNet : Type} `{IpNetLib IpNet} (cfg : Config Value IpNet).

(** A stretch that ends with the refusal recorded on the ticket. *)
Definition recorded (c : Ctl Locals unit) (refused : bool) : Prop :=
  refused = true -> t_server_rejected (ticket (snd (ctl_end c))) = true.

Ltac note_norm := cbn [note refusal obs orb negb fst snd].
Ltac fexec := wexec ltac:(try exact I) note_norm.
Ltac recorded_tac :=
  try done; try match goal with B : _ || _ = false |- _ => apply orb_false_iff in B as [-> _] end;
  unfold recorded; cbn; congruence.

Lemma status_session_fair (peer : SocketAddr) (hp : HandshakePacket) (p : Policy) (budget : Z) (l : Locals) :
  wp fair note false (status_session cfg peer hp p budget l) recorded.
Proof. unfold status_session. fexec; recorded_tac. Qed.

Lemma login_session_fair (start : Instant) (peer dst : SocketAddr) (hf : Frame) (hp : HandshakePacket) (p : Policy)
  (budget : Z) (l : Locals) :
  wp fair note false (login_session cfg start peer dst hf hp p budget l) recorded.
Proof.
  unfold login_session, breaker_enter, release_if, connect_backend, complete_attempt, dial, admit_and_relay,
    mark_admitted, Admission_drop, PreloginTime_drop.
  fexec; recorded_tac.
Qed.

Lemma session_fair (start : Instant) (peer dst : SocketAddr) (l : Locals) :
  wp fair note false (session cfg start peer dst l) recorded.
Proof.
  unfold session. fexec; try recorded_tac; [apply status_session_fair | apply login_session_fair].
Qed.

Lemma handle_fair (peer : SocketAddr) (start : Instant) :
  wp fair note false (handle cfg peer start) (fun _ _ => True).
Proof.
  unfold handle, identify, Admission_drop, PreloginTime_drop. fexec; try exact I;
    match goal with B : _ || _ = false |- _ => apply orb_false_iff in B as [-> _] end;
    (eapply wp_weaken; [| apply session_fair]); intros c refused R; unfold recorded in R;
    destruct (ctl_end c) as [r l]; cbn [snd] in R; unfold drop_ticket, note in *;
    repeat (wstep ltac:(try exact I) ltac:(cbn [refusal obs]); cbv beta iota; rewrite ?orb_false_r);
    first [exact I | exact R].
Qed.

Lemma connection_fair (peer : SocketAddr) : wp fair note false (connection cfg peer) (fun _ _ => True).
Proof.
  unfold connection. fexec; try exact I. eapply wp_weaken; [| apply handle_fair].
  intros r refused _. unfold record_error. fexec; exact I.
Qed.

Lemma track_note (refused : bool) (tr : list Obs) : track note refused tr = refused || existsb refusal tr.
Proof.
  revert refused. induction tr as [| [e x] tr IH]; intros refused; [now rewrite orb_false_r |].
  unfold track in *. cbn [fold_left projT1 projT2]. rewrite IH. unfold note, obs. cbn [existsb].
  now rewrite orb_assoc.
Qed.

(** A client the gate turned away is never scored as churn. In every execution of a connection
    task: if, before its ticket is dropped, the policy blocked it, a rate event, a permit or the
    circuit breaker was refused, or the backend could not be reached, then the ticket is dropped
    with [server_rejected] set, so that dropping it changes no churn score. *)
Theorem turned_away_not_churn (peer : SocketAddr) (tr : list Obs) (t : Ticket) (now : Instant) (x : Ans (DropIp t now)) :
  starts (connection cfg peer) (tr ++ [obs (DropIp t now) x]) -> existsb refusal tr = true ->
  ticket_churn t = false.
Proof.
  intros S E. pose proof (wp_starts _ _ _ _ _ _ _ _ (connection_fair peer) S) as F.
  cbn [fair] in F. rewrite track_note in F. cbn [orb] in F. specialize (F E). unfold ticket_churn. now rewrite F.
Qed.
End Churn.
