(* ===== verification/GateErrors.v ===== *)
(** * How a connection's failure is accounted

    A connection that ends with an error increments the counter of that error, once; one that ends
    without an error increments none. The tracked state is the error counters incremented so far and
    the failures its services reported. *)
From S2P Require Import Prelude Machine Metrics Net Config Limiter Wire Protocol FrameIO Proxy Backend Cache Validate.
From S2P Require Import Task Gate GateResources GateSafety.
From stdpp Require Import base option list.
From Stdlib Require Import ZArith Lia.
Local Open Scope Z_scope.

(** ** Errors and counters *)

(** The counter of an error; the end of the stream and I/O errors have none. *)
Definition error_slot (e : Error) : option nat :=
  match e with
  | VarInt => Some 8%nat | Oversized => Some 9%nat | Unsupported => Some 10%nat | Deadline => Some 11%nat
  | Slow => Some 12%nat | Invalid => Some 5%nat | Eof | Io => None
  end.

Definition error_slots : list nat := [5; 8; 9; 10; 11; 12]%nat.

(** The error counters a trace increments, in order. *)
Definition error_inc (o : Obs) : list nat :=
  match projT1 o with MetricInc n => if existsb (Nat.eqb n) error_slots then [n] else [] | _ => [] end.
Definition error_incs (tr : list Obs) : list nat := flat_map error_inc tr.

(** The error a service reported: a failed read or write, or a socket option that could not be set. *)
Definition failure (o : Obs) : list Error :=
  let 'existT e x := o in
  match e return Ans e -> list Error with
  | ReadFrame _ _ _ _ _ => fun x => match x with Some (Err e, _) => [e] | _ => [] end
  | ReadProxy _ _ => fun x => match x with Some (Err e) => [e] | _ => [] end
  | ClientWrite _ _ => fun x => match x with Some WriteFailed => [Io] | Some WriteElapsed => [Deadline] | _ => [] end
  | SetNodelay => fun x => if x then [] else [Io]
  | LocalAddr => fun x => match x with None => [Io] | Some _ => [] end
  | _ => fun _ => []
  end x.

(** ** Tracking *)

Definition Account : Type := list nat * list Error.
Definition book (e : Eff) (x : Ans e) (a : Account) : Account :=
  (fst a ++ error_inc (obs e x), snd a ++ failure (obs e x)).

Lemma track_book (a : Account) (tr : list Obs) :
  track book a tr = (fst a ++ error_incs tr, snd a ++ flat_map failure tr).
Proof.
  revert a. induction tr as [| [e x] tr IH]; intros a; [unfold track; cbn; rewrite !app_nil_r; now destruct a |].
  unfold track in *. cbn [fold_left projT1 projT2]. rewrite IH. unfold book, obs, error_incs. cbn [fst snd flat_map].
  now rewrite !app_assoc.
Qed.

Section Errors.
Context {Value : Type} `{JsonLib Value} {IpNet : Type} `{IpNetLib IpNet} (cfg : Config Value IpNet).

(** A stretch has counted nothing, and if a service failed, it ended with that error. *)
Definition reported (r : option (result unit Error)) (a : Account) : Prop :=
  fst a = [] /\ (snd a = [] \/ exists e, snd a = [e] /\ r = Some (Err e)).

Definition free (e : Eff) (a : Account) : Prop := True.

Ltac book_norm := cbn [book fst snd failure obs error_inc projT1 app existsb error_slots Nat.eqb orb PROXY_V2_ACCEPTED PROXY_V2_UNTRUSTED].
Ltac bexec := wexec ltac:(exact I) book_norm.
Ltac report := lazymatch goal with |- reported _ _ => unfold reported; cbn; split; [reflexivity | eauto] end.

Lemma status_session_reported (peer : SocketAddr) (h : HandshakePacket) (p : Policy) (budget : Z) (l : Locals) :
  wp free book ([], []) (status_session cfg peer h p budget l) (fun c => reported (fst (ctl_end c))).
Proof. unfold status_session. bexec; report. Qed.

Lemma login_session_reported (start : Instant) (peer dst : SocketAddr) (hf : Frame) (h : HandshakePacket) (p : Policy)
  (budget : Z) (l : Locals) :
  wp free book ([], []) (login_session cfg start peer dst hf h p budget l) (fun c => reported (fst (ctl_end c))).
Proof.
  unfold login_session, breaker_enter, release_if, connect_backend, complete_attempt, dial, admit_and_relay,
    mark_admitted, Admission_drop, PreloginTime_drop. bexec; report.
Qed.

Lemma session_reported (start : Instant) (peer dst : SocketAddr) (l : Locals) :
  wp free book ([], []) (session cfg start peer dst l) (fun c => reported (fst (ctl_end c))).
Proof. unfold session. bexec; try report; [apply status_session_reported | apply login_session_reported]. Qed.

Lemma handle_reported (peer : SocketAddr) (start : Instant) :
  wp free book ([], []) (handle cfg peer start) reported.
Proof.
  unfold handle, identify, Admission_drop, PreloginTime_drop. bexec; try report.
  all: try (match goal with e : Error |- _ => destruct e end; report).
  all: eapply wp_weaken; [| apply session_reported]; intros c [errs fails] [E F]; cbn [fst snd] in E, F; subst errs;
    destruct (ctl_end c) as [r l]; cbn [fst] in F; unfold drop_ticket; bexec;
    unfold reported, book; cbn; now rewrite ?app_nil_r.
Qed.

(** When the task is done: nothing but the counter of the failure, or at most one counter. *)
Definition accounted (a : Account) : Prop :=
  (length (fst a) <= 1)%nat /\ forall e, e ∈ snd a -> fst a = option_list (error_slot e).

Lemma record_error_accounted (e : Error) (a : Account) :
  reported (Some (Err e)) a -> wp free book a (record_error e) (fun _ => accounted).
Proof.
  destruct a as [errs fails]. unfold reported. cbn [fst snd]. intros [-> F]. unfold record_error.
  assert (A : forall n, error_slot e = n -> accounted (option_list n, fails)).
  { intros n <-. split; cbn [fst snd]; [destruct e; cbn; lia |].
    intros e' Hin. destruct F as [-> | (e0 & -> & [= <-])]; [now apply not_elem_of_nil in Hin |].
    now apply list_elem_of_singleton in Hin as ->. }
  specialize (A _ eq_refl). destruct e; bexec; cbn [error_slot option_list] in A; unfold book; cbn; rewrite ?app_nil_r; exact A.
Qed.

Lemma connection_accounted (peer : SocketAddr) : wp free book ([], []) (connection cfg peer) (fun _ => accounted).
Proof.
  assert (Z : accounted ([], [])) by (split; cbn; [lia | intros e Hin; now apply not_elem_of_nil in Hin]).
  unfold connection. bexec; try exact Z. eapply wp_weaken; [| apply handle_reported].
  intros r a R. apply wp_bind. destruct r as [[[] | e] |].
  - destruct a as [errs fails], R as [E [F | (e & _ & [=])]]. cbn in E, F. subst. bexec; exact Z.
  - eapply wp_weaken; [| now apply record_error_accounted]. intros [] [errs fails] [A B]. cbn [fst snd] in *.
    bexec. unfold accounted, book. cbn. now rewrite ?app_nil_r.
  - destruct a as [errs fails], R as [E [F | (e & _ & [=])]]. cbn in E, F. subst. bexec; exact Z.
Qed.

(** C24: Every failure is counted once, under its own name. In every complete execution of a connection
    task, at most one of the six error counters is incremented, once; and if a read, a write, the
    PROXY header or a socket option failed, it is exactly the counter of that error (none for a
    closed or broken connection). *)
Theorem connection_errors_counted (peer : SocketAddr) (tr : list Obs) :
  runs (connection cfg peer) tr tt ->
  (length (error_incs tr) <= 1)%nat /\
  forall o e, In o tr -> In e (failure o) -> error_incs tr = option_list (error_slot e).
Proof.
  intros R. pose proof (wp_runs _ _ _ _ _ tr tt (connection_accounted peer) R) as A.
  rewrite track_book in A. destruct A as [A B]. cbn [fst snd app] in A, B. split; [exact A |].
  intros o e Ho He. apply B, list_elem_of_In, in_flat_map. eauto.
Qed.
End Errors.
