(* ===== verification/GateSystem.v ===== *)
(** * The running gate

    All connection tasks together with the limiter they share, the permit pools, the status refresh
    and the idle sweep. Every call of a task is one step, answered by the shared services: permits by
    the pools, tickets by the limiter, frames and PROXY headers by the readers on an arbitrary
    connection; between two calls any other task may run. The system refines the limiter's own
    transition system, so that the invariants proved there hold of the gate. *)
From S2P Require Import Prelude Machine Float64 Metrics Net Config Limiter LimiterFacts LimiterSystem LimiterEffects LimiterInv.
From S2P Require Import Wire Protocol FrameIO Proxy Backend Cache Validate Task Gate GateResources.
From stdpp Require Import base option list gmap relations.
From Stdlib Require Import ZArith Lia.
Local Open Scope Z_scope.

(** ** States *)

(** A task with what it holds; the latter is not part of the program. *)
Record Task : Type := mkTask { t_prog : Prog unit; t_held : Held; t_refresh : bool }.

Record Sys : Type := mkSys { y_world : World; y_free : Sem -> Z; y_tasks : gmap nat Task }.

Definition set_free (free : Sem -> Z) (s : Sem) (n : Z) : Sem -> Z := fun s' => if decide (s' = s) then n else free s'.

Section System.
Context {Value : Type} `{JsonLib Value} {IpNet : Type} `{IpNetLib IpNet} (cfg : Config Value IpNet).
Context (powf : f64 -> f64 -> f64).

(** The pools created at start-up. *)
Definition pool (s : Sem) : Z :=
  let l := limits cfg in
  match s with
  | Sockets => total_sockets l
  | Prelogin => l_prelogin l
  | AdmittedSlots => l_admitted l
  | BackendSlots => l_backend l - 1
  | StatusSlots => if status_connections l =? 0 then l_prelogin l else status_connections l
  end.

(** ** Services *)

Definition set_metrics (w : World) (f : Metrics -> Metrics) : World :=
  mkWorld (with_metrics (w_lim w) (f (l_metrics (w_lim w)))) (w_live w).
Definition set_cell (l : Limiter) (w : World) (tid : nat) (t : Ticket) (p : Phase) : World :=
  mkWorld l (<[tid := mkCell t p]> (w_live w)).

(** The answer [x] to call [e] of task [tid], and the world after it. *)
Definition world_serves (w : World) (tid : nat) (e : Eff) : Ans e -> World -> Prop :=
  let l := w_lim w in
  match e with
  | AcceptTicket ip p => fun x w' => exists now l', Limiter_accept l ip p now = Some (x, l') /\
      w' = match x with Some t => set_cell l' w tid t Idle | None => mkWorld l' (w_live w) end
  | RateEvent t ev p => fun x w' => exists now l', Limiter_event l t ev p now = Some (x, l') /\
      w' = set_cell l' w tid t Idle
  | EnterStatus t => fun x w' => exists l', Ticket_enter_status l t = (fst x, snd x, l') /\
      w' = set_cell l' w tid (snd x) Idle
  | AdmitIp t => fun _ w' => w' = set_cell (with_ip l (release_pending (l_ip l) (t_ip t))) w tid t AdmittedIp
  | AdmitPrefix t => fun _ w' =>
      w' = set_cell (with_prefix l (release_pending (l_prefix l) (t_prefix t))) w tid (set_ticket_admitted t) Idle
  | DropIp t now => fun _ w' => w' = set_cell (drop_ip powf l t now) w tid t (DroppedIp now)
  | DropPrefix t now => fun _ w' => w' = mkWorld (drop_prefix powf l t now) (delete tid (w_live w))
  | MetricInc n | GaugeUp n => fun _ w' => w' = set_metrics w (fun m => Metrics_inc m n)
  | MetricAdd n v => fun _ w' => w' = set_metrics w (fun m => Metrics_add m n v)
  | GaugeDown n => fun _ w' => w' = set_metrics w (fun m => Metrics_dec m n)
  | ReadFrame max budget deadline progress first => fun x w' => w' = w /\
      match x with
      | Some (res, budget') => exists r r', read_frame max deadline progress first r budget = Some (res, budget', r')
      | None => True
      end
  | ReadProxy peer _ => fun x w' => w' = w /\
      match x with
      | Some res => exists r r', proxy_read r peer (incoming_proxy_v2 cfg) = Some (res, r')
      | None => True
      end
  | BackendRead max budget deadline progress first => fun x w' => w' = w /\
      match x with
      | Some (Some res) => exists r r' rest', read_frame max deadline progress first r budget = Some (res, rest', r')
      | _ => True
      end
  | _ => fun _ w' => w' = w
  end.

(** The permit pools. *)
Definition pool_serves (free : Sem -> Z) (e : Eff) : Ans e -> (Sem -> Z) -> Prop :=
  match e with
  | TryAcquire s => fun x free' =>
      if x then 0 < free s /\ free' = set_free free s (free s - 1) else free s <= 0 /\ free' = free
  | Release s => fun _ free' => free' = set_free free s (free s + 1)
  | _ => fun _ free' => free' = free
  end.

(** ** Steps *)

Inductive sys_step (y : Sys) : Sys -> Prop :=
| sys_connection tid peer :
    y_tasks y !! tid = None ->
    sys_step y (mkSys (y_world y) (y_free y) (<[tid := mkTask (connection cfg peer) nothing false]> (y_tasks y)))
| sys_refresh tid :
    y_tasks y !! tid = None -> (forall i tk, y_tasks y !! i = Some tk -> t_refresh tk = false) ->
    sys_step y (mkSys (y_world y) (y_free y) (<[tid := mkTask (refresh_task cfg) nothing true]> (y_tasks y)))
| sys_call tid tk e k x w free :
    y_tasks y !! tid = Some tk -> t_prog tk = Act e k ->
    world_serves (y_world y) tid e x w -> pool_serves (y_free y) e x free ->
    sys_step y (mkSys w free (<[tid := mkTask (k x) (after e x (t_held tk)) (t_refresh tk)]> (y_tasks y)))
| sys_done tid tk a :
    y_tasks y !! tid = Some tk -> t_prog tk = Ret a ->
    sys_step y (mkSys (y_world y) (y_free y) (delete tid (y_tasks y)))
| sys_sweep_ip shard now :
    sys_step y (mkSys (mkWorld (sweep_ip (w_lim (y_world y)) shard now) (w_live (y_world y))) (y_free y) (y_tasks y))
| sys_sweep_prefix shard now :
    sys_step y (mkSys (mkWorld (sweep_prefix (w_lim (y_world y)) shard now) (w_live (y_world y))) (y_free y) (y_tasks y))
| sys_metrics m :
    foreign_metrics (l_metrics (w_lim (y_world y))) m ->
    sys_step y (mkSys (mkWorld (with_metrics (w_lim (y_world y)) m) (w_live (y_world y))) (y_free y) (y_tasks y)).

Definition sys_initial (y : Sys) : Prop :=
  initial (limits cfg) (y_world y) /\ y_free y = pool /\ y_tasks y = ∅.
Definition sys_reachable (y : Sys) : Prop := exists y0, sys_initial y0 /\ rtc sys_step y0 y.

(** ** The invariant *)

Definition cell_matches (h : TicketHeld) (c : option Cell) : Prop :=
  match h with
  | NoTicket => c = None
  | Live t => exists t', c = Some (mkCell t' Idle) /\ same_ticket t t'
  | HalfAdmitted t => c = Some (mkCell t AdmittedIp)
  | HalfDropped t now => c = Some (mkCell t (DroppedIp now))
  end.

Record task_ok (w : World) (tid : nat) (tk : Task) : Prop := {
  tk_triple : triple (t_held tk) (t_prog tk) (fun _ h => h = nothing);
  tk_cell : cell_matches (h_ticket (t_held tk)) (w_live w !! tid) }.

Definition held_permits (s : Sem) (tasks : gmap nat Task) : Z := msum (fun tk => permits (t_held tk) s) tasks.

Record sys_inv (y : Sys) : Prop := {
  si_tasks : forall tid tk, y_tasks y !! tid = Some tk -> task_ok (y_world y) tid tk;
  si_orphans : forall tid, y_tasks y !! tid = None -> w_live (y_world y) !! tid = None;
  si_permits : forall s, y_free y s + held_permits s (y_tasks y) = pool s;
  si_free : forall s, 0 <= y_free y s;
  si_world : reachable powf (total_sockets (limits cfg)) (limits cfg) (y_world y) }.

Lemma task_sane (w : World) (tid : nat) (tk : Task) : task_ok w tid tk -> sane (t_held tk).
Proof.
  intros [T _]. destruct (t_prog tk) as [a | e k].
  - cbn in T. rewrite T. unfold sane. cbn. split_and!; lia || congruence.
  - apply T.
Qed.

(** The permit pools only move permits between the pool and the task. *)
Lemma pool_serves_permits (free free' : Sem -> Z) (e : Eff) (x : Ans e) (h : Held) (s : Sem) :
  pool_serves free e x free' ->
  free' s + permits (after e x h) s = free s + permits h s /\ (0 <= free s -> 0 <= free' s).
Proof.
  intros P. destruct h as [so pr a b st g t d].
  destruct e as [| | | | | | | | | | | | | | s' | s' | | | | | | | | | | | | | | | |]; cbn in P;
    cbn [Ans] in x; try (subst; cases x; destruct s; cbn; lia); unfold set_free in P.
  - destruct x; destruct P as [P ->]; [| cbn; lia].
    cbn [after]. case_decide as E; [subst s'; destruct s; cbn; lia | destruct s, s'; cbn; lia || congruence].
  - subst free'. cbn [after].
    case_decide as E; [subst s'; destruct s; cbn; lia | destruct s, s'; cbn; lia || congruence].
Qed.

(** ** Every call is a sequence of limiter steps *)

Abbreviation limiter_reachable := (reachable powf (total_sockets (limits cfg)) (limits cfg)).

Lemma reachable_step (w w' : World) :
  limiter_reachable w -> step powf (total_sockets (limits cfg)) w w' -> limiter_reachable w'.
Proof. intros (w0 & I & R) S. exists w0. split; [done |]. eapply rtc_r; eauto. Qed.

(** A handler's own changes to the flags of its ticket. *)
Lemma reachable_flags (w : World) (tid : nat) (t0 t t' : Ticket) :
  limiter_reachable w -> w_live w !! tid = Some (mkCell t' Idle) -> same_ticket t0 t' -> same_ticket t0 t ->
  limiter_reachable (set_cell (w_lim w) w tid t Idle).
Proof.
  intros R C (A1 & A2 & A3 & A4) (B1 & B2 & B3 & B4).
  replace t with (set_flags t' (t_handshake t) (t_status_complete t) (t_server_rejected t)).
  - eapply reachable_step; [exact R |]. now apply step_flags.
  - destruct t, t'. unfold set_flags. cbn in *. congruence.
Qed.

Lemma set_cell_twice (l l' : Limiter) (w : World) (tid : nat) (t t' : Ticket) (p p' : Phase) :
  mkWorld l (<[tid := mkCell t p]> (w_live (set_cell l' w tid t' p'))) = set_cell l w tid t p.
Proof. unfold set_cell. cbn [w_live]. now rewrite insert_insert_eq. Qed.

Lemma foreign_metric (m m' : Metrics) (n : nat) :
  n <> 32%nat -> n <> 33%nat -> length (values m') = length (values m) ->
  (forall k, k <> n -> Metrics_get m' k = Metrics_get m k) -> foreign_metrics m m'.
Proof. intros A B L E. split_and!; auto. Qed.

(** What a served call means for the limiter and for the caller's ticket. *)
Definition simulates (w w' : World) (tid : nat) (h : TicketHeld) : Prop :=
  limiter_reachable w' /\ cell_matches h (w_live w' !! tid) /\ (forall j, j <> tid -> w_live w' !! j = w_live w !! j).

Lemma simulates_metrics (w : World) (tid : nat) (h : TicketHeld) (n : nat) (f : Metrics -> Metrics) :
  limiter_reachable w -> cell_matches h (w_live w !! tid) -> n <> 32%nat -> n <> 33%nat ->
  (forall m, length (values (f m)) = length (values m)) ->
  (forall m k, k <> n -> Metrics_get (f m) k = Metrics_get m k) ->
  simulates w (set_metrics w f) tid h.
Proof.
  intros R C A B L E. split; [| done]. eapply reachable_step; [exact R |].
  apply step_metrics. apply (foreign_metric _ _ n); auto.
Qed.

(** The call was made on the live ticket [t]; the world in which its flags are up to date. *)
Lemma live_ticket (w : World) (tid : nat) (h : Held) (t : Ticket) :
  limiter_reachable w -> cell_matches (h_ticket h) (w_live w !! tid) -> holds_live h t ->
  let w1 := set_cell (w_lim w) w tid t Idle in
  limiter_reachable w1 /\ w_live w1 !! tid = Some (mkCell t Idle).
Proof.
  intros R C L. unfold holds_live in L. destruct (h_ticket h) as [| t0 | |]; try done.
  destruct C as (t' & C & S). split; [eapply reachable_flags; eauto |].
  unfold set_cell. cbn [w_live]. apply lookup_insert_eq.
Qed.

Lemma simulates_cell (w : World) (l : Limiter) (tid : nat) (t : Ticket) (p : Phase) (h : TicketHeld) :
  limiter_reachable (set_cell l w tid t p) -> cell_matches h (Some (mkCell t p)) -> simulates w (set_cell l w tid t p) tid h.
Proof.
  intros R C. split; [done |]. unfold set_cell. cbn [w_live]. rewrite lookup_insert_eq. split; [done |].
  intros j Hj. now rewrite lookup_insert_ne.
Qed.

Lemma same_ticket_refl (t : Ticket) : same_ticket t t.
Proof. now split_and!. Qed.

Lemma h_ticket_with (h : Held) (t : TicketHeld) : h_ticket (with_ticket h t) = t.
Proof. now destruct h. Qed.

(** Calls on a live ticket. *)
Lemma serve_event (w w' : World) (tid : nat) (h : Held) (t : Ticket) (ev : Event) (p : Policy) (x : bool) :
  limiter_reachable w -> cell_matches (h_ticket h) (w_live w !! tid) -> holds_live h t ->
  world_serves w tid (RateEvent t ev p) x w' -> simulates w w' tid (h_ticket h).
Proof.
  intros R C L (now & l' & E & ->). destruct (live_ticket w tid h t R C L) as [R1 C1].
  apply simulates_cell.
  - change (set_cell l' w tid t Idle) with (mkWorld l' (w_live (set_cell (w_lim w) w tid t Idle))).
    eapply reachable_step; [exact R1 |]. eapply (step_event _ _ _ tid t ev p now x); eauto.
  - unfold holds_live in L. destruct (h_ticket h); try done. exists t. now split.
Qed.

Lemma serve_status (w w' : World) (tid : nat) (h : Held) (t : Ticket) (x : bool * Ticket) :
  limiter_reachable w -> cell_matches (h_ticket h) (w_live w !! tid) -> holds_live h t ->
  world_serves w tid (EnterStatus t) x w' -> simulates w w' tid (Live (snd x)).
Proof.
  intros R C L (l' & E & ->). destruct (live_ticket w tid h t R C L) as [R1 C1].
  apply simulates_cell; [| exists (snd x); split; [done | apply same_ticket_refl]].
  rewrite <- (set_cell_twice l' (w_lim w) w tid (snd x) t Idle Idle).
  eapply reachable_step; [exact R1 |]. eapply step_status; [exact C1 |]. exact E.
Qed.

Lemma serve_admit_ip (w w' : World) (tid : nat) (h : Held) (t : Ticket) :
  limiter_reachable w -> cell_matches (h_ticket h) (w_live w !! tid) -> holds_live h t -> t_admitted t = false ->
  world_serves w tid (AdmitIp t) tt w' -> simulates w w' tid (HalfAdmitted t).
Proof.
  intros R C L A ->. destruct (live_ticket w tid h t R C L) as [R1 C1]. apply simulates_cell; [| done].
  rewrite <- (set_cell_twice _ (w_lim w) w tid t t AdmittedIp Idle).
  eapply reachable_step; [exact R1 |]. exact (step_admit_ip _ _ (set_cell (w_lim w) w tid t Idle) tid t C1 A).
Qed.

Lemma serve_drop_ip (w w' : World) (tid : nat) (h : Held) (t : Ticket) (now : Instant) :
  limiter_reachable w -> cell_matches (h_ticket h) (w_live w !! tid) -> holds_live h t ->
  world_serves w tid (DropIp t now) tt w' -> simulates w w' tid (HalfDropped t now).
Proof.
  intros R C L ->. destruct (live_ticket w tid h t R C L) as [R1 C1]. apply simulates_cell; [| done].
  rewrite <- (set_cell_twice _ (w_lim w) w tid t t (DroppedIp now) Idle).
  eapply reachable_step; [exact R1 |]. exact (step_drop_ip _ _ (set_cell (w_lim w) w tid t Idle) tid t now C1).
Qed.

Lemma serve_accept (w w' : World) (tid : nat) (h : Held) (ip : IpAddr) (p : Policy) (x : option Ticket) :
  limiter_reachable w -> cell_matches (h_ticket h) (w_live w !! tid) -> h_ticket h = NoTicket ->
  Z.of_nat (size (w_live w)) < total_sockets (limits cfg) ->
  world_serves w tid (AcceptTicket ip p) x w' ->
  simulates w w' tid (match x with Some t => Live t | None => NoTicket end).
Proof.
  intros R C N Sz (now & l' & E & ->). rewrite N in C. cbn in C. destruct x as [t |].
  - apply simulates_cell; [| exists t; split; [done | apply same_ticket_refl]].
    eapply reachable_step; [exact R |]. eapply step_admit; eauto.
  - split; [| done]. eapply reachable_step; [exact R |]. eapply step_refuse; eauto.
Qed.

Lemma serve_simulates (w w' : World) (tid : nat) (h : Held) (e : Eff) (x : Ans e) :
  limiter_reachable w -> cell_matches (h_ticket h) (w_live w !! tid) -> allowed e h ->
  (0 < n_sockets h -> h_ticket h = NoTicket -> Z.of_nat (size (w_live w)) < total_sockets (limits cfg)) ->
  world_serves w tid e x w' -> simulates w w' tid (h_ticket (after e x h)).
Proof.
  intros R C A Sz W.
  destruct e; cbn [Ans] in x;
    try solve [destruct h; cbn in *; try match type of W with _ /\ _ => destruct W as [W _] end; subst w'; cases x; try destruct s; now split_and!];
    try solve [cbn in W; subst w'; assert (n <> 32 /\ n <> 33)%nat as [? ?] by (cbn in A; unfold own_slot in A; tauto);
      match goal with |- simulates _ _ _ ?h' => replace h' with (h_ticket h) by (now destruct h) end;
      apply (simulates_metrics w tid _ n); auto; intros; [apply length_alter |];
      unfold Metrics_get, Metrics_inc, Metrics_add, Metrics_dec; cbn [values];
      now rewrite list_lookup_alter_ne by congruence].
  all: cbn [after]; rewrite ?h_ticket_with; cbn [allowed] in A.
  - destruct A as [N S]. pose proof (serve_accept w w' tid h ip p x R C N (Sz S N) W) as G.
    destruct x; rewrite ?h_ticket_with, ?N; exact G.
  - eapply serve_event; eauto.
  - eapply serve_status; eauto.
  - destruct A as [A B]. destruct x. eapply serve_admit_ip; eauto.
  - rewrite A in C. cbn in C. cbn in W. subst w'.
    apply simulates_cell; [| exists (set_ticket_admitted t); split; [done | apply same_ticket_refl]].
    eapply reachable_step; [exact R |]. now apply step_admit_prefix.
  - destruct x. eapply serve_drop_ip; eauto.
  - rewrite A in C. cbn in C, W. subst w'. split; [eapply reachable_step; [exact R | now eapply step_drop_prefix] |].
    cbn [w_live]. split; [apply lookup_delete_eq |]. intros j Hj. now rewrite lookup_delete_ne.
Qed.

(** ** Preservation *)

Definition has_ticket (tk : Task) : bool := match h_ticket (t_held tk) with NoTicket => false | _ => true end.

Lemma live_le_tickets (y : Sys) : sys_inv y -> Z.of_nat (size (w_live (y_world y))) <= cnt has_ticket (y_tasks y).
Proof.
  intros I. unfold cnt. rewrite <- !size_dom. apply Nat2Z.inj_le, subseteq_size.
  intros tid Hin. apply elem_of_dom in Hin as [c Hc]. apply elem_of_dom.
  destruct (y_tasks y !! tid) as [tk |] eqn:E; [| now rewrite (si_orphans y I tid E) in Hc].
  exists tk. apply map_lookup_filter_Some. split; [done |]. cbn. unfold has_ticket.
  pose proof (tk_cell _ _ _ (si_tasks y I tid tk E)) as C. destruct (h_ticket (t_held tk)); try done.
  cbn in C. congruence.
Qed.

Lemma room_for_ticket (y : Sys) (tid : nat) (tk : Task) :
  sys_inv y -> y_tasks y !! tid = Some tk -> 0 < n_sockets (t_held tk) -> h_ticket (t_held tk) = NoTicket ->
  Z.of_nat (size (w_live (y_world y))) < total_sockets (limits cfg).
Proof.
  intros I E S N. pose proof (live_le_tickets y I) as L. rewrite cnt_msum in L.
  pose proof (si_permits y I Sockets) as P. pose proof (si_free y I Sockets) as F. unfold held_permits in P. cbn [pool] in P.
  pose proof (msum_delete (fun tk => Z.b2z (has_ticket tk)) _ tid tk E) as D1.
  pose proof (msum_delete (fun tk => permits (t_held tk) Sockets) _ tid tk E) as D2.
  assert (M : msum (fun tk => Z.b2z (has_ticket tk)) (delete tid (y_tasks y)) <=
              msum (fun tk => permits (t_held tk) Sockets) (delete tid (y_tasks y))).
  { apply msum_mono. intros j a Ha. apply lookup_delete_Some in Ha as [_ Ha].
    destruct (task_sane _ _ _ (si_tasks y I j a Ha)) as (? & ? & ? & ? & ? & T). unfold has_ticket.
    destruct (h_ticket (t_held a)); cbn [Z.b2z permits]; try lia; apply T; discriminate. }
  unfold has_ticket in D1 at 3. rewrite N in D1. cbn [Z.b2z permits] in *. lia.
Qed.

Lemma permits_nothing (s : Sem) : permits nothing s = 0.
Proof. now destruct s. Qed.

Lemma inv_add_task (y : Sys) (tid : nat) (p : Prog unit) (r : bool) :
  sys_inv y -> y_tasks y !! tid = None -> triple nothing p (fun _ h => h = nothing) ->
  sys_inv (mkSys (y_world y) (y_free y) (<[tid := mkTask p nothing r]> (y_tasks y))).
Proof.
  intros I N T. split; cbn [y_world y_free y_tasks]; try apply I.
  - intros j tk Hj. destruct (decide (j = tid)) as [-> | Ne].
    + rewrite lookup_insert_eq in Hj. injection Hj as <-. split; [exact T |]. cbn. now apply (si_orphans y I).
    + rewrite lookup_insert_ne in Hj by done. now apply (si_tasks y I).
  - intros j Hj. apply lookup_insert_None in Hj as [Hj _]. now apply (si_orphans y I).
  - intros s. unfold held_permits. rewrite msum_insert_new by done. pose proof (si_permits y I s) as P.
    unfold held_permits in P. cbn [t_held]. rewrite permits_nothing. lia.
Qed.

Lemma inv_call (y : Sys) (tid : nat) (tk : Task) (e : Eff) (k : Ans e -> Prog unit) (x : Ans e) (w : World) (free : Sem -> Z) :
  sys_inv y -> y_tasks y !! tid = Some tk -> t_prog tk = Act e k ->
  world_serves (y_world y) tid e x w -> pool_serves (y_free y) e x free ->
  sys_inv (mkSys w free (<[tid := mkTask (k x) (after e x (t_held tk)) (t_refresh tk)]> (y_tasks y))).
Proof.
  intros I E P W F. destruct (si_tasks y I tid tk E) as [T C]. rewrite P in T. destruct T as [[S A] T].
  destruct (serve_simulates _ _ tid (t_held tk) e x (si_world y I) C A (room_for_ticket y tid tk I E) W) as (R & C' & Fr).
  split; cbn [y_world y_free y_tasks].
  - intros j tj Hj. destruct (decide (j = tid)) as [-> | Ne].
    + rewrite lookup_insert_eq in Hj. injection Hj as <-. split; [apply T | exact C'].
    + rewrite lookup_insert_ne in Hj by done. destruct (si_tasks y I j tj Hj) as [Tj Cj]. split; [done |]. now rewrite Fr.
  - intros j Hj. apply lookup_insert_None in Hj as [Hj Ne]. rewrite Fr by done. now apply (si_orphans y I).
  - intros s. unfold held_permits. rewrite (msum_update _ _ tid tk) by done. cbn [t_held].
    destruct (pool_serves_permits _ _ e x (t_held tk) s F) as [B _]. pose proof (si_permits y I s) as Q.
    unfold held_permits in Q. lia.
  - intros s. destruct (pool_serves_permits _ _ e x (t_held tk) s F) as [_ B]. apply B, (si_free y I).
  - exact R.
Qed.

Lemma inv_done (y : Sys) (tid : nat) (tk : Task) (a : unit) :
  sys_inv y -> y_tasks y !! tid = Some tk -> t_prog tk = Ret a ->
  sys_inv (mkSys (y_world y) (y_free y) (delete tid (y_tasks y))).
Proof.
  intros I E P. destruct (si_tasks y I tid tk E) as [T C]. rewrite P in T. cbn in T. rewrite T in C. cbn in C.
  split; cbn [y_world y_free y_tasks]; try apply I.
  - intros j tj Hj. apply lookup_delete_Some in Hj as [_ Hj]. now apply (si_tasks y I).
  - intros j Hj. destruct (decide (j = tid)) as [-> | Ne]; [done |].
    rewrite lookup_delete_ne in Hj by done. now apply (si_orphans y I).
  - intros s. unfold held_permits. rewrite (msum_delete _ _ tid tk) by done. pose proof (si_permits y I s) as Q.
    unfold held_permits in Q. rewrite T, permits_nothing. lia.
Qed.

Lemma inv_world (y : Sys) (l : Limiter) :
  sys_inv y -> step powf (total_sockets (limits cfg)) (y_world y) (mkWorld l (w_live (y_world y))) ->
  sys_inv (mkSys (mkWorld l (w_live (y_world y))) (y_free y) (y_tasks y)).
Proof.
  intros I S. split; cbn [y_world y_free y_tasks w_live]; try apply I.
  - intros j tj Hj. destruct (si_tasks y I j tj Hj). now split.
  - eapply reachable_step; [apply I | exact S].
Qed.

Lemma sys_inv_step (y y' : Sys) : sys_inv y -> sys_step y y' -> sys_inv y'.
Proof.
  intros I S. destruct S.
  - apply inv_add_task; auto. apply connection_ok.
  - apply inv_add_task; auto. apply refresh_task_ok.
  - eapply inv_call; eauto.
  - eapply inv_done; eauto.
  - apply inv_world; [done |]. apply step_sweep_ip.
  - apply inv_world; [done |]. apply step_sweep_prefix.
  - apply inv_world; [done |]. now apply step_metrics.
Qed.

Lemma sys_inv_initial (y : Sys) : (forall s, 0 <= pool s) -> sys_initial y -> sys_inv y.
Proof.
  intros Hp (Iw & Fr & T). destruct Iw as (hip & hprefix & now & W). split; rewrite ?T, ?Fr, ?W.
  - intros j tj Hj. now rewrite lookup_empty in Hj.
  - intros j _. apply lookup_empty.
  - intros s. unfold held_permits. rewrite msum_empty. lia.
  - done.
  - eexists. split; [| apply rtc_refl]. now exists hip, hprefix, now.
Qed.

Lemma sys_inv_reachable (y : Sys) : (forall s, 0 <= pool s) -> sys_reachable y -> sys_inv y.
Proof.
  intros Hp (y0 & I0 & R). apply (sys_inv_initial y0 Hp) in I0. induction R as [| y1 y2 y3 S R IH]; [done |].
  apply IH. eapply sys_inv_step; eauto.
Qed.

(** ** The gate of a validated configuration *)

Section Validated.
Context (Htyped : limits_typed (limits cfg)) (Hvalid : validate cfg = Ok tt).

Lemma pool_nonneg (s : Sem) : 0 <= pool s.
Proof.
  destruct (validate_passed cfg Hvalid) as (_ & _ & _ & BL & _). pose proof (lt_status _ Htyped) as St. unfold is_u64 in St.
  destruct (bad_limits_ok _ Htyped BL) as (_ & ? & ? & ? & ? & ?). destruct s; cbn [pool]; try lia.
  destruct (_ =? 0); lia.
Qed.

(** The gate refines the limiter's transition system. In every state the gate can reach, with any
    number of connections at any stage, any interleaving of their calls, cancellations, refreshes
    and sweeps, the limiter with its live tickets is in a state reachable in its own transition
    system, with the socket permits as the bound on live tickets. Hence the limiter's invariants
    hold of the running gate. *)
Theorem gate_refines_limiter (y : Sys) : sys_reachable y -> limiter_reachable (y_world y).
Proof. intros R. apply si_world, sys_inv_reachable; auto using pool_nonneg. Qed.

(** Permits are conserved: in every reachable state of the gate and for every pool, the free
    permits and those held by the running tasks add up to the configured number, and no pool is
    overdrawn; a gate with no task left has all its permits back. *)
Theorem gate_permits_conserved (y : Sys) (s : Sem) :
  sys_reachable y ->
  y_free y s + held_permits s (y_tasks y) = pool s /\ 0 <= y_free y s <= pool s /\
  (y_tasks y = ∅ -> y_free y s = pool s).
Proof.
  intros R. pose proof (sys_inv_reachable y pool_nonneg R) as I.
  pose proof (si_permits y I s) as P. pose proof (si_free y I s) as F.
  assert (0 <= held_permits s (y_tasks y)).
  { apply msum_nonneg. intros j tk Hj. destruct (task_sane _ _ _ (si_tasks y I j tk Hj)) as (? & ? & ? & ? & ? & _).
      destruct s; cbn; lia. }
  split_and!; try lia. intros E. unfold held_permits in P. rewrite E, msum_empty in P. lia.
Qed.

(** A socket not matched by a pre-login, admitted or backend permit: a connection between accepting
    its socket and its pre-login permit, or closing, or the status refresh. *)
Definition uncovered (tk : Task) : bool :=
  n_prelogin (t_held tk) + n_admitted (t_held tk) + n_backend (t_held tk) <? n_sockets (t_held tk).

(** The socket budget suffices for the other pools. In every reachable state the free sockets,
    together with those in transit, cover every free pre-login, admitted and backend permit and the
    socket reserved for the status refresh. With nothing in transit, a connection that obtains its
    pre-login permit, or its admitted and backend permits, also finds a socket, and so does the
    refresh. *)
Theorem gate_socket_headroom (y : Sys) :
  sys_reachable y ->
  y_free y Prelogin + y_free y AdmittedSlots + y_free y BackendSlots + 1 <= y_free y Sockets + cnt uncovered (y_tasks y).
Proof.
  intros R. pose proof (sys_inv_reachable y pool_nonneg R) as I.
  destruct (validate_passed cfg Hvalid) as (_ & _ & _ & BL & _).
  destruct (bad_limits_ok _ Htyped BL) as (_ & Tot & _).
  pose proof (si_permits y I Sockets). pose proof (si_permits y I Prelogin).
  pose proof (si_permits y I AdmittedSlots). pose proof (si_permits y I BackendSlots). cbn [pool] in *.
  assert (held_permits Sockets (y_tasks y) <= held_permits Prelogin (y_tasks y) + held_permits AdmittedSlots (y_tasks y) +
    held_permits BackendSlots (y_tasks y) + cnt uncovered (y_tasks y)); [| lia].
  rewrite cnt_msum. unfold held_permits. rewrite <- !msum_plus. apply msum_mono. intros j tk Hj.
  destruct (task_sane _ _ _ (si_tasks y I j tk Hj)) as (? & ? & ? & ? & _). cbn [permits]. unfold uncovered.
  destruct (Z.ltb_spec (n_prelogin (t_held tk) + n_admitted (t_held tk) + n_backend (t_held tk)) (n_sockets (t_held tk)));
    cbn [Z.b2z]; lia.
Qed.
End Validated.
End System.
