(* ===== verification/GateServices.v ===== *)
(** * The whole gate ([gate/src/main.rs], [run])

    [GateSystem.v] lets the circuit breaker, the policy feed and the status cache answer a task
    arbitrarily. Here they are the components of [Backend.v], [Runtime.v] and [Cache.v], sharing one
    metric registry, together with the background tasks that [run] starts: the policy watcher, the
    maintenance loop and the status refresh, and with the shutdown. *)
From S2P Require Import Prelude Machine Float64 Metrics Net Config Limiter LimiterFacts LimiterSystem LimiterEffects LimiterInv.
From S2P Require Import Wire Protocol FrameIO Proxy Backend Relay Runtime Cache Registry Validate Task Gate GateResources GateSystem.
From stdpp Require Import base option list gmap relations.
From Stdlib Require Import ZArith Lia.
Local Open Scope Z_scope.

(** ** States *)

Section Gate.
Context {Value : Type} `{JsonLib Value} {IpNet : Type} `{IpNetLib IpNet} (cfg : Config Value IpNet).
Context (powf : f64 -> f64 -> f64) (parse : list Z -> option (Runtime.Wire IpNet)).

(** The services of [State] other than the limiter and the permit pools; the registry of the breaker
    is the shared one, put in place by [with_registry] when it is used. [s_openings] counts how often
    the circuit has opened and is not part of the program. *)
Record Services : Type := mkServices {
  s_breaker : Protection; s_openings : Z; s_runtime : Runtime IpNet; s_cache : StatusCache }.

(** Where the maintenance loop is. *)
Inductive Upkeep : Type := SweepIp | SweepPrefix | PublishPolicy | PublishTelemetry.

Record Whole : Type := mkWhole {
  g_sys : Sys; g_services : Services; g_shard : nat; g_upkeep : Upkeep; g_open : bool }.

Definition registry (w : World) : Metrics := l_metrics (w_lim w).
Definition set_registry (w : World) (m : Metrics) : World := mkWorld (with_metrics (w_lim w) m) (w_live w).

(** ** Answers of the services *)

Definition with_breaker (s : Services) (p : Protection) : Services :=
  mkServices p (s_openings s + Backend.opened (s_breaker s) p) (s_runtime s) (s_cache s).
Definition with_cache (s : Services) (c : StatusCache) : Services :=
  mkServices (s_breaker s) (s_openings s) (s_runtime s) c.

(** The answer [x] to call [e] with registry [m], and the services and the registry after it. *)
Definition serves (s : Services) (m : Metrics) (e : Eff) : Ans e -> Services -> Metrics -> Prop :=
  let p := with_registry (s_breaker s) m in
  match e with
  | DialAcquire => fun x s' m' => m' = m /\
      if x then exists p', acquire_slot p = Some p' /\ s' = with_breaker s p'
      else acquire_slot p = None /\ s' = s
  | DialEnter now => fun x s' m' => exists p', enter_locked p now = (x, p') /\ s' = with_breaker s p' /\ m' = p_metrics p'
  | DialFinish a ok now => fun _ s' m' =>
      let p' := Protection_finish p (a_generation a) ok now in s' = with_breaker s p' /\ m' = p_metrics p'
  | DialRelease => fun _ s' m' => s' = with_breaker s (release_slot p) /\ m' = m
  | AskPolicy ip => fun x s' m' => s' = s /\ m' = m /\ exists now_unix now, x = Runtime_policy (s_runtime s) ip now_unix now
  | CacheGet v => fun x s' m' => s' = s /\ exists now, StatusCache_get (s_cache s) m v now = (x, m')
  | CacheStore v at_ => fun _ s' m' => m' = m /\
      s' = with_cache s (mkStatusCache (Some (mkCached v at_)) (fallback (s_cache s)) (ttl (s_cache s)))
  | _ => fun _ s' m' => s' = s /\ m' = m
  end.

(** ** The maintenance loop *)

(** One iteration of the loop, piece by piece: [sweep] on both tables, then the gauges of the policy
    and of the feed. *)
Definition publish_policy (r : Runtime IpNet) (m : Metrics) (now_unix : Z) (now : Instant) : Metrics :=
  let '(p, _) := Runtime_policy r (sa_ip (listen cfg)) now_unix now in
  Metrics_set (Metrics_set m 34 (mode p)) 35 (Z.b2z (observe p)).
Definition publish_telemetry (r : Runtime IpNet) (m : Metrics) (now_unix : Z) (now : Instant) : Metrics :=
  let '(generation, rejected, missing) := Runtime_telemetry r now_unix now in
  Metrics_set (Metrics_set (Metrics_set m 42 generation) 43 rejected) 51 missing.

Definition upkeep (g : Whole) (now_unix : Z) (now : Instant) : Whole :=
  let y := g_sys g in
  let w := y_world y in
  let 'mkWhole _ s shard u open := g in
  let next w shard u := mkWhole (mkSys w (y_free y) (y_tasks y)) s shard u open in
  match u with
  | SweepIp => next (mkWorld (sweep_ip (w_lim w) shard now) (w_live w)) shard SweepPrefix
  | SweepPrefix => next (mkWorld (sweep_prefix (w_lim w) shard now) (w_live w)) ((shard + 1) mod 64)%nat PublishPolicy
  | PublishPolicy => next (set_registry w (publish_policy (s_runtime s) (registry w) now_unix now)) shard PublishTelemetry
  | PublishTelemetry => next (set_registry w (publish_telemetry (s_runtime s) (registry w) now_unix now)) shard SweepIp
  end.

(** ** Steps *)

Definition spawn (g : Whole) (tid : nat) (tk : Task) : Whole :=
  let y := g_sys g in
  mkWhole (mkSys (y_world y) (y_free y) (<[tid := tk]> (y_tasks y))) (g_services g) (g_shard g) (g_upkeep g) (g_open g).

(** A task makes its next call, or is gone after its last. *)
Inductive task_step (g : Whole) : Whole -> Prop :=
| task_call tid tk e k x w free s m :
    y_tasks (g_sys g) !! tid = Some tk -> t_prog tk = Act e k ->
    world_serves cfg powf (y_world (g_sys g)) tid e x w -> pool_serves (y_free (g_sys g)) e x free ->
    serves (g_services g) (registry w) e x s m ->
    task_step g (mkWhole (mkSys (set_registry w m) free
      (<[tid := mkTask (k x) (after e x (t_held tk)) (t_refresh tk)]> (y_tasks (g_sys g))))
      s (g_shard g) (g_upkeep g) (g_open g))
| task_done tid tk a :
    y_tasks (g_sys g) !! tid = Some tk -> t_prog tk = Ret a ->
    task_step g (mkWhole (mkSys (y_world (g_sys g)) (y_free (g_sys g)) (delete tid (y_tasks (g_sys g))))
      (g_services g) (g_shard g) (g_upkeep g) (g_open g)).

Inductive whole_step (g : Whole) : Whole -> Prop :=
| whole_task g' : task_step g g' -> whole_step g g'
| whole_connection tid peer :
    g_open g = true -> y_tasks (g_sys g) !! tid = None ->
    whole_step g (spawn g tid (mkTask (connection cfg peer) nothing false))
| whole_refresh tid :
    g_open g = true -> y_tasks (g_sys g) !! tid = None ->
    (forall i tk, y_tasks (g_sys g) !! i = Some tk -> t_refresh tk = false) ->
    whole_step g (spawn g tid (mkTask (refresh_task cfg) nothing true))
| whole_watch f now_unix now :
    runtime_file cfg <> [] ->
    let s := g_services g in
    whole_step g (mkWhole (g_sys g)
      (mkServices (s_breaker s) (s_openings s) (watch_round parse (s_runtime s) f now_unix now) (s_cache s))
      (g_shard g) (g_upkeep g) (g_open g))
| whole_upkeep now_unix now : whole_step g (upkeep g now_unix now)
| whole_counter n v :
    In n relay_slots \/ n = 26%nat ->
    let y := g_sys g in
    whole_step g (mkWhole (mkSys (set_registry (y_world y) (Metrics_add (registry (y_world y)) n v)) (y_free y) (y_tasks y))
      (g_services g) (g_shard g) (g_upkeep g) (g_open g))
| whole_shutdown :
    whole_step g (mkWhole (g_sys g) (g_services g) (g_shard g) (g_upkeep g) false).

(** What [run] sets up. *)
Definition whole_initial (g : Whole) : Prop :=
  exists c now, StatusCache_new cfg = Some c /\ sys_initial cfg (g_sys g) /\
    g_services g = mkServices
      (Protection_new (backend_protection cfg) (l_backend (limits cfg) - 1) (registry (y_world (g_sys g))) now) 0
      (Runtime_new (match runtime_file cfg with [] => c_observe cfg | _ => true end)) c /\
    g_shard g = 0%nat /\ g_upkeep g = SweepIp /\ g_open g = true.

Definition whole_reachable (g : Whole) : Prop := exists g0, whole_initial g0 /\ rtc whole_step g0 g.
End Gate.

Arguments Services IpNet : clear implicits.
Arguments Whole IpNet : clear implicits.
