(* ===== verification/GateCompose.v ===== *)
(** * How the whole gate simulates its parts

    A step of the gate of [GateServices.v] is a step, or none, of the system of [GateSystem.v], and
    steps of the circuit breaker's transition system for the dials of the running tasks. Tasks write
    to their clients only what they read or were given by the cache. *)
From S2P Require Import Prelude Machine Float64 Metrics Net Config Limiter LimiterFacts LimiterSystem LimiterEffects LimiterInv.
From S2P Require Import Wire Protocol FrameIO Proxy Backend Relay Runtime Cache Registry Validate Task Gate GateResources GateSystem GateServices.
From stdpp Require Import base option list gmap relations.
From Stdlib Require Import ZArith Lia.
Local Open Scope Z_scope.

(** ** What the services do to the registry *)

Lemma set_registry_same (w : World) : set_registry w (registry w) = w.
Proof. destruct w as [[] ]. reflexivity. Qed.

Lemma registry_set (w : World) (m : Metrics) : registry (set_registry w m) = m.
Proof. reflexivity. Qed.

Lemma foreign_if (m : Metrics) (b : bool) (n : nat) :
  n <> 32%nat -> n <> 33%nat -> foreign_metrics m (if b then Metrics_inc m n else m).
Proof. intros A B. destruct b; [now apply foreign_inc | apply foreign_refl]. Qed.

Lemma foreign_set (m m' : Metrics) (n : nat) (v : Z) :
  n <> 32%nat -> n <> 33%nat -> foreign_metrics m m' -> foreign_metrics m (Metrics_set m' n v).
Proof.
  intros A B (L & E1 & E2). unfold foreign_metrics, Metrics_get, Metrics_set in *. cbn [values].
  rewrite length_insert, !list_lookup_insert_ne by congruence. auto.
Qed.

Lemma foreign_add (m : Metrics) (n : nat) (v : Z) :
  n <> 32%nat -> n <> 33%nat -> foreign_metrics m (Metrics_add m n v).
Proof.
  intros A B. unfold foreign_metrics, Metrics_get, Metrics_add. cbn [values].
  rewrite length_alter, !list_lookup_alter_ne by congruence. auto.
Qed.

Lemma enter_foreign (p p' : Protection) (now : Instant) (o : option Attempt) :
  enter_locked p now = (o, p') -> foreign_metrics (p_metrics p) (p_metrics p').
Proof.
  unfold enter_locked. destruct (circuit_refuses _ _); [intros [= _ <-]; apply foreign_refl |].
  destruct (dial_budget _ _ _) as [[] s]; cbn [negb]; intros [= _ <-]; cbn;
    [apply foreign_refl | apply foreign_inc; lia].
Qed.

Lemma finish_foreign (p : Protection) (gen : Z) (ok : bool) (now : Instant) :
  foreign_metrics (p_metrics p) (p_metrics (Protection_finish p gen ok now)).
Proof.
  unfold Protection_finish. repeat (case_match; cbn [p_metrics with_state]);
    first [apply foreign_refl | apply foreign_inc; lia].
Qed.

Lemma get_foreign (c : StatusCache) (m : Metrics) (v : Z) (now : Instant) :
  foreign_metrics m (snd (StatusCache_get c m v now)).
Proof.
  unfold StatusCache_get. destruct (sc_value c) as [x |]; [destruct (_ <? _) |]; cbn [snd];
    first [apply foreign_refl | apply foreign_inc; lia].
Qed.

Section Whole.
Context {Value : Type} `{JsonLib Value} {IpNet : Type} `{IpNetLib IpNet} (cfg : Config Value IpNet).
Context (powf : f64 -> f64 -> f64) (parse : list Z -> option (Runtime.Wire IpNet)).

Lemma serves_foreign (s s' : Services IpNet) (m m' : Metrics) (e : Eff) (x : Ans e) :
  serves s m e x s' m' -> foreign_metrics m m' /\ touches m m'.
Proof.
  destruct e; cbn [serves]; intros S;
    try solve [try destruct x; destruct_and?; subst; split; auto using foreign_refl with touches].
  - destruct S as (p' & E & -> & ->). split; [exact (enter_foreign _ _ _ _ E) | exact (enter_touches _ _ _ _ E)].
  - destruct S as [-> ->]. split; [exact (finish_foreign (with_registry (s_breaker s) m) _ _ _)
      | exact (finish_touches (with_registry (s_breaker s) m) _ _ _)].
  - destruct S as (-> & now & E). pose proof (get_foreign (s_cache s) m version now) as F.
    pose proof (get_touches (s_cache s) m version now) as T. rewrite E in F, T. now split.
Qed.

(** ** The system underneath *)

Lemma publish_policy_foreign (r : Runtime IpNet) (m : Metrics) (u : Z) (now : Instant) :
  foreign_metrics m (publish_policy cfg r m u now).
Proof. unfold publish_policy. destruct (Runtime_policy _ _ _ _). repeat apply foreign_set; auto using foreign_refl. Qed.

Lemma publish_telemetry_foreign (r : Runtime IpNet) (m : Metrics) (u : Z) (now : Instant) :
  foreign_metrics m (publish_telemetry r m u now).
Proof. unfold publish_telemetry. destruct (Runtime_telemetry _ _ _) as [[] ]. repeat apply foreign_set; auto using foreign_refl. Qed.

Lemma relay_slots_own (n : nat) : In n relay_slots \/ n = 26%nat -> (n < 56)%nat /\ n <> 32%nat /\ n <> 33%nat.
Proof. cbn. intros [Hn | Hn]; destruct_or?; subst; split_and!; lia || done. Qed.

Lemma registry_step (y : Sys) (m : Metrics) :
  foreign_metrics (registry (y_world y)) m ->
  sys_step cfg powf y (mkSys (set_registry (y_world y) m) (y_free y) (y_tasks y)).
Proof. intros F. exact (sys_metrics cfg powf y m F). Qed.

Lemma task_step_refines (g g' : Whole IpNet) : task_step cfg powf g g' -> rtc (sys_step cfg powf) (g_sys g) (g_sys g').
Proof.
  intros S. destruct S as [tid tk e k x w free s m T P W F V | tid tk a T P]; cbn [g_sys].
  - eapply rtc_l; [exact (sys_call cfg powf (g_sys g) tid tk e k x w free T P W F) |].
    apply rtc_once. eapply (registry_step (mkSys w free _)). exact (proj1 (serves_foreign _ _ _ _ _ _ V)).
  - apply rtc_once. exact (sys_done cfg powf (g_sys g) tid tk a T P).
Qed.

Lemma whole_step_refines (g g' : Whole IpNet) :
  whole_step cfg powf parse g g' -> rtc (sys_step cfg powf) (g_sys g) (g_sys g').
Proof.
  intros S. destruct S as [g' T | tid peer O N | tid O N R | | u now | n v Hn |]; cbn [g_sys spawn];
    try apply rtc_refl; [now apply task_step_refines | apply rtc_once .. |].
  - exact (sys_connection cfg powf (g_sys g) tid peer N).
  - exact (sys_refresh cfg powf (g_sys g) tid N R).
  - destruct g as [y s shard [] o]; cbn [upkeep g_sys g_services g_upkeep].
    + exact (sys_sweep_ip cfg powf y shard now).
    + exact (sys_sweep_prefix cfg powf y shard now).
    + apply registry_step, publish_policy_foreign.
    + apply registry_step, publish_telemetry_foreign.
  - apply rtc_once, registry_step. destruct (relay_slots_own n Hn) as (? & ? & ?). now apply foreign_add.
Qed.

Lemma whole_sys (g : Whole IpNet) : whole_reachable cfg powf parse g -> sys_reachable cfg powf (g_sys g).
Proof.
  intros (g0 & (c & now & _ & I & _) & R). exists (g_sys g0). split; [exact I |].
  clear I. induction R as [| g1 g2 g3 S R IH]; [apply rtc_refl |]. etrans; [eapply whole_step_refines, S | exact IH].
Qed.

(** ** The circuit breaker underneath *)

(** The dials of the running tasks, and the breaker as [Backend.v] sees it. *)
Definition dials_of (tasks : gmap nat Task) : gmap nat Dial := omap (fun tk => h_dial (t_held tk)) tasks.
Definition breaker_world (g : Whole IpNet) : BWorld :=
  let s := g_services g in
  mkBWorld (with_registry (s_breaker s) (registry (y_world (g_sys g)))) (dials_of (y_tasks (g_sys g))) (s_openings s).

Lemma dials_of_lookup (tasks : gmap nat Task) (tid : nat) (tk : Task) :
  tasks !! tid = Some tk -> dials_of tasks !! tid = h_dial (t_held tk).
Proof. intros E. unfold dials_of. now rewrite lookup_omap, E. Qed.

Lemma dials_of_same (tasks : gmap nat Task) (tid : nat) (tk tk' : Task) :
  tasks !! tid = Some tk -> h_dial (t_held tk') = h_dial (t_held tk) ->
  dials_of (<[tid := tk']> tasks) = dials_of tasks.
Proof.
  intros E D. apply map_eq. intros j. unfold dials_of. rewrite !lookup_omap.
  destruct (decide (j = tid)) as [-> | N]; [rewrite lookup_insert_eq, E; cbn; exact D | now rewrite lookup_insert_ne].
Qed.

Lemma dials_of_insert (tasks : gmap nat Task) (tid : nat) (tk : Task) (d : Dial) :
  h_dial (t_held tk) = Some d -> dials_of (<[tid := tk]> tasks) = <[tid := d]> (dials_of tasks).
Proof. intros E. unfold dials_of. now rewrite (omap_insert_Some _ _ _ _ d). Qed.

Lemma dials_of_none (tasks : gmap nat Task) (tid : nat) (tk : Task) :
  h_dial (t_held tk) = None -> dials_of (<[tid := tk]> tasks) = delete tid (dials_of tasks).
Proof. intros E. unfold dials_of. now rewrite (omap_insert_None _ _ _ _). Qed.

Lemma dials_of_delete (tasks : gmap nat Task) (tid : nat) (tk : Task) :
  tasks !! tid = Some tk -> h_dial (t_held tk) = None -> dials_of (delete tid tasks) = dials_of tasks.
Proof.
  intros E D. apply map_eq. intros j. unfold dials_of. rewrite !lookup_omap.
  destruct (decide (j = tid)) as [-> | N]; [rewrite lookup_delete_eq, E; cbn; now rewrite D | now rewrite lookup_delete_ne].
Qed.

Lemma opened_same (p p' : Protection) : generation (p_state p') = generation (p_state p) -> Backend.opened p p' = 0.
Proof. intros E. unfold Backend.opened. rewrite E, Z.eqb_refl. done. Qed.

Lemma enter_opened (p p' : Protection) (now : Instant) (o : option Attempt) :
  enter_locked p now = (o, p') -> Backend.opened p p' = 0.
Proof. intros E. apply opened_same. now destruct (enter_locked_circuit _ _ _ _ E) as (_ & _ & G & _). Qed.

(** A dial call of a task, with the registry in place. *)
Definition dial_call (e : Eff) : bool :=
  match e with DialAcquire | DialEnter _ | DialFinish _ _ _ | DialRelease => true | _ => false end.

Lemma dial_call_step (s s' : Services IpNet) (m m' : Metrics) (tasks : gmap nat Task) (tid : nat) (tk tk' : Task)
  (e : Eff) (x : Ans e) :
  tasks !! tid = Some tk -> allowed e (t_held tk) -> t_held tk' = after e x (t_held tk) -> dial_call e = true ->
  serves s m e x s' m' ->
  rtc bstep (mkBWorld (with_registry (s_breaker s) m) (dials_of tasks) (s_openings s))
    (mkBWorld (with_registry (s_breaker s') m') (dials_of (<[tid := tk']> tasks)) (s_openings s')).
Proof.
  intros T A E D V. pose proof (dials_of_lookup tasks tid tk T) as L.
  destruct (t_held tk) as [so pr a b st gs t d] eqn:Hh. destruct e; try discriminate; cbn in A, V, E, L.
  - destruct V as [-> V]. destruct x.
    + destruct V as (p' & Aq & ->). rewrite (dials_of_insert tasks tid tk' Entering) by now rewrite E.
      subst d. apply rtc_once. unfold acquire_slot, with_registry, with_slots in Aq. cbn in Aq.
      destruct (0 <? p_slots (s_breaker s)) eqn:Pos; [| discriminate]. injection Aq as <-.
      unfold with_breaker. cbn [s_breaker s_openings]. rewrite opened_same, Z.add_0_r by reflexivity.
      eapply (bstep_acquire (mkBWorld _ _ _)); [exact L |]. unfold acquire_slot. cbn. now rewrite Pos.
    + destruct V as [_ ->]. rewrite (dials_of_same tasks tid tk tk' T) by now rewrite E, Hh. apply rtc_refl.
  - destruct V as (p' & En & -> & ->). subst d. unfold with_breaker. cbn [s_breaker s_openings].
    pose proof (enter_opened _ _ _ _ En) as O. unfold Backend.opened in O |- *. cbn [with_registry p_state] in O.
    rewrite O, Z.add_0_r. apply rtc_once.
    replace (with_registry p' (p_metrics p')) with p' by now destruct p'.
    destruct x as [at_ |]; rewrite (dials_of_insert tasks tid tk' _) by (rewrite E; reflexivity).
    + now apply (bstep_granted (mkBWorld _ _ _)) with (now := now).
    + now apply (bstep_refused (mkBWorld _ _ _)) with (now := now).
  - destruct V as [-> ->]. subst d. unfold with_breaker. cbn [s_breaker s_openings].
    rewrite (dials_of_insert tasks tid tk' Closing) by now rewrite E. apply rtc_once.
    set (p := with_registry (s_breaker s) m) in *.
    replace (with_registry (Protection_finish p (a_generation a0) ok now) (p_metrics (Protection_finish p (a_generation a0) ok now)))
      with (Protection_finish p (a_generation a0) ok now) by now destruct (Protection_finish p (a_generation a0) ok now).
    change (Backend.opened (s_breaker s) ?q) with (Backend.opened p q).
    now apply (bstep_finish (mkBWorld p _ (s_openings s)) tid a0 ok now).
  - destruct V as [-> ->]. subst d. unfold with_breaker. cbn [s_breaker s_openings].
    rewrite opened_same, Z.add_0_r by reflexivity. rewrite (dials_of_none tasks tid tk') by now rewrite E.
    apply rtc_once. exact (bstep_release (mkBWorld (with_registry (s_breaker s) m) _ (s_openings s)) tid L).
Qed.

(** Every other call leaves the breaker and the dials of its task alone. *)
Lemma other_call (s s' : Services IpNet) (m m' : Metrics) (e : Eff) (x : Ans e) (h : Held) :
  dial_call e = false -> serves s m e x s' m' ->
  s_breaker s' = s_breaker s /\ s_openings s' = s_openings s /\ h_dial (after e x h) = h_dial h.
Proof.
  intros D V. destruct h. destruct e; try discriminate; cbn in V |- *; destruct_and?; subst; split_and!; try done;
    try match goal with r : Sem |- _ => destruct r end; now destruct x.
Qed.

Lemma breaker_registry (p : Protection) (m m' : Metrics) (d : gmap nat Dial) (n : Z) :
  rtc bstep (mkBWorld (with_registry p m) d n) (mkBWorld (with_registry p m') d n).
Proof. apply rtc_once. exact (bstep_registry (mkBWorld (with_registry p m) d n) m'). Qed.

Lemma task_step_breaker (g g' : Whole IpNet) :
  sys_inv cfg powf (g_sys g) -> task_step cfg powf g g' -> rtc bstep (breaker_world g) (breaker_world g').
Proof.
  intros I S. destruct S as [tid tk e k x w free s m T P W F V | tid tk a T P]; unfold breaker_world; cbn [g_sys g_services y_world y_tasks].
  - destruct (si_tasks _ _ _ I tid tk T) as [Tr _]. rewrite P in Tr. destruct Tr as [[_ A] _]. rewrite registry_set.
    etrans; [apply (breaker_registry _ _ (registry w)) |]. destruct (dial_call e) eqn:D.
    + now apply (dial_call_step _ _ _ _ _ tid tk _ e x).
    + destruct (other_call _ _ _ _ e x (t_held tk) D V) as (-> & -> & Hd).
      rewrite (dials_of_same _ tid tk _ T) by exact Hd. apply breaker_registry.
  - destruct (si_tasks _ _ _ I tid tk T) as [Tr _]. rewrite P in Tr. cbn in Tr.
    rewrite (dials_of_delete _ tid tk T) by now rewrite Tr. apply rtc_refl.
Qed.

Lemma dials_of_spawn (tasks : gmap nat Task) (tid : nat) (p : Prog unit) (r : bool) :
  tasks !! tid = None -> dials_of (<[tid := mkTask p nothing r]> tasks) = dials_of tasks.
Proof.
  intros N. rewrite dials_of_none by done. apply delete_id. unfold dials_of. now rewrite lookup_omap, N.
Qed.

Lemma whole_step_breaker (g g' : Whole IpNet) :
  sys_inv cfg powf (g_sys g) -> whole_step cfg powf parse g g' -> rtc bstep (breaker_world g) (breaker_world g').
Proof.
  intros I S. destruct S as [g' T | tid peer O N | tid O N R | | u now | n v Hn |];
    [now apply task_step_breaker | ..]; unfold breaker_world, spawn; cbn [g_sys g_services y_world y_tasks s_breaker s_openings];
    rewrite ?dials_of_spawn by done; try apply rtc_refl; [| apply breaker_registry].
  destruct g as [y s shard [] o]; cbn [upkeep g_sys g_services g_upkeep y_world y_tasks]; apply breaker_registry.
Qed.

(** ** Calls that could panic or spoil the cache *)

Definition mode_ok (p : Policy) : Prop := 0 <= mode p <= 3.

(** As long as what a task was given is in order (every policy has one of the four modes, a frame is
    no longer than was asked for, a cached response within its limit), so is what it passes on: the
    policies to the limiter, the bytes to the client; and only what [Prepared_new] accepted is put in
    the cache. *)
Definition max_reply : Z := Z.max 16 (max_response_bytes (cache cfg)).
Definition vouched (e : Eff) (given : Prop) : Prop :=
  match e with
  | AcceptTicket _ p | RateEvent _ _ p => given -> mode_ok p
  | ClientWrite bs _ => given -> Z.of_nat (length bs) <= max_reply
  | CacheStore v _ => prepared_ok (Value := Value) (max_response_bytes (cache cfg)) v
  | _ => True
  end.
Definition given_after (e : Eff) : Ans e -> Prop -> Prop :=
  match e return Ans e -> Prop -> Prop with
  | AskPolicy _ => fun x given => given /\ mode_ok (fst x)
  | ReadFrame max _ _ _ _ => fun (x : option (result Frame Error * Z)) given => given /\
      match x with Some (Ok f, _) => Z.of_nat (length (FrameIO.wire f)) <= 3 + Z.max 0 max | _ => True end
  | CacheGet _ => fun x given => given /\ Z.of_nat (length x) <= max_response_bytes (cache cfg)
  | _ => fun _ given => given
  end.

Ltac vexec := wexec ltac:(try exact I) ltac:(cbn [given_after fst snd]).
Ltac vouch := try exact I; cbn [vouched]; unfold mode_ok, max_reply in *; try (intros; destruct_and?; lia); try tauto.

Lemma status_session_vouched (peer : SocketAddr) (h : HandshakePacket) (p : Policy) (budget : Z) (l : Locals) (given : Prop) :
  (given -> mode_ok p) -> wp vouched given_after given (status_session cfg peer h p budget l) (fun _ _ => True).
Proof. intros G. unfold status_session. vexec; vouch. Qed.

Lemma login_session_vouched (start : Instant) (peer dst : SocketAddr) (hf : Frame) (h : HandshakePacket) (p : Policy)
  (budget : Z) (l : Locals) (given : Prop) :
  (given -> mode_ok p) -> wp vouched given_after given (login_session cfg start peer dst hf h p budget l) (fun _ _ => True).
Proof.
  intros G. unfold login_session, breaker_enter, release_if, connect_backend, complete_attempt, dial, admit_and_relay,
    mark_admitted, Admission_drop, PreloginTime_drop. vexec; vouch.
Qed.

Lemma session_vouched (start : Instant) (peer dst : SocketAddr) (l : Locals) (given : Prop) :
  wp vouched given_after given (session cfg start peer dst l) (fun _ _ => True).
Proof.
  unfold session. vexec; vouch; [apply status_session_vouched | apply login_session_vouched]; unfold mode_ok; tauto.
Qed.

Lemma handle_vouched (peer : SocketAddr) (start : Instant) (given : Prop) :
  wp vouched given_after given (handle cfg peer start) (fun _ _ => True).
Proof.
  unfold handle, identify, Admission_drop, PreloginTime_drop. vexec; vouch;
    (eapply wp_weaken; [| apply session_vouched]); intros c given' _; destruct (ctl_end c) as [r l];
    unfold drop_ticket; vexec; vouch.
Qed.

Lemma connection_vouched (peer : SocketAddr) (given : Prop) :
  wp vouched given_after given (connection cfg peer) (fun _ _ => True).
Proof.
  unfold connection. vexec; vouch. eapply wp_weaken; [| apply handle_vouched].
  intros r given' _. unfold record_error. vexec; vouch.
Qed.

Lemma refresh_vouched (given : Prop) : wp vouched given_after given (refresh_task cfg) (fun _ _ => True).
Proof.
  unfold refresh_task, poll, poll_request. cbn [backend_send]. vexec; vouch;
    match goal with E : poll_body _ _ = Some _ |- _ => exact (poll_body_ok _ _ _ E) end.
Qed.
End Whole.
