(* ===== verification/GateWhole.v ===== *)
(** * The invariant and the properties of the whole gate

    Every reachable state of the gate of [GateServices.v]: its parts are in states reachable in their
    own transition systems, its registry, policies and cache are well formed, and its tasks can
    always go on and finish. *)
From S2P Require Import Prelude Machine Float64 Metrics Net Config Limiter LimiterFacts LimiterSystem LimiterEffects LimiterInv LimiterProps.
From S2P Require Import Wire Protocol FrameIO Proxy Backend Relay Runtime Cache Registry Validate Task Gate GateResources GateSystem GateServices GateCompose.
From stdpp Require Import base option list gmap relations.
From Stdlib Require Import ZArith Lia Program.Equality.
Local Open Scope Z_scope.

Section Whole.
Context {Value : Type} `{JsonLib Value} {IpNet : Type} `{IpNetLib IpNet} (cfg : Config Value IpNet).
Context (powf : f64 -> f64 -> f64) (parse : list Z -> option (Runtime.Wire IpNet)).

(** ** Validated configurations *)

Context (Htyped : limits_typed (limits cfg)) (Hconnecting : 0 <= max_connecting (backend_protection cfg)).
Context (Hvalid : validate cfg = Ok tt).

Lemma valid_limits : cfg_ok (limits cfg) /\ total_sockets (limits cfg) < 2 ^ 64 - 1.
Proof.
  destruct (validate_passed cfg Hvalid) as (_ & _ & _ & BL & BR & BM & _).
  destruct (bad_limits_ok _ Htyped BL) as (_ & ? & _). split; [now apply validate_limits_ok | lia].
Qed.

Lemma valid_response : max_response_bytes (cache cfg) < 2 ^ 31.
Proof.
  destruct (validate_passed cfg Hvalid) as (_ & _ & _ & _ & _ & _ & _ & BC). unfold bad_cache, within in BC. breflect. lia.
Qed.

Lemma valid_slots : 0 <= Protection_slots (backend_protection cfg) (l_backend (limits cfg) - 1).
Proof.
  destruct (validate_passed cfg Hvalid) as (_ & _ & _ & BL & _). destruct (bad_limits_ok _ Htyped BL) as (_ & ? & ? & ? & ? & ?).
  unfold Protection_slots. destruct (_ =? 0); lia.
Qed.

(** ** The invariant *)

Definition task_vouched (tk : Task) : Prop :=
  exists given : Prop, given /\ wp (vouched cfg) (given_after cfg) given (t_prog tk) (fun _ _ => True).

Record whole_inv (g : Whole IpNet) : Prop := {
  gi_sys : sys_inv cfg powf (g_sys g);
  gi_breaker : breachable (backend_protection cfg) (l_backend (limits cfg) - 1) (breaker_world g);
  gi_registry : metrics_typed (registry (y_world (g_sys g)));
  gi_runtime : runtime_typed (s_runtime (g_services g));
  gi_cache : cache_ok (Value := Value) (max_response_bytes (cache cfg)) (s_cache (g_services g));
  gi_tasks : forall tid tk, y_tasks (g_sys g) !! tid = Some tk -> task_vouched tk }.

(** Calls on the limiter and gauge operations touch only existing slots. *)
Lemma world_touches (w w' : World) (tid : nat) (e : Eff) (x : Ans e) (h : Held) :
  world_serves cfg powf w tid e x w' -> allowed e h -> touches (registry w) (registry w').
Proof.
  unfold registry. destruct e; cbn [world_serves allowed]; unfold own_slot; intros W A;
    try (destruct_and?; subst w'; cbn; solve [auto with touches]).
  - destruct W as (now & l' & E & ->). destruct x; exact (accept_touches _ _ _ _ _ _ E).
  - destruct W as (now & l' & E & ->). exact (event_touches _ _ _ _ _ _ _ E).
  - destruct W as (l' & E & ->). destruct x as [b t']. exact (status_touches _ _ _ _ _ E).
  - subst w'. apply drop_metrics_touches.
Qed.

(** What the services keep. *)
Lemma serves_keeps (w w' : World) (tid : nat) (s s' : Services IpNet) (m m' : Metrics) (e : Eff) (x : Ans e) (given : Prop) :
  world_serves cfg powf w tid e x w' -> serves s m e x s' m' -> vouched cfg e given -> runtime_typed (s_runtime s) ->
  cache_ok (Value := Value) (max_response_bytes (cache cfg)) (s_cache s) ->
  runtime_typed (s_runtime s') /\ cache_ok (Value := Value) (max_response_bytes (cache cfg)) (s_cache s') /\
  (given -> given_after cfg e x given).
Proof.
  destruct e; cbn [serves vouched given_after]; intros W S V R C;
    try (clear W; destruct_and?; subst; solve [cbn; auto]).
  - destruct S as [-> ->]. split_and!; auto. intros G. split; [done |]. destruct W as [_ W].
    destruct x as [[[f | er] budget'] |]; try done. destruct W as (r & r' & W). exact (read_frame_wire _ _ _ _ _ _ _ _ _ W).
  - destruct S as (-> & _ & u & now & ->). split_and!; auto. intros G. split; [done |]. now apply Runtime_policy_mode.
  - destruct S as [_ S]. destruct x; [destruct S as (p' & _ & ->) | destruct S as [_ ->]]; cbn; auto.
  - destruct S as (p' & _ & -> & _). cbn. auto.
  - destruct S as (-> & now & S). split_and!; auto. intros G. split; [done |].
    pose proof (get_bounded _ (s_cache s) m version now C valid_response) as B. now rewrite S in B.
  - destruct S as [_ ->]. split_and!; auto. split; [apply C |]. now intros u [= <-].
Qed.

Lemma sys_inv_steps (y y' : Sys) : sys_inv cfg powf y -> rtc (sys_step cfg powf) y y' -> sys_inv cfg powf y'.
Proof. intros I R. induction R as [| y1 y2 y3 S R IH]; [done |]. apply IH. eapply sys_inv_step; eauto. Qed.

Lemma inv_task (g g' : Whole IpNet) : whole_inv g -> task_step cfg powf g g' -> whole_inv g'.
Proof.
  intros I S. pose proof I as [Is Ib Ir Iu Ic It].
  pose proof (sys_inv_steps _ _ Is (task_step_refines cfg powf g g' S)) as Is'.
  assert (Ib' : breachable (backend_protection cfg) (l_backend (limits cfg) - 1) (breaker_world g')).
  { destruct Ib as (m & now & R). exists m, now. etrans; [exact R |]. now apply (task_step_breaker cfg powf). }
  destruct S as [tid tk e k x w free s m T P W F V | tid tk a T P]; split; auto; cbn [g_sys g_services y_world y_tasks] in *.
  - rewrite registry_set. destruct (si_tasks _ _ _ Is tid tk T) as [Tr _]. rewrite P in Tr. destruct Tr as [[_ A] _].
    eapply touches_typed; [exact (proj2 (serves_foreign _ _ _ _ _ _ V)) |].
    eapply touches_typed; [exact (world_touches _ _ _ _ _ _ W A) | done].
  - destruct (It tid tk T) as (given & G & Vw). rewrite P in Vw. destruct Vw as [Vo _].
    now destruct (serves_keeps _ _ _ _ _ _ _ _ _ given W V Vo Iu Ic).
  - destruct (It tid tk T) as (given & G & Vw). rewrite P in Vw. destruct Vw as [Vo _].
    now destruct (serves_keeps _ _ _ _ _ _ _ _ _ given W V Vo Iu Ic) as (_ & ? & _).
  - intros j tj Hj. destruct (decide (j = tid)) as [-> | N]; [| rewrite lookup_insert_ne in Hj by done; eauto].
    rewrite lookup_insert_eq in Hj. injection Hj as <-. destruct (It tid tk T) as (given & G & Vw).
    rewrite P in Vw. destruct Vw as [Vo Vk]. exists (given_after cfg e x given). split; [| apply Vk].
    destruct (serves_keeps _ _ _ _ _ _ _ _ _ given W V Vo Iu Ic) as (_ & _ & X). auto.
  - intros j tj Hj. apply lookup_delete_Some in Hj as [_ Hj]. eauto.
Qed.

(** A step that only changes the registry of the limiter's world, by atomic operations. *)
Lemma typed_counter (m m' : Metrics) : metrics_typed m -> touches m m' -> metrics_typed m'.
Proof. intros T S. eapply touches_typed; eauto. Qed.

Lemma publish_policy_typed (r : Runtime IpNet) (m : Metrics) (u : Z) (now : Instant) :
  runtime_typed r -> metrics_typed m -> metrics_typed (publish_policy cfg r m u now).
Proof.
  intros R. apply touches_typed. unfold publish_policy.
  pose proof (Runtime_policy_mode r (sa_ip (listen cfg)) u now R) as M. destruct (Runtime_policy _ _ _ _) as [p b].
  cbn [fst] in M. apply touches_set; [vm_compute; lia | unfold is_u64; destruct (observe p); cbn; lia |].
  apply touches_set; [vm_compute; lia | unfold is_u64; lia | apply touches_refl].
Qed.

Lemma publish_telemetry_typed (r : Runtime IpNet) (m : Metrics) (u : Z) (now : Instant) :
  runtime_typed r -> metrics_typed m -> metrics_typed (publish_telemetry r m u now).
Proof.
  intros R. apply touches_typed. unfold publish_telemetry.
  pose proof (Runtime_telemetry_typed r u now R) as M. destruct (Runtime_telemetry r u now) as [[a b] c].
  destruct M as (Ma & Mb & Mc). auto 10 with touches.
Qed.

Lemma upkeep_typed (g : Whole IpNet) (u : Z) (now : Instant) :
  runtime_typed (s_runtime (g_services g)) -> metrics_typed (registry (y_world (g_sys g))) ->
  metrics_typed (registry (y_world (g_sys (upkeep cfg g u now)))).
Proof.
  intros R M. destruct g as [y s shard [] o]; cbn [upkeep g_sys g_services y_world] in *.
  - eapply touches_typed; [apply sweep_ip_touches | exact M].
  - eapply touches_typed; [apply sweep_prefix_touches | exact M].
  - now apply publish_policy_typed.
  - now apply publish_telemetry_typed.
Qed.

Lemma upkeep_frame (g : Whole IpNet) (u : Z) (now : Instant) :
  g_services (upkeep cfg g u now) = g_services g /\ y_tasks (g_sys (upkeep cfg g u now)) = y_tasks (g_sys g).
Proof. now destruct g as [y s shard [] o]. Qed.

Lemma inv_spawn (g : Whole IpNet) (tid : nat) (tk : Task) :
  whole_inv g -> sys_inv cfg powf (g_sys (spawn g tid tk)) ->
  breachable (backend_protection cfg) (l_backend (limits cfg) - 1) (breaker_world (spawn g tid tk)) ->
  task_vouched tk -> whole_inv (spawn g tid tk).
Proof.
  intros [Is Ib Ir Iu Ic It] Is' Ib' V. split; auto. intros j tj Hj. cbn in Hj.
  destruct (decide (j = tid)) as [-> | N]; [| rewrite lookup_insert_ne in Hj by done; eauto].
  rewrite lookup_insert_eq in Hj. now injection Hj as <-.
Qed.

Context (Hparse : forall b w, parse b = Some w -> wire_typed w).

Lemma whole_inv_step (g g' : Whole IpNet) : whole_inv g -> whole_step cfg powf parse g g' -> whole_inv g'.
Proof.
  intros I S. pose proof I as [Is Ib Ir Iu Ic It].
  pose proof (sys_inv_steps _ _ Is (whole_step_refines cfg powf parse g g' S)) as Is'.
  assert (Ib' : breachable (backend_protection cfg) (l_backend (limits cfg) - 1) (breaker_world g')).
  { destruct Ib as (m & now & R). exists m, now. etrans; [exact R |]. now apply (whole_step_breaker cfg powf parse). }
  destruct S as [g' T | tid peer O N | tid O N R | f u now Hf s | u now | n v Hn y |].
  - now apply (inv_task g).
  - apply inv_spawn; auto. exists True. split; [done |]. apply connection_vouched.
  - apply inv_spawn; auto. exists True. split; [done |]. apply refresh_vouched.
  - split; auto. cbn. now apply watch_round_typed.
  - destruct (upkeep_frame g u now) as [Es Et]. split; rewrite ?Es, ?Et; auto. now apply upkeep_typed.
  - split; auto. cbn. destruct (relay_slots_own n Hn) as (? & _). eapply touches_typed; [| exact Ir].
    apply touches_add; [done | apply touches_refl].
  - now split.
Qed.

Lemma whole_inv_initial (g : Whole IpNet) : whole_initial cfg g -> whole_inv g.
Proof.
  intros (c & now & Ec & Iy & Es & _). pose proof (sys_inv_initial cfg powf _ (pool_nonneg cfg Htyped Hvalid) Iy) as Is.
  destruct Iy as ((hip & hprefix & t0 & Ew) & _ & Et). split; rewrite ?Es; auto.
  - exists (registry (y_world (g_sys g))), now. unfold breaker_world. rewrite Es, Et. cbn [s_breaker s_openings].
    unfold dials_of. rewrite omap_empty. apply rtc_refl.
  - rewrite Ew. apply Metrics_new_typed.
  - apply Runtime_new_typed.
  - cbn. unfold StatusCache_new in Ec. destruct (Prepared_new _ _) as [v |] eqn:P; [| discriminate]. injection Ec as <-.
    split; [now exists (cc_fallback (cache cfg)) | discriminate].
  - rewrite Et. intros tid tk. now rewrite lookup_empty.
Qed.

Lemma whole_inv_reachable (g : Whole IpNet) : whole_reachable cfg powf parse g -> whole_inv g.
Proof.
  intros (g0 & I0 & R). apply whole_inv_initial in I0. induction R as [| g1 g2 g3 S R IH]; [done |].
  apply IH. eapply whole_inv_step; eauto.
Qed.

(** ** Safety *)

(** C3: The whole gate refines its parts. In every reachable state of the gate, with its background
    tasks and one registry for all components, the connections with the limiter and the permit pools
    are in a state reachable in their own system; the limiter with its live tickets is in a state
    reachable in the limiter's transition system, with the socket permits as the bound on tickets;
    and the circuit breaker with the dials of the running tasks is in a state reachable in the
    breaker's transition system. The invariants proved there hold of the running gate. *)
Theorem gate_refines_components (g : Whole IpNet) :
  whole_reachable cfg powf parse g ->
  sys_reachable cfg powf (g_sys g) /\
  reachable powf (total_sockets (limits cfg)) (limits cfg) (y_world (g_sys g)) /\
  breachable (backend_protection cfg) (l_backend (limits cfg) - 1) (breaker_world g).
Proof.
  intros R. pose proof (whole_inv_reachable g R) as I.
  split_and!; [now apply (whole_sys cfg powf parse) | apply si_world, I | apply I].
Qed.

(** C22: The backend is protected. In every reachable state the free dial permits and the connections
    that hold one add up to the configured number, so that never more connections dial at once; and
    while the circuit is open (and has opened fewer than 2^64 times), the connections dialling in the
    current outage are exactly the one recovery probe, or none. *)
Theorem gate_dial_safety (g : Whole IpNet) :
  whole_reachable cfg powf parse g ->
  let p := s_breaker (g_services g) in
  let live := dials_of (y_tasks (g_sys g)) in
  0 <= p_slots p /\
  p_slots p + Z.of_nat (size live) = Protection_slots (backend_protection cfg) (l_backend (limits cfg) - 1) /\
  (s_openings (g_services g) < 2 ^ 64 -> retry_at (p_state p) <> None ->
     dials (generation (p_state p)) live = Z.b2z (probing (p_state p))).
Proof.
  intros R p live. pose proof (binv_reachable _ _ _ (gi_breaker g (whole_inv_reachable g R))) as [_ Hs Hc].
  pose proof valid_slots. unfold breaker_world in Hs, Hc. cbn in Hs, Hc. fold p live in Hs. split_and!; try lia.
  intros Ho Hr. now destruct (Hc Ho) as (_ & _ & _ & _ & _ & X); apply X.
Qed.

(** C23: The registry is well typed. In every reachable state it has exactly one 64-bit slot per
    metric name; and every counter or gauge operation a running task is about to make names an
    existing slot, so that indexing the registry never panics. *)
Theorem gate_registry_typed (g : Whole IpNet) :
  whole_reachable cfg powf parse g ->
  metrics_typed (registry (y_world (g_sys g))) /\
  forall tid tk e k n, y_tasks (g_sys g) !! tid = Some tk -> t_prog tk = Act e k ->
    match e with MetricInc i | MetricAdd i _ | GaugeUp i | GaugeDown i => i = n | _ => False end ->
    is_Some (values (registry (y_world (g_sys g))) !! n).
Proof.
  intros R. pose proof (whole_inv_reachable g R) as I. split; [apply I |].
  intros tid tk e k n T P E. destruct (si_tasks _ _ _ (gi_sys g I) tid tk T) as [Tr _]. rewrite P in Tr.
  destruct Tr as [[_ A] _]. apply lookup_lt_is_Some. rewrite (proj1 (gi_registry g I)).
  change (length NAMES) with 56%nat. destruct e; try done; subst; cbn in A; unfold own_slot in A; tauto || lia.
Qed.

(** C25: Replies to clients are bounded end to end. Whatever clients send, whatever the backend answers
    to the status polls and whenever the cache is refreshed, no running task ever writes to its
    client, before relaying, a byte string longer than the configured response limit. *)
Theorem gate_replies_bounded (g : Whole IpNet) (tid : nat) (tk : Task) (bs : list Z) (limit : Duration)
  (k : Ans (ClientWrite bs limit) -> Prog unit) :
  whole_reachable cfg powf parse g -> y_tasks (g_sys g) !! tid = Some tk -> t_prog tk = Act (ClientWrite bs limit) k ->
  Z.of_nat (length bs) <= max_response_bytes (cache cfg).
Proof.
  intros R T P. destruct (gi_tasks g (whole_inv_reachable g R) tid tk T) as (given & G & V). rewrite P in V.
  destruct V as [V _]. specialize (V G). unfold max_reply in V.
  destruct (validate_passed cfg Hvalid) as (_ & _ & _ & _ & _ & _ & _ & BC). unfold bad_cache, within in BC. breflect. lia.
Qed.

(** ** Progress *)

(** The answer is the cancellation of the task. *)
Definition cancels (e : Eff) : Ans e -> bool :=
  match e with
  | ReadProxy _ _ | ReadFrame _ _ _ _ _ | ClientWrite _ _ | Task.Connect | BackendWrite _ | RelayCopy
  | BackendRead _ _ _ _ _ => fun x => match x with None => true | Some _ => false end
  | _ => fun _ => false
  end.

(** The services have an answer for call [e] of task [tid], other than cancelling the task. *)
Definition answered (g : Whole IpNet) (tid : nat) (e : Eff) : Prop :=
  exists x w free s m, cancels e x = false /\
    world_serves cfg powf (y_world (g_sys g)) tid e x w /\ pool_serves (y_free (g_sys g)) e x free /\
    serves (g_services g) (registry w) e x s m.

(** A connection that fails at once answers every read. *)
Lemma read_frame_answers (max deadline progress first_progress budget : Z) :
  exists res left' r', read_frame max deadline progress first_progress (mkReader [0] [IoError]) budget =
    Some (Err res, left', r').
Proof.
  unfold read_frame, read_prefix, read_bounded. destruct (budget =? 0); [cbn; eauto |].
  cbn. destruct (deadline <=? 0); cbn; eauto.
Qed.

Lemma proxy_read_answers (peer : SocketAddr) :
  exists res r', proxy_read (mkReader [] [IoError]) peer (incoming_proxy_v2 cfg) = Some (Err res, r').
Proof. unfold proxy_read. destruct (negb _); cbn; eauto. Qed.

Ltac answer x := exists x; do 4 eexists; split; [reflexivity |]; split; [| split]; cbn; try done.

Lemma progress (g : Whole IpNet) (tid : nat) (tk : Task) (e : Eff) (k : Ans e -> Prog unit) :
  whole_inv g -> y_tasks (g_sys g) !! tid = Some tk -> t_prog tk = Act e k -> answered g tid e.
Proof.
  intros I T P. destruct (gi_tasks g I tid tk T) as (given & G & V). rewrite P in V. destruct V as [V _].
  assert (Hc : cfg_ok (l_cfg (w_lim (y_world (g_sys g))))).
  { destruct valid_limits as [Hc Ht]. now rewrite (i_cfg _ _ _ (inv_reachable powf _ _ Hc Ht _ (si_world _ _ _ (gi_sys g I)))). }
  destruct e; cbn [vouched] in V; unfold answered.
  - now answer 0.
  - now answer true.
  - now answer (@None SocketAddr).
  - destruct (proxy_read_answers socket_peer) as (res & r' & E). answer (Some (@Err (SocketAddr * SocketAddr) Error res)); eauto.
  - destruct (read_frame_answers max deadline progress first_progress left) as (res & b & r' & E).
    answer (Some (@Err Frame Error res, b)); eauto.
  - now answer (Some Wrote).
  - answer (Runtime_policy (s_runtime (g_services g)) ip 0 0). split_and!; eauto.
  - destruct (accept_total (w_lim (y_world (g_sys g))) ip p 0 Hc (V G)) as (x & l' & E). answer x; eauto.
  - destruct (event_total (w_lim (y_world (g_sys g))) t ev p 0 Hc (V G)) as (x & l' & E). answer x; eauto.
  - destruct (Ticket_enter_status (w_lim (y_world (g_sys g))) t) as [[x t'] l'] eqn:E. answer (x, t'); eauto.
  - now answer tt.
  - now answer tt.
  - now answer tt.
  - now answer tt.
  - destruct (Z.lt_ge_cases 0 (y_free (g_sys g) s)); [answer true | answer false]; done.
  - now answer tt.
  - now answer tt.
  - now answer tt.
  - now answer tt.
  - now answer tt.
  - destruct (acquire_slot (with_registry (s_breaker (g_services g)) (registry (y_world (g_sys g))))) as [p' |] eqn:E;
      [answer true | answer false]; eauto.
  - destruct (enter_locked (with_registry (s_breaker (g_services g)) (registry (y_world (g_sys g)))) now) as [x p'] eqn:E.
    answer x; eauto.
  - now answer tt.
  - now answer tt.
  - now answer (Some true).
  - now answer true.
  - now answer (Some true).
  - now answer (Some true).
  - now answer (@None SocketAddr).
  - now answer (Some (@None (result Frame Error))).
  - destruct (StatusCache_get (s_cache (g_services g)) (registry (y_world (g_sys g))) version 0) as [x m'] eqn:E.
    answer x; eauto.
  - now answer tt.
Qed.

(** C21: The gate never gets stuck and never panics: in every reachable state every call a running task
    is about to make has an answer, and one that does not cancel the task; in particular the limiter
    decides every attempt it is asked to decide, because every policy the feed hands out has one of
    the four modes. *)
Theorem gate_progress (g : Whole IpNet) (tid : nat) (tk : Task) (e : Eff) (k : Ans e -> Prog unit) :
  whole_reachable cfg powf parse g -> y_tasks (g_sys g) !! tid = Some tk -> t_prog tk = Act e k -> answered g tid e.
Proof. intros R. apply progress, whole_inv_reachable, R. Qed.

(** ** Termination *)

(** The rest of a program after its next call. *)
Definition rest_of (p' p : Prog unit) : Prop := exists e k x, p = Act e k /\ p' = k x.

Lemma rest_of_wf : well_founded rest_of.
Proof.
  intros p. induction p as [a | e k IH]; constructor; intros p' (e' & k' & x & E & ->); [done |].
  dependent destruction E. apply IH.
Qed.

(** One task moves on or leaves. *)
Inductive moves (m : gmap nat Task) : gmap nat Task -> Prop :=
| moves_on i tk tk' : m !! i = Some tk -> rest_of (t_prog tk') (t_prog tk) -> moves m (<[i := tk']> m)
| moves_out i tk : m !! i = Some tk -> moves m (delete i m).

Lemma moves_insert (m : gmap nat Task) :
  Acc (fun a b => moves b a) m -> forall tk i, m !! i = None -> Acc (fun a b => moves b a) (<[i := tk]> m).
Proof.
  induction 1 as [m Am IHm]. intros tk. remember (t_prog tk) as p eqn:Ep. revert tk Ep.
  induction p as [p IHp] using (well_founded_induction rest_of_wf). intros tk Ep i N. constructor. intros m' S.
  inversion S as [j tj tj' Lj R Em | j tj Lj Em]; subst; (destruct (decide (j = i)) as [-> | Ne];
    [rewrite lookup_insert_eq in Lj; injection Lj as <- | rewrite lookup_insert_ne in Lj by done]).
  - rewrite insert_insert_eq. eapply IHp; eauto.
  - rewrite insert_insert_ne by done. apply IHm; [econstructor; eauto |]. now rewrite lookup_insert_ne.
  - rewrite delete_insert_id by done. now constructor.
  - rewrite delete_insert_ne by done. apply IHm; [econstructor; eauto |]. now rewrite lookup_delete_ne.
Qed.

Lemma moves_wf (m : gmap nat Task) : Acc (fun a b => moves b a) m.
Proof.
  induction m as [| i tk m N IH] using map_ind; [| now apply moves_insert].
  constructor. intros m' S. inversion S as [j tj tj' Lj | j tj Lj]; rewrite lookup_empty in Lj; discriminate.
Qed.

Lemma task_step_moves (g g' : Whole IpNet) : task_step cfg powf g g' -> moves (y_tasks (g_sys g)) (y_tasks (g_sys g')).
Proof.
  intros S. destruct S as [tid tk e k x w free s m T P | tid tk a T]; cbn [g_sys y_tasks].
  - econstructor; [exact T |]. exists e, k, x. now split.
  - econstructor 2; exact T.
Qed.

Lemma task_step_wf (g : Whole IpNet) : Acc (fun a b => task_step cfg powf b a) g.
Proof.
  remember (y_tasks (g_sys g)) as m eqn:Em. revert g Em.
  induction (moves_wf m) as [m _ IH]. intros g ->. constructor. intros g' S. eapply IH; [eapply task_step_moves, S | done].
Qed.

(** The gate is idle: no task is left and everything they shared is back. *)
Record idle (g : Whole IpNet) : Prop := {
  id_tasks : y_tasks (g_sys g) = ∅;
  id_permits : forall s, y_free (g_sys g) s = pool cfg s;
  id_tickets : w_live (y_world (g_sys g)) = ∅;
  id_dials : p_slots (s_breaker (g_services g)) = Protection_slots (backend_protection cfg) (l_backend (limits cfg) - 1) }.

Lemma no_tasks_idle (g : Whole IpNet) : whole_inv g -> y_tasks (g_sys g) = ∅ -> idle g.
Proof.
  intros I E. split; auto.
  - intros s. pose proof (si_permits _ _ _ (gi_sys g I) s) as P. unfold held_permits in P. rewrite E, msum_empty in P. lia.
  - apply map_eq. intros tid. rewrite lookup_empty. apply (si_orphans _ _ _ (gi_sys g I)). now rewrite E, lookup_empty.
  - pose proof (bi_slots _ _ _ (binv_reachable _ _ _ (gi_breaker g I))) as B. pose proof valid_slots.
    unfold breaker_world in B. cbn [bw_p bw_live with_registry p_slots] in B. rewrite E in B. unfold dials_of in B.
    rewrite omap_empty, map_size_empty in B. lia.
Qed.

Lemma stuck_no_tasks (g : Whole IpNet) :
  whole_inv g -> (forall g', ~ task_step cfg powf g g') -> y_tasks (g_sys g) = ∅.
Proof.
  intros I N. apply map_empty. intros tid. destruct (y_tasks (g_sys g) !! tid) as [tk |] eqn:T; [exfalso | done].
  destruct (t_prog tk) as [a | e k] eqn:P; [eapply N, task_done; eauto |].
  destruct (progress g tid tk e k I T P) as (x & w & free & s & m & _ & W & F & V). eapply N, task_call; eauto.
Qed.

(** The gate drains. From every reachable state, the tasks cannot go on forever: whatever the
    interleaving and the answers, every sequence of their steps is finite, and where none is possible
    any more, the gate is idle, with no task, no ticket and every permit back. Once the gate has
    stopped accepting, no step of any part adds a task. *)
Theorem gate_drains (g : Whole IpNet) :
  whole_reachable cfg powf parse g ->
  Acc (fun a b => task_step cfg powf b a) g /\
  (forall g', rtc (task_step cfg powf) g g' -> (forall g'', ~ task_step cfg powf g' g'') -> idle g') /\
  (g_open g = false -> forall g', whole_step cfg powf parse g g' ->
     g_open g' = false /\ dom (y_tasks (g_sys g')) ⊆ dom (y_tasks (g_sys g))).
Proof.
  intros R. pose proof (whole_inv_reachable g R) as I. split; [apply task_step_wf |]. split.
  - intros g' S N. assert (I' : whole_inv g').
    { clear R N. induction S as [| g1 g2 g3 S _ IH]; [done |]. apply IH. eapply inv_task; eauto. }
    apply no_tasks_idle; [done |]. now apply stuck_no_tasks.
  - intros O g' S. destruct S as [g' T | ? ? O' | ? O' | f u now Hf s | u now | n v Hn y |]; try congruence; try done.
    + destruct T as [tid tk e k x w free s m T | tid tk a T]; cbn [g_open g_sys y_tasks]; (split; [done |]).
      * rewrite dom_insert. apply elem_of_dom_2 in T. set_solver.
      * rewrite dom_delete. set_solver.
    + destruct g as [y s shard [] o]; now cbn in *.
Qed.
End Whole.
