(* ===== verification/Process.v ===== *)
(** * The life of the gate's process ([gate/src/main.rs], [run]; [gate/src/metrics.rs], [serve])

    Around the gate of [GateServices.v]: the clock, the phases of the process from serving to its exit, with the drain under
    its timeout and [abort_all], and the accept loop of the metrics endpoint. The runtime cancels a task only when it was aborted; when a
    connection was cancelled is recorded, so that the deadline is a theorem about the times of cancellations. *)
From S2P Require Import Prelude Machine Float64 Metrics Net Config Limiter LimiterFacts LimiterSystem LimiterEffects LimiterInv LimiterProps.
From S2P Require Import Wire Protocol FrameIO Proxy Backend Relay Runtime Cache Registry Exposition Validate Task Gate GateResources GateSystem GateServices GateCompose GateWhole.
From stdpp Require Import base option list gmap relations.
From Stdlib Require Import ZArith Lia.
Local Open Scope Z_scope.

(** ** The metrics endpoint *)

(** The free permits of [serve], and the deadline of each connection that has one. *)
Record Endpoint : Type := mkEndpoint { e_slots : Z; e_clients : gmap nat Instant }.
Definition Endpoint_new : Endpoint := mkEndpoint 8 ∅.

(** A connection is accepted: it takes a permit, or is dropped. *)
Definition Endpoint_accept (e : Endpoint) (i : nat) (now : Instant) : Endpoint :=
  if e_slots e <=? 0 then e else mkEndpoint (e_slots e - 1) (<[i := now + from_secs 2]> (e_clients e)).

(** Its task ends, with an answer or at its deadline. *)
Definition Endpoint_end (e : Endpoint) (i : nat) : Endpoint := mkEndpoint (e_slots e + 1) (delete i (e_clients e)).

(** What the client gets for the bytes it sends by [now]. *)
Definition Endpoint_reply (show_f64 : f64 -> list Z) (e : Endpoint) (i : nat) (m : Metrics) (chunks : list (list Z))
  (now : Instant) : option (list Z) :=
  deadline ← e_clients e !! i; if now <? deadline then metrics_connection show_f64 m chunks else None.

Inductive endpoint_step (now : Instant) (e : Endpoint) : Endpoint -> Prop :=
| ep_accept i : e_clients e !! i = None -> endpoint_step now e (Endpoint_accept e i now)
| ep_end i : is_Some (e_clients e !! i) -> endpoint_step now e (Endpoint_end e i).

Definition endpoint_ok (e : Endpoint) : Prop := 0 <= e_slots e /\ e_slots e + Z.of_nat (size (e_clients e)) = 8.

Lemma endpoint_ok_step (now : Instant) (e e' : Endpoint) : endpoint_ok e -> endpoint_step now e e' -> endpoint_ok e'.
Proof.
  intros [F S] [i N | i [d C]]; unfold Endpoint_accept, Endpoint_end, endpoint_ok in *.
  - destruct (Z.leb_spec (e_slots e) 0); [done |]. cbn. rewrite map_size_insert_None by done. lia.
  - cbn. rewrite map_size_delete_Some by eauto. assert (size (e_clients e) <> 0%nat); [| lia].
    intros Z0. apply map_size_empty_inv in Z0. rewrite Z0, lookup_empty in C. discriminate.
Qed.

(** ** The phases *)

Inductive Phase : Type := Serving | Draining (until : Instant) | Aborting | Stopped.

(** After the loop of [run]: one poll of the drain under its timeout, [empty] when the join set has no task left, and, when the
    timeout has elapsed, of the join after [abort_all]. *)
Definition main_poll (now : Instant) (empty : bool) (ph : Phase) : Phase :=
  match ph with
  | Serving => Serving
  | Draining until => if empty then Stopped else if until <=? now then Aborting else Draining until
  | Aborting => if empty then Stopped else Aborting
  | Stopped => Stopped
  end.

(** Whether the runtime cancels a task at its next await: [abort] marks the cache's at the signal, [abort_all] the others. *)
Definition aborted (ph : Phase) (refresh : bool) : bool :=
  match ph with Serving => false | Draining _ => refresh | Aborting | Stopped => true end.

Section Process.
Context {Value : Type} `{JsonLib Value} {IpNet : Type} `{IpNetLib IpNet} (cfg : Config Value IpNet).
Context (powf : f64 -> f64 -> f64) (parse : list Z -> option (Runtime.Wire IpNet)).

(** The drain begins at the signal. *)
Definition begin_drain (now : Instant) : Phase := Draining (now + from_secs (shutdown_seconds (timeouts cfg))).

(** The process and its clock. [p_signal] and [p_cuts] record when the signal came, and when a connection was cancelled. *)
Record Process : Type := mkProcess {
  p_phase : Phase; p_gate : Whole IpNet; p_endpoint : Endpoint; p_now : Instant; p_signal : option Instant; p_cuts : list Instant }.

(** The tasks of the join set have all finished. *)
Definition joined (g : Whole IpNet) : Prop := map_Forall (fun _ tk => t_refresh tk = true) (y_tasks (g_sys g)).
#[global] Instance joined_dec (g : Whole IpNet) : Decision (joined g).
Proof. unfold joined. apply _. Defined.

(** A task goes on, with an answer that [ok] admits; [cut] tells whether a connection was cancelled. *)
Inductive goes (ok : bool -> forall e, Ans e -> Prop) (g : Whole IpNet) : bool -> Whole IpNet -> Prop :=
| goes_call tid tk e k x w free s m :
    y_tasks (g_sys g) !! tid = Some tk -> t_prog tk = Act e k -> ok (t_refresh tk) e x ->
    world_serves cfg powf (y_world (g_sys g)) tid e x w -> pool_serves (y_free (g_sys g)) e x free ->
    serves (g_services g) (registry w) e x s m ->
    goes ok g (cancels e x && negb (t_refresh tk)) (mkWhole (mkSys (set_registry w m) free
      (<[tid := mkTask (k x) (after e x (t_held tk)) (t_refresh tk)]> (y_tasks (g_sys g))))
      s (g_shard g) (g_upkeep g) (g_open g))
| goes_done tid tk a :
    y_tasks (g_sys g) !! tid = Some tk -> t_prog tk = Ret a ->
    goes ok g false (mkWhole (mkSys (y_world (g_sys g)) (y_free (g_sys g)) (delete tid (y_tasks (g_sys g))))
      (g_services g) (g_shard g) (g_upkeep g) (g_open g)).

(** The runtime cancels a task only when it is aborted. *)
Definition admitted_in (ph : Phase) (refresh : bool) (e : Eff) (x : Ans e) : Prop := cancels e x = true -> aborted ph refresh = true.

(** Everything else: the loops go on and connections arrive, and every task stays as it is. *)
Definition around (g g' : Whole IpNet) : Prop :=
  whole_step cfg powf parse g g' /\ g_open g' = g_open g /\
  forall i tk, y_tasks (g_sys g) !! i = Some tk -> y_tasks (g_sys g') !! i = Some tk.

Definition closed (g : Whole IpNet) : Whole IpNet := mkWhole (g_sys g) (g_services g) (g_shard g) (g_upkeep g) false.

Definition set_gate (p : Process) (g : Whole IpNet) (cut : bool) : Process :=
  mkProcess (p_phase p) g (p_endpoint p) (p_now p) (p_signal p) (if cut then p_now p :: p_cuts p else p_cuts p).
Definition set_endpoint (p : Process) (e : Endpoint) : Process :=
  mkProcess (p_phase p) (p_gate p) e (p_now p) (p_signal p) (p_cuts p).
Definition set_now (p : Process) (now : Instant) : Process :=
  mkProcess (p_phase p) (p_gate p) (p_endpoint p) now (p_signal p) (p_cuts p).
(** The loop of [run] is left by the signal: [drop(listener)], [refresh.abort()]. *)
Definition signalled (p : Process) : Process :=
  mkProcess (begin_drain (p_now p)) (closed (p_gate p)) (p_endpoint p) (p_now p) (Some (p_now p)) (p_cuts p).
Definition polled (p : Process) : Process :=
  mkProcess (main_poll (p_now p) (bool_decide (joined (p_gate p))) (p_phase p)) (p_gate p) (p_endpoint p) (p_now p) (p_signal p) (p_cuts p).

Inductive process_step (p : Process) : Process -> Prop :=
| pr_time now : p_now p <= now -> process_step p (set_now p now)
| pr_task g cut : p_phase p <> Stopped -> goes (admitted_in (p_phase p)) (p_gate p) cut g -> process_step p (set_gate p g cut)
| pr_around g : p_phase p <> Stopped -> around (p_gate p) g -> process_step p (set_gate p g false)
| pr_signal : p_phase p = Serving -> process_step p (signalled p)
| pr_poll : process_step p (polled p)
| pr_scrape e : p_phase p <> Stopped -> endpoint_step (p_now p) (p_endpoint p) e -> process_step p (set_endpoint p e).

Definition process_initial (p : Process) : Prop :=
  p_phase p = Serving /\ whole_initial cfg (p_gate p) /\ p_endpoint p = Endpoint_new /\ p_signal p = None /\ p_cuts p = [].
Definition process_reachable (p : Process) : Prop := exists p0, process_initial p0 /\ rtc process_step p0 p.

(** The steps that wait for nobody: the main task, a call that is answered on the spot, the cancellation of one that waits. *)
Definition waits (e : Eff) : bool :=
  match e with
  | ReadProxy _ _ | ReadFrame _ _ _ _ _ | ClientWrite _ _ | Task.Connect | BackendWrite _ | RelayCopy | BackendRead _ _ _ _ _ => true
  | _ => false
  end.
Definition on_the_spot (refresh : bool) (e : Eff) (x : Ans e) : Prop := cancels e x = waits e.
Inductive own_step (p : Process) : Process -> Prop :=
| own_poll : p_phase (polled p) <> p_phase p -> own_step p (polled p)
| own_task g cut : p_phase p = Aborting -> goes on_the_spot (p_gate p) cut g -> own_step p (set_gate p g cut).

(** ** Its steps are steps of the gate *)

Lemma goes_task (ok : bool -> forall e, Ans e -> Prop) (g g' : Whole IpNet) (cut : bool) : goes ok g cut g' -> task_step cfg powf g g'.
Proof. intros [tid tk e k x w free s m T P _ W F V | tid tk a T P]; [eapply task_call | eapply task_done]; eauto. Qed.
Lemma goes_open (ok : bool -> forall e, Ans e -> Prop) (g g' : Whole IpNet) (cut : bool) : goes ok g cut g' -> g_open g' = g_open g.
Proof. now intros []. Qed.
(** While the connections are not aborted none is cut. *)
Lemma goes_uncut (ph : Phase) (g g' : Whole IpNet) (cut : bool) :
  aborted ph false = false -> goes (admitted_in ph) g cut g' -> cut = false.
Proof.
  intros A [tid tk e k x w free s m T P O W F V | tid tk a T P]; [| reflexivity]. unfold admitted_in in O.
  destruct (t_refresh tk); [apply andb_false_r |]. rewrite andb_true_r. destruct (cancels e x); [| reflexivity]. now rewrite O in A.
Qed.

Lemma process_refines (p p' : Process) : process_step p p' -> rtc (whole_step cfg powf parse) (p_gate p) (p_gate p').
Proof.
  intros S. destruct S as [now | g cut _ L | g _ [A _] | | | e]; cbn [p_gate set_now set_gate signalled polled set_endpoint];
    try apply rtc_refl; apply rtc_once; auto.
  - apply whole_task. eapply goes_task; eauto.
  - apply whole_shutdown.
Qed.

(** What holds of the process besides the gate's own invariant. *)
Definition drain_over (p : Process) (t : Instant) : Prop :=
  exists s, p_signal p = Some s /\ s + from_secs (shutdown_seconds (timeouts cfg)) <= t <= p_now p.
Record process_ok (p : Process) : Prop := {
  po_open : g_open (p_gate p) = true <-> p_phase p = Serving;
  po_joined : p_phase p = Stopped -> joined (p_gate p);
  po_endpoint : endpoint_ok (p_endpoint p);
  po_signal : match p_phase p with
    | Serving => p_cuts p = []
    | Draining u => p_cuts p = [] /\ exists s, p_signal p = Some s /\ u = s + from_secs (shutdown_seconds (timeouts cfg))
    | Aborting => drain_over p (p_now p)
    | Stopped => True
    end;
  po_cuts : Forall (drain_over p) (p_cuts p) }.

Lemma cuts_later (p : Process) (now : Instant) : p_now p <= now -> Forall (drain_over p) (p_cuts p) -> Forall (drain_over (set_now p now)) (p_cuts p).
Proof. intros L F. eapply Forall_impl; [exact F |]. intros t (s & E & B). exists s. split; [exact E |]. cbn. lia. Qed.

Lemma ok_task (p : Process) (g : Whole IpNet) (cut : bool) :
  process_ok p -> p_phase p <> Stopped -> goes (admitted_in (p_phase p)) (p_gate p) cut g -> process_ok (set_gate p g cut).
Proof.
  intros [O J E S C] N L.
  assert (K : cut = true -> drain_over p (p_now p) /\ p_phase p = Aborting).
  { intros ->. destruct (p_phase p) eqn:Ph; try (now apply goes_uncut in L); auto. }
  split; cbn [set_gate p_phase p_gate p_endpoint p_signal p_cuts p_now].
  - now rewrite (goes_open _ _ _ _ L).
  - done.
  - exact E.
  - destruct cut; [destruct (K eq_refl) as [D Ph]; rewrite Ph in S |- *; exact D |]. destruct (p_phase p); exact S.
  - destruct cut; [apply Forall_cons; split; [now apply K |] |]; exact C.
Qed.

Lemma ok_around (p : Process) (g : Whole IpNet) :
  process_ok p -> p_phase p <> Stopped -> around (p_gate p) g -> process_ok (set_gate p g false).
Proof.
  intros [O J E S C] N (_ & Op & _). split; cbn [set_gate p_phase p_gate p_endpoint p_signal p_cuts p_now]; auto; [now rewrite Op | done].
Qed.

Lemma ok_poll (p : Process) : process_ok p -> process_ok (polled p).
Proof.
  intros [O J E S C]. assert (Cp : Forall (drain_over (polled p)) (p_cuts p)) by (eapply Forall_impl; [exact C | now intros t]).
  assert (Jo : bool_decide (joined (p_gate p)) = true -> joined (p_gate p)) by apply bool_decide_eq_true_1.
  split; cbn [polled p_gate p_endpoint p_cuts]; auto; destruct (p_phase p) eqn:Ph; unfold polled; rewrite Ph; cbn [main_poll p_phase p_signal p_now p_cuts] in *;
    try destruct (bool_decide _) eqn:Jb; try destruct (until <=? p_now p) eqn:U; cbn; auto; try discriminate; try (split; intros X; try done; apply O in X; discriminate).
  - destruct S as (_ & s & E1 & ->). exists s. split; [exact E1 |]. cbn. breflect. lia.
Qed.

Lemma process_ok_step (p p' : Process) : process_ok p -> process_step p p' -> process_ok p'.
Proof.
  intros I S. destruct S as [now L | g cut N G | g N A | Ph | | e N G];
    [| now apply ok_task | now apply ok_around | | now apply ok_poll |]; destruct I as [O J E S C].
  - split; cbn [set_now p_phase p_gate p_endpoint p_signal p_cuts p_now]; auto; [| now apply cuts_later].
    destruct (p_phase p); auto. destruct S as (s & E1 & B). exists s. split; [exact E1 |]. cbn. lia.
  - rewrite Ph in S. split; cbn [signalled p_phase p_gate p_endpoint p_signal p_cuts p_now]; rewrite ?S; auto; try done.
    unfold begin_drain. eauto.
  - split; cbn [set_endpoint p_phase p_gate p_endpoint p_signal p_cuts p_now]; auto. now apply (endpoint_ok_step (p_now p) (p_endpoint p)).
Qed.

Lemma process_reachable_ok (p : Process) : process_reachable p -> process_ok p /\ whole_reachable cfg powf parse (p_gate p).
Proof.
  intros (p0 & (Ph & I & En & Sg & Cu) & R). assert (O : process_ok p0).
  { destruct I as (c & now & _ & _ & _ & _ & _ & Op). split; rewrite ?Ph, ?Op, ?En, ?Cu; [done | done | now split | done | constructor]. }
  assert (W : whole_reachable cfg powf parse (p_gate p0)) by (exists (p_gate p0); split; [done | apply rtc_refl]).
  clear I Ph En Sg Cu. induction R as [| p1 p2 p3 S R IH]; [done |]. apply IH.
  - now apply (process_ok_step p1).
  - destruct W as (g0 & I0 & R0). exists g0. split; [done |]. etrans; [exact R0 | now apply process_refines].
Qed.

(** ** Shutting down *)

Section Shutdown.
Context (Htyped : limits_typed (limits cfg)) (Hconnecting : 0 <= max_connecting (backend_protection cfg)).
Context (Hvalid : validate cfg = Ok tt).

(** A gate that has a task can go on without cancelling anything. *)
Lemma lives_exists (ph : Phase) (g : Whole IpNet) :
  whole_inv cfg powf g -> y_tasks (g_sys g) <> ∅ -> exists g', goes (admitted_in ph) g false g'.
Proof using Htyped Hvalid.
  intros I N. apply map_choose in N as (tid & tk & T). destruct (t_prog tk) as [a | e k] eqn:P; [eexists; eapply goes_done; eauto |].
  destruct (progress cfg powf Htyped Hvalid g tid tk e k I T P) as (x & w & free & s & m & C & W & F & V).
  pose proof (goes_call (admitted_in ph) g tid tk e k x w free s m T P) as G. rewrite C in G. eexists. apply G; auto.
  unfold admitted_in. rewrite C. discriminate.
Qed.

(** And without waiting for anybody, when what waits is cancelled. *)
Lemma cancelled_answer (g : Whole IpNet) (tid : nat) (e : Eff) : waits e = true ->
  exists x, cancels e x = true /\ world_serves cfg powf (y_world (g_sys g)) tid e x (y_world (g_sys g)) /\
    pool_serves (y_free (g_sys g)) e x (y_free (g_sys g)) /\
    serves (g_services g) (registry (y_world (g_sys g))) e x (g_services g) (registry (y_world (g_sys g))).
Proof using Type. destruct e; try discriminate; intros _; exists None; cbn; auto. Qed.

Lemma own_exists (g : Whole IpNet) :
  whole_inv cfg powf g -> y_tasks (g_sys g) <> ∅ -> exists cut g', goes on_the_spot g cut g'.
Proof using Htyped Hvalid.
  intros I N. apply map_choose in N as (tid & tk & T). destruct (t_prog tk) as [a | e k] eqn:P; [do 2 eexists; eapply goes_done; eauto |].
  destruct (waits e) eqn:We.
  - destruct (cancelled_answer g tid e We) as (x & C & W & F & V). do 2 eexists. eapply goes_call; eauto. unfold on_the_spot. congruence.
  - destruct (progress cfg powf Htyped Hvalid g tid tk e k I T P) as (x & w & free & s & m & C & W & F & V).
    do 2 eexists. eapply goes_call; eauto. unfold on_the_spot. congruence.
Qed.

(** Draining can end with nothing cut. *)
Lemma drains (p : Process) (u : Instant) :
  whole_inv cfg powf (p_gate p) -> p_phase p = Draining u ->
  exists p', rtc process_step p p' /\ p_phase p' = Stopped /\ p_cuts p' = p_cuts p /\ idle cfg (p_gate p').
Proof using Htyped Hconnecting Hvalid.
  remember (p_gate p) as g eqn:Eg. revert p Eg. induction (task_step_wf cfg powf g) as [g _ IH]. intros p -> I Ph.
  destruct (decide (y_tasks (g_sys (p_gate p)) = ∅)) as [E | N].
  - exists (polled p). split; [apply rtc_once, pr_poll |]. cbn [polled p_phase p_cuts p_gate].
    rewrite Ph, bool_decide_eq_true_2; [| unfold joined; rewrite E; apply map_Forall_empty]. split_and!; auto. now apply (no_tasks_idle cfg powf).
  - destruct (lives_exists (Draining u) _ I N) as [g1 L]. pose proof (goes_task _ _ _ _ L) as T.
    destruct (IH g1 T (set_gate p g1 false) eq_refl (inv_task cfg powf Hvalid _ _ I T) Ph) as (p' & R & S & C & Id).
    exists p'. split_and!; auto. eapply rtc_l; [| exact R]. apply pr_task; rewrite Ph; [discriminate | exact L].
Qed.

(** Its own steps end. *)
Lemma stopped_own (p p' : Process) : p_phase p = Stopped -> ~ own_step p p'.
Proof using Type.
  intros Ph S. destruct S as [Np | g cut A _]; [| congruence]. apply Np. cbn [polled p_phase]. now rewrite Ph.
Qed.
Lemma aborting_own (p : Process) : p_phase p = Aborting -> Acc (fun a b => own_step b a) p.
Proof using Type.
  remember (p_gate p) as g eqn:Eg. revert p Eg. induction (task_step_wf cfg powf g) as [g _ IH]. intros p -> Ph. constructor.
  intros p' S. destruct S as [Np | g cut _ L].
  - constructor. intros p'' S. exfalso. eapply (stopped_own (polled p)); [| exact S]. cbn [polled p_phase] in Np |- *. rewrite Ph in *.
    cbn [main_poll] in *. destruct (bool_decide _); congruence.
  - apply (IH g (goes_task _ _ _ _ L) (set_gate p g cut) eq_refl Ph).
Qed.
Lemma own_ends (p : Process) : p_phase p <> Serving -> Acc (fun a b => own_step b a) p.
Proof using Type.
  intros N. destruct (p_phase p) as [| u | |] eqn:Ph; [done | | now apply aborting_own | constructor; intros p' S; now apply stopped_own in S].
  constructor. intros p' S. destruct S as [Np | g cut A _]; [| congruence]. cbn [polled p_phase] in Np. rewrite Ph in Np. cbn [main_poll] in Np.
  assert (Q : p_phase (polled p) = Stopped \/ p_phase (polled p) = Aborting).
  { cbn [polled p_phase]. rewrite Ph. cbn [main_poll]. destruct (bool_decide _); [now left |]. destruct (_ <=? _); [now right | congruence]. }
  destruct Q as [Q | Q]; [constructor; intros p' S; now apply stopped_own in S | now apply aborting_own].
Qed.

(** And only in the end, once the deadline is over. *)
Lemma own_stuck (p : Process) : whole_inv cfg powf (p_gate p) ->
  match p_phase p with Serving => False | Draining u => u <= p_now p | _ => True end ->
  (forall p', ~ own_step p p') -> p_phase p = Stopped.
Proof using Htyped Hvalid.
  intros I Ph N. destruct (p_phase p) as [| u | |] eqn:E; [done | | | done].
  - destruct (N (polled p)). apply own_poll. cbn [polled p_phase]. rewrite E. cbn [main_poll].
    destruct (bool_decide _); [discriminate |]. now rewrite (proj2 (Z.leb_le u (p_now p)) Ph).
  - exfalso. destruct (decide (joined (p_gate p))) as [J | J].
    + apply (N (polled p)), own_poll. cbn [polled p_phase]. rewrite E, bool_decide_eq_true_2 by done. discriminate.
    + destruct (own_exists (p_gate p) I) as (cut & g & G); [| exact (N _ (own_task p g cut E G))].
      intros Z0. apply J. unfold joined. rewrite Z0. apply map_Forall_empty.
Qed.

(** They keep what is needed for that. *)
Lemma own_process (p p' : Process) : own_step p p' -> process_step p p'.
Proof using Type.
  intros [Np | g cut A L]; [apply pr_poll |]. apply pr_task; rewrite A; [discriminate |].
  destruct L as [tid tk e k x w free s m T P _ W F V | tid tk a T P]; [eapply goes_call | eapply goes_done]; eauto. now intros _.
Qed.
Lemma own_late (p p' : Process) : own_step p p' ->
  match p_phase p with Serving => False | Draining u => u <= p_now p | _ => True end ->
  match p_phase p' with Serving => False | Draining u => u <= p_now p' | _ => True end /\ p_now p' = p_now p.
Proof using Type.
  intros [Np | g cut A L] X; [| cbn; now rewrite A in *]. split; [| reflexivity]. cbn [polled p_phase p_now].
  destruct (p_phase p); cbn [main_poll]; auto; destruct (bool_decide _); auto. destruct (until <=? p_now p); auto.
Qed.

Context (Hparse : forall b w, parse b = Some w -> wire_typed w).

Lemma own_run (p p' : Process) : rtc own_step p p' -> process_reachable p ->
  match p_phase p with Serving => False | Draining u => u <= p_now p | _ => True end ->
  process_reachable p' /\ p_now p' = p_now p /\ match p_phase p' with Serving => False | Draining u => u <= p_now p' | _ => True end.
Proof using Type.
  intros R. induction R as [p | p p1 p2 S R IH]; [auto |]. intros Re L. destruct (own_late p p1 S L) as [L1 N1].
  destruct (IH) as (Re2 & N2 & L2); [| exact L1 | split_and!; auto; congruence].
  destruct Re as (p0 & I0 & R0). exists p0. split; [exact I0 |]. eapply rtc_r; [exact R0 | now apply own_process].
Qed.

(** C12: The process stops in time, and cuts nothing before. In every state it reaches, it accepts connections exactly while it
    serves, and has at most eight metrics clients. Every cancellation of a connection happened at least [shutdown_seconds] after the
    signal. While it drains it can always end with no further connection cut and everything given back. And once
    [shutdown_seconds] have passed since the signal it ends without waiting for anybody: whatever it does on its own, the polls
    of the main task, the calls that are answered on the spot and the cancellation of those that wait, comes to an end, only in
    [Stopped], with no time passing and no connection left. *)
Theorem process_stops (p : Process) :
  process_reachable p ->
  whole_reachable cfg powf parse (p_gate p) /\ Z.of_nat (size (e_clients (p_endpoint p))) <= 8 /\
  (g_open (p_gate p) = true <-> p_phase p = Serving) /\
  (forall t, t ∈ p_cuts p -> exists s, p_signal p = Some s /\ s + from_secs (shutdown_seconds (timeouts cfg)) <= t <= p_now p) /\
  (forall u, p_phase p = Draining u ->
     exists p', rtc process_step p p' /\ p_phase p' = Stopped /\ p_cuts p' = p_cuts p /\ idle cfg (p_gate p')) /\
  (forall s, p_phase p <> Serving -> p_signal p = Some s -> s + from_secs (shutdown_seconds (timeouts cfg)) <= p_now p ->
     Acc (fun a b => own_step b a) p /\
     forall p', rtc own_step p p' -> (forall p'', ~ own_step p' p'') ->
       p_phase p' = Stopped /\ p_now p' = p_now p /\ joined (p_gate p')).
Proof using Htyped Hconnecting Hvalid Hparse.
  intros R. destruct (process_reachable_ok p R) as [[O J [F S] Sg C] W].
  pose proof (whole_inv_reachable cfg powf parse Htyped Hvalid Hparse _ W) as I. split_and!; auto; [lia | | |].
  - intros t T. rewrite Forall_forall in C. exact (C t T).
  - intros u Ph. now apply (drains p u).
  - intros s Ns Es L. split; [now apply own_ends |]. intros p' R' N.
    assert (Lt : match p_phase p with Serving => False | Draining u => u <= p_now p | _ => True end).
    { destruct (p_phase p); auto. destruct Sg as (_ & s' & E' & ->). assert (s' = s) by congruence. lia. }
    destruct (own_run p p' R' R Lt) as (Re & Nw & L'). destruct (process_reachable_ok p' Re) as [[O' J' _ _ _] W'].
    pose proof (whole_inv_reachable cfg powf parse Htyped Hvalid Hparse _ W') as I'. assert (St := own_stuck p' I' L' N). auto.
Qed.
End Shutdown.
End Process.
