(* ===== verification/GateRun.v ===== *)
(** * Executing the whole gate

    An interpreter for the gate of [GateServices.v]: one task at a time, with the limiter, the permit
    pools, the circuit breaker, the policy feed and the status cache computing their answers, and the
    client's bytes taken from a script. Every step it makes is a step of the gate, so that the states
    it computes are reachable. *)
From S2P Require Import Prelude Machine Float64 Metrics Net Config Limiter LimiterSystem.
From S2P Require Import Wire Protocol FrameIO Proxy Backend Runtime Cache Validate Task Gate GateResources GateSystem GateServices.
From stdpp Require Import base option list gmap relations.
From Stdlib Require Import ZArith Lia.
Local Open Scope Z_scope.

Section Run.
Context {Value : Type} `{JsonLib Value} {IpNet : Type} `{IpNetLib IpNet} (cfg : Config Value IpNet).
Context (powf : f64 -> f64 -> f64) (parse : list Z -> option (Runtime.Wire IpNet)).
(** The clock of the run, the gate's own address, and whether the backend accepts connections. *)
Context (clock_now : Instant) (local : SocketAddr) (backend_up : bool).

(** An answer with the state after it. *)
Definition Served (e : Eff) : Type := Ans e * World * (Sem -> Z) * Services IpNet * Metrics.

(** A client that sends [bytes] in one piece before the deadline. *)
Definition client (bytes : list Z) : Reader := mkReader (replicate (S (length bytes)) clock_now) [Chunk bytes].

Definition serve (g : Whole IpNet) (tid : nat) (bytes : list Z) (e : Eff) : option (Served e) :=
  let w := y_world (g_sys g) in
  let l := w_lim w in
  let free := y_free (g_sys g) in
  let s := g_services g in
  let m := registry w in
  let p := with_registry (s_breaker s) m in
  let world {A : Type} (x : A) (w' : World) : option (A * World * (Sem -> Z) * Services IpNet * Metrics) :=
    Some (x, w', free, s, registry w') in
  match e return option (Served e) with
  | Now => world clock_now w
  | SetNodelay | BackendNodelay => world true w
  | LocalAddr => world (Some local) w
  | ReadProxy peer _ =>
      '(res, _) ← proxy_read (client bytes) peer (incoming_proxy_v2 cfg); world (Some res) w
  | ReadFrame max budget deadline progress first =>
      '(res, budget', _) ← read_frame max deadline progress first (client bytes) budget; world (Some (res, budget')) w
  | ClientWrite _ _ => world (Some Wrote) w
  | AskPolicy ip => world (Runtime_policy (s_runtime s) ip 0 clock_now) w
  | AcceptTicket ip p =>
      '(x, l') ← Limiter_accept l ip p clock_now;
      world x (match x with Some t => set_cell l' w tid t Idle | None => mkWorld l' (w_live w) end)
  | RateEvent t ev p => '(x, l') ← Limiter_event l t ev p clock_now; world x (set_cell l' w tid t Idle)
  | EnterStatus t => let '(b, t', l') := Ticket_enter_status l t in world (b, t') (set_cell l' w tid t' Idle)
  | AdmitIp t => world tt (set_cell (with_ip l (release_pending (l_ip l) (t_ip t))) w tid t AdmittedIp)
  | AdmitPrefix t =>
      world tt (set_cell (with_prefix l (release_pending (l_prefix l) (t_prefix t))) w tid (set_ticket_admitted t) Idle)
  | DropIp t now => world tt (set_cell (drop_ip powf l t now) w tid t (DroppedIp now))
  | DropPrefix t now => world tt (mkWorld (drop_prefix powf l t now) (delete tid (w_live w)))
  | TryAcquire c =>
      if 0 <? free c then Some (true, w, set_free free c (free c - 1), s, m) else Some (false, w, free, s, m)
  | Release c => Some (tt, w, set_free free c (free c + 1), s, m)
  | MetricInc n | GaugeUp n => world tt (set_metrics w (fun m => Metrics_inc m n))
  | MetricAdd n v => world tt (set_metrics w (fun m => Metrics_add m n v))
  | GaugeDown n => world tt (set_metrics w (fun m => Metrics_dec m n))
  | DialAcquire =>
      match acquire_slot p with
      | Some p' => Some (true, w, free, with_breaker s p', m)
      | None => Some (false, w, free, s, m)
      end
  | DialEnter now => let '(x, p') := enter_locked p now in Some (x, w, free, with_breaker s p', p_metrics p')
  | DialFinish a ok now =>
      let p' := Protection_finish p (a_generation a) ok now in Some (tt, w, free, with_breaker s p', p_metrics p')
  | DialRelease => Some (tt, w, free, with_breaker s (release_slot p), m)
  | Task.Connect => world (Some backend_up) w
  | BackendWrite _ => world (Some true) w
  | RelayCopy => world (Some true) w
  | BackendLocalAddr => world (Some local) w
  | BackendRead max budget deadline progress first =>
      '(res, _, _) ← read_frame max deadline progress first (client bytes) budget; world (Some (Some res)) w
  | CacheGet v => let '(x, m') := StatusCache_get (s_cache s) m v clock_now in Some (x, w, free, s, m')
  | CacheStore v at_ =>
      Some (tt, w, free, with_cache s (mkStatusCache (Some (mkCached v at_)) (fallback (s_cache s)) (ttl (s_cache s))), m)
  end.

Lemma serve_sound (g : Whole IpNet) (tid : nat) (bytes : list Z) (e : Eff) (x : Ans e) (w : World) (free : Sem -> Z)
  (s : Services IpNet) (m : Metrics) :
  serve g tid bytes e = Some (x, w, free, s, m) ->
  world_serves cfg powf (y_world (g_sys g)) tid e x w /\ pool_serves (y_free (g_sys g)) e x free /\
  serves (g_services g) (registry w) e x s m.
Proof.
  destruct e; cbn [serve world_serves pool_serves serves]; intros E;
    try solve [injection E as <- <- <- <- <-; auto 10].
  - destruct (proxy_read _ _ _) as [[res r'] |] eqn:R; [| discriminate]. cbn [mbind option_bind] in E.
    injection E as <- <- <- <- <-. eauto 10.
  - destruct (read_frame _ _ _ _ _ _) as [[[res b] r'] |] eqn:R; [| discriminate]. cbn [mbind option_bind] in E.
    injection E as <- <- <- <- <-. eauto 10.
  - injection E as <- <- <- <- <-. eauto 10.
  - destruct (Limiter_accept _ _ _ _) as [[o l'] |] eqn:R; [| discriminate]. cbn [mbind option_bind] in E.
    injection E as <- <- <- <- <-. eauto 10.
  - destruct (Limiter_event _ _ _ _ _) as [[o l'] |] eqn:R; [| discriminate]. cbn [mbind option_bind] in E.
    injection E as <- <- <- <- <-. eauto 10.
  - destruct (Ticket_enter_status _ _) as [[b t'] l'] eqn:R. injection E as <- <- <- <- <-. eauto 10.
  - destruct (Z.ltb_spec 0 (y_free (g_sys g) s0)); injection E as <- <- <- <- <-; auto 10.
  - destruct (acquire_slot _) as [p' |] eqn:R; injection E as <- <- <- <- <-; eauto 10.
  - destruct (enter_locked _ _) as [o p'] eqn:R. injection E as <- <- <- <- <-. eauto 10.
  - destruct (read_frame _ _ _ _ _ _) as [[[res b] r'] |] eqn:R; [| discriminate]. cbn [mbind option_bind] in E.
    injection E as <- <- <- <- <-. eauto 10.
  - destruct (StatusCache_get _ _ _ _) as [o m'] eqn:R. injection E as <- <- <- <- <-. eauto 10.
Qed.

(** ** Running a task *)

Definition takes_input (e : Eff) : bool :=
  match e with ReadProxy _ _ | ReadFrame _ _ _ _ _ | BackendRead _ _ _ _ _ => true | _ => false end.

(** The next step of task [tid]; each read takes the next piece of [input]. *)
Definition step_task (g : Whole IpNet) (tid : nat) (input : list (list Z)) : option (Whole IpNet * list (list Z)) :=
  let y := g_sys g in
  tk ← y_tasks y !! tid;
  match t_prog tk with
  | Ret _ => Some (mkWhole (mkSys (y_world y) (y_free y) (delete tid (y_tasks y))) (g_services g) (g_shard g) (g_upkeep g)
      (g_open g), input)
  | Act e k =>
    '(x, w, free, s, m) ← serve g tid (hd [] input) e;
    Some (mkWhole (mkSys (set_registry w m) free (<[tid := mkTask (k x) (after e x (t_held tk)) (t_refresh tk)]> (y_tasks y)))
      s (g_shard g) (g_upkeep g) (g_open g), if takes_input e then tl input else input)
  end.

Fixpoint run_task (fuel : nat) (g : Whole IpNet) (tid : nat) (input : list (list Z)) : Whole IpNet :=
  match fuel with
  | O => g
  | S fuel => match step_task g tid input with Some (g, input) => run_task fuel g tid input | None => g end
  end.

Lemma step_task_sound (g g' : Whole IpNet) (tid : nat) (input input' : list (list Z)) :
  step_task g tid input = Some (g', input') -> task_step cfg powf g g'.
Proof.
  unfold step_task. destruct (y_tasks (g_sys g) !! tid) as [tk |] eqn:T; [| discriminate]. cbn [mbind option_bind].
  destruct (t_prog tk) as [a | e k] eqn:P; [intros [= <- _]; exact (task_done cfg powf g tid tk a T P) |].
  destruct (serve g tid (hd [] input) e) as [[[[[x w] free] s] m] |] eqn:S; [| discriminate]. cbn [mbind option_bind].
  intros [= <- _]. destruct (serve_sound _ _ _ _ _ _ _ _ _ S) as (W & F & V). exact (task_call cfg powf g tid tk e k x w free s m T P W F V).
Qed.

Lemma run_task_steps (fuel : nat) (g : Whole IpNet) (tid : nat) (input : list (list Z)) :
  rtc (task_step cfg powf) g (run_task fuel g tid input).
Proof.
  revert g input. induction fuel as [| fuel IH]; intros g input; [apply rtc_refl |]. cbn [run_task].
  destruct (step_task g tid input) as [[g' input'] |] eqn:S; [| apply rtc_refl].
  eapply rtc_l; [eapply step_task_sound, S | apply IH].
Qed.

Lemma run_task_reachable (fuel : nat) (g : Whole IpNet) (tid : nat) (input : list (list Z)) :
  whole_reachable cfg powf parse g -> whole_reachable cfg powf parse (run_task fuel g tid input).
Proof.
  intros (g0 & I & R). exists g0. split; [done |]. etrans; [exact R |].
  eapply rtc_congruence with (f := fun x => x); [| apply run_task_steps]. intros a b S. now apply whole_task.
Qed.

(** What task [tid] is about to write to its client. *)
Definition next_write (g : Whole IpNet) (tid : nat) : option (list Z) :=
  match y_tasks (g_sys g) !! tid with
  | Some (mkTask (Act (ClientWrite bs _) _) _ _) => Some bs
  | _ => None
  end.
End Run.
