(* ===== verification/Startup.v ===== *)
(** * Starting the gate ([gate/src/main.rs], [main], and [Config::load])

    The command line, reading and checking the configuration file, and the state [run] starts from.
    The file system and the JSON parser are arguments. *)
From S2P Require Import Prelude Machine Float64 Metrics Net Config Limiter LimiterSystem.
From S2P Require Import Backend Runtime Cache Exposition Validate Task GateSystem GateServices.
From stdpp Require Import base option list gmap strings.
From Stdlib Require Import ZArith Lia.
Local Open Scope Z_scope.
Local Open Scope gate_scope.

Section Startup.
Context {Value : Type} `{JsonLib Value} {IpNet : Type} `{IpNetLib IpNet}.
Context (read : list Z -> option (list Z)) (parse : list Z -> option (Config Value IpNet)).

Inductive StartError : Type := Usage | Unreadable | TooLarge | NotJson | Invalid (e : ConfigError).

Definition Config_load (path : list Z) : result (Config Value IpNet) StartError :=
  let? raw := ok_or (read path) Unreadable in
  if Z.of_nat (length raw) >? 262144 then Err TooLarge
  else
    let? c := ok_or (parse raw) NotJson in
    match validate c with Ok _ => Ok c | Err e => Err (Invalid e) end.

(** What the process does. *)
Inductive Started : Type := PrintStateSizes | ConfigurationValid | Running (c : Config Value IpNet).

(** [main]; [args] includes the program's name. *)
Definition main (args : list (list Z)) : result Started StartError :=
  let arg i := nth i args [] in
  if (length args =? 2)%nat && bool_decide (arg 1%nat = text "--state-sizes") then Ok PrintStateSizes
  else if (length args <? 2)%nat || (3 <? length args)%nat ||
          ((length args =? 3)%nat && negb (bool_decide (arg 2%nat = text "--check"))) then Err Usage
  else
    let? cfg := Config_load (arg 1%nat) in
    if (length args =? 3)%nat then Ok ConfigurationValid else Ok (Running cfg).

Lemma Config_load_ok (path : list Z) (c : Config Value IpNet) :
  Config_load path = Ok c <->
  exists raw, read path = Some raw /\ Z.of_nat (length raw) <= 262144 /\ parse raw = Some c /\ validate c = Ok tt.
Proof.
  unfold Config_load. split.
  - destruct (read path) as [raw |]; [| discriminate]. cbn [ok_or result_bind]. rewrite Z.gtb_ltb.
    destruct (Z.ltb_spec 262144 (Z.of_nat (length raw))); [discriminate |].
    destruct (parse raw) as [c' |] eqn:P; [| discriminate]. cbn [ok_or result_bind].
    destruct (validate c') as [[] |] eqn:V; [| discriminate]. intros [= ->]. eauto 10.
  - intros (raw & -> & L & P & V). cbn [ok_or result_bind]. rewrite Z.gtb_ltb.
    destruct (Z.ltb_spec 262144 (Z.of_nat (length raw))); [lia |]. rewrite P. cbn [ok_or result_bind]. now rewrite V.
Qed.

(** A validated configuration has an initial state: the fallback response can be prepared, so that
    nothing [run] sets up panics. *)
Lemma initial_exists (c : Config Value IpNet) (hip hprefix : IpAddr -> Z) (now : Instant) :
  validate c = Ok tt -> exists g, whole_initial c g /\
    y_world (g_sys g) = mkWorld (Limiter_new hip hprefix (limits c) Metrics_new now) ∅.
Proof.
  intros V. destruct (validate_passed c V) as (_ & _ & _ & _ & _ & _ & _ & BC).
  assert (F : exists s, StatusCache_new c = Some s).
  { unfold bad_cache in BC. breflect. unfold valid_status, StatusCache_new in *.
    destruct (Prepared_new _ _); [cbn; eauto | discriminate]. }
  destruct F as [s Es].
  exists (mkWhole (mkSys (mkWorld (Limiter_new hip hprefix (limits c) Metrics_new now) ∅) (pool c) ∅)
    (mkServices (Protection_new (backend_protection c) (l_backend (limits c) - 1) Metrics_new now) 0
      (Runtime_new (match runtime_file c with [] => c_observe c | _ => true end)) s) 0 SweepIp true).
  split; [| done]. exists s, now. split_and!; try done. split_and!; try done. now exists hip, hprefix, now.
Qed.

(** What starts is what was checked. For any command line with a configuration path: [--check] accepts
    exactly the files the gate would start with; both accept a file exactly when it can be read, is
    at most 262144 bytes, parses and validates; and a gate that starts has an initial state, for any
    hash functions of its tables, so that setting it up cannot panic. *)
Theorem startup_exact (program path : list Z) (c : Config Value IpNet) :
  path <> text "--state-sizes" ->
  (main [program; path] = Ok (Running c) <->
   exists raw, read path = Some raw /\ Z.of_nat (length raw) <= 262144 /\ parse raw = Some c /\ validate c = Ok tt) /\
  (main [program; path; text "--check"] = Ok ConfigurationValid <-> exists c', main [program; path] = Ok (Running c')) /\
  (main [program; path] = Ok (Running c) -> forall hip hprefix now, exists g, whole_initial c g /\
     y_world (g_sys g) = mkWorld (Limiter_new hip hprefix (limits c) Metrics_new now) ∅).
Proof.
  intros Hp. assert (M2 : main [program; path] = (let? cfg := Config_load path in Ok (Running cfg))).
  { unfold main. cbn [length nth]. rewrite bool_decide_eq_false_2 by done. reflexivity. }
  assert (M3 : main [program; path; text "--check"] = (let? cfg := Config_load path in Ok ConfigurationValid)) by reflexivity.
  rewrite M2, M3, <- Config_load_ok. split_and!.
  - split; [destruct (Config_load path); [now intros [= ->] | discriminate] | now intros ->].
  - split; destruct (Config_load path) as [c' | e]; [eauto | discriminate | done | intros [? [=]]].
  - intros E hip hprefix now. apply initial_exists. destruct (Config_load path) as [c' | e] eqn:L; [| discriminate].
    cbn in E. injection E as ->. now apply Config_load_ok in L as (raw & _ & _ & _ & V).
Qed.
End Startup.

(** ** Instances *)

(** A file system with one file, and a parser that knows it. *)
Definition sample_path : list Z := text "gate.json".
Definition sample_read (path : list Z) : option (list Z) := if bool_decide (path = sample_path) then Some [123; 125] else None.
Definition sample_parse (raw : list Z) : option (Config Json Cidr) := if bool_decide (raw = [123; 125]) then Some sample_config else None.

Lemma startup_exact_witness :
  main sample_read sample_parse [text "xddp-gate"; sample_path] = Ok (Running sample_config) /\
  main sample_read sample_parse [text "xddp-gate"; sample_path; text "--check"] = Ok ConfigurationValid.
Proof.
  destruct (startup_exact sample_read sample_parse (text "xddp-gate") sample_path sample_config ltac:(vm_compute; discriminate))
    as (A & B & _).
  assert (R : main sample_read sample_parse [text "xddp-gate"; sample_path] = Ok (Running sample_config)).
  { apply A. exists [123; 125]. split_and!; vm_compute; (reflexivity || discriminate). }
  split; [exact R |]. apply B. exists sample_config. exact R.
Defined.
