(* ===== verification/GateWitness.v ===== *)
(** * Runs of the handler

    A login, a status session and a refused login of the sample configuration, driven by fixed
    answers of the services, and the instances of the handler's properties on them. *)
From S2P Require Import Prelude Machine Float64 Metrics Net Config Limiter LimiterSystem Samples.
From S2P Require Import Wire Protocol FrameIO Proxy Backend Cache Validate Task Gate GateResources GateSafety GateSystem.
From stdpp Require Import base option list gmap relations.
From Stdlib Require Import ZArith Lia.
Local Open Scope Z_scope.

(** ** Driving a program *)

Fixpoint drive {A : Type} (answer : forall e, Ans e) (p : Prog A) : list Obs * A :=
  match p with
  | Ret a => ([], a)
  | Act e k => let '(tr, a) := drive answer (k (answer e)) in (obs e (answer e) :: tr, a)
  end.

Lemma drive_runs {A : Type} (answer : forall e, Ans e) (p : Prog A) :
  runs p (fst (drive answer p)) (snd (drive answer p)).
Proof.
  induction p as [a | e k IH]; [done |]. cbn [drive]. destruct (drive answer (k (answer e))) as [tr a] eqn:E.
  cbn [fst snd]. exists (answer e), tr. split; [done |]. specialize (IH (answer e)). now rewrite E in IH.
Qed.

(** A prefix of a run. *)
Lemma drive_starts {A : Type} (answer : forall e, Ans e) (p : Prog A) (tr : list Obs) (e : Eff) (x : Ans e) (n : nat) :
  take n (fst (drive answer p)) = tr ++ [obs e x] -> starts p (tr ++ [obs e x]).
Proof.
  intros E. rewrite <- E. apply (starts_app _ _ (drop n (fst (drive answer p)))). rewrite take_drop.
  eapply runs_starts, drive_runs.
Qed.

(** ** The services of the samples *)

(** A frame around a body shorter than 128 bytes. *)
Definition short_frame (body : list Z) : Frame := mkFrame (Z.of_nat (length body) :: body) 1.

(** A handshake of version 765 for the allowed host, with next state [st]. *)
Definition hello (st : Z) : Frame :=
  short_frame (put_varint (len_as_i32 sample_host) (put_varint 765 [0]) ++ sample_host ++ to_be_bytes 25565 ++ [st]).
Definition login_start : Frame := short_frame sample_login.
Definition ask_status : Frame := short_frame [0].
Definition ask_ping : Frame := short_frame [1; 1; 2; 3; 4; 5; 6; 7; 8].

(** A client that wants [st]; [grant] answers the login rate event. Frames are told apart by the
    byte budget the handler asks with. *)
Definition sample_answer (st : Z) (grant : bool) (e : Eff) : Ans e :=
  match e with
  | Now => 1000
  | SetNodelay | BackendNodelay => true
  | LocalAddr => Some sample_server
  | ReadProxy _ _ => Some (Ok (sample_client, sample_server))
  | ReadFrame max budget _ _ _ =>
      Some (Ok (if budget =? 32768 then hello st
                else if st =? 2 then login_start else if max =? 5 then ask_status else ask_ping), budget - 1)
  | ClientWrite _ _ => Some Wrote
  | AskPolicy _ => (mkPolicy 0 false false, false)
  | AcceptTicket _ _ => Some ticket1
  | RateEvent _ Login _ => grant
  | RateEvent _ _ _ => true
  | EnterStatus t => (true, set_ticket_status t true)
  | TryAcquire _ => true
  | DialAcquire => true
  | DialEnter _ => Some (mkAttempt 0 false)
  | Connect | BackendWrite _ | RelayCopy => Some true
  | BackendLocalAddr => Some sample_server
  | BackendRead _ _ _ _ _ => None
  | CacheGet v => Prepared_render sample_prepared v
  | AdmitIp _ | AdmitPrefix _ | DropIp _ _ | DropPrefix _ _ | Release _ | MetricInc _ | MetricAdd _ _
  | GaugeUp _ | GaugeDown _ | DialFinish _ _ _ | DialRelease
  | CacheStore _ _ => tt
  end.

Definition sample_task : Prog unit := connection sample_config sample_peer.
Definition login_run : list Obs := fst (drive (sample_answer 2 true) sample_task).
Definition status_run : list Obs := fst (drive (sample_answer 1 true) sample_task).
Definition refused_run : list Obs := fst (drive (sample_answer 2 false) sample_task).

(** ** Instances *)

Lemma connection_balanced_witness : runs sample_task login_run tt /\ owed (Permit Sockets) login_run = 0.
Proof.
  assert (R : runs sample_task login_run tt) by (destruct (snd (drive (sample_answer 2 true) sample_task)) eqn:E;
    exact (drive_runs (sample_answer 2 true) sample_task)).
  split; [exact R |]. exact (proj1 (connection_balanced sample_config sample_peer login_run (Permit Sockets)) R).
Defined.

Lemma backend_only_when_cleared_witness :
  exists peer dst hf lf, cleared sample_config sample_peer (rev (take 28 login_run)) peer dst hf lf.
Proof.
  apply (backend_only_when_cleared sample_config sample_peer (take 28 login_run) (Some true)).
  apply (drive_starts (sample_answer 2 true) sample_task _ Connect (Some true) 29). vm_compute. reflexivity.
Defined.

Lemma backend_replay_exact_witness :
  exists peer dst hf lf, cleared sample_config sample_peer (rev (take 32 login_run)) peer dst hf lf /\
    replayed sample_config peer dst hf lf (sent (rev (take 32 login_run)) ++ wire login_start).
Proof.
  apply (backend_replay_exact sample_config sample_peer (take 32 login_run) (wire login_start) (Some true)).
  apply (drive_starts (sample_answer 2 true) sample_task _ (BackendWrite (wire login_start)) (Some true) 33).
  vm_compute. reflexivity.
Defined.

Lemma client_replies_exact_witness :
  (exists f v, received (rev (take 23 status_run)) f /\ status_request (Frame_body f) = Ok tt /\
     In (obs (CacheGet v) (Prepared_render sample_prepared 765)) (take 23 status_run)) \/
  (exists f, received (rev (take 23 status_run)) f /\ ping (Frame_body f) = Ok tt /\
     Prepared_render sample_prepared 765 = wire f).
Proof.
  apply (client_replies_exact sample_config sample_peer (take 23 status_run) (Prepared_render sample_prepared 765)
    5000000000 (Some Wrote)).
  apply (drive_starts (sample_answer 1 true) sample_task _
    (ClientWrite (Prepared_render sample_prepared 765) 5000000000) (Some Wrote) 24).
  vm_compute. reflexivity.
Defined.

(** The ticket of the refused login. *)
Definition refused_ticket : Ticket := set_ticket_rejected (set_handshake ticket1).

Lemma turned_away_not_churn_witness : existsb refusal (take 21 refused_run) = true /\ ticket_churn refused_ticket = false.
Proof.
  assert (E : existsb refusal (take 21 refused_run) = true) by (vm_compute; reflexivity).
  split; [exact E |].
  apply (turned_away_not_churn sample_config sample_peer (take 21 refused_run) refused_ticket 1000 tt); [| exact E].
  apply (drive_starts (sample_answer 2 false) sample_task _ (DropIp refused_ticket 1000) tt 22).
  vm_compute. reflexivity.
Defined.

(** A gate that has just accepted one connection. *)
Definition gate0 : Sys := mkSys world0 (pool sample_config) ∅.
Definition gate1 : Sys := mkSys world0 (pool sample_config) (<[0%nat := mkTask sample_task nothing false]> ∅).

Lemma gate1_reachable : sys_reachable sample_config sample_powf gate1.
Proof.
  exists gate0. split.
  - split; [| done]. now exists sample_hash, sample_hash, 0.
  - eapply rtc_l; [| apply rtc_refl]. apply (sys_connection sample_config sample_powf gate0 0 sample_peer). reflexivity.
Qed.

Lemma sample_config_valid : validate sample_config = Ok tt.
Proof. vm_compute. reflexivity. Qed.

Lemma gate_refines_limiter_witness : reachable sample_powf 10000 sample_limits (y_world gate1).
Proof.
  exact (gate_refines_limiter sample_config sample_powf sample_limits_typed sample_config_valid gate1 gate1_reachable).
Defined.

Lemma gate_permits_conserved_witness : y_free gate1 Sockets + held_permits Sockets (y_tasks gate1) = 10000.
Proof.
  exact (proj1 (gate_permits_conserved sample_config sample_powf sample_limits_typed sample_config_valid gate1 Sockets
    gate1_reachable)).
Defined.

Lemma gate_socket_headroom_witness : y_free gate1 Prelogin + y_free gate1 AdmittedSlots + y_free gate1 BackendSlots + 1 <=
  y_free gate1 Sockets + cnt uncovered (y_tasks gate1).
Proof.
  exact (gate_socket_headroom sample_config sample_powf sample_limits_typed sample_config_valid gate1 gate1_reachable).
Defined.
