(* ===== verification/WholeWitness.v ===== *)
(** * Runs of the whole gate

    A status session and two logins executed by the interpreter of [GateRun.v] on the sample
    configuration, and the instances of the whole gate's properties on the states they reach. *)
From S2P Require Import Prelude Machine Float64 Metrics Net Config Limiter LimiterSystem Samples.
From S2P Require Import Wire Protocol FrameIO Proxy Backend Runtime Cache Validate Task Gate GateResources GateErrors GateSystem.
From S2P Require Import GateServices GateCompose GateWhole GateRun GateWitness Process.
From stdpp Require Import base option list gmap relations.
From Stdlib Require Import ZArith Lia.
Local Open Scope Z_scope.

(** ** A gate and its feed *)

(** A one-byte document is a generation of the policy that observes. *)
Definition byte_feed (b : list Z) : option (Runtime.Wire Cidr) :=
  match b with
  | [g] => if (0 <=? g) && (g <? 256) then Some (mkWire g 100 2 true [] []) else None
  | _ => None
  end.

Lemma byte_feed_typed (b : list Z) (w : Runtime.Wire Cidr) : byte_feed b = Some w -> wire_typed w.
Proof.
  destruct b as [| g [| ? ?]]; try discriminate. unfold byte_feed. destruct (_ && _) eqn:E; [| discriminate]. intros [= <-].
  breflect. split; cbn; unfold is_u64; lia.
Qed.

Definition sample_cached : StatusCache :=
  Eval vm_compute in default (mkStatusCache None (mkPrepared [] None) 0) (StatusCache_new sample_config).

Definition whole0 : Whole Cidr :=
  mkWhole gate0 (mkServices (Protection_new (backend_protection sample_config) (l_backend (limits sample_config) - 1) Metrics_new 0) 0
    (Runtime_new (match runtime_file sample_config with [] => c_observe sample_config | _ => true end)) sample_cached)
    0 SweepIp true.

Abbreviation sample_reachable := (whole_reachable sample_config sample_powf byte_feed).

Lemma whole0_initial : whole_initial sample_config whole0.
Proof.
  exists sample_cached, 0. split_and!; try (vm_compute; reflexivity). split; [| now split].
  now exists sample_hash, sample_hash, 0.
Qed.

Lemma whole0_reachable : sample_reachable whole0.
Proof. exists whole0. split; [apply whole0_initial | apply rtc_refl]. Qed.

(** A connection in the free place [tid]. *)
Definition arrive (g : Whole Cidr) (tid : nat) : Whole Cidr := spawn g tid (mkTask sample_task nothing false).

Lemma arrive_reachable (g : Whole Cidr) (tid : nat) :
  g_open g = true -> y_tasks (g_sys g) !! tid = None -> sample_reachable g -> sample_reachable (arrive g tid).
Proof.
  intros O N (g0 & I & R). exists g0. split; [done |]. eapply rtc_r; [exact R |]. now apply whole_connection.
Qed.

Abbreviation run := (run_task sample_config sample_powf 1000 sample_server true).

(** The header of a trusted proxy. *)
Definition forwarded : list Z := match proxy_header sample_client sample_server with Ok h => h | Err _ => [] end.

Definition status_bytes : list (list Z) := forwarded :: map FrameIO.wire [hello 1; ask_status; ask_ping].
Definition login_bytes : list (list Z) := forwarded :: map FrameIO.wire [hello 2; login_start].


(** The status response is about to be sent; a login dials the backend; a login has come and gone. *)
Definition answering : Whole Cidr := run 23 (arrive whole0 0) 0 status_bytes.
Definition dialling : Whole Cidr := run 26 (arrive whole0 0) 0 login_bytes.
Definition finished : Whole Cidr := run 100 (arrive whole0 0) 0 login_bytes.

Lemma arrived_reachable : sample_reachable (arrive whole0 0).
Proof. apply arrive_reachable; [reflexivity | reflexivity | apply whole0_reachable]. Qed.

Lemma answering_reachable : sample_reachable answering.
Proof. apply run_task_reachable, arrived_reachable. Qed.
Lemma dialling_reachable : sample_reachable dialling.
Proof. apply run_task_reachable, arrived_reachable. Qed.

(** What a complete login and a complete status session have counted: a PROXY identity, a handshake,
    a login or a status request, two new identities, one backend dial, and no error. *)
Example login_counts :
  map (Metrics_get (registry (y_world (g_sys finished)))) [0; 1; 2; 3; 4; 7; 28; 29; 30; 31; 32; 33; 52]%nat =
  [1; 0; 0; 0; 1; 1; 1; 1; 0; 1; 1; 1; 1].
Proof. vm_compute. reflexivity. Qed.

Example status_counts :
  map (Metrics_get (registry (y_world (g_sys (run 100 (arrive whole0 0) 0 status_bytes))))) [0; 1; 2; 4; 6; 24; 36; 52]%nat =
  [1; 0; 0; 1; 1; 1; 0; 1].
Proof. vm_compute. reflexivity. Qed.

(** ** Instances *)

Lemma gate_refines_components_witness :
  breachable (backend_protection sample_config) (l_backend (limits sample_config) - 1) (breaker_world dialling).
Proof.
  exact (proj2 (proj2 (gate_refines_components sample_config sample_powf byte_feed sample_limits_typed sample_config_valid byte_feed_typed
    dialling dialling_reachable))).
Defined.

Lemma sample_connecting : 0 <= max_connecting (backend_protection sample_config).
Proof. vm_compute. discriminate. Qed.

(** One dial is out. *)
Lemma gate_dial_safety_witness :
  size (dials_of (y_tasks (g_sys dialling))) = 1%nat /\
  p_slots (s_breaker (g_services dialling)) + Z.of_nat (size (dials_of (y_tasks (g_sys dialling)))) =
    Protection_slots (backend_protection sample_config) (l_backend (limits sample_config) - 1).
Proof.
  split; [vm_compute; reflexivity |].
  exact (proj1 (proj2 (gate_dial_safety sample_config sample_powf byte_feed sample_limits_typed sample_connecting sample_config_valid
    byte_feed_typed dialling dialling_reachable))).
Defined.

Lemma gate_registry_typed_witness : metrics_typed (registry (y_world (g_sys dialling))).
Proof.
  exact (proj1 (gate_registry_typed sample_config sample_powf byte_feed sample_limits_typed sample_config_valid
    byte_feed_typed dialling dialling_reachable)).
Defined.

(** The task of [g] at [tid] has a next call. *)
Definition calling (g : Whole Cidr) (tid : nat) : bool :=
  match y_tasks (g_sys g) !! tid with Some (mkTask (Act _ _) _ _) => true | _ => false end.

Lemma gate_progress_witness :
  exists tk e k, y_tasks (g_sys dialling) !! 0%nat = Some tk /\ t_prog tk = Act e k /\ answered sample_config sample_powf dialling 0 e.
Proof.
  assert (C : calling dialling 0 = true) by (vm_compute; reflexivity). unfold calling in C.
  destruct (y_tasks (g_sys dialling) !! 0%nat) as [[[a | e k] h r] |] eqn:T; try discriminate C.
  exists (mkTask (Act e k) h r), e, k. split; [done |]. split; [done |].
  exact (gate_progress sample_config sample_powf byte_feed sample_limits_typed sample_config_valid byte_feed_typed
    dialling 0 (mkTask (Act e k) h r) e k dialling_reachable T eq_refl).
Defined.

Lemma gate_replies_bounded_witness :
  next_write answering 0 = Some [4; 0; 2; 123; 125] /\ Z.of_nat (length [4; 0; 2; 123; 125]) <= max_response_bytes (cache sample_config).
Proof.
  assert (C : next_write answering 0 = Some [4; 0; 2; 123; 125]) by (vm_compute; reflexivity). split; [exact C |].
  unfold next_write in C. destruct (y_tasks (g_sys answering) !! 0%nat) as [[[a | e k] h r] |] eqn:T; try discriminate C.
  destruct e as [| | | | | bs limit | | | | | | | | | | | | | | | | | | | | | | | | | |]; try discriminate C. injection C as ->.
  exact (gate_replies_bounded sample_config sample_powf byte_feed sample_limits_typed sample_config_valid byte_feed_typed
    answering 0 (mkTask (Act (ClientWrite _ limit) k) h r) _ limit k answering_reachable T eq_refl).
Defined.

Lemma no_tasks_no_step (g g' : Whole Cidr) : size (y_tasks (g_sys g)) = 0%nat -> ~ task_step sample_config sample_powf g g'.
Proof.
  intros E S. apply map_size_empty_inv in E. destruct S as [tid tk e k x w free s m T | tid tk a T]; rewrite E in T;
    now rewrite lookup_empty in T.
Qed.

Lemma gate_drains_witness : idle sample_config finished.
Proof.
  refine (proj1 (proj2 (gate_drains sample_config sample_powf byte_feed sample_limits_typed sample_connecting sample_config_valid
    byte_feed_typed (arrive whole0 0) arrived_reachable)) finished _ _).
  - apply run_task_steps.
  - intros g'. apply no_tasks_no_step. vm_compute. reflexivity.
Defined.

(** A client whose login start is too slow. *)
Definition slow_answer (e : Eff) : Ans e :=
  match e return Ans e with
  | ReadFrame max budget d p q => if budget =? 32768 then sample_answer 2 true (ReadFrame max budget d p q) else Some (Err Slow, 0)
  | e => sample_answer 2 true e
  end.
Definition slow_run : list Obs := fst (drive slow_answer sample_task).

Lemma connection_errors_counted_witness : runs sample_task slow_run tt /\ error_incs slow_run = [12%nat].
Proof.
  assert (R : runs sample_task slow_run tt) by (destruct (snd (drive slow_answer sample_task)) eqn:E;
    exact (drive_runs slow_answer sample_task)).
  split; [exact R |]. assert (F : existsb (fun o => match failure o with [Slow] => true | _ => false end) slow_run = true)
    by (vm_compute; reflexivity).
  apply existsb_exists in F as (o & Ho & F).
  unfold sample_task in R. apply (proj2 (connection_errors_counted sample_config sample_peer slow_run R) o Slow Ho).
  destruct (failure o) as [| [] [| ? ?]]; try discriminate F. now left.
Defined.

(** A connection has just arrived when the signal does, and is still there when the time is over. *)
Definition sample_process (now : Instant) : Process :=
  mkProcess Serving (arrive whole0 0) Endpoint_new now None [].
Definition late_process : Process :=
  set_now (signalled sample_config (sample_process 7)) (7 + from_secs (shutdown_seconds (timeouts sample_config))).

Lemma late_process_reachable : process_reachable sample_config sample_powf byte_feed late_process.
Proof.
  exists (mkProcess Serving whole0 Endpoint_new 7 None []). split; [split_and!; try reflexivity; apply whole0_initial |].
  eapply rtc_l; [| eapply rtc_l; [apply (pr_signal sample_config sample_powf byte_feed (sample_process 7)); reflexivity |]].
  - apply (pr_around sample_config sample_powf byte_feed (mkProcess Serving whole0 Endpoint_new 7 None []) (arrive whole0 0)); [discriminate |].
    split_and!; [now apply whole_connection | reflexivity |]. intros i tk T.
    assert (T' : (∅ : gmap nat Task) !! i = Some tk) by exact T. rewrite lookup_empty in T'. discriminate.
  - apply rtc_once, pr_time. vm_compute. discriminate.
Qed.

(** It can be left to finish; and by its own steps alone it ends. *)
Lemma process_stops_witness :
  (exists p', rtc (process_step sample_config sample_powf byte_feed) late_process p' /\ p_phase p' = Stopped /\ p_cuts p' = []) /\
  Acc (fun a b => own_step sample_config sample_powf b a) late_process.
Proof.
  destruct (process_stops sample_config sample_powf byte_feed sample_limits_typed sample_connecting sample_config_valid
    byte_feed_typed late_process late_process_reachable) as (_ & _ & _ & _ & D & O).
  split.
  - destruct (D (7 + from_secs (shutdown_seconds (timeouts sample_config))) eq_refl) as (p' & R & S & C & _). exists p'. now split_and!.
  - apply (O 7); [discriminate | reflexivity | vm_compute; discriminate].
Defined.
