(* ===== verification/XdpFrame.v ===== *)
(** * The frames the XDP filter parses

    A declared layout of Ethernet frames, with up to two VLAN tags, that carry IPv4 or IPv6; the parser
    of [xdp/parse.h] accepts exactly these frames, with the fields they declare. *)
From S2P Require Import Prelude Machine XdpParse.
From stdpp Require Import base option list.
From Stdlib Require Import ZArith Lia.
Local Open Scope Z_scope.

(** ** Bytes at an offset *)

Lemma frame_len_app (a b : list Z) : frame_len (a ++ b) = frame_len a + frame_len b.
Proof. unfold frame_len. rewrite length_app. lia. Qed.

Lemma load_app (a b : list Z) (k : Z) : 0 <= k -> load (a ++ b) (frame_len a + k) = b !! Z.to_nat k.
Proof.
  intros H. unfold load, frame_len. destruct (Z.ltb_spec (Z.of_nat (length a) + k) 0); [lia |].
  rewrite lookup_app_r by lia. f_equal. lia.
Qed.

Lemma be16_app (a b : list Z) (k : Z) :
  0 <= k -> be16 (a ++ b) (frame_len a + k) =
  (hi ← b !! Z.to_nat k; lo ← b !! S (Z.to_nat k); Some (from_be_bytes hi lo)).
Proof.
  intros H. unfold be16. rewrite load_app by done. destruct (b !! Z.to_nat k); [| done]. cbn [mbind option_bind].
  replace (frame_len a + k + 1) with (frame_len a + (k + 1)) by lia. rewrite load_app by lia.
  now replace (Z.to_nat (k + 1)) with (S (Z.to_nat k)) by lia.
Qed.

Lemma memcpy_app (a b : list Z) (k : Z) (n : nat) :
  0 <= k -> k + Z.of_nat n <= frame_len b -> memcpy (a ++ b) (frame_len a + k) n = Some (take n (drop (Z.to_nat k) b)).
Proof.
  intros H1 H2. rewrite memcpy_some by (rewrite ?frame_len_app; unfold frame_len in *; lia).
  f_equal. f_equal. unfold frame_len. rewrite drop_app_ge by lia. f_equal. lia.
Qed.

Lemma to_from_be_bytes (h l : Z) : is_u8 h -> is_u8 l -> to_be_bytes (from_be_bytes h l) = [h; l].
Proof.
  intros Hh Hl. rewrite to_be_bytes_val, from_be_bytes_val by done. unfold is_u8 in *.
  f_equal; [| f_equal].
  - rewrite Z.div_add_l by lia. rewrite Z.div_small by lia. lia.
  - rewrite Z.add_comm, Z.mod_add by lia. apply Z.mod_small. lia.
Qed.

Lemma from_to_be_bytes (v : Z) : is_u16 v -> from_be_bytes (v / 256) (v mod 256) = v.
Proof.
  intros H. pose proof (be_bytes_roundtrip v H) as E. pose proof (to_be_bytes_val v) as T. unfold to_be_bytes in T.
  injection T as T1 T2. now rewrite T1, T2 in E.
Qed.

Lemma from_be_bytes_u16 (h l : Z) : is_u8 h -> is_u8 l -> is_u16 (from_be_bytes h l).
Proof. intros Hh Hl. rewrite from_be_bytes_val by done. unfold is_u8, is_u16 in *. lia. Qed.

(** ** Layers *)

(** A VLAN tag: its TPID and its control field. *)
Definition tag_bytes (t : Z * Z) : list Z := to_be_bytes (fst t) ++ to_be_bytes (snd t).
Definition tag_wf (t : Z * Z) : Prop := (fst t = 0x8100 \/ fst t = 0x88a8) /\ is_u16 (snd t).

(** The Ethernet header: addresses, tags and the type of the payload. *)
Definition ether (macs : list Z) (tags : list (Z * Z)) (type : Z) : list Z := macs ++ flat_map tag_bytes tags ++ to_be_bytes type.
Definition ether_wf (macs : list Z) (tags : list (Z * Z)) : Prop :=
  length macs = 12%nat /\ (length tags <= 2)%nat /\ Forall tag_wf tags.

(** An IPv4 datagram; the total length is that of header, options and data. *)
Record Ipv4 : Type := mkIpv4 {
  i4_ihl : Z; i4_tos : Z; i4_id : Z; i4_frag : Z; i4_ttl : Z; i4_proto : Z; i4_csum : Z;
  i4_src : list Z; i4_dst : list Z; i4_options : list Z; i4_data : list Z }.
Definition i4_len (h : Ipv4) : Z := i4_ihl h * 4 + frame_len (i4_data h).
Definition ipv4_bytes (h : Ipv4) : list Z :=
  [64 + i4_ihl h; i4_tos h] ++ to_be_bytes (i4_len h) ++ to_be_bytes (i4_id h) ++ to_be_bytes (i4_frag h) ++
  [i4_ttl h; i4_proto h] ++ to_be_bytes (i4_csum h) ++ i4_src h ++ i4_dst h ++ i4_options h ++ i4_data h.
Record ipv4_wf (h : Ipv4) : Prop := {
  w4_ihl : 5 <= i4_ihl h <= 15; w4_len : is_u16 (i4_len h);
  w4_id : is_u16 (i4_id h); w4_frag : is_u16 (i4_frag h); w4_csum : is_u16 (i4_csum h);
  w4_src : length (i4_src h) = 4%nat; w4_dst : length (i4_dst h) = 4%nat;
  w4_options : frame_len (i4_options h) = i4_ihl h * 4 - 20 }.
(** The packet the filter sees in a datagram at offset [off]. *)
Definition ipv4_packet (off : Z) (h : Ipv4) : packet :=
  mk_packet (key_of 64 4 (i4_src h)) (key_of 64 4 (i4_dst h)) (off + i4_ihl h * 4) (off + i4_len h) 0 (i4_proto h) 0
    (negb (Z.land (i4_frag h) 0x3fff =? 0)) false.

(** An IPv6 datagram. *)
Record Ipv6 : Type := mkIpv6 {
  i6_class : Z; i6_flow : list Z; i6_next : Z; i6_hop : Z; i6_src : list Z; i6_dst : list Z; i6_data : list Z }.
Definition ipv6_bytes (h : Ipv6) : list Z :=
  [96 + i6_class h] ++ i6_flow h ++ to_be_bytes (frame_len (i6_data h)) ++ [i6_next h; i6_hop h] ++
  i6_src h ++ i6_dst h ++ i6_data h.
Record ipv6_wf (h : Ipv6) : Prop := {
  w6_class : 0 <= i6_class h <= 15; w6_flow : length (i6_flow h) = 3%nat; w6_len : is_u16 (frame_len (i6_data h));
  w6_src : length (i6_src h) = 16%nat; w6_dst : length (i6_dst h) = 16%nat }.
Definition ipv6_packet (off : Z) (h : Ipv6) : packet :=
  mk_packet (key_of 160 6 (i6_src h)) (key_of 160 6 (i6_dst h)) (off + 40) (off + 40 + frame_len (i6_data h)) 0 (i6_next h) 0
    false ((frame_len (i6_data h) =? 0) || negb (bool_decide (i6_next h ∈ [6; 17; 58]))).

(** ** The Ethernet header *)

Lemma to_be_inj (a b : Z) (r r' : list Z) :
  is_u16 a -> is_u16 b -> to_be_bytes a ++ r = to_be_bytes b ++ r' -> a = b /\ r = r'.
Proof.
  intros Ha Hb E. rewrite !to_be_bytes_val in E. injection E as E1 E2 ->. split; [| done].
  rewrite <- (from_to_be_bytes a Ha), E1, E2. now apply from_to_be_bytes.
Qed.

Lemma to_be_u8 (v : Z) : is_u16 v -> Forall is_u8 (to_be_bytes v).
Proof.
  intros H. rewrite to_be_bytes_val. unfold is_u16, is_u8 in *. pose proof (Z.mod_pos_bound v 256).
  repeat constructor; try lia; [apply Z.div_pos; lia | apply Z.div_lt_upper_bound; lia].
Qed.

Lemma to_be_len (v : Z) : frame_len (to_be_bytes v) = 2.
Proof. reflexivity. Qed.

Lemma be16_here (pre rest : list Z) (v : Z) : is_u16 v -> be16 (pre ++ to_be_bytes v ++ rest) (frame_len pre) = Some v.
Proof.
  intros H. rewrite <- (Z.add_0_r (frame_len pre)), be16_app by lia. rewrite to_be_bytes_val.
  change (Z.to_nat 0) with 0%nat. cbn -[Z.div Z.modulo from_be_bytes]. now rewrite from_to_be_bytes.
Qed.

Lemma vlan_u16 (type : Z) : is_vlan type = true -> is_u16 type.
Proof. unfold is_vlan, is_u16. intros V. apply orb_true_iff in V as [V | V]; apply Z.eqb_eq in V; lia. Qed.

Lemma vlan_tpid (type : Z) : is_vlan type = true <-> type = 0x8100 \/ type = 0x88a8.
Proof. unfold is_vlan. rewrite orb_true_iff, !Z.eqb_eq. reflexivity. Qed.

(** The first type field of a tagged frame. *)
Definition first_type (tags : list (Z * Z)) (type : Z) : Z := match tags with [] => type | t :: _ => fst t end.

Lemma first_type_head (tags : list (Z * Z)) (type : Z) (rest : list Z) :
  Forall tag_wf tags -> is_u16 type ->
  exists r, flat_map tag_bytes tags ++ to_be_bytes type ++ rest = to_be_bytes (first_type tags type) ++ r /\
    is_u16 (first_type tags type).
Proof.
  intros W T. destruct tags as [| [tp tci] tags]; cbn [flat_map first_type fst]; [now exists rest |].
  apply Forall_cons in W as [[V%vlan_tpid _] _]. unfold tag_bytes at 1. cbn [fst snd] in *. rewrite <- !app_assoc. eauto using vlan_u16.
Qed.

Lemma skip_vlan_complete (fuel : nat) (tags : list (Z * Z)) (type : Z) (pre rest : list Z) :
  (length tags <= fuel)%nat -> Forall tag_wf tags -> is_u16 type -> ((length tags < fuel)%nat -> is_vlan type = false) ->
  skip_vlan fuel (pre ++ flat_map tag_bytes tags ++ to_be_bytes type ++ rest) (first_type tags type) (frame_len pre + 2) =
  Some (Some (type, frame_len pre + 2 + 4 * Z.of_nat (length tags))).
Proof.
  revert tags pre. induction fuel as [| fuel IH]; intros tags pre L W T N; cbn [skip_vlan].
  { destruct tags; [| cbn in L; lia]. cbn. now rewrite Z.add_0_r. }
  destruct tags as [| [tp tci] tags]; cbn [first_type fst].
  { rewrite N by (cbn; lia). cbn [negb length]. now rewrite Z.mul_0_r, Z.add_0_r. }
  apply Forall_cons in W as [[V C] W]. cbn [fst snd] in V, C. rewrite (proj2 (vlan_tpid tp) V). cbn [negb].
  set (d := pre ++ flat_map tag_bytes ((tp, tci) :: tags) ++ to_be_bytes type ++ rest).
  assert (E : d = (pre ++ to_be_bytes tp ++ to_be_bytes tci) ++ flat_map tag_bytes tags ++ to_be_bytes type ++ rest)
    by (unfold d; cbn [flat_map]; unfold tag_bytes at 1; cbn [fst snd]; now rewrite <- !app_assoc).
  cbn [length] in *.
  assert (P : frame_len (pre ++ to_be_bytes tp ++ to_be_bytes tci) = frame_len pre + 4)
    by (rewrite !frame_len_app, !to_be_len; lia).
  assert (G : (frame_len pre + 2 + 4 >? frame_len d) = false).
  { rewrite E, frame_len_app, P, !frame_len_app, to_be_len. rewrite Z.gtb_ltb. apply Z.ltb_ge. unfold frame_len. lia. }
  rewrite G. replace (frame_len pre + 2 + 2) with (frame_len (pre ++ to_be_bytes tp ++ to_be_bytes tci)) by lia.
  destruct (first_type_head tags type rest W T) as (r & Hr & U). rewrite E, Hr, (be16_here _ r _ U), <- Hr. cbn [mbind option_bind].
  replace (frame_len pre + 2 + 4) with (frame_len (pre ++ to_be_bytes tp ++ to_be_bytes tci) + 2) by lia.
  rewrite IH; auto; try lia; [| intros; apply N; lia]. do 3 f_equal. lia.
Qed.

Lemma split4 (l : list Z) : 4 <= frame_len l -> exists a b h k r, l = [a; b] ++ [h; k] ++ r.
Proof. intros H. destruct l as [| a [| b [| h [| k r]]]]; unfold frame_len in H; cbn in H; try lia. cbn. eauto 10. Qed.

Lemma skip_vlan_sound (fuel : nat) (pre rest : list Z) (type type' off' : Z) :
  Forall is_u8 rest -> is_u16 type ->
  skip_vlan fuel (pre ++ to_be_bytes type ++ rest) type (frame_len pre + 2) = Some (Some (type', off')) ->
  exists tags rest', (length tags <= fuel)%nat /\ Forall tag_wf tags /\ is_u16 type' /\
    ((length tags < fuel)%nat -> is_vlan type' = false) /\
    to_be_bytes type ++ rest = flat_map tag_bytes tags ++ to_be_bytes type' ++ rest' /\
    off' = frame_len pre + 2 + 4 * Z.of_nat (length tags).
Proof.
  revert pre rest type. induction fuel as [| fuel IH]; intros pre rest type B T; cbn [skip_vlan].
  { intros [= <- <-]. exists [], rest. cbn. split_and!; auto; lia. }
  destruct (is_vlan type) eqn:V; cbn [negb].
  2: { intros [= <- <-]. exists [], rest. cbn. split_and!; auto; lia. }
  rewrite !frame_len_app, to_be_len. destruct (_ >? _) eqn:G; [discriminate |]. breflect.
  destruct (split4 rest) as (a & b & h & l & r & ->); [lia |].
  rewrite !Forall_app, !Forall_cons in B. destruct B as ((Ba & Bb & _) & (Bh & Bl & _) & Br).
  rewrite <- (to_from_be_bytes a b), <- (to_from_be_bytes h l) by done.
  set (tci := from_be_bytes a b). set (ty := from_be_bytes h l).
  assert (Ut : is_u16 ty) by now apply from_be_bytes_u16.
  assert (E : pre ++ to_be_bytes type ++ to_be_bytes tci ++ to_be_bytes ty ++ r =
    (pre ++ to_be_bytes type ++ to_be_bytes tci) ++ to_be_bytes ty ++ r) by now rewrite <- !app_assoc.
  assert (P : frame_len (pre ++ to_be_bytes type ++ to_be_bytes tci) = frame_len pre + 4)
    by (rewrite !frame_len_app, !to_be_len; lia).
  rewrite E. replace (frame_len pre + 2 + 2) with (frame_len (pre ++ to_be_bytes type ++ to_be_bytes tci)) by lia.
  rewrite be16_here by done. cbn [mbind option_bind].
  replace (frame_len pre + 2 + 4) with (frame_len (pre ++ to_be_bytes type ++ to_be_bytes tci) + 2) by lia.
  intros S. apply IH in S as (tags & rest' & L & W & T' & N & Er & ->); [| done | done].
  exists ((type, tci) :: tags), rest'. cbn [length flat_map]. unfold tag_bytes at 1. cbn [fst snd].
  rewrite <- !app_assoc, Er. split_and!; auto; try lia.
  - constructor; [split; [now apply vlan_tpid | now apply from_be_bytes_u16] | done].
  - intros L2. apply N. lia.
Qed.

(** ** IPv4 *)

Lemma nibble_split (b k : Z) : is_u8 b -> Z.shiftr b 4 = k -> b = 16 * k + Z.land b 15 /\ 0 <= Z.land b 15 <= 15.
Proof.
  intros Hb <-. rewrite (Z.land_ones b 4 ltac:(lia) : Z.land b 15 = _), Z.shiftr_div_pow2 by lia.
  pose proof (Z.div_mod b (2 ^ 4) ltac:(lia)). pose proof (Z.mod_pos_bound b (2 ^ 4) ltac:(lia)). lia.
Qed.

Lemma nibble_join (k i : Z) : 0 <= i <= 15 -> Z.shiftr (16 * k + i) 4 = k /\ Z.land (16 * k + i) 15 = i.
Proof.
  intros Hi. rewrite (Z.land_ones _ 4 ltac:(lia) : Z.land (16 * k + i) 15 = _), Z.shiftr_div_pow2 by lia.
  change (2 ^ 4) with 16. split.
  - rewrite Z.mul_comm, Z.div_add_l by lia. rewrite Z.div_small; lia.
  - rewrite Z.add_comm, Z.mul_comm, Z.mod_add by lia. apply Z.mod_small. lia.
Qed.

(** The twenty bytes of the fixed header. *)
Lemma split20 (l : list Z) : 20 <= frame_len l -> exists b0 b1 b2 b3 b4 b5 b6 b7 b8 b9 b10 b11 s0 s1 s2 s3 d0 d1 d2 d3 r,
  l = [b0; b1; b2; b3; b4; b5; b6; b7; b8; b9; b10; b11; s0; s1; s2; s3; d0; d1; d2; d3] ++ r.
Proof.
  intros H. unfold frame_len in H.
  do 20 (destruct l as [| ? l]; [cbn in H; lia |]). repeat eexists.
Qed.

(** What [parse_ipv4] computes on a payload with a complete fixed header. *)
Lemma parse_ipv4_fields (pre r : list Z) (b0 b1 b2 b3 b4 b5 b6 b7 b8 b9 b10 b11 s0 s1 s2 s3 d0 d1 d2 d3 : Z) :
  let pl := [b0; b1; b2; b3; b4; b5; b6; b7; b8; b9; b10; b11; s0; s1; s2; s3; d0; d1; d2; d3] ++ r in
  let off := frame_len pre in
  let ihl := Z.land b0 15 * 4 in
  let len := from_be_bytes b2 b3 in
  let p := with_dst packet0 (key_of 64 4 [d0; d1; d2; d3]) in
  parse_ipv4 (pre ++ pl) off =
  if negb (Z.shiftr b0 4 =? 4) then Some (- R_MALFORMED_IPV4, packet0)
  else if (ihl <? 20) || (len <? ihl) || (off + ihl >? off + frame_len pl) || (off + len >? off + frame_len pl)
  then Some (- R_MALFORMED_IPV4, p)
  else Some (0, mk_packet (key_of 64 4 [s0; s1; s2; s3]) (dst p) (off + ihl) (off + len) 0 b9 0
                   (negb (Z.land (from_be_bytes b6 b7) 0x3fff =? 0)) false).
Proof.
  intros pl off ihl len p. unfold parse_ipv4. rewrite frame_len_app. fold off.
  assert (20 <= frame_len pl) by (unfold pl; rewrite frame_len_app; unfold frame_len; cbn [length]; lia).
  destruct (off + 20 >? off + frame_len pl) eqn:G; breflect; [lia |].
  pose proof (load_app pre pl 0 ltac:(lia)) as E0. rewrite Z.add_0_r in E0. unfold off. rewrite E0.
  rewrite !load_app, !be16_app, !memcpy_app by lia.
  unfold pl. cbn [Z.to_nat Pos.to_nat Pos.iter_op Nat.add app lookup list_lookup mbind option_bind take drop].
  reflexivity.
Qed.

Lemma take_frame_len (n : Z) (l : list Z) : 0 <= n <= frame_len l -> frame_len (take (Z.to_nat n) l) = n.
Proof. unfold frame_len. intros H. rewrite length_take. lia. Qed.
Lemma drop_frame_len (n : Z) (l : list Z) : 0 <= n <= frame_len l -> frame_len (drop (Z.to_nat n) l) = frame_len l - n.
Proof. unfold frame_len. intros H. rewrite length_drop. lia. Qed.

Lemma parse_ipv4_sound (pre pl : list Z) (p : packet) :
  Forall is_u8 pl -> parse_ipv4 (pre ++ pl) (frame_len pre) = Some (0, p) ->
  exists h pad, ipv4_wf h /\ pl = ipv4_bytes h ++ pad /\ p = ipv4_packet (frame_len pre) h.
Proof.
  intros B E. destruct (Z_le_gt_dec 20 (frame_len pl)) as [G | G].
  2: { unfold parse_ipv4 in E. rewrite frame_len_app in E. destruct (_ >? _) eqn:G2; [discriminate |]. breflect. lia. }
  destruct (split20 pl G) as (b0 & b1 & b2 & b3 & b4 & b5 & b6 & b7 & b8 & b9 & b10 & b11 & s0 & s1 & s2 & s3 & d0 & d1 & d2 & d3 & r & ->).
  rewrite parse_ipv4_fields in E. cbv zeta in E. rewrite !Forall_app, !Forall_cons in B.
  destruct B as ((B0 & B1 & B2 & B3 & B4 & B5 & B6 & B7 & B8 & B9 & B10 & B11 & _) & Br).
  destruct (negb _) eqn:V; [discriminate |]. destruct (_ || _) eqn:C; [discriminate |]. injection E as <-. breflect.
  rewrite frame_len_app in *. change (frame_len (_ :: _)) with 20 in *.
  destruct (nibble_split b0 4 B0) as [Hb0 Hi]; [done |]. set (ihl := Z.land b0 15) in *. set (len := from_be_bytes b2 b3) in *.
  assert (Ul : is_u16 len) by now apply from_be_bytes_u16.
  set (n := Z.to_nat (ihl * 4 - 20)). set (k := Z.to_nat (len - ihl * 4)).
  exists (mkIpv4 ihl b1 (from_be_bytes b4 b5) (from_be_bytes b6 b7) b8 b9 (from_be_bytes b10 b11)
    [s0; s1; s2; s3] [d0; d1; d2; d3] (take n r) (take k (drop n r))), (drop k (drop n r)).
  assert (L1 : frame_len (take n r) = ihl * 4 - 20) by (apply take_frame_len; lia).
  assert (L2 : frame_len (drop n r) = frame_len r - (ihl * 4 - 20)) by (apply drop_frame_len; lia).
  assert (L3 : frame_len (take k (drop n r)) = len - ihl * 4) by (apply take_frame_len; lia).
  assert (L : i4_len (mkIpv4 ihl b1 (from_be_bytes b4 b5) (from_be_bytes b6 b7) b8 b9 (from_be_bytes b10 b11)
    [s0; s1; s2; s3] [d0; d1; d2; d3] (take n r) (take k (drop n r))) = len) by (unfold i4_len; cbn [i4_ihl i4_data]; lia).
  split_and!.
  - split; rewrite ?L; cbn [i4_ihl i4_id i4_frag i4_csum i4_src i4_dst i4_options]; auto using from_be_bytes_u16; lia.
  - unfold ipv4_bytes. rewrite L. cbn [i4_ihl i4_tos i4_id i4_frag i4_ttl i4_proto i4_csum i4_src i4_dst i4_options i4_data].
    unfold len. rewrite !to_from_be_bytes by done. change (16 * 4) with 64 in Hb0. rewrite <- Hb0. cbn [app]. do 20 f_equal.
    now rewrite <- app_assoc, !take_drop.
  - unfold ipv4_packet. rewrite L. reflexivity.
Qed.

Lemma parse_ipv4_complete (pre pad : list Z) (h : Ipv4) :
  ipv4_wf h -> parse_ipv4 (pre ++ ipv4_bytes h ++ pad) (frame_len pre) = Some (0, ipv4_packet (frame_len pre) h).
Proof.
  intros [Wi Wl Wid Wf Wc Ws Wd Wo]. destruct h as [ihl tos id frag ttl pr cs sa da opts data].
  unfold ipv4_bytes, ipv4_packet.
  cbn [i4_ihl i4_tos i4_id i4_frag i4_ttl i4_proto i4_csum i4_src i4_dst i4_options i4_data] in *.
  destruct sa as [| s0 [| s1 [| s2 [| s3 [|]]]]]; try discriminate.
  destruct da as [| d0 [| d1 [| d2 [| d3 [|]]]]]; try discriminate.
  set (len := i4_len _) in *. assert (Hlen : len = ihl * 4 + frame_len data) by reflexivity. clearbody len.
  rewrite !to_be_bytes_val. cbn [app].
  pose proof (parse_ipv4_fields pre (opts ++ data ++ pad) (64 + ihl) tos (len / 256) (len mod 256) (id / 256) (id mod 256)
    (frag / 256) (frag mod 256) ttl pr (cs / 256) (cs mod 256) s0 s1 s2 s3 d0 d1 d2 d3) as F.
  cbv zeta in F. rewrite !from_to_be_bytes in F by done. cbn [app] in F.
  rewrite <- !app_assoc. cbn [app]. rewrite F. clear F.
  destruct (nibble_join 4 ihl ltac:(lia)) as [N1 N2]. change (16 * 4) with 64 in *. rewrite N1, N2.
  change (negb (4 =? 4)) with false. cbv iota.
  destruct (_ || _) eqn:C.
  { exfalso. unfold is_u16 in *. repeat (apply orb_true_iff in C as [C | C]); breflect; unfold frame_len in *;
      cbn [length] in *; rewrite ?length_app in *; lia. }
  reflexivity.
Qed.

(** ** IPv6 *)

Lemma split_at (n : nat) (l : list Z) : Z.of_nat n <= frame_len l -> exists a r, l = a ++ r /\ length a = n.
Proof. intros H. exists (take n l), (drop n l). rewrite take_drop, length_take. unfold frame_len in H. split; [done | lia]. Qed.

(** What [parse_ipv6] computes on a payload with a complete fixed header. *)
Lemma parse_ipv6_fields (pre fl sa da r : list Z) (b0 b4 b5 b6 b7 : Z) :
  length fl = 3%nat -> length sa = 16%nat -> length da = 16%nat ->
  let pl := [b0] ++ fl ++ [b4; b5; b6; b7] ++ sa ++ da ++ r in
  let off := frame_len pre in
  let len := from_be_bytes b4 b5 in
  let p := with_dst packet0 (key_of 160 6 da) in
  parse_ipv6 (pre ++ pl) off =
  if negb (Z.shiftr b0 4 =? 6) then Some (- R_OTHER, packet0)
  else if off + 40 + len >? off + frame_len pl then Some (- R_OTHER, p)
  else Some (0, mk_packet (key_of 160 6 sa) (dst p) (off + 40) (off + 40 + len) 0 b6 0 false
                   ((len =? 0) || (negb (b6 =? 6) && negb (b6 =? 17) && negb (b6 =? 58)))).
Proof.
  intros Lf Ls Ld pl off len p. unfold parse_ipv6. rewrite frame_len_app. fold off.
  assert (Hpl : frame_len pl = 40 + frame_len r) by (unfold pl, frame_len; rewrite !length_app, Lf, Ls, Ld; cbn [length]; lia).
  assert (0 <= frame_len r) by (unfold frame_len; lia).
  destruct (off + 40 >? off + frame_len pl) eqn:G; breflect; [lia |].
  pose proof (load_app pre pl 0 ltac:(lia)) as E0. rewrite Z.add_0_r in E0. unfold off. rewrite E0.
  rewrite !load_app, !be16_app, !memcpy_app by lia.
  destruct fl as [| f1 [| f2 [| f3 [|]]]]; try discriminate.
  assert (T1 : take 16 (drop (Z.to_nat 8) pl) = sa).
  { change (drop (Z.to_nat 8) pl) with (sa ++ da ++ r). now apply take_app_length'. }
  assert (T2 : take 16 (drop (Z.to_nat 24) pl) = da).
  { change (drop (Z.to_nat 24) pl) with (drop 16 (sa ++ da ++ r)). rewrite (drop_app_length' sa _ 16) by done.
    now apply take_app_length'. }
  rewrite T1, T2. clear T1 T2. unfold pl.
  cbn [Z.to_nat Pos.to_nat Pos.iter_op Nat.add app lookup list_lookup mbind option_bind]. reflexivity.
Qed.

Lemma parse_ipv6_sound (pre pl : list Z) (p : packet) :
  Forall is_u8 pl -> parse_ipv6 (pre ++ pl) (frame_len pre) = Some (0, p) ->
  exists h pad, ipv6_wf h /\ pl = ipv6_bytes h ++ pad /\ p = ipv6_packet (frame_len pre) h.
Proof.
  intros B E. destruct (Z_le_gt_dec 40 (frame_len pl)) as [G | G].
  2: { unfold parse_ipv6 in E. rewrite frame_len_app in E. destruct (_ >? _) eqn:G2; [discriminate |]. breflect. lia. }
  destruct (split_at 8 pl ltac:(lia)) as (hd & r & -> & Lh). rewrite frame_len_app in G. unfold frame_len in G. rewrite Lh in G.
  destruct hd as [| b0 [| f1 [| f2 [| f3 [| b4 [| b5 [| b6 [| b7 [|]]]]]]]]]; try discriminate.
  destruct (split_at 16 r ltac:(unfold frame_len; lia)) as (sa & r1 & -> & Ls). rewrite length_app in G.
  destruct (split_at 16 r1 ltac:(unfold frame_len; lia)) as (da & r2 & -> & Ld).
  pose proof (parse_ipv6_fields pre [f1; f2; f3] sa da r2 b0 b4 b5 b6 b7 eq_refl Ls Ld) as F. cbn [app] in F, E, B |- *.
  rewrite F in E. cbv zeta in E. clear F. rewrite !Forall_cons in B. destruct B as (B0 & _ & _ & _ & B4 & B5 & _ & _ & _).
  destruct (negb _) eqn:V; [discriminate |]. destruct (_ >? _) eqn:C; [discriminate |]. injection E as <-. breflect.
  destruct (nibble_split b0 6 B0) as [Hb0 Hi]; [done |].
  pose proof (from_be_bytes_u16 b4 b5 B4 B5) as Ul. set (len := from_be_bytes b4 b5) in *.
  assert (Hr2 : len <= frame_len r2).
  { unfold frame_len in *. cbn [length] in C. rewrite !length_app, Ls, Ld in C. lia. }
  set (n := Z.to_nat len). assert (L : frame_len (take n r2) = len) by (apply take_frame_len; unfold is_u16 in Ul; lia).
  exists (mkIpv6 (Z.land b0 15) [f1; f2; f3] b6 b7 sa da (take n r2)), (drop n r2). split_and!.
  - split; cbn [i6_class i6_flow i6_data i6_src i6_dst]; rewrite ?L; auto.
  - unfold ipv6_bytes. cbn [i6_class i6_flow i6_next i6_hop i6_data i6_src i6_dst]. rewrite L. unfold len.
    rewrite to_from_be_bytes by done. change (16 * 6) with 96 in Hb0. rewrite <- Hb0. cbn [app]. do 8 f_equal.
    rewrite <- !app_assoc. now rewrite take_drop.
  - unfold ipv6_packet. cbn [i6_next i6_src i6_dst i6_data]. rewrite L. f_equal. f_equal.
    destruct (Z.eqb_spec b6 6), (Z.eqb_spec b6 17), (Z.eqb_spec b6 58); subst; try reflexivity.
    rewrite bool_decide_eq_false_2; [done |]. rewrite !elem_of_cons, elem_of_nil. tauto.
Qed.

Lemma parse_ipv6_complete (pre pad : list Z) (h : Ipv6) :
  ipv6_wf h -> parse_ipv6 (pre ++ ipv6_bytes h ++ pad) (frame_len pre) = Some (0, ipv6_packet (frame_len pre) h).
Proof.
  intros [Wc Wf Wl Ws Wd]. destruct h as [cl fl nx hp sa da data]. unfold ipv6_bytes, ipv6_packet.
  cbn [i6_class i6_flow i6_next i6_hop i6_data i6_src i6_dst] in *. rewrite to_be_bytes_val. rewrite <- !app_assoc. cbn [app].
  pose proof (parse_ipv6_fields pre fl sa da (data ++ pad) (96 + cl) (frame_len data / 256) (frame_len data mod 256) nx hp Wf Ws Wd) as F.
  cbv zeta in F. rewrite !from_to_be_bytes in F by done. cbn [app] in F. rewrite F. clear F.
  destruct (nibble_join 6 cl Wc) as [N1 _]. change (16 * 6) with 96 in N1. rewrite N1.
  change (negb (6 =? 6)) with false. cbv iota. destruct (_ >? _) eqn:C.
  { exfalso. breflect. unfold frame_len in C. cbn [length] in C. rewrite !length_app in C. cbn [length] in C.
    rewrite !length_app, Wf, Ws, Wd in C. lia. }
  do 2 f_equal. unfold with_dst, packet0. cbn [dst]. f_equal.
  destruct (Z.eqb_spec nx 6), (Z.eqb_spec nx 17), (Z.eqb_spec nx 58); subst; try reflexivity.
  rewrite bool_decide_eq_false_2; [done |]. rewrite !elem_of_cons, elem_of_nil. tauto.
Qed.

(** ** Frames *)

(** A frame of the layout, and the packet the filter sees in it. *)
Definition ipv4_frame (d : list Z) (p : packet) : Prop :=
  exists macs tags h pad, ether_wf macs tags /\ ipv4_wf h /\ d = ether macs tags 0x0800 ++ ipv4_bytes h ++ pad /\
    p = ipv4_packet (14 + 4 * Z.of_nat (length tags)) h.
Definition ipv6_frame (d : list Z) (p : packet) : Prop :=
  exists macs tags h pad, ether_wf macs tags /\ ipv6_wf h /\ d = ether macs tags 0x86dd ++ ipv6_bytes h ++ pad /\
    p = ipv6_packet (14 + 4 * Z.of_nat (length tags)) h.

Lemma tags_len (tags : list (Z * Z)) : frame_len (flat_map tag_bytes tags) = 4 * Z.of_nat (length tags).
Proof.
  induction tags as [| t tags IH]; [reflexivity |]. cbn [flat_map length]. rewrite frame_len_app, IH.
  change (frame_len (tag_bytes t)) with 4. lia.
Qed.

Lemma ether_len (macs : list Z) (tags : list (Z * Z)) (type : Z) :
  length macs = 12%nat -> frame_len (ether macs tags type) = 14 + 4 * Z.of_nat (length tags).
Proof.
  intros H. unfold ether. rewrite !frame_len_app, tags_len, to_be_len. unfold frame_len. rewrite H. lia.
Qed.

(** The Ethernet header of a frame, when no tag is cut off. *)
Lemma parse_ether (macs : list Z) (tags : list (Z * Z)) (type : Z) (rest : list Z) :
  ether_wf macs tags -> is_u16 type -> is_vlan type = false ->
  parse_ip (ether macs tags type ++ rest) =
  if type =? 0x0800 then parse_ipv4 (ether macs tags type ++ rest) (frame_len (ether macs tags type))
  else if type =? 0x86dd then parse_ipv6 (ether macs tags type ++ rest) (frame_len (ether macs tags type))
  else Some (1, packet0).
Proof.
  intros (Lm & Lt & W) T V. unfold parse_ip.
  assert (Le : frame_len (ether macs tags type) = 14 + 4 * Z.of_nat (length tags)) by now apply ether_len.
  rewrite frame_len_app, Le. destruct (_ >? _) eqn:G; [exfalso; breflect; unfold frame_len in *; lia |].
  assert (M : frame_len macs = 12) by (unfold frame_len; lia).
  assert (D : ether macs tags type ++ rest = macs ++ flat_map tag_bytes tags ++ to_be_bytes type ++ rest)
    by (unfold ether; now rewrite <- !app_assoc).
  destruct (first_type_head tags type rest W T) as (r & Hr & U). rewrite D. rewrite <- M at 1. rewrite Hr, be16_here, <- Hr by done. cbn [mbind option_bind].
  replace 14 with (frame_len macs + 2) at 1 by lia. rewrite skip_vlan_complete by auto. cbn [mbind option_bind].
  now replace (frame_len macs + 2 + 4 * Z.of_nat (length tags)) with (14 + 4 * Z.of_nat (length tags)) by lia.
Qed.

(** The frames in which a destination was found. *)
Lemma parse_ip_frame (d : list Z) (r : Z) (p : packet) :
  Forall is_u8 d -> parse_ip d = Some (r, p) -> r = 0 \/ family (dst p) <> 0 ->
  exists macs tags type pl, ether_wf macs tags /\ d = ether macs tags type ++ pl /\ (type = 0x0800 \/ type = 0x86dd).
Proof.
  intros B E Rd. unfold parse_ip in E.
  destruct (14 >? frame_len d) eqn:G; [injection E as <- <-; destruct Rd as [Rd | Rd]; [discriminate | now destruct Rd] |]. breflect.
  destruct (split_at 12 d ltac:(lia)) as (macs & u & -> & Lm). rewrite frame_len_app in G.
  assert (M : frame_len macs = 12) by (unfold frame_len; lia).
  destruct (split_at 2 u ltac:(lia)) as (ty & rest & -> & Lt). destruct ty as [| h [| l [|]]]; try discriminate.
  rewrite !Forall_app, !Forall_cons in B. destruct B as (Bm & (Bh & Bl & _) & Br).
  rewrite <- (to_from_be_bytes h l) in E |- * by done.
  pose proof (from_be_bytes_u16 h l Bh Bl) as Ut. set (t := from_be_bytes h l) in *.
  rewrite <- M in E at 1. rewrite be16_here in E by done. cbn [mbind option_bind] in E.
  replace 14 with (frame_len macs + 2) in E by lia.
  destruct (skip_vlan 2 _ t _) as [[[type off] |] |] eqn:S;
    [| injection E as <- <-; destruct Rd as [Rd | Rd]; [discriminate | now destruct Rd] | discriminate]. cbn [mbind option_bind] in E.
  apply skip_vlan_sound in S as (tags & rest' & L & W & T' & N & Er & ->); [| done | done].
  exists macs, tags, type, rest'. split; [done |]. split; [unfold ether; now rewrite Er, <- !app_assoc |].
  destruct (Z.eqb_spec type 2048); [now left |]. destruct (Z.eqb_spec type 34525); [now right |]. injection E as <- <-. destruct Rd as [Rd | Rd]; [discriminate | now destruct Rd].
Qed.

(** The parser against the layout. *)
Lemma parse_ip_layout (d : list Z) (p : packet) :
  Forall is_u8 d -> parse_ip d = Some (0, p) <-> ipv4_frame d p \/ ipv6_frame d p.
Proof.
  intros B. split.
  - intros E. destruct (parse_ip_frame d 0 p B E (or_introl eq_refl)) as (macs & tags & type & pl & W & -> & T).
    apply Forall_app in B as [_ B]. pose proof (ether_len macs tags type (proj1 W)) as L.
    rewrite parse_ether in E; [| done | destruct T as [-> | ->]; unfold is_u16; lia | now destruct T as [-> | ->]].
    destruct T as [-> | ->].
    + apply parse_ipv4_sound in E as (h & pad & Wh & -> & ->); [| done]. left. rewrite L. now exists macs, tags, h, pad.
    + apply parse_ipv6_sound in E as (h & pad & Wh & -> & ->); [| done]. right. rewrite L. now exists macs, tags, h, pad.
  - intros [(macs & tags & h & pad & W & Wh & -> & ->) | (macs & tags & h & pad & W & Wh & -> & ->)].
    + rewrite parse_ether; [| done | unfold is_u16; lia | done]. rewrite <- (ether_len macs tags 0x0800 (proj1 W)).
      now apply parse_ipv4_complete.
    + rewrite parse_ether; [| done | unfold is_u16; lia | done]. rewrite <- (ether_len macs tags 0x86dd (proj1 W)).
      now apply parse_ipv6_complete.
Qed.

(** C37: The filter's parser accepts exactly the IP frames. For every frame, and without ever reading
    outside of it, [parse_ip] succeeds exactly when the frame is an Ethernet header with at most two
    VLAN tags, an IPv4 or IPv6 header with consistent lengths, its data, and any padding; and what it
    returns are the addresses, protocol and fragment bits of that header, the offset of the data and
    the end of the datagram, so that padding is never taken for data. *)
Theorem xdp_frame_exact (d : list Z) (p : packet) :
  Forall is_u8 d -> parse_ip d = Some (0, p) <-> ipv4_frame d p \/ ipv6_frame d p.
Proof. apply parse_ip_layout. Qed.

(** ** Instances *)

Definition sample_macs : list Z := [2; 0; 0; 0; 0; 1; 2; 0; 0; 0; 0; 2].
(** A TCP SYN from 198.51.100.7 to port 25565 of 192.0.2.10. *)
Definition sample_tcp (fl : Z) : list Z := [200; 0; 99; 221; 0; 0; 0; 1; 0; 0; 0; 0; 80; fl; 255; 255; 0; 0; 0; 0].
Definition sample_ipv4 (fl : Z) : Ipv4 := mkIpv4 5 0 1 0x4000 64 6 0 [198; 51; 100; 7] [192; 0; 2; 10] [] (sample_tcp fl).
Definition sample_frame (fl : Z) : list Z := ether sample_macs [(0x8100, 7)] 0x0800 ++ ipv4_bytes (sample_ipv4 fl) ++ [0; 0].

Lemma xdp_frame_exact_witness :
  parse_ip (sample_frame 2) = Some (0, ipv4_packet 18 (sample_ipv4 2)) /\
  ip_end (ipv4_packet 18 (sample_ipv4 2)) = frame_len (sample_frame 2) - 2.
Proof.
  split; [| reflexivity].
  apply xdp_frame_exact; [repeat (constructor; [unfold is_u8; vm_compute; split; (discriminate || reflexivity) |]); constructor |].
  left. exists sample_macs, [(0x8100, 7)], (sample_ipv4 2), [0; 0]. split_and!; [| | reflexivity | reflexivity].
  - split_and!; [reflexivity | cbn; lia | repeat constructor; cbn; unfold is_u16; lia].
  - split; try reflexivity; vm_compute; split; discriminate || reflexivity.
Defined.
