(* ===== verification/XdpFilter.v ===== *)
(** * The XDP filter ([xdp/xdp_ddos.bpf.c])

    The program the kernel runs on every received frame: configuration and policy maps that the
    controller writes, and, for each CPU, counters and the budget for new connections. Longest-prefix
    lookup is the kernel's. Lookups in the arrays cannot fail in the kernel; the program checks them
    all the same, and so does the model. *)
From S2P Require Import Prelude Machine XdpParse.
From stdpp Require Import base option list gmap.
From Stdlib Require Import ZArith Lia.
Local Open Scope Z_scope.

(** ** Maps *)

(** [struct config]. *)
Record config : Type := mk_config {
  lease_ns : Z; abi : Z; observe : Z; mode : Z; ipv6 : Z; drop_tcp_fragments : Z; syn_rate : Z; syn_burst : Z }.

(** [struct stats]; [reasons] has [R_COUNT] entries. *)
Record stats : Type := mk_stats {
  rx_packets : Z; rx_bytes : Z; pass_packets : Z; drop_packets : Z;
  syn_packets : Z; udp_packets : Z; icmp_packets : Z; ipv6_deferred : Z; reasons : list Z }.
Definition stats0 : stats := mk_stats 0 0 0 0 0 0 0 0 (replicate 14 0).

(** [struct bucket]. *)
Record bucket : Type := mk_bucket { last_ns : Z; credit_ns : Z; rate : Z; burst : Z }.
Definition bucket0 : bucket := mk_bucket 0 0 0 0.

(** The longest-prefix-match tries of the kernel. *)
Class Lpm (Trie : Type) : Type := lpm_lookup : Trie -> prefix_key -> option Z.

(** The maps the controller writes, and those of one CPU. *)
Record Policy (Trie : Type) : Type := mk_policy {
  configuration : option config; ports : gmap Z Z; owned : Trie; allow : Trie; block : Trie }.
Arguments mk_policy {Trie} _ _ _ _ _.
Arguments configuration {Trie} _.
Arguments ports {Trie} _.
Arguments owned {Trie} _.
Arguments allow {Trie} _.
Arguments block {Trie} _.
Record PerCpu : Type := mk_percpu { counters : option stats; syn_budget : option bucket }.

Inductive xdp_action : Type := XDP_DROP | XDP_PASS.

#[global] Instance xdp_action_eq_dec : EqDecision xdp_action.
Proof. solve_decision. Defined.

(** ** Counting *)

Definition inc64 (v : Z) : Z := wrap 64 (v + 1).
Definition count_rx (s : stats) (bytes : Z) : stats :=
  mk_stats (inc64 (rx_packets s)) (wrap 64 (rx_bytes s + bytes)) (pass_packets s) (drop_packets s)
    (syn_packets s) (udp_packets s) (icmp_packets s) (ipv6_deferred s) (reasons s).
Definition count_pass (s : stats) : stats :=
  mk_stats (rx_packets s) (rx_bytes s) (inc64 (pass_packets s)) (drop_packets s)
    (syn_packets s) (udp_packets s) (icmp_packets s) (ipv6_deferred s) (reasons s).
Definition count_drop (s : stats) : stats :=
  mk_stats (rx_packets s) (rx_bytes s) (pass_packets s) (inc64 (drop_packets s))
    (syn_packets s) (udp_packets s) (icmp_packets s) (ipv6_deferred s) (reasons s).
Definition count_reason (s : stats) (why : Z) : stats :=
  mk_stats (rx_packets s) (rx_bytes s) (pass_packets s) (drop_packets s)
    (syn_packets s) (udp_packets s) (icmp_packets s) (ipv6_deferred s) (alter inc64 (Z.to_nat why) (reasons s)).
Definition count_kinds (s : stats) (syn udp icmp def : bool) : stats :=
  let up b v := if b : bool then inc64 v else v in
  mk_stats (rx_packets s) (rx_bytes s) (pass_packets s) (drop_packets s)
    (up syn (syn_packets s)) (up udp (udp_packets s)) (up icmp (icmp_packets s)) (up def (ipv6_deferred s)) (reasons s).

(** Whether drops are enforced: the program version matches, it does not only observe, and the
    controller's lease lasts. *)
Definition enforced (c : option config) (now : Z) : bool :=
  match c with Some c => (abi c =? XDDP_ABI) && (observe c =? 0) && (now <? lease_ns c) | None => false end.

(** [result]. *)
Definition xdp_result (s : stats) (c : option config) (why now : Z) : xdp_action * stats :=
  if (0 <? why) && (why <? R_COUNT) then
    let s := count_reason s why in
    if enforced c now then (XDP_DROP, count_drop s) else (XDP_PASS, count_pass s)
  else (XDP_PASS, count_pass s).

(** ** The budget for new connections *)

Definition syn_cost (rate : Z) : Z := (1000000000 + rate - 1) / rate.

(** [syn_allowed]. *)
Definition syn_allowed (c : config) (o : option bucket) (now : Z) : bool * option bucket :=
  if (syn_rate c =? 0) || (syn_burst c =? 0) then (true, o)
  else match o with
  | None => (true, None)
  | Some b =>
    let r := if syn_rate c >? 1000000000 then 1000000000 else syn_rate c in
    let n := if syn_burst c >? 1000000 then 1000000 else syn_burst c in
    let cost := syn_cost r in
    let cap := wrap 64 (cost * n) in
    let credit :=
      if (last_ns b =? 0) || negb (rate b =? r) || negb (burst b =? n) then cap
      else
        let dt := wrap 64 (now - last_ns b) in
        let dt := if dt >? cap then cap else dt in
        if credit_ns b >? cap - dt then cap else wrap 64 (credit_ns b + dt) in
    if credit <? cost then (false, Some (mk_bucket now credit r n))
    else (true, Some (mk_bucket now (credit - cost) r n))
  end.

(** ** The program *)

Section Program.
Context {Trie : Type} `{Lpm Trie}.

Definition in_trie (t : Trie) (k : prefix_key) : bool := match lpm_lookup t k with Some _ => true | None => false end.
Definition ipv6_off (c : config) (p : packet) : bool := (family (dst p) =? 6) && (ipv6 c =? 0).

(** What a frame that [parse_ip] refused is counted as: a reason only when its destination is known to
    be ours. *)
Definition refused_reason (m : Policy Trie) (r : Z) (p : packet) : Z :=
  match configuration m with
  | Some c =>
    if (r <? 0) && (abi c =? XDDP_ABI) && negb (family (dst p) =? 0) &&
       (negb (family (dst p) =? 6) || negb (ipv6 c =? 0)) && in_trie (owned m) (dst p)
    then - r else 0
  | None => 0
  end.

Definition is_syn (p : packet) : bool := Z.land (flags p) 0x12 =? 0x02.

(** A TCP packet to a protected port: the reason to drop it, whether it counts as a new connection, and
    the budget afterwards. *)
Definition protected_tcp (m : Policy Trie) (c : config) (p : packet) (o : option bucket) (now : Z)
  : Z * option bucket :=
  if is_syn p && (abi c =? XDDP_ABI) && (mode c =? 3) && (now <? lease_ns c) then (R_EMERGENCY_SYN, o)
  else if in_trie (allow m) (src p) then (0, o)
  else match lpm_lookup (block m) (src p) with
  | Some deny => (if deny =? R_BOGON then R_BOGON else R_MANUAL_BLOCK, o)
  | None =>
    if is_syn p then let '(ok, o) := syn_allowed c o now in (if ok then 0 else R_SYN_RATE, o)
    else (0, o)
  end.

(** [xddp]. *)
Definition xddp (m : Policy Trie) (k : PerCpu) (d : list Z) (now : Z) : exec (xdp_action * PerCpu) :=
  match counters k with
  | None => Some (XDP_PASS, k)
  | Some s =>
    let finish s why o := let '(a, s) := xdp_result s (configuration m) why now in Some (a, mk_percpu (Some s) o) in
    let o := syn_budget k in
    let s := count_rx s (frame_len d) in
    '(r, p) ← parse_ip d;
    if negb (r =? 0) then finish s (refused_reason m r p) o
    else if (proto p =? 1) || (proto p =? 58) then finish (count_kinds s false false true false) 0 o
    else
      let s := count_kinds s false (proto p =? 17) false (deferred p) in
      match configuration m with
      | None => finish s 0 o
      | Some c =>
        if ipv6_off c p || negb (in_trie (owned m) (dst p)) then finish s 0 o
        else if fragment p then finish s (if (proto p =? 6) && negb (drop_tcp_fragments c =? 0) then R_FRAGMENT else 0) o
        else
          '(r, p) ← parse_transport d p;
          if negb (r =? 0) then finish s (if r <? 0 then - r else 0) o
          else match ports m !! port p with
          | None => finish s 0 o
          | Some policy =>
            if ((proto p =? 6) && negb (Z.land policy PORT_DROP_TCP =? 0)) ||
               ((proto p =? 17) && negb (Z.land policy PORT_DROP_UDP =? 0)) then finish s R_BLOCKED_PORT o
            else if negb (proto p =? 6) || (Z.land policy PORT_PROTECT_TCP =? 0) then finish s 0 o
            else
              let s := count_kinds s (is_syn p) false false false in
              let '(why, o) := protected_tcp m c p o now in finish s why o
          end
      end
  end.
End Program.
