(* ===== verification/XdpProps.v ===== *)
(** * What the XDP filter decides

    The branches of the filter as rules, and the proof that the program follows them; then memory
    safety, the conditions under which a frame is dropped, the counters, and the budget for new
    connections over any sequence of frames. *)
From stdpp Require Import base option list gmap relations.
From S2P Require Import Prelude Machine XdpParse XdpFrame XdpFilter.
From Stdlib Require Import ZArith Lia.
Local Open Scope Z_scope.

Section Program.
Context {Trie : Type} `{Lpm Trie}.

(** ** The branches *)

(** A parsed frame that is subject to the policy: not ICMP, of a protocol version that is covered, to an
    address that is ours. *)
Definition selected (m : Policy Trie) (d : list Z) (c : config) (p : packet) : Prop :=
  parse_ip d = Some (0, p) /\ proto p <> 1 /\ proto p <> 58 /\
  configuration m = Some c /\ ipv6_off c p = false /\ in_trie (owned m) (dst p) = true.

(** The policy closes, or protects, the destination port of a packet. *)
Definition closed_port (m : Policy Trie) (p : packet) : Prop :=
  exists v, ports m !! port p = Some v /\
    ((proto p = 6 /\ Z.land v PORT_DROP_TCP <> 0) \/ (proto p = 17 /\ Z.land v PORT_DROP_UDP <> 0)).
Definition protected_port (m : Policy Trie) (p : packet) : Prop :=
  exists v, ports m !! port p = Some v /\ proto p = 6 /\ Z.land v PORT_PROTECT_TCP <> 0.

(** The reason to drop the frame [d], or 0, and the budget afterwards. *)
Inductive decision (m : Policy Trie) (d : list Z) (o : option bucket) (now : Z) : Z -> option bucket -> Prop :=
| not_ip r p : parse_ip d = Some (r, p) -> r <> 0 -> decision m d o now (refused_reason m r p) o
| not_selected p : parse_ip d = Some (0, p) -> (forall c, ~ selected m d c p) -> decision m d o now 0 o
| fragmented c p : selected m d c p -> fragment p = true ->
    decision m d o now (if (proto p =? 6) && negb (drop_tcp_fragments c =? 0) then R_FRAGMENT else 0) o
| bad_header c p r q : selected m d c p -> fragment p = false -> parse_transport d p = Some (r, q) -> r <> 0 ->
    decision m d o now (if r <? 0 then - r else 0) o
| port_closed c p q : selected m d c p -> fragment p = false -> parse_transport d p = Some (0, q) ->
    closed_port m q -> decision m d o now R_BLOCKED_PORT o
| port_open c p q : selected m d c p -> fragment p = false -> parse_transport d p = Some (0, q) ->
    ~ closed_port m q -> ~ protected_port m q -> decision m d o now 0 o
| port_protected c p q why o' : selected m d c p -> fragment p = false -> parse_transport d p = Some (0, q) ->
    ~ closed_port m q -> protected_port m q -> protected_tcp m c q o now = (why, o') -> decision m d o now why o'.

(** Counters that differ in what is counted before the decision only. *)
Definition counted (s s1 : stats) (d : list Z) : Prop :=
  rx_packets s1 = inc64 (rx_packets s) /\ rx_bytes s1 = wrap 64 (rx_bytes s + frame_len d) /\
  pass_packets s1 = pass_packets s /\ drop_packets s1 = drop_packets s /\ reasons s1 = reasons s.

Lemma counted_rx (s : stats) (d : list Z) : counted s (count_rx s (frame_len d)) d.
Proof. now split_and!. Qed.
Lemma counted_kinds (s s1 : stats) (d : list Z) (a b c e : bool) : counted s s1 d -> counted s (count_kinds s1 a b c e) d.
Proof. intros (? & ? & ? & ? & ?). now split_and!. Qed.

Hint Resolve counted_rx counted_kinds : core.

(** The program's outcome on a frame: a decision of the table, then [result]. *)
Definition outcome (m : Policy Trie) (k : PerCpu) (s : stats) (d : list Z) (now : Z) (r : xdp_action * PerCpu) : Prop :=
  exists s1 why o', decision m d (syn_budget k) now why o' /\ counted s s1 d /\
    fst r = fst (xdp_result s1 (configuration m) why now) /\
    snd r = mk_percpu (Some (snd (xdp_result s1 (configuration m) why now))) o'.

Lemma finish_outcome (m : Policy Trie) (k : PerCpu) (s s1 : stats) (d : list Z) (now why : Z) (o' : option bucket)
  (cfg : option config) :
  configuration m = cfg -> counted s s1 d -> decision m d (syn_budget k) now why o' ->
  exists r, (let '(a, s2) := xdp_result s1 cfg why now in Some (a, mk_percpu (Some s2) o')) = Some r /\
    outcome m k s d now r.
Proof.
  intros <- C D. destruct (xdp_result s1 (configuration m) why now) as [a s2] eqn:E. eexists. split; [reflexivity |].
  exists s1, why, o'. now rewrite E.
Qed.

(** The policy of a port, tested and stated. *)
Lemma closed_port_test (m : Policy Trie) (p : packet) (v : Z) :
  ports m !! port p = Some v ->
  ((proto p =? 6) && negb (Z.land v PORT_DROP_TCP =? 0)) || ((proto p =? 17) && negb (Z.land v PORT_DROP_UDP =? 0)) = true
  <-> closed_port m p.
Proof.
  intros E. rewrite orb_true_iff, !andb_true_iff, !negb_true_iff, !Z.eqb_eq, !Z.eqb_neq. unfold closed_port. split.
  - eauto.
  - intros (w & E' & D). rewrite E in E'. now injection E' as <-.
Qed.

Lemma protected_port_test (m : Policy Trie) (p : packet) (v : Z) :
  ports m !! port p = Some v -> negb (proto p =? 6) || (Z.land v PORT_PROTECT_TCP =? 0) = false <-> protected_port m p.
Proof.
  intros E. rewrite orb_false_iff, negb_false_iff, Z.eqb_eq, Z.eqb_neq. unfold protected_port. split.
  - eauto.
  - intros (w & E' & D). rewrite E in E'. now injection E' as <-.
Qed.

(** The part of the program for a selected frame that is not a fragment. *)
Lemma ports_outcome (m : Policy Trie) (k : PerCpu) (s s1 : stats) (d : list Z) (now : Z) (c : config) (p q : packet) :
  counted s s1 d -> selected m d c p -> fragment p = false -> parse_transport d p = Some (0, q) ->
  let finish s why o := let '(a, s) := xdp_result s (Some c) why now in Some (a, mk_percpu (Some s) o) in
  exists r, match ports m !! port q with
    | None => finish s1 0 (syn_budget k)
    | Some policy =>
      if ((proto q =? 6) && negb (Z.land policy PORT_DROP_TCP =? 0)) ||
         ((proto q =? 17) && negb (Z.land policy PORT_DROP_UDP =? 0)) then finish s1 R_BLOCKED_PORT (syn_budget k)
      else if negb (proto q =? 6) || (Z.land policy PORT_PROTECT_TCP =? 0) then finish s1 0 (syn_budget k)
      else
        let s := count_kinds s1 (is_syn q) false false false in
        let '(why, o) := protected_tcp m c q (syn_budget k) now in finish s why o
    end = Some r /\ outcome m k s d now r.
Proof.
  intros C S F T finish. assert (Cf : configuration m = Some c) by apply S.
  destruct (ports m !! port q) as [v |] eqn:V.
  2: { apply finish_outcome; auto. apply (port_open m d _ now c p q S F T); intros (w & E & _); congruence. }
  pose proof (closed_port_test m q v V) as CT. pose proof (protected_port_test m q v V) as PT.
  destruct (_ || _) in CT |- *.
  { apply finish_outcome; auto. apply (port_closed m d _ now c p q S F T). now apply CT. }
  assert (NC : ~ closed_port m q) by (intros X; now apply CT in X).
  destruct (_ || _) in PT |- *.
  { apply finish_outcome; auto. apply (port_open m d _ now c p q S F T NC). intros X. now apply PT in X. }
  cbv zeta. destruct (protected_tcp m c q (syn_budget k) now) as [why o'] eqn:P.
  apply finish_outcome; auto. apply (port_protected m d _ now c p q why o' S F T NC); [now apply PT | exact P].
Qed.

(** For every frame and state the program returns, without reading outside of the frame, and what it
    does follows the table. *)
Lemma xddp_outcome (m : Policy Trie) (k : PerCpu) (s : stats) (d : list Z) (now : Z) :
  Forall is_u8 d -> counters k = Some s -> exists r, xddp m k d now = Some r /\ outcome m k s d now r.
Proof.
  intros B K. unfold xddp. rewrite K. destruct (parse_ip_safe d B) as ([r p] & E & O). rewrite E. cbn [mbind option_bind].
  destruct (Z.eqb_spec r 0) as [-> | R]; cbn [negb].
  2: { apply finish_outcome; auto. now apply not_ip. }
  assert (NS : (forall c, ~ selected m d c p) -> decision m d (syn_budget k) now 0 (syn_budget k)) by now apply not_selected.
  destruct (Z.eqb_spec (proto p) 1) as [P1 | P1]; [| destruct (Z.eqb_spec (proto p) 58) as [P58 | P58]]; cbn [orb].
  1, 2: apply finish_outcome; auto; apply NS; intros c (_ & ? & ? & _); congruence.
  destruct (configuration m) as [c |] eqn:C.
  2: { apply finish_outcome; auto. apply NS. intros c (_ & _ & _ & C' & _). congruence. }
  destruct (ipv6_off c p) eqn:V6; [| destruct (in_trie (owned m) (dst p)) eqn:Ow]; cbn [orb negb].
  1, 3: apply finish_outcome; auto; apply NS; intros c' (_ & _ & _ & C' & V & W); congruence.
  assert (S : selected m d c p) by now split_and!.
  destruct (fragment p) eqn:F; [apply finish_outcome; auto; now apply fragmented |].
  destruct (parse_transport_safe d p) as ([r q] & T); [unfold offsets_ok in O; cbn in O; destruct (O eq_refl); lia |].
  rewrite T. cbn [mbind option_bind]. destruct (Z.eqb_spec r 0) as [-> | R]; cbn [negb].
  - apply (ports_outcome m k s _ d now c p q); auto.
  - apply finish_outcome; auto. now apply (bad_header m d _ now c p r q).
Qed.
(** ** Dropping *)

Lemma parsed_family (d : list Z) (p : packet) :
  Forall is_u8 d -> parse_ip d = Some (0, p) -> family (dst p) = 4 \/ family (dst p) = 6.
Proof.
  intros B E. apply parse_ip_layout in E as [(? & ? & ? & ? & _ & _ & _ & ->) | (? & ? & ? & ? & _ & _ & _ & ->)]; [| | done].
  - now left.
  - now right.
Qed.

(** Why a protected TCP packet may be dropped. *)
Definition new_connection_refused (m : Policy Trie) (c : config) (q : packet) (o : option bucket) (now : Z) : Prop :=
  (is_syn q = true /\ mode c = 3) \/
  (in_trie (allow m) (src q) = false /\ in_trie (block m) (src q) = true) \/
  (is_syn q = true /\ in_trie (allow m) (src q) = false /\ fst (syn_allowed c o now) = false).

Lemma protected_tcp_why (m : Policy Trie) (c : config) (q : packet) (o o' : option bucket) (now why : Z) :
  protected_tcp m c q o now = (why, o') -> why <> 0 -> new_connection_refused m c q o now.
Proof.
  unfold protected_tcp, new_connection_refused. destruct (is_syn q && _ && _ && _) eqn:Em; [intros _ _; left; breflect; auto |].
  destruct (in_trie (allow m) (src q)) eqn:A; [intros [= <- _]; congruence |].
  destruct (lpm_lookup (block m) (src q)) eqn:K; [intros _ _; right; left; split; [done |]; unfold in_trie; now rewrite K |].
  destruct (is_syn q); [| intros [= <- _]; congruence].
  destruct (syn_allowed c o now) as [[] ?] eqn:Sa; intros [= <- _]; [congruence | cbn; auto].
Qed.

(** Why a frame may be dropped. *)
Definition drop_cause (m : Policy Trie) (c : config) (d : list Z) (r : Z) (p : packet) (o : option bucket) (now : Z) : Prop :=
  r < 0 \/
  (r = 0 /\ proto p <> 1 /\ proto p <> 58 /\
   if fragment p then proto p = 6 /\ drop_tcp_fragments c <> 0
   else exists r q, parse_transport d p = Some (r, q) /\
     (r < 0 \/ (r = 0 /\ (closed_port m q \/ (protected_port m q /\ new_connection_refused m c q o now))))).

Lemma refused_cause (m : Policy Trie) (r : Z) (p : packet) :
  refused_reason m r p <> 0 -> exists c, configuration m = Some c /\ r < 0 /\ family (dst p) <> 0 /\
    (family (dst p) = 6 -> ipv6 c <> 0) /\ in_trie (owned m) (dst p) = true.
Proof.
  unfold refused_reason. destruct (configuration m) as [c |]; [| done]. destruct (_ && _) eqn:G; [| done]. intros _.
  apply andb_true_iff in G as [G Ow]. apply andb_true_iff in G as [G V]. breflect. exists c. split_and!; auto. intros F.
  apply orb_true_iff in V as [V | V]; breflect; congruence.
Qed.

Lemma decision_cause (m : Policy Trie) (d : list Z) (o o' : option bucket) (now why : Z) :
  Forall is_u8 d -> decision m d o now why o' -> why <> 0 ->
  exists c r p, configuration m = Some c /\ parse_ip d = Some (r, p) /\ family (dst p) <> 0 /\
    (family (dst p) = 6 -> ipv6 c <> 0) /\ in_trie (owned m) (dst p) = true /\ drop_cause m c d r p o now.
Proof.
  intros B D W.
  assert (Sel : forall c p, selected m d c p -> drop_cause m c d 0 p o now -> exists c r p,
    configuration m = Some c /\ parse_ip d = Some (r, p) /\ family (dst p) <> 0 /\
    (family (dst p) = 6 -> ipv6 c <> 0) /\ in_trie (owned m) (dst p) = true /\ drop_cause m c d r p o now).
  { intros c p (E & _ & _ & C & V & Ow) X. exists c, 0, p. split_and!; auto.
    - destruct (parsed_family d p B E); lia.
    - intros F. unfold ipv6_off in V. rewrite F in V. cbn in V. now apply Z.eqb_neq. }
  destruct D as [r p E R | p E N | c p S F | c p r q S F T R | c p q S F T X | c p q S F T X Y | c p q why o' S F T X Y P];
    try done.
  - destruct (refused_cause m r p W) as (c & C & Hr & ? & ? & ?). exists c, r, p. split_and!; auto. now left.
  - apply (Sel c p S). right. destruct S as (_ & ? & ? & _). split_and!; auto. rewrite F.
    destruct (_ && _) eqn:G; [| done]. breflect. auto.
  - apply (Sel c p S). right. destruct S as (_ & ? & ? & _). split_and!; auto. rewrite F. exists r, q. split; [done |]. left.
    destruct (Z.ltb_spec r 0); [done | done].
  - apply (Sel c p S). right. destruct S as (_ & ? & ? & _). split_and!; auto. rewrite F. exists 0, q. auto 6.
  - apply (Sel c p S). right. destruct S as (_ & ? & ? & _). split_and!; auto. rewrite F. exists 0, q. split; [done |]. right.
    split; [done |]. right. split; [done |]. eapply protected_tcp_why; eauto.
Qed.

Lemma xdp_result_action (s : stats) (c : option config) (why now : Z) :
  fst (xdp_result s c why now) = XDP_DROP -> why <> 0 /\ enforced c now = true.
Proof.
  unfold xdp_result. destruct (_ && _) eqn:G; [| discriminate]. destruct (enforced c now); [| discriminate].
  breflect. split; [lia | done].
Qed.

Lemma enforced_true (o : option config) (now : Z) :
  enforced o now = true -> exists c, o = Some c /\ abi c = XDDP_ABI /\ observe c = 0 /\ now < lease_ns c.
Proof. unfold enforced. destruct o as [c |]; [| discriminate]. intros E. exists c. breflect. auto. Qed.
End Program.

(** Once the lease is over, whatever the frame and the state, the frame passes. *)
Lemma lease_over_passes {Trie : Type} `{Lpm Trie} (m : Policy Trie) (k : PerCpu) (d : list Z) (now : Z) :
  Forall is_u8 d -> enforced (configuration m) now = false -> exists k', xddp m k d now = Some (XDP_PASS, k').
Proof.
  intros B En. destruct (counters k) as [s |] eqn:K; [| exists k; unfold xddp; now rewrite K].
  destruct (xddp_outcome m k s d now B K) as ([a k'] & E & (s1 & why & o' & _ & _ & A & _)). exists k'. rewrite E. cbn in A.
  destruct a; [| done]. symmetry in A. apply xdp_result_action in A as [_ A]. congruence.
Qed.

(** The filter drops only what it is told to. If a frame is dropped, the controller's lease is running,
    of this version and not observing; the frame's destination is one of our addresses (of IPv6 only
    where it is covered); and it is malformed, a TCP fragment that is configured to be dropped, a
    packet to a closed port, or, to a protected TCP port, a new connection during EMERGENCY, a packet of
    a blocked source that is not allowed, or a new connection beyond the budget. ICMP, foreign
    destinations, other protocols and everything after the lease pass. *)
Theorem xdp_drops_only {Trie : Type} `{Lpm Trie} (m : Policy Trie) (k k' : PerCpu) (d : list Z) (now : Z) :
  Forall is_u8 d -> xddp m k d now = Some (XDP_DROP, k') ->
  exists c r p, configuration m = Some c /\ abi c = XDDP_ABI /\ observe c = 0 /\ now < lease_ns c /\
    parse_ip d = Some (r, p) /\ family (dst p) <> 0 /\ (family (dst p) = 6 -> ipv6 c <> 0) /\
    in_trie (owned m) (dst p) = true /\ drop_cause m c d r p (syn_budget k) now.
Proof.
  intros B E. destruct (counters k) as [s |] eqn:K; [| unfold xddp in E; rewrite K in E; discriminate].
  destruct (xddp_outcome m k s d now B K) as (r0 & E' & (s1 & why & o' & D & _ & A & _)). rewrite E in E'. injection E' as <-.
  symmetry in A. apply xdp_result_action in A as [W En]. apply enforced_true in En as (c & C & ? & ? & ?).
  destruct (decision_cause m d _ o' now why B D W) as (c' & r & p & C' & ? & ? & ? & ? & ?).
  rewrite C in C'. injection C' as <-. exists c, r, p. now split_and!.
Qed.

(** ** Following the table *)

Section Table.
Context {Trie : Type} `{Lpm Trie}.

Lemma selected_unique (m : Policy Trie) (d : list Z) (c c' : config) (p p' : packet) :
  selected m d c p -> selected m d c' p' -> c = c' /\ p = p'.
Proof. intros (E & _ & _ & C & _) (E' & _ & _ & C' & _). split; congruence. Qed.

(** The two facts about a selected frame name the same configuration and packet. *)
Ltac same :=
  repeat match goal with
  | S : selected ?m ?d ?c ?p, S' : selected ?m ?d ?c' ?p' |- _ =>
      destruct (selected_unique m d c c' p p' S S') as [? ?]; subst; clear S'
  | S : selected ?m ?d ?c ?p, E : parse_ip ?d = Some (_, _) |- _ =>
      let X := fresh in pose proof (proj1 S) as X; rewrite E in X; injection X; intros; subst; clear E
  | T : parse_transport ?d ?p = Some _, T' : parse_transport ?d ?p = Some _ |- _ =>
      rewrite T in T'; injection T'; intros; subst; clear T'
  end.

(** The table decides: a frame has one decision. *)
Lemma decision_unique (m : Policy Trie) (d : list Z) (o : option bucket) (now w w' : Z) (u u' : option bucket) :
  decision m d o now w u -> decision m d o now w' u' -> w = w' /\ u = u'.
Proof.
  intros D D'. destruct D; destruct D'; same; try done; try congruence;
    try (match goal with N : forall c, ~ selected _ _ c ?p, S : selected _ _ _ ?p |- _ => destruct (N _ S) end).
  - rewrite H0 in H2. injection H2 as <- <-. done.
  - split; congruence.
Qed.
End Table.

(** ** Protected TCP ports *)

(** The frame is a well-formed TCP packet [q] to one of our addresses, to a protected port that is not
    closed. *)
Definition protected_frame {Trie : Type} `{Lpm Trie} (m : Policy Trie) (d : list Z) (c : config) (q : packet) : Prop :=
  exists p, selected m d c p /\ fragment p = false /\ parse_transport d p = Some (0, q) /\
    ~ closed_port m q /\ protected_port m q.

Lemma parse_transport_src (d : list Z) (p q : packet) (r : Z) :
  parse_transport d p = Some (r, q) -> src q = src p /\ proto q = proto p.
Proof.
  unfold parse_transport, parse_tcp, parse_udp. intros E. follow E; now injection E as _ <-.
Qed.

Section Protected.
Context {Trie : Type} `{Lpm Trie}.

(** The decision for a protected frame. *)
Lemma protected_outcome (m : Policy Trie) (k : PerCpu) (s : stats) (d : list Z) (now : Z) (c : config) (q : packet)
  (r : xdp_action * PerCpu) :
  Forall is_u8 d -> counters k = Some s -> protected_frame m d c q -> xddp m k d now = Some r ->
  let '(why, o) := protected_tcp m c q (syn_budget k) now in
  exists s1, counted s s1 d /\ fst r = fst (xdp_result s1 (Some c) why now) /\
    snd r = mk_percpu (Some (snd (xdp_result s1 (Some c) why now))) o.
Proof.
  intros B K (p & S & F & T & NC & P) E. assert (C : configuration m = Some c) by apply S.
  destruct (xddp_outcome m k s d now B K) as (r' & E' & s1 & why' & o' & D & Cd & A & N).
  rewrite E in E'. injection E' as <-. destruct (protected_tcp m c q (syn_budget k) now) as [why o] eqn:W.
  pose proof (port_protected m d (syn_budget k) now c p q why o S F T NC P W) as D'.
  destruct (decision_unique m d _ now why why' o o' D' D) as [<- <-]. rewrite C in A, N. eauto.
Qed.

Lemma result_drop (s : stats) (c : option config) (why now : Z) :
  enforced c now = true -> 0 <= why < R_COUNT -> fst (xdp_result s c why now) = XDP_DROP <-> why <> 0.
Proof.
  intros E W. unfold xdp_result. destruct (Z.ltb_spec 0 why); destruct (Z.ltb_spec why R_COUNT); cbn [andb]; try lia.
  - rewrite E. cbn. split; [lia | done].
  - split; [discriminate | lia].
Qed.

Lemma protected_tcp_range (m : Policy Trie) (c : config) (q : packet) (o o' : option bucket) (now why : Z) :
  protected_tcp m c q o now = (why, o') -> 0 <= why < R_COUNT.
Proof.
  unfold protected_tcp. destruct (_ && _); [intros [= <- _]; split; done |].
  destruct (in_trie _ _); [intros [= <- _]; split; done |]. destruct (lpm_lookup _ _) as [deny |].
  - destruct (deny =? _); intros [= <- _]; split; done.
  - destruct (is_syn q); [| intros [= <- _]; split; done].
    destruct (syn_allowed c o now) as [[] ?]; intros [= <- _]; split; done.
Qed.
End Protected.

(** On a protected port the filter freezes new connections and lets established ones through. While the
    policy is enforced, a well-formed TCP packet to such a port of ours is dropped exactly when it opens a
    connection during EMERGENCY (an allow-listed source included), or its source is blocked and not
    allowed, or it opens a connection and the budget refuses it; so a packet that does not open a
    connection passes in every mode unless its source is blocked. Only a packet that opens a connection
    touches the budget. *)
Theorem xdp_protected_exact {Trie : Type} `{Lpm Trie} (m : Policy Trie) (k k' : PerCpu) (s : stats) (d : list Z)
  (now : Z) (c : config) (q : packet) (a : xdp_action) :
  Forall is_u8 d -> counters k = Some s -> protected_frame m d c q -> enforced (Some c) now = true ->
  xddp m k d now = Some (a, k') ->
  (a = XDP_DROP <-> new_connection_refused m c q (syn_budget k) now) /\
  (is_syn q = false -> (a = XDP_DROP <-> in_trie (allow m) (src q) = false /\ in_trie (block m) (src q) = true) /\
    syn_budget k' = syn_budget k).
Proof.
  intros B K P En X. pose proof (protected_outcome m k s d now c q _ B K P X) as O.
  destruct (protected_tcp m c q (syn_budget k) now) as [why o] eqn:W. destruct O as (s1 & _ & A & N). cbn [fst snd] in A, N.
  pose proof (protected_tcp_range m c q _ o now why W) as R.
  assert (AW : a = XDP_DROP <-> why <> 0) by (rewrite A; now apply result_drop).
  rewrite N. cbn [syn_budget]. clear A N R. rewrite AW. split; [split |].
  - intros NZ. eapply protected_tcp_why; eauto.
  - apply enforced_true in En as (c' & [= <-] & Ab & _ & L). unfold new_connection_refused, protected_tcp in *.
    rewrite Ab in W. intros Q. destruct (is_syn q && _ && _ && _) eqn:Em; [injection W as <- _; done |].
    destruct (in_trie (allow m) (src q)) eqn:Al.
    { exfalso. destruct Q as [[Sy Mo] | [[? _] | (_ & ? & _)]]; try done. rewrite Sy, Mo in Em.
      apply Z.ltb_lt in L. rewrite L in Em. discriminate. }
    destruct (lpm_lookup (block m) (src q)) eqn:Bl; [destruct (_ =? _) in W; now injection W as <- _ |].
    destruct Q as [[Sy Mo] | [[_ Bk] | (Sy & _ & Sa)]].
    + rewrite Sy, Mo in Em. apply Z.ltb_lt in L. rewrite L in Em. discriminate.
    + unfold in_trie in Bk. rewrite Bl in Bk. discriminate.
    + rewrite Sy in W. destruct (syn_allowed _ _ _) as [[] ?]; [done |]. now injection W as <- _.
  - intros Sy. unfold protected_tcp in W. rewrite Sy in W. cbn [andb] in W. unfold in_trie in *.
    destruct (lpm_lookup (allow m) (src q)); [injection W as <- <-; intuition congruence |].
    destruct (lpm_lookup (block m) (src q)); [| injection W as <- <-; intuition congruence].
    destruct (_ =? _) in W; injection W as <- <-; now split.
Qed.
