(* ===== verification/XdpRun.v ===== *)
(** * The XDP filter over time

    Any sequence of frames on one CPU: what the counters then say, and how many new connections the budget
    has let through. *)
From stdpp Require Import base option list gmap.
From S2P Require Import Prelude Machine XdpParse XdpFrame XdpFilter XdpProps.
From Stdlib Require Import ZArith Lia.
Local Open Scope Z_scope.

(** ** Reasons that occur *)

(** The reasons that the filter counts; the others of [enum reason] are reserved. *)
Definition live_reasons : list Z :=
  [R_MALFORMED_IPV4; R_INVALID_TCP; R_BLOCKED_PORT; R_BOGON; R_FRAGMENT; R_SYN_RATE; R_MANUAL_BLOCK; R_OTHER; R_EMERGENCY_SYN].
Definition reserved_reasons : list Z :=
  [R_NONE; R_MALFORMED_L2; R_SOURCE_RATE; R_PREFIX_RATE; R_GLOBAL_RATE].

Lemma parse_ipv4_refusal (d : list Z) (off r : Z) (p : packet) :
  parse_ipv4 d off = Some (r, p) -> r = 0 \/ r = - R_MALFORMED_IPV4.
Proof. unfold parse_ipv4. intros E. follow E; injection E as <- _; auto. Qed.

Lemma parse_ipv6_refusal (d : list Z) (off r : Z) (p : packet) :
  parse_ipv6 d off = Some (r, p) -> r = 0 \/ r = - R_OTHER.
Proof. unfold parse_ipv6. intros E. follow E; injection E as <- _; auto. Qed.

Lemma parse_ip_refusal (d : list Z) (r : Z) (p : packet) :
  parse_ip d = Some (r, p) -> r < 0 -> family (dst p) <> 0 -> r = - R_MALFORMED_IPV4 \/ r = - R_OTHER.
Proof.
  unfold parse_ip. intros E R F. destruct (14 >? frame_len d); [injection E as <- <-; now destruct F |].
  destruct (be16 d 12) as [t |]; [| discriminate]. cbn [mbind option_bind] in E.
  destruct (skip_vlan 2 d t 14) as [[[type off] |] |]; [| injection E as <- <-; now destruct F | discriminate].
  cbn [mbind option_bind] in E. destruct (type =? 2048); [apply parse_ipv4_refusal in E; lia |].
  destruct (type =? 34525); [apply parse_ipv6_refusal in E; lia | injection E as <- _; lia].
Qed.

Lemma parse_transport_refusal (d : list Z) (r : Z) (p q : packet) :
  parse_transport d p = Some (r, q) -> r < 0 -> r = - R_INVALID_TCP \/ r = - R_OTHER.
Proof. unfold parse_transport, parse_tcp, parse_udp. intros E R. follow E; injection E as <- _; auto; lia. Qed.

Section Run.
Context {Trie : Type} `{Lpm Trie}.

Lemma protected_tcp_reason (m : Policy Trie) (c : config) (q : packet) (o o' : option bucket) (now why : Z) :
  protected_tcp m c q o now = (why, o') -> why = 0 \/ In why live_reasons.
Proof.
  unfold protected_tcp. intros E. destruct (_ && _); [injection E as <- _; cbn; auto 12 |].
  destruct (in_trie _ _); [injection E as <- _; auto |].
  destruct (lpm_lookup _ _) as [deny |]; [destruct (deny =? _); injection E as <- _; cbn; auto 12 |].
  destruct (is_syn q); [| injection E as <- _; auto].
  destruct (syn_allowed c o now) as [[] ?]; injection E as <- _; cbn; auto 12.
Qed.

(** A decision is to pass, or for one of the reasons that occur. *)
Lemma decision_reason (m : Policy Trie) (d : list Z) (o o' : option bucket) (now why : Z) :
  decision m d o now why o' -> why = 0 \/ In why live_reasons.
Proof.
  intros D. destruct D as [r p E R | | c p S F | c p r q S F T R | | | c p q why o' S F T X Y P]; auto.
  - destruct (decide (refused_reason m r p = 0)) as [-> | W]; [auto |].
    destruct (refused_cause m r p W) as (c & C & Hr & Fam & _). unfold refused_reason in *. rewrite C in *.
    destruct (_ && _); [| done]. destruct (parse_ip_refusal d r p E Hr Fam) as [-> | ->]; cbn; auto 12.
  - destruct (_ && _); cbn; auto 12.
  - destruct (Z.ltb_spec r 0); [| auto]. destruct (parse_transport_refusal d r p q T) as [-> | ->]; cbn; auto 12.
  - cbn; auto 12.
  - eapply protected_tcp_reason; eauto.
Qed.
(** ** Accounting *)

(** The frames that one CPU receives, with the policy and the time each finds. *)
Fixpoint xdp_run (k : PerCpu) (l : list (Policy Trie * list Z * Z)) : exec (list xdp_action * PerCpu) :=
  match l with
  | [] => Some ([], k)
  | (m, d, now) :: l => '(a, k) ← xddp m k d now; '(al, k) ← xdp_run k l; Some (a :: al, k)
  end.

(** How many of the actions are [a]. *)
Definition hit (a b : xdp_action) : Z :=
  match a, b with XDP_PASS, XDP_PASS | XDP_DROP, XDP_DROP => 1 | _, _ => 0 end.
Definition tally (a : xdp_action) (l : list xdp_action) : Z := foldr (fun b n => hit a b + n) 0 l.

Lemma wrap_succ (z : Z) : inc64 (wrap 64 z) = wrap 64 (Z.succ z).
Proof. unfold inc64, wrap. now rewrite Zplus_mod_idemp_l. Qed.

(** The counters after [n] frames of [b] bytes, [np] passed and [nd] dropped, with the exact count [rs] of
    every reason: all of them modulo [2 ^ 64]. *)
Definition accounts (s : stats) (b np nd : Z) (rs : list Z) : Prop :=
  rx_packets s = wrap 64 (np + nd) /\ rx_bytes s = wrap 64 b /\ pass_packets s = wrap 64 np /\
  drop_packets s = wrap 64 nd /\ reasons s = wrap 64 <$> rs.
Definition reasons_ok (rs : list Z) (np nd : Z) : Prop :=
  length rs = Z.to_nat R_COUNT /\ Forall (Z.le 0) rs /\ nd <= foldr Z.add 0 rs <= np + nd /\
  forall i, In i reserved_reasons -> rs !! Z.to_nat i = Some 0.

Lemma sum_alter (rs : list Z) (i : nat) :
  (i < length rs)%nat -> foldr Z.add 0 (alter Z.succ i rs) = foldr Z.add 0 rs + 1.
Proof.
  revert i. induction rs as [| x rs IH]; intros i Hi; cbn [length] in Hi; [lia |].
  destruct i as [| i]; [cbn; lia |]. change (alter Z.succ (S i) (x :: rs)) with (x :: alter Z.succ i rs).
  cbn [foldr]. rewrite IH by lia. lia.
Qed.

Lemma live_index (why : Z) : In why live_reasons -> 0 < why < R_COUNT /\ ~ In why reserved_reasons.
Proof.
  intros I. repeat (destruct I as [<- | I]; [split; [done | intros X; cbn in X; intuition discriminate] |]). destruct I.
Qed.

(** [result] accounts for one frame. *)
Lemma result_accounts (s s1 : stats) (c : option config) (why now b np nd : Z) (d : list Z) (rs : list Z) :
  accounts s b np nd rs -> reasons_ok rs np nd -> counted s s1 d -> why = 0 \/ In why live_reasons ->
  let '(a, s2) := xdp_result s1 c why now in
  exists rs', accounts s2 (b + frame_len d) (np + hit XDP_PASS a)
                (nd + hit XDP_DROP a) rs' /\
  reasons_ok rs' (np + hit XDP_PASS a) (nd + hit XDP_DROP a).
Proof.
  intros (R & B & P & D & Rs) (L & N & S & Z0) (R1 & B1 & P1 & D1 & Rs1) W.
  rewrite R in R1. rewrite B in B1. rewrite P in P1. rewrite D in D1. rewrite Rs in Rs1. rewrite wrap_succ in R1.
  assert (Bw : wrap 64 (wrap 64 b + frame_len d) = wrap 64 (b + frame_len d)) by (unfold wrap; now rewrite Zplus_mod_idemp_l).
  rewrite Bw in B1. clear Bw. unfold xdp_result. destruct W as [-> | I].
  { exists rs. cbn. unfold accounts, reasons_ok. cbn. rewrite R1, B1, P1, D1, Rs1, wrap_succ.
    split_and!; auto; try (f_equal; lia). all: lia. }
  destruct (live_index why I) as [Rg NR].
  destruct (Z.ltb_spec 0 why), (Z.ltb_spec why R_COUNT); cbn [andb]; try lia.
  assert (Al : alter inc64 (Z.to_nat why) (wrap 64 <$> rs) = wrap 64 <$> alter Z.succ (Z.to_nat why) rs).
  { symmetry. apply list_fmap_alter. apply Forall_forall. intros z _. now rewrite wrap_succ. }
  assert (Ok : length (alter Z.succ (Z.to_nat why) rs) = Z.to_nat R_COUNT /\ Forall (Z.le 0) (alter Z.succ (Z.to_nat why) rs) /\
    foldr Z.add 0 (alter Z.succ (Z.to_nat why) rs) = foldr Z.add 0 rs + 1 /\
  forall i, In i reserved_reasons -> alter Z.succ (Z.to_nat why) rs !! Z.to_nat i = Some 0).
  { split_and!.
    - now rewrite length_alter.
    - apply Forall_alter; [done |]. intros z _ ?. lia.
    - apply sum_alter. rewrite L. lia.
    - intros i Hi. rewrite list_lookup_alter_ne; [now apply Z0 |]. intros X. apply NR.
      assert (0 <= i) by (cbn in Hi; intuition (subst; done)). replace why with i; [done | lia]. }
  destruct Ok as (L' & N' & S' & Z').
  destruct (enforced c now); exists (alter Z.succ (Z.to_nat why) rs); unfold accounts, reasons_ok; cbn;
    rewrite R1, B1, P1, D1, Rs1, Al, ?wrap_succ; split_and!; auto; try (f_equal; lia); rewrite S'; lia.
Qed.

Definition frames_bytes (l : list (Policy Trie * list Z * Z)) : Z := foldr (fun e n => frame_len (snd (fst e)) + n) 0 l.

Lemma run_accounts (l : list (Policy Trie * list Z * Z)) (k : PerCpu) (s : stats) (b np nd : Z) (rs : list Z) :
  Forall (fun e => Forall is_u8 (snd (fst e))) l -> counters k = Some s -> accounts s b np nd rs -> reasons_ok rs np nd ->
  exists al k' s' rs', xdp_run k l = Some (al, k') /\ counters k' = Some s' /\ length al = length l /\
    accounts s' (b + frames_bytes l) (np + tally XDP_PASS al) (nd + tally XDP_DROP al) rs' /\
    reasons_ok rs' (np + tally XDP_PASS al) (nd + tally XDP_DROP al).
Proof.
  revert k s b np nd rs. induction l as [| [[m d] now] l IH]; intros k s b np nd rs Bs K A R.
  - exists [], k, s, rs. cbn. rewrite !Z.add_0_r. auto.
  - apply Forall_cons_1 in Bs as [B Bs]. cbn [fst snd] in B.
    destruct (xddp_outcome m k s d now B K) as ([a k1] & E & s1 & why & o' & D & C & Aa & Ak).
    pose proof (result_accounts s s1 (configuration m) why now b np nd d rs A R C (decision_reason m d _ o' now why D)) as X.
    destruct (xdp_result s1 (configuration m) why now) as [a' s2]. cbn [fst snd] in Aa, Ak. subst a' k1.
    destruct X as (rs1 & A1 & R1). destruct (IH (mk_percpu (Some s2) o') s2 _ _ _ rs1 Bs eq_refl A1 R1) as (al & k' & s' & rs' & E' & K' & L & A' & R').
    exists (a :: al), k', s', rs'. cbn [xdp_run]. rewrite E. cbn [mbind option_bind]. rewrite E'. cbn.
    unfold frames_bytes in *. cbn [foldr fst snd]. rewrite !Z.add_assoc. now split_and!; [| | f_equal | |].
Qed.
End Run.

(** C36: The counters of a CPU account for every frame. From zeroed counters, whatever the frames and the
    policies they meet, the filter returns an action for each; the number and bytes of received frames, of
    passed and of dropped frames are counted modulo [2 ^ 64], received being passed plus dropped; every
    dropped frame has been counted under a reason; and only the reasons that occur are ever counted: none,
    [R_MALFORMED_L2], [R_SOURCE_RATE], [R_PREFIX_RATE] and [R_GLOBAL_RATE] stay zero. *)
Theorem xdp_accounting {Trie : Type} `{Lpm Trie} (l : list (Policy Trie * list Z * Z)) (o : option bucket) :
  Forall (fun e => Forall is_u8 (snd (fst e))) l ->
  exists al k s rs, xdp_run (mk_percpu (Some stats0) o) l = Some (al, k) /\ counters k = Some s /\ length al = length l /\
    accounts s (frames_bytes l) (tally XDP_PASS al) (tally XDP_DROP al) rs /\
    reasons_ok rs (tally XDP_PASS al) (tally XDP_DROP al).
Proof.
  intros B. destruct (run_accounts l (mk_percpu (Some stats0) o) stats0 0 0 0 (replicate 14 0) B eq_refl) as (al & k & s & rs & X).
  - now split_and!.
  - split_and!; [done | repeat constructor; done | done | done |]. intros i Hi. cbn in Hi.
    repeat (destruct Hi as [<- | Hi]; [done |]). destruct Hi.
  - exists al, k, s, rs. now rewrite !Z.add_0_l in X.
Qed.

(** ** The budget for new connections *)

Section Budget.
Variable c : config.
Hypothesis rate_u32 : 0 < syn_rate c < 2 ^ 32.
Hypothesis burst_u32 : 0 < syn_burst c < 2 ^ 32.

Definition used_rate : Z := if syn_rate c >? 1000000000 then 1000000000 else syn_rate c.
Definition used_burst : Z := if syn_burst c >? 1000000 then 1000000 else syn_burst c.
Definition syn_cap : Z := syn_cost used_rate * used_burst.

Lemma used_rate_range : 1 <= used_rate <= 1000000000 /\ used_rate <= syn_rate c.
Proof using rate_u32. unfold used_rate. destruct (Z.gtb_spec (syn_rate c) 1000000000); lia. Qed.
Lemma used_burst_range : 1 <= used_burst <= 1000000 /\ used_burst <= syn_burst c.
Proof using burst_u32. unfold used_burst. destruct (Z.gtb_spec (syn_burst c) 1000000); lia. Qed.

(** The cost of a connection is a billionth of a second over the rate, rounded up. *)
Lemma syn_cost_range : 1 <= syn_cost used_rate <= 1000000000 /\ 1000000000 <= syn_cost used_rate * used_rate.
Proof using rate_u32.
  destruct used_rate_range as [R _]. unfold syn_cost. generalize dependent used_rate. intros r R.
  pose proof (Z.div_mod (1000000000 + r - 1) r ltac:(lia)) as E. pose proof (Z.mod_pos_bound (1000000000 + r - 1) r ltac:(lia)) as B.
  split; [| nia]. split; [apply Z.div_le_lower_bound; lia |].
  apply Z.lt_succ_r, Z.div_lt_upper_bound; nia.
Qed.

Lemma syn_cap_range : syn_cost used_rate <= syn_cap <= 1000000000000000.
Proof using rate_u32 burst_u32.
  unfold syn_cap. destruct syn_cost_range as [? _], used_burst_range as [? _]. nia.
Qed.

(** A bucket at time [t]: unused, made for other settings, or with at most [syn_cap] credit from the past. *)
Definition bucket_at (t : Z) (b : bucket) : Prop :=
  0 <= last_ns b <= t /\
  (last_ns b = 0 \/ rate b <> used_rate \/ burst b <> used_burst \/ 0 <= credit_ns b <= syn_cap).

(** What a bucket can still spend by the time [now]. *)
Definition credit_by (now : Z) (b : bucket) : Z :=
  if (last_ns b =? 0) || negb (rate b =? used_rate) || negb (burst b =? used_burst) then syn_cap
  else Z.min syn_cap (credit_ns b + (now - last_ns b)).

(** [syn_allowed], without machine arithmetic. *)
Lemma syn_allowed_exact (b : bucket) (now : Z) :
  bucket_at now b -> 0 < now < 2 ^ 64 ->
  syn_allowed c (Some b) now =
    (let credit := credit_by now b in
     if credit <? syn_cost used_rate then (false, Some (mk_bucket now credit used_rate used_burst))
     else (true, Some (mk_bucket now (credit - syn_cost used_rate) used_rate used_burst))).
Proof using rate_u32 burst_u32.
  intros [L B] N. unfold syn_allowed. rewrite !(proj2 (Z.eqb_neq _ _)) by lia. cbn [orb]. fold used_rate used_burst.
  pose proof syn_cap_range as C. pose proof syn_cost_range as K.
  rewrite (wrap_small 64 (_ * used_burst)) by (fold syn_cap; lia). fold syn_cap. unfold credit_by.
  destruct (_ || _) eqn:G; [reflexivity |]. breflect.
  assert (0 <= credit_ns b <= syn_cap) by (destruct B as [B | [B | [B | B]]]; [lia | congruence | congruence | lia]).
  rewrite (wrap_small 64 (now - last_ns b)) by lia.
  match goal with |- (if ?x <? _ then _ else _) = _ => assert (E : x = Z.min syn_cap (credit_ns b + (now - last_ns b))) end.
  { destruct (Z.gtb_spec (now - last_ns b) syn_cap).
    - rewrite Z.sub_diag. destruct (Z.gtb_spec (credit_ns b) 0); [lia |]. rewrite wrap_small by lia. lia.
    - destruct (Z.gtb_spec (credit_ns b) (syn_cap - (now - last_ns b))); [lia |]. rewrite wrap_small by lia. lia. }
  now rewrite E.
Qed.

Lemma credit_by_range (t : Z) (b : bucket) : bucket_at t b -> 0 <= credit_by t b <= syn_cap.
Proof using rate_u32 burst_u32.
  intros [L B]. unfold credit_by. pose proof syn_cap_range. pose proof syn_cost_range. destruct (_ || _) eqn:G; [lia |]. breflect.
  destruct B as [B | [B | [B | B]]]; [lia | congruence | congruence | lia].
Qed.

(** Credit grows no faster than time. *)
Lemma credit_by_later (t t' : Z) (b : bucket) :
  bucket_at t b -> t <= t' -> bucket_at t' b /\ credit_by t' b <= credit_by t b + (t' - t).
Proof using Type.
  intros [L B] T. split; [split; [lia | done] |]. unfold credit_by. destruct (_ || _); lia.
Qed.

(** A use of the budget at [now] spends the cost of what it grants. *)
Lemma syn_allowed_spends (b : bucket) (now : Z) :
  bucket_at now b -> 0 < now < 2 ^ 64 ->
  exists g b', syn_allowed c (Some b) now = (g, Some b') /\ bucket_at now b' /\
    credit_by now b' + (if g then syn_cost used_rate else 0) = credit_by now b.
Proof using rate_u32 burst_u32.
  intros B N. rewrite (syn_allowed_exact b now B N). pose proof (credit_by_range now b B) as R. pose proof syn_cost_range as [K _].
  assert (X : forall x, 0 <= x <= syn_cap -> bucket_at now (mk_bucket now x used_rate used_burst) /\
    credit_by now (mk_bucket now x used_rate used_burst) = x).
  { intros x Hx. split; [split; cbn; [lia | auto] |]. unfold credit_by. cbn [last_ns rate burst credit_ns].
    rewrite !Z.eqb_refl, (proj2 (Z.eqb_neq now 0)) by lia. cbn. lia. }
  cbv zeta. destruct (Z.ltb_spec (credit_by now b) (syn_cost used_rate)).
  - destruct (X (credit_by now b)) as [Y Z]; [lia |]. do 2 eexists. split; [reflexivity |]. split; [exact Y | lia].
  - destruct (X (credit_by now b - syn_cost used_rate)) as [Y Z]; [lia |]. do 2 eexists. split; [reflexivity |].
    split; [exact Y | lia].
Qed.

(** After a pause of one cost a connection is granted. *)
Lemma syn_allowed_after_pause (b : bucket) (now : Z) :
  bucket_at now b -> 0 < now < 2 ^ 64 -> last_ns b + syn_cost used_rate <= now -> fst (syn_allowed c (Some b) now) = true.
Proof using rate_u32 burst_u32.
  intros B N P. rewrite (syn_allowed_exact b now B N). cbv zeta. pose proof syn_cap_range as C.
  enough (syn_cost used_rate <= credit_by now b) by (now destruct (Z.ltb_spec (credit_by now b) (syn_cost used_rate)); [lia |]).
  unfold credit_by. destruct (_ || _) eqn:G; [lia |]. breflect. destruct B as [L [B | [B | [B | B]]]]; try congruence; lia.
Qed.

Section Frames.
Context {Trie : Type} `{Lpm Trie}.

(** A frame that opens a connection and pays for it from the budget. *)
Definition charged (m : Policy Trie) (d : list Z) : Prop :=
  exists q, protected_frame m d c q /\ is_syn q = true /\ in_trie (allow m) (src q) = false.

(** Frames at successive times on one CPU while the same configuration is enforced, and how many new
    connections have passed at the budget's expense. *)
Inductive syn_run (t0 : Z) (k0 : PerCpu) : Z -> PerCpu -> Z -> Prop :=
| syn_start : syn_run t0 k0 t0 k0 0
| syn_frame t k n m d now a k' g :
    syn_run t0 k0 t k n -> t <= now < 2 ^ 64 -> Forall is_u8 d -> configuration m = Some c ->
    enforced (Some c) now = true -> xddp m k d now = Some (a, k') ->
    (g = 1 /\ charged m d /\ a = XDP_PASS) \/ (g = 0 /\ ~ (charged m d /\ a = XDP_PASS)) ->
    syn_run t0 k0 now k' (n + g).

Lemma decision_budget (m : Policy Trie) (d : list Z) (o o' : option bucket) (now why : Z) :
  configuration m = Some c -> decision m d o now why o' -> o' = o \/ o' = snd (syn_allowed c o now).
Proof using Type.
  intros C D. destruct D as [| | | | | | c' p q why o' S F T X Y P]; auto.
  assert (c' = c) as -> by (destruct S as (_ & _ & _ & C' & _); congruence).
  unfold protected_tcp in P. destruct (_ && _); [injection P; auto |]. destruct (in_trie _ _); [injection P; auto |].
  destruct (lpm_lookup _ _); [injection P; auto |]. destruct (is_syn q); [| injection P; auto].
  destruct (syn_allowed c o now) as [g u]. injection P as _ <-. auto.
Qed.

(** A charged frame passes only if the budget grants it. *)
Lemma charged_granted (m : Policy Trie) (k k' : PerCpu) (s : stats) (d : list Z) (now : Z) :
  Forall is_u8 d -> counters k = Some s -> charged m d -> enforced (Some c) now = true ->
  xddp m k d now = Some (XDP_PASS, k') -> syn_allowed c (syn_budget k) now = (true, syn_budget k').
Proof using Type.
  intros B K (q & P & Sy & Al) En E. pose proof (protected_outcome m k s d now c q _ B K P E) as O.
  destruct (protected_tcp m c q (syn_budget k) now) as [why o] eqn:W. destruct O as (s1 & _ & A & N). cbn [fst snd] in A, N.
  pose proof (protected_tcp_range m c q _ o now why W) as R. rewrite N. cbn [syn_budget].
  assert (why = 0) as ->.
  { destruct (decide (why = 0)) as [| Nz]; [done |]. apply (result_drop s1 (Some c) why now En R) in Nz. congruence. }
  unfold protected_tcp in W. rewrite Sy, Al in W. destruct (_ && _) in W; [discriminate |].
  destruct (lpm_lookup _ _); [destruct (_ =? _) in W; discriminate |].
  destruct (syn_allowed c _ now) as [[] u]; [now injection W as -> | discriminate].
Qed.

(** What a run has spent, and what is left, is at most one cap and the time that has passed. *)
Lemma syn_run_spends (t0 t n : Z) (k0 k : PerCpu) (s : stats) (b : bucket) :
  0 < t0 -> counters k0 = Some s -> syn_budget k0 = Some b -> bucket_at t0 b -> syn_run t0 k0 t k n ->
  t0 <= t /\ 0 <= n /\ exists s' b', counters k = Some s' /\ syn_budget k = Some b' /\ bucket_at t b' /\
    n * syn_cost used_rate + credit_by t b' <= syn_cap + (t - t0).
Proof using rate_u32 burst_u32.
  intros T0 K B Ok R. induction R as [| t k n m d now a k' g R IH T Bs C En E G].
  { split_and!; [lia | lia |]. exists s, b. split_and!; auto. pose proof (credit_by_range t0 b Ok). lia. }
  destruct IH as (Tt & N & s1 & b1 & K1 & B1 & Ok1 & I). destruct (credit_by_later t now b1 Ok1 ltac:(lia)) as [Ok2 L].
  destruct (syn_allowed_spends b1 now Ok2 ltac:(lia)) as (gr & b2 & Sa & Ok3 & Sp).
  destruct (xddp_outcome m k s1 d now Bs K1) as (r & E' & s2 & why & o' & D & _ & _ & Ak). rewrite E in E'. injection E' as <-.
  cbn [snd] in Ak. split; [lia |]. destruct G as [(-> & Ch & ->) | (-> & _)].
  - pose proof (charged_granted m k k' s1 d now Bs K1 Ch En E) as X. rewrite B1, Sa in X. injection X as -> X.
    split; [lia |]. exists (snd (xdp_result s2 (configuration m) why now)), b2. subst k'. cbn in X |- *. split_and!; auto. lia.
  - split; [lia |]. rewrite B1 in D. destruct (decision_budget m d _ o' now why C D) as [-> | ->]; subst k'; cbn.
    + eexists _, b1. split_and!; auto. lia.
    + rewrite Sa. eexists _, b2. split_and!; auto. pose proof syn_cost_range. destruct gr; lia.
Qed.
End Frames.
End Budget.

(** C18: The budget for new connections holds. Over any run of frames on one CPU at successive times, under one
    enforced configuration with a rate and a burst, the connections that pass at the budget's expense are
    at most the burst plus the rate times the time that has passed, whatever else arrives and
    whatever bucket of the past the run starts from; and after the run a pause of one cost is always
    enough for the next connection to be granted. *)
Theorem xdp_syn_budget {Trie : Type} `{Lpm Trie} (c : config) (t0 t n : Z) (k0 k : PerCpu) (s : stats) (b : bucket) :
  0 < syn_rate c < 2 ^ 32 -> 0 < syn_burst c < 2 ^ 32 ->
  0 < t0 -> counters k0 = Some s -> syn_budget k0 = Some b -> bucket_at c t0 b -> syn_run c t0 k0 t k n ->
  (n - syn_burst c) * 1000000000 <= syn_rate c * (t - t0) /\
  forall now, t + syn_cost (used_rate c) <= now < 2 ^ 64 -> fst (syn_allowed c (syn_budget k) now) = true.
Proof.
  intros Ra Bu T0 K B Ok R. destruct (syn_run_spends c Ra Bu t0 t n k0 k s b T0 K B Ok R) as (T & N & s' & b' & _ & B' & Ok' & I).
  pose proof (credit_by_range c Ra Bu t b' Ok') as Cr. destruct (syn_cost_range c Ra) as [C1 C2].
  destruct (used_rate_range c Ra) as [_ U], (used_burst_range c Bu) as [_ V]. split.
  - unfold syn_cap in I. assert ((n - used_burst c) * syn_cost (used_rate c) <= t - t0) by lia.
    destruct (Z.le_gt_cases n (syn_burst c)); [nia |].
    assert (X : (n - syn_burst c) * syn_cost (used_rate c) <= t - t0) by nia.
    assert (Y : 1000000000 <= syn_cost (used_rate c) * syn_rate c) by nia.
    apply (Z.mul_le_mono_nonneg_l _ _ (syn_rate c)) in X; [| lia].
    apply (Z.mul_le_mono_nonneg_l _ _ (n - syn_burst c)) in Y; lia.
  - intros now Hn. rewrite B'. apply (syn_allowed_after_pause c Ra Bu); [| lia |].
    + apply (credit_by_later c t); [done | lia].
    + destruct Ok' as [? _]. lia.
Qed.
