(* ===== verification/XdpTable.v ===== *)
(** * The filter's decision table

    What the filter does with a frame, stated on the declared layout of frames and on the bytes of the transport header,
    without the program's functions: which reason a frame is dropped for, what it costs the budget, which
    counters it raises, and whether the lease enforces the drop. *)
From stdpp Require Import base option list gmap.
From S2P Require Import Prelude Machine XdpParse XdpFrame XdpFilter XdpProps XdpRun.
From Stdlib Require Import ZArith Lia.
Local Open Scope Z_scope.

(** ** Frames *)

Definition at_ (d : list Z) (i : Z) : Z := nth (Z.to_nat i) d 0.
Definition word (d : list Z) (i : Z) : Z := at_ d i * 256 + at_ d (i + 1).

(** An IP packet in a frame of the declared layout. *)
Definition ip_frame (d : list Z) (p : packet) : Prop := ipv4_frame d p \/ ipv6_frame d p.

(** A frame whose fixed IP header is there, so that its destination is known, but whose lengths are wrong: the
    reason and the destination. *)
Inductive damaged (d : list Z) : Z -> prefix_key -> Prop :=
| damaged_v4 macs tags pl :
    ether_wf macs tags -> d = ether macs tags 0x0800 ++ pl -> 20 <= frame_len pl -> at_ pl 0 / 16 = 4 ->
    (let header := at_ pl 0 mod 16 * 4 in
     header < 20 \/ word pl 2 < header \/ frame_len pl < header \/ frame_len pl < word pl 2) ->
    damaged d 2 (key_of 64 4 (take 4 (drop 16 pl)))
| damaged_v6 macs tags pl :
    ether_wf macs tags -> d = ether macs tags 0x86dd ++ pl -> 40 <= frame_len pl -> at_ pl 0 / 16 = 6 ->
    frame_len pl < 40 + word pl 4 ->
    damaged d 12 (key_of 160 6 (take 16 (drop 24 pl))).

(** The header of TCP, and of UDP, in a packet. *)
Definition tcp_flag (d : list Z) (p : packet) (bit : Z) : bool := Z.testbit (at_ d (l4 p + 13)) bit.
Definition fin (d : list Z) (p : packet) : bool := tcp_flag d p 0.
Definition syn (d : list Z) (p : packet) : bool := tcp_flag d p 1.
Definition rst (d : list Z) (p : packet) : bool := tcp_flag d p 2.
Definition ack (d : list Z) (p : packet) : bool := tcp_flag d p 4.
Definition to_port (d : list Z) (p : packet) : Z := word d (l4 p + 2).

Definition tcp_ok (d : list Z) (p : packet) : Prop :=
  l4 p + 20 <= ip_end p /\
  (let header := at_ d (l4 p + 12) / 16 * 4 in 20 <= header /\ l4 p + header <= ip_end p) /\
  (syn d p = true -> fin d p = false /\ rst d p = false) /\ (fin d p = true -> rst d p = false).
Definition udp_ok (d : list Z) (p : packet) : Prop :=
  l4 p + 8 <= ip_end p /\ 8 <= word d (l4 p + 4) /\ l4 p + word d (l4 p + 4) <= ip_end p.

(** It opens a connection. *)
Definition opens (d : list Z) (p : packet) : bool := syn d p && negb (ack d p).

(** ** The budget *)

(** What the budget of a configuration is: its rate and burst within the limits, and a billionth of a second over the rate, rounded up. *)
Record terms (c : config) (r n cost : Z) : Prop := {
  tm_rate : r = Z.min (syn_rate c) 1000000000; tm_burst : n = Z.min (syn_burst c) 1000000;
  tm_cost : (cost - 1) * r < 1000000000 <= cost * r }.

(** What a bucket has saved by [now]: it is full when it is new or was kept for other terms, and otherwise gains the time that
    has passed, up to the burst. *)
Definition saved (b : bucket) (r n cost now : Z) : Z :=
  if bool_decide (last_ns b = 0 \/ rate b <> r \/ burst b <> n) then cost * n
  else Z.min (cost * n) (credit_ns b + (now - last_ns b) mod 2 ^ 64).

Section Table.
Context {Trie : Type} `{Lpm Trie}.
Variables (m : Policy Trie) (d : list Z) (o : option bucket) (now : Z).

(** ** The table *)

(** An address of ours that the configuration covers. *)
Definition ours (c : config) (k : prefix_key) : Prop :=
  lpm_lookup (owned m) k <> None /\ (family k = 6 -> ipv6 c <> 0).

(** A packet that is subject to the policy. *)
Record managed (c : config) (p : packet) : Prop := {
  mg_ip : ip_frame d p; mg_icmp : proto p <> 1 /\ proto p <> 58;
  mg_config : configuration m = Some c; mg_ours : ours c (dst p) }.

(** The policy of the destination port has a bit set. *)
Definition port_bit (p : packet) (bit : Z) : Prop := exists v, ports m !! to_port d p = Some v /\ Z.testbit v bit = true.

(** EMERGENCY freezes the packet. *)
Definition frozen (c : config) (p : packet) : Prop :=
  opens d p = true /\ abi c = 2 /\ mode c = 3 /\ now < lease_ns c.

(** A TCP packet to a protected port. *)
Inductive guarded (c : config) (p : packet) : Z -> option bucket -> Prop :=
| gd_frozen : frozen c p -> guarded c p 13 o
| gd_allowed v : ~ frozen c p -> lpm_lookup (allow m) (src p) = Some v -> guarded c p 0 o
| gd_bogon : ~ frozen c p -> lpm_lookup (allow m) (src p) = None -> lpm_lookup (block m) (src p) = Some 5 -> guarded c p 5 o
| gd_blocked v : ~ frozen c p -> lpm_lookup (allow m) (src p) = None -> lpm_lookup (block m) (src p) = Some v -> v <> 5 ->
    guarded c p 11 o
| gd_established : opens d p = false -> lpm_lookup (allow m) (src p) = None -> lpm_lookup (block m) (src p) = None -> guarded c p 0 o
| gd_unlimited : ~ frozen c p -> lpm_lookup (allow m) (src p) = None -> lpm_lookup (block m) (src p) = None ->
    opens d p = true -> syn_rate c = 0 \/ syn_burst c = 0 \/ o = None -> guarded c p 0 o
| gd_granted b r n cost : ~ frozen c p -> lpm_lookup (allow m) (src p) = None -> lpm_lookup (block m) (src p) = None ->
    opens d p = true -> syn_rate c <> 0 -> syn_burst c <> 0 -> o = Some b -> terms c r n cost ->
    cost <= saved b r n cost now -> guarded c p 0 (Some (mk_bucket now (saved b r n cost now - cost) r n))
| gd_over b r n cost : ~ frozen c p -> lpm_lookup (allow m) (src p) = None -> lpm_lookup (block m) (src p) = None ->
    opens d p = true -> syn_rate c <> 0 -> syn_burst c <> 0 -> o = Some b -> terms c r n cost ->
    saved b r n cost now < cost -> guarded c p 7 (Some (mk_bucket now (saved b r n cost now) r n)).

(** The reason to drop the frame, 0 for none, and the budget afterwards. *)
Inductive verdict : Z -> option bucket -> Prop :=
| vd_damaged why k c : damaged d why k -> configuration m = Some c -> abi c = 2 -> ours c k -> verdict why o
| vd_not_ip : (forall p, ~ ip_frame d p) ->
    (forall why k c, damaged d why k -> configuration m = Some c -> abi c = 2 -> ~ ours c k) -> verdict 0 o
| vd_icmp p : ip_frame d p -> proto p = 1 \/ proto p = 58 -> verdict 0 o
| vd_foreign p : ip_frame d p -> (forall c, configuration m = Some c -> ~ ours c (dst p)) -> verdict 0 o
| vd_fragment_tcp c p : managed c p -> fragment p = true -> proto p = 6 -> drop_tcp_fragments c <> 0 -> verdict 6 o
| vd_fragment c p : managed c p -> fragment p = true -> proto p <> 6 \/ drop_tcp_fragments c = 0 -> verdict 0 o
| vd_deferred c p : managed c p -> fragment p = false -> deferred p = true -> verdict 0 o
| vd_bad_tcp c p : managed c p -> fragment p = false -> deferred p = false -> proto p = 6 -> ~ tcp_ok d p -> verdict 3 o
| vd_bad_udp c p : managed c p -> fragment p = false -> deferred p = false -> proto p = 17 -> ~ udp_ok d p -> verdict 12 o
| vd_other c p : managed c p -> fragment p = false -> deferred p = false -> proto p <> 6 -> proto p <> 17 -> verdict 0 o
| vd_closed_tcp c p : managed c p -> fragment p = false -> deferred p = false -> proto p = 6 -> tcp_ok d p -> port_bit p 1 ->
    verdict 4 o
| vd_closed_udp c p : managed c p -> fragment p = false -> deferred p = false -> proto p = 17 -> udp_ok d p -> port_bit p 2 ->
    verdict 4 o
| vd_udp c p : managed c p -> fragment p = false -> deferred p = false -> proto p = 17 -> udp_ok d p -> ~ port_bit p 2 -> verdict 0 o
| vd_tcp c p : managed c p -> fragment p = false -> deferred p = false -> proto p = 6 -> tcp_ok d p -> ~ port_bit p 1 ->
    ~ port_bit p 0 -> verdict 0 o
| vd_guarded c p why o' : managed c p -> fragment p = false -> deferred p = false -> proto p = 6 -> tcp_ok d p -> ~ port_bit p 1 ->
    port_bit p 0 -> guarded c p why o' -> verdict why o'.

(** The drop is enforced: by a lease of this version that runs and does not only observe. *)
Definition in_force : Prop := exists c, configuration m = Some c /\ abi c = 2 /\ observe c = 0 /\ now < lease_ns c.

(** ** The counters *)

(** A 64-bit counter is raised exactly when [P] holds. *)
Definition raised (P : Prop) (x y : Z) : Prop := (P /\ y = (x + 1) mod 2 ^ 64) \/ (~ P /\ y = x).

Record booked (why : Z) (dropped : Prop) (s s' : stats) : Prop := {
  bk_packets : rx_packets s' = (rx_packets s + 1) mod 2 ^ 64;
  bk_bytes : rx_bytes s' = (rx_bytes s + frame_len d) mod 2 ^ 64;
  bk_drop : raised dropped (drop_packets s) (drop_packets s');
  bk_pass : raised (~ dropped) (pass_packets s) (pass_packets s');
  bk_icmp : raised (exists p, ip_frame d p /\ (proto p = 1 \/ proto p = 58)) (icmp_packets s) (icmp_packets s');
  bk_udp : raised (exists p, ip_frame d p /\ proto p = 17) (udp_packets s) (udp_packets s');
  bk_deferred : raised (exists p, ip_frame d p /\ proto p <> 1 /\ proto p <> 58 /\ deferred p = true) (ipv6_deferred s) (ipv6_deferred s');
  bk_syn : raised (exists c p, managed c p /\ fragment p = false /\ deferred p = false /\ proto p = 6 /\ tcp_ok d p /\
     ~ port_bit p 1 /\ port_bit p 0 /\ opens d p = true) (syn_packets s) (syn_packets s');
  bk_reasons : length (reasons s') = length (reasons s) /\
    forall i x y, reasons s !! i = Some x -> reasons s' !! i = Some y -> raised (why <> 0 /\ Z.of_nat i = why) x y }.
End Table.

(** ** Damaged headers *)

Lemma high_nibble (b k : Z) : Z.shiftr b 4 = k <-> b / 16 = k.
Proof. now rewrite Z.shiftr_div_pow2 by lia. Qed.
Lemma low_nibble (b : Z) : Z.land b 15 = b mod 16.
Proof. exact (Z.land_ones b 4 ltac:(lia)). Qed.

(** What [parse_ipv4] refuses with a destination. *)
Lemma parse_ipv4_damaged (pre pl : list Z) (r : Z) (p : packet) :
  Forall is_u8 pl -> 
  (parse_ipv4 (pre ++ pl) (frame_len pre) = Some (r, p) /\ r <> 0 /\ family (dst p) <> 0) <->
  r = -2 /\ 20 <= frame_len pl /\ at_ pl 0 / 16 = 4 /\
  (let header := at_ pl 0 mod 16 * 4 in
   header < 20 \/ word pl 2 < header \/ frame_len pl < header \/ frame_len pl < word pl 2) /\
  p = with_dst packet0 (key_of 64 4 (take 4 (drop 16 pl))).
Proof.
  intros B. destruct (Z_le_gt_dec 20 (frame_len pl)) as [G | G].
  2: { split; [| lia]. intros (E & R & F). exfalso. unfold parse_ipv4 in E. rewrite frame_len_app in E.
       destruct (_ >? _) eqn:C; [injection E as <- <-; now destruct F | breflect; lia]. }
  destruct (split20 pl G) as (b0 & b1 & b2 & b3 & b4 & b5 & b6 & b7 & b8 & b9 & b10 & b11 & s0 & s1 & s2 & s3 & d0 & d1 & d2 & d3 & t & ->).
  rewrite parse_ipv4_fields. cbv zeta. rewrite !Forall_app, !Forall_cons in B. destruct B as ((B0 & _ & B2 & B3 & _) & _).
  set (pl := [_; _; _; _; _; _; _; _; _; _; _; _; _; _; _; _; _; _; _; _] ++ t) in *.
  change (at_ pl 0) with b0. change (word pl 2) with (b2 * 256 + b3). change (take 4 (drop 16 pl)) with [d0; d1; d2; d3].
  rewrite low_nibble, from_be_bytes_val by done. destruct (Z.eqb_spec (Z.shiftr b0 4) 4) as [V | V]; cbn [negb].
  2: { rewrite high_nibble in V. split; [intros (E & _ & F); injection E as <- <-; now destruct F | tauto]. }
  rewrite high_nibble in V. destruct (_ || _) eqn:C.
  - split; [intros (E & _ & _); injection E as <- <- | intros (-> & _ & _ & _ & ->); now split_and!].
    split_and!; auto. repeat (apply orb_true_iff in C as [C | C]); breflect; lia.
  - split; [intros (E & R & _); injection E as <- _; done |]. intros (_ & _ & _ & D & _). exfalso. breflect. lia.
Qed.

(** What [parse_ipv6] refuses with a destination. *)
Lemma parse_ipv6_damaged (pre pl : list Z) (r : Z) (p : packet) :
  Forall is_u8 pl ->
  (parse_ipv6 (pre ++ pl) (frame_len pre) = Some (r, p) /\ r <> 0 /\ family (dst p) <> 0) <->
  r = -12 /\ 40 <= frame_len pl /\ at_ pl 0 / 16 = 6 /\ frame_len pl < 40 + word pl 4 /\
  p = with_dst packet0 (key_of 160 6 (take 16 (drop 24 pl))).
Proof.
  intros B. destruct (Z_le_gt_dec 40 (frame_len pl)) as [G | G].
  2: { split; [| lia]. intros (E & R & F). exfalso. unfold parse_ipv6 in E. rewrite frame_len_app in E.
       destruct (_ >? _) eqn:C; [injection E as <- <-; now destruct F | breflect; lia]. }
  destruct (split_at 8 pl ltac:(lia)) as (hd & r1 & -> & Lh). rewrite frame_len_app in G. unfold frame_len in G. rewrite Lh in G.
  destruct hd as [| b0 [| f1 [| f2 [| f3 [| b4 [| b5 [| b6 [| b7 [|]]]]]]]]]; try discriminate.
  destruct (split_at 16 r1 ltac:(unfold frame_len; lia)) as (sa & r2 & -> & Ls). rewrite length_app in G.
  destruct (split_at 16 r2 ltac:(unfold frame_len; lia)) as (da & t & -> & Ld).
  assert (Td : take 16 (drop 24 ([b0; f1; f2; f3; b4; b5; b6; b7] ++ sa ++ da ++ t)) = da).
  { change (drop 24 _) with (drop 16 (sa ++ da ++ t)). rewrite drop_app_length' by done. now apply take_app_length'. }
  pose proof (parse_ipv6_fields pre [f1; f2; f3] sa da t b0 b4 b5 b6 b7 eq_refl Ls Ld) as F.
  set (pl := [b0; f1; f2; f3; b4; b5; b6; b7] ++ sa ++ da ++ t) in *. change ([b0] ++ _) with pl in F. cbv zeta in F. rewrite F. clear F.
  rewrite Td. change (at_ pl 0) with b0. change (word pl 4) with (b4 * 256 + b5).
  apply Forall_app in B as [B _]. rewrite !Forall_cons in B. destruct B as (_ & _ & _ & _ & B4 & B5 & _).
  rewrite from_be_bytes_val by done. destruct (Z.eqb_spec (Z.shiftr b0 4) 6) as [V | V]; cbn [negb]; rewrite high_nibble in V.
  2: { split; [intros (E & _ & Fa); injection E as <- <-; now destruct Fa | tauto]. }
  assert (40 <= frame_len pl) by (unfold pl, frame_len; rewrite !length_app, Ls, Ld; cbn [length]; lia).
  destruct (_ >? _) eqn:C; breflect.
  - split; [intros (E & _ & _); injection E as <- <-; split_and!; auto; lia | intros (-> & _ & _ & _ & ->); now split_and!].
  - split; [intros (E & R & _); injection E as <- _; done | lia].
Qed.

(** A damaged frame is one that the parser refuses with a destination. *)
Lemma damaged_parsed (d : list Z) (why : Z) (k : prefix_key) :
  Forall is_u8 d -> damaged d why k <-> exists p, parse_ip d = Some (- why, p) /\ why <> 0 /\ dst p = k /\ family k <> 0.
Proof.
  intros B. split.
  - intros [macs tags pl W -> G V X | macs tags pl W -> G V X]; apply Forall_app in B as [_ B].
    + rewrite parse_ether by (unfold is_u16; (done || lia)). cbn [Z.eqb Pos.eqb].
      destruct (proj2 (parse_ipv4_damaged (ether macs tags 2048) pl (-2) (with_dst packet0 (key_of 64 4 (take 4 (drop 16 pl)))) B)) as (E & _ & F); [split_and!; auto |].
      rewrite E. eexists. split_and!; [reflexivity | done | reflexivity | done].
    + rewrite parse_ether by (unfold is_u16; (done || lia)). cbn [Z.eqb Pos.eqb].
      destruct (proj2 (parse_ipv6_damaged (ether macs tags 34525) pl (-12) (with_dst packet0 (key_of 160 6 (take 16 (drop 24 pl)))) B)) as (E & _ & F); [split_and!; auto |].
      rewrite E. eexists. split_and!; [reflexivity | done | reflexivity | done].
  - intros (p & E & N & <- & F). assert (N' : - why <> 0) by lia. destruct (parse_ip_frame d _ p B E (or_intror F)) as (macs & tags & type & pl & W & -> & T).
    apply Forall_app in B as [_ B].
    rewrite parse_ether in E; [| done | destruct T as [-> | ->]; unfold is_u16; lia | now destruct T as [-> | ->]].
    destruct T as [-> | ->]; cbn [Z.eqb Pos.eqb] in E.
    + destruct (proj1 (parse_ipv4_damaged _ pl _ p B) (conj E (conj N' F))) as (R & G & V & X & ->).
      replace why with 2 by lia. now apply (damaged_v4 _ macs tags pl).
    + destruct (proj1 (parse_ipv6_damaged _ pl _ p B) (conj E (conj N' F))) as (R & G & V & X & ->).
      replace why with 12 by lia. now apply (damaged_v6 _ macs tags pl).
Qed.

(** ** Transport headers *)

Lemma load_at (d : list Z) (i : Z) : 0 <= i < frame_len d -> load d i = Some (at_ d i).
Proof.
  intros H. destruct (load_some d i H) as (b & -> & E). unfold at_. f_equal. symmetry. now apply nth_lookup_Some.
Qed.
Lemma at_u8 (d : list Z) (i : Z) : Forall is_u8 d -> is_u8 (at_ d i).
Proof.
  intros B. unfold at_. destruct (List.nth_in_or_default (Z.to_nat i) d 0) as [I | ->]; [| unfold is_u8; lia].
  now apply (proj1 (List.Forall_forall is_u8 d) B).
Qed.
Lemma be16_word (d : list Z) (i : Z) : Forall is_u8 d -> 0 <= i -> i + 2 <= frame_len d -> be16 d i = Some (word d i).
Proof.
  intros B H1 H2. unfold be16. rewrite !load_at by lia. cbn [mbind option_bind]. now rewrite from_be_bytes_val by now apply at_u8.
Qed.

Lemma every_u8 (f : Z -> bool) : forallb f (map Z.of_nat (seq 0 256)) = true -> forall v, is_u8 v -> f v = true.
Proof.
  intros A v V. rewrite List.forallb_forall in A. apply A. apply List.in_map_iff. exists (Z.to_nat v). unfold is_u8 in V.
  split; [lia |]. apply List.in_seq. lia.
Qed.

Lemma syn_only (v : Z) : is_u8 v -> (Z.land v 0x12 =? 0x02) = Z.testbit v 1 && negb (Z.testbit v 4).
Proof.
  intros V. apply eqb_prop. revert v V. apply every_u8. vm_compute. reflexivity.
Qed.
Lemma bad_flags (v : Z) : is_u8 v ->
  (negb (Z.land v 2 =? 0) && negb (Z.land v 5 =? 0)) || (Z.land v 5 =? 5) =
  (Z.testbit v 1 && (Z.testbit v 0 || Z.testbit v 2)) || (Z.testbit v 0 && Z.testbit v 2).
Proof.
  intros V. apply eqb_prop. revert v V. apply every_u8. vm_compute. reflexivity.
Qed.
Lemma one_bit (v k : Z) : 0 <= k -> (Z.land v (2 ^ k) =? 0) = negb (Z.testbit v k).
Proof.
  intros K. replace (Z.land v (2 ^ k)) with (if Z.testbit v k then 2 ^ k else 0).
  - destruct (Z.testbit v k); [| done]. apply Z.eqb_neq. pose proof (Z.pow_pos_nonneg 2 k). lia.
  - apply Z.bits_inj'. intros n Hn. rewrite Z.land_spec, Z.pow2_bits_eqb by lia. destruct (Z.eqb_spec k n) as [-> |].
    + destruct (Z.testbit v n); [apply Z.pow2_bits_true; lia | apply Z.bits_0].
    + rewrite andb_false_r. destruct (Z.testbit v k); [apply Z.pow2_bits_false; lia | apply Z.bits_0].
Qed.

Section Headers.
Variables (d : list Z) (p : packet).
Hypotheses (bytes : Forall is_u8 d) (parsed : parse_ip d = Some (0, p)) (whole : fragment p = false) (now_read : deferred p = false).

Lemma parsed_offsets : 34 <= l4 p <= 82 /\ l4 p <= ip_end p <= frame_len d.
Proof using bytes parsed.
  destruct (parse_ip_safe d bytes) as (rp & E & O). rewrite parsed in E. injection E as <-. exact (O eq_refl).
Qed.

(** What [parse_transport] tests before it looks at the protocol. *)
Lemma transport_started (q : Z * packet) :
  (if proto p =? 6 then parse_tcp d p else if proto p =? 17 then parse_udp d p else Some (0, p)) = Some q ->
  parse_transport d p = Some q.
Proof using bytes parsed whole now_read.
  intros <-. unfold parse_transport. rewrite whole, now_read. cbn [orb]. destruct parsed_offsets as [? ?].
  destruct (_ || _) eqn:C; [exfalso; apply orb_true_iff in C as [C | C]; breflect; lia | reflexivity].
Qed.

Lemma tcp_parsed : proto p = 6 ->
  (tcp_ok d p -> parse_transport d p = Some (0, with_transport p (to_port d p) (at_ d (l4 p + 13)))) /\
  (~ tcp_ok d p -> exists q, parse_transport d p = Some (-3, q)).
Proof using bytes parsed whole now_read.
  intros P. destruct parsed_offsets as [O1 O2]. unfold tcp_ok, syn, fin, rst, tcp_flag. cbv zeta.
  enough (X : parse_tcp d p = Some (0, with_transport p (to_port d p) (at_ d (l4 p + 13))) /\
     (l4 p + 20 <= ip_end p /\ (20 <= at_ d (l4 p + 12) / 16 * 4 /\ l4 p + at_ d (l4 p + 12) / 16 * 4 <= ip_end p) /\
      (Z.testbit (at_ d (l4 p + 13)) 1 = true -> Z.testbit (at_ d (l4 p + 13)) 0 = false /\ Z.testbit (at_ d (l4 p + 13)) 2 = false) /\
      (Z.testbit (at_ d (l4 p + 13)) 0 = true -> Z.testbit (at_ d (l4 p + 13)) 2 = false)) \/
    (exists q, parse_tcp d p = Some (-3, q)) /\
    ~ (l4 p + 20 <= ip_end p /\ (20 <= at_ d (l4 p + 12) / 16 * 4 /\ l4 p + at_ d (l4 p + 12) / 16 * 4 <= ip_end p) /\
      (Z.testbit (at_ d (l4 p + 13)) 1 = true -> Z.testbit (at_ d (l4 p + 13)) 0 = false /\ Z.testbit (at_ d (l4 p + 13)) 2 = false) /\
      (Z.testbit (at_ d (l4 p + 13)) 0 = true -> Z.testbit (at_ d (l4 p + 13)) 2 = false))).
  { destruct X as [[E X] | [[q E] X]]; (split; [intros | intros Y]); try done.
    - apply transport_started. now rewrite P.
    - exists q. apply transport_started. now rewrite P. }
  unfold parse_tcp. destruct (_ || _) eqn:C.
  { right. split; [now eexists |]. apply orb_true_iff in C as [C | C]; breflect; lia. }
  breflect. rewrite be16_word, !load_at by (done || lia). cbn [mbind option_bind with_transport ip_end]. fold (to_port d p).
  rewrite Z.shiftr_div_pow2 by lia. change (2 ^ 4) with 16. destruct (_ || _) eqn:C2.
  { right. split; [now eexists |]. repeat (apply orb_true_iff in C2 as [C2 | C2]); breflect; lia. }
  rewrite bad_flags by now apply at_u8. breflect. destruct (_ || _) eqn:C3; [right; split; [now eexists |] | left; split; [reflexivity |]].
  - intros (_ & _ & F1 & F2). destruct (Z.testbit _ 1), (Z.testbit _ 0), (Z.testbit _ 2); try discriminate C3;
      [now destruct (F1 eq_refl) | now destruct (F1 eq_refl) | now destruct (F1 eq_refl) | now discriminate (F2 eq_refl)].
  - split; [lia |]. split; [lia |]. destruct (Z.testbit _ 1), (Z.testbit _ 0), (Z.testbit _ 2); try discriminate C3; auto.
Qed.

Lemma udp_parsed : proto p = 17 ->
  (udp_ok d p -> parse_transport d p = Some (0, with_transport p (to_port d p) (flags p))) /\
  (~ udp_ok d p -> exists q, parse_transport d p = Some (-12, q)).
Proof using bytes parsed whole now_read.
  intros P. destruct parsed_offsets as [O1 O2].
  enough (X : parse_udp d p = Some (0, with_transport p (to_port d p) (flags p)) /\ udp_ok d p \/
    (exists q, parse_udp d p = Some (-12, q)) /\ ~ udp_ok d p).
  { destruct X as [[E X] | [[q E] X]]; (split; [intros | intros Y]); try done.
    - apply transport_started. now rewrite P.
    - exists q. apply transport_started. now rewrite P. }
  unfold parse_udp, udp_ok. destruct (_ || _) eqn:C.
  { right. split; [now eexists |]. apply orb_true_iff in C as [C | C]; breflect; lia. }
  breflect. rewrite !be16_word by (done || lia). cbn [mbind option_bind with_transport ip_end]. fold (to_port d p). destruct (_ || _) eqn:C2.
  { right. split; [now eexists |]. repeat (apply orb_true_iff in C2 as [C2 | C2]); breflect; lia. }
  breflect. left. split; [reflexivity | lia].
Qed.

Lemma other_parsed : proto p <> 6 -> proto p <> 17 -> parse_transport d p = Some (0, p).
Proof using bytes parsed whole now_read.
  intros N6 N17. apply transport_started. now rewrite !(proj2 (Z.eqb_neq _ _)) by done.
Qed.
End Headers.

(** ** The budget *)

Lemma terms_cost (c : config) (r n cost : Z) : 0 < syn_rate c -> terms c r n cost -> cost = syn_cost r.
Proof.
  intros R [-> _ T]. unfold syn_cost. set (r := Z.min (syn_rate c) 1000000000) in *. assert (1 <= r) by (unfold r; lia).
  apply (Z.div_unique_pos _ _ _ (1000000000 + r - 1 - r * cost)); lia.
Qed.

Lemma cost_terms (c : config) :
  0 < syn_rate c -> terms c (Z.min (syn_rate c) 1000000000) (Z.min (syn_burst c) 1000000) (syn_cost (Z.min (syn_rate c) 1000000000)).
Proof.
  intros R. split; [reflexivity | reflexivity |]. set (r := Z.min _ _). assert (1 <= r) by (unfold r; lia).
  unfold syn_cost. pose proof (Z.div_mod (1000000000 + r - 1) r ltac:(lia)). pose proof (Z.mod_pos_bound (1000000000 + r - 1) r ltac:(lia)). lia.
Qed.

(** A configuration and a bucket as the C types hold them. *)
Definition typed_config (c : config) : Prop := 0 <= syn_rate c < 2 ^ 32 /\ 0 <= syn_burst c < 2 ^ 32.
Definition typed_bucket (b : bucket) : Prop := 0 <= credit_ns b < 2 ^ 64.

Lemma syn_allowed_saved (c : config) (b : bucket) (now r n cost : Z) :
  typed_config c -> typed_bucket b -> syn_rate c <> 0 -> syn_burst c <> 0 -> terms c r n cost ->
  syn_allowed c (Some b) now =
  if saved b r n cost now <? cost then (false, Some (mk_bucket now (saved b r n cost now) r n))
  else (true, Some (mk_bucket now (saved b r n cost now - cost) r n)).
Proof.
  intros [Tr Tb] Tc R N T. assert (Rp : 0 < syn_rate c < 2 ^ 32) by lia. assert (Np : 0 < syn_burst c < 2 ^ 32) by lia.
  pose proof (terms_cost c r n cost ltac:(lia) T) as ->. destruct T as [-> -> _].
  pose proof (syn_cap_range c Rp Np) as C. pose proof (syn_cost_range c Rp) as K. unfold syn_cap in C.
  unfold syn_allowed. rewrite !(proj2 (Z.eqb_neq _ _)) by done. cbn [orb]. fold (used_rate c) (used_burst c).
  assert (Er : used_rate c = Z.min (syn_rate c) 1000000000) by (unfold used_rate; destruct (Z.gtb_spec (syn_rate c) 1000000000); lia).
  assert (En : used_burst c = Z.min (syn_burst c) 1000000) by (unfold used_burst; destruct (Z.gtb_spec (syn_burst c) 1000000); lia).
  rewrite <- Er, <- En. clear Er En. set (r := used_rate c) in *. set (n := used_burst c) in *. set (cost := syn_cost r) in *.
  rewrite (wrap_small 64 (cost * n)) by lia.
  match goal with |- (if ?x <? _ then _ else _) = _ => replace x with (saved b r n cost now); [reflexivity |] end.
  unfold saved. destruct (_ || _) eqn:G.
  - rewrite bool_decide_eq_true_2; [done |]. repeat (apply orb_true_iff in G as [G | G]); breflect; auto; apply Z.eqb_neq in G; auto.
  - breflect. rewrite bool_decide_eq_false_2 by lia. fold (wrap 64 (now - last_ns b)).
    pose proof (wrap_range 64 (now - last_ns b) ltac:(lia)) as W. set (dt := wrap 64 _) in *. unfold typed_bucket in Tc.
    destruct (Z.gtb_spec dt (cost * n)).
    + rewrite Z.sub_diag. destruct (Z.gtb_spec (credit_ns b) 0); [lia |]. rewrite wrap_small by lia. lia.
    + destruct (Z.gtb_spec (credit_ns b) (cost * n - dt)); [lia |]. rewrite wrap_small by lia. lia.
Qed.

(** ** The guard of protected ports *)

Section Guard.
Context {Trie : Type} `{Lpm Trie}.
Variables (m : Policy Trie) (d : list Z) (o : option bucket) (now : Z) (c : config) (p q : packet).
Hypotheses (config_typed : typed_config c) (budget_typed : forall b, o = Some b -> typed_bucket b)
  (same_source : src q = src p) (same_kind : is_syn q = opens d p).

Lemma frozen_test : is_syn q && (abi c =? XDDP_ABI) && (mode c =? 3) && (now <? lease_ns c) = true <-> frozen d now c p.
Proof using same_kind.
  rewrite same_kind, !andb_true_iff, !Z.eqb_eq, Z.ltb_lt. unfold frozen, XDDP_ABI. tauto.
Qed.

Lemma not_frozen_test : is_syn q && (abi c =? XDDP_ABI) && (mode c =? 3) && (now <? lease_ns c) = false <-> ~ frozen d now c p.
Proof using same_kind. rewrite <- frozen_test. now rewrite not_true_iff_false. Qed.

Lemma guarded_tcp (why : Z) (o' : option bucket) : guarded m d o now c p why o' -> protected_tcp m c q o now = (why, o').
Proof using config_typed budget_typed same_source same_kind.
  unfold protected_tcp, in_trie. rewrite same_source. intros G.
  destruct G as [F | v F A | F A B | v F A B N | E A B | F A B E U | b r n cost F A B E R N O T S | b r n cost F A B E R N O T S].
  all: try (rewrite (proj2 frozen_test F)); try (rewrite (proj2 not_frozen_test F)); rewrite ?A, ?B; try reflexivity.
  - destruct (Z.eqb_spec v R_BOGON) as [X |]; [now destruct N | reflexivity].
  - rewrite same_kind, E. reflexivity.
  - rewrite same_kind, E. unfold syn_allowed. destruct U as [-> | [-> | ->]]; [reflexivity | now rewrite orb_true_r |].
    now destruct (_ || _).
  - rewrite same_kind, E, O, (syn_allowed_saved c b now r n cost); auto. destruct (Z.ltb_spec (saved b r n cost now) cost); [lia | done].
  - rewrite same_kind, E, O, (syn_allowed_saved c b now r n cost); auto. destruct (Z.ltb_spec (saved b r n cost now) cost); [done | lia].
Qed.

Lemma guarded_total : exists why o', guarded m d o now c p why o'.
Proof using config_typed budget_typed same_source same_kind.
  destruct (is_syn q && (abi c =? XDDP_ABI) && (mode c =? 3) && (now <? lease_ns c)) eqn:F.
  { do 2 eexists. apply gd_frozen. now apply frozen_test. }
  apply not_frozen_test in F. destruct (lpm_lookup (allow m) (src p)) as [v |] eqn:A; [do 2 eexists; eapply gd_allowed; eauto |].
  destruct (lpm_lookup (block m) (src p)) as [v |] eqn:B.
  { destruct (decide (v = 5)) as [-> | N]; do 2 eexists; [now apply gd_bogon | eapply gd_blocked; eauto]. }
  destruct (opens d p) eqn:E; [| do 2 eexists; now apply gd_established].
  destruct (decide (syn_rate c = 0)); [do 2 eexists; apply gd_unlimited; auto |].
  destruct (decide (syn_burst c = 0)); [do 2 eexists; apply gd_unlimited; auto |].
  destruct o as [b |] eqn:O; [| do 2 eexists; apply gd_unlimited; auto].
  assert (T := cost_terms c ltac:(unfold typed_config in config_typed; lia)). set (r := Z.min (syn_rate c) _) in T.
  destruct (Z_lt_le_dec (saved b r (Z.min (syn_burst c) 1000000) (syn_cost r) now) (syn_cost r)); do 2 eexists;
    [eapply gd_over | eapply gd_granted]; eauto.
Qed.
End Guard.

(** ** The table against the program's decision *)

#[global] Instance tcp_ok_dec (d : list Z) (p : packet) : Decision (tcp_ok d p).
Proof. unfold tcp_ok. cbv zeta. apply _. Defined.
#[global] Instance udp_ok_dec (d : list Z) (p : packet) : Decision (udp_ok d p).
Proof. unfold udp_ok. apply _. Defined.

Section Verdict.
Context {Trie : Type} `{Lpm Trie}.
Variables (m : Policy Trie) (d : list Z) (o : option bucket) (now : Z).
Hypotheses (bytes : Forall is_u8 d) (config_typed : forall c, configuration m = Some c -> typed_config c)
  (budget_typed : forall b, o = Some b -> typed_bucket b).

Lemma ip_frame_parsed (p : packet) : ip_frame d p <-> parse_ip d = Some (0, p).
Proof using bytes. unfold ip_frame. now rewrite parse_ip_layout. Qed.

Lemma ours_test (c : config) (k : prefix_key) :
  ours m c k <-> (negb (family k =? 6) || negb (ipv6 c =? 0)) && in_trie (owned m) k = true.
Proof using Type.
  unfold ours, in_trie. rewrite andb_true_iff, orb_true_iff, !negb_true_iff, !Z.eqb_neq.
  destruct (lpm_lookup (owned m) k); [| intuition congruence]. destruct (Z.eq_dec (family k) 6); intuition congruence.
Qed.

Lemma managed_selected (c : config) (p : packet) : managed m d c p <-> selected m d c p.
Proof using bytes.
  assert (T : ours m c (dst p) <-> ipv6_off c p = false /\ in_trie (owned m) (dst p) = true).
  { rewrite ours_test, andb_true_iff. unfold ipv6_off. rewrite <- negb_andb, negb_true_iff. reflexivity. }
  unfold selected. rewrite <- ip_frame_parsed, <- T. split; [intros [? [] ? ?]; auto 6 | intros (? & ? & ? & ? & ?); now split].
Qed.

#[local] Instance ours_dec (c : config) (k : prefix_key) : Decision (ours m c k).
Proof. destruct ((negb (family k =? 6) || negb (ipv6 c =? 0)) && in_trie (owned m) k) eqn:E; [left | right]; rewrite ours_test; congruence. Defined.
#[local] Instance port_bit_dec (p : packet) (bit : Z) : Decision (port_bit m d p bit).
Proof.
  unfold port_bit. destruct (ports m !! to_port d p) as [v |]; [| right; now intros (? & ? & _)].
  destruct (Z.testbit v bit) eqn:E; [left; eauto | right; intros (? & [= <-] & ?); congruence].
Defined.

(** A frame that is not an IP packet. *)
Lemma refused_damaged (r : Z) (p : packet) : parse_ip d = Some (r, p) -> r <> 0 ->
  (exists k c, damaged d (- r) k /\ configuration m = Some c /\ abi c = 2 /\ ours m c k /\ refused_reason m r p = - r) \/
  (refused_reason m r p = 0 /\ forall why k c, damaged d why k -> configuration m = Some c -> abi c = 2 -> ~ ours m c k).
Proof using bytes.
  clear config_typed budget_typed.
  intros E R. unfold refused_reason. destruct (configuration m) as [c |] eqn:C; [| right; split; [done | now intros]].
  destruct (_ && _) eqn:G.
  - left. apply andb_true_iff in G as [G O]. apply andb_true_iff in G as [G X].
    pose proof (proj2 (ours_test c (dst p)) (proj2 (andb_true_iff _ _) (conj X O))) as Ou. clear X O. breflect. exists (dst p), c. split_and!; auto. apply damaged_parsed; [done |].
    exists p. rewrite Z.opp_involutive. split_and!; auto; lia.
  - right. split; [done |]. intros why k c' D [= <-] A O. assert (W : 0 < why) by (destruct D; lia).
    apply damaged_parsed in D as (p' & E' & _ & <- & F); [| done]. rewrite E in E'. injection E' as -> <-.
    apply ours_test, andb_true_iff in O as [X O]. rewrite X, O, (proj2 (Z.eqb_eq (abi c) XDDP_ABI) A), (proj2 (Z.eqb_neq _ _) F) in G.
    rewrite (proj2 (Z.ltb_lt _ _)) in G by lia. discriminate.
Qed.

(** The packet once its transport header is read. *)
Lemma port_bits (c : config) (p q : packet) : port q = to_port d p -> proto q = proto p ->
  (closed_port m q <-> (proto p = 6 /\ port_bit m d p 1) \/ (proto p = 17 /\ port_bit m d p 2)) /\
  (protected_port m q <-> proto p = 6 /\ port_bit m d p 0).
Proof using Type.
  intros P R. unfold closed_port, protected_port, port_bit. rewrite P, R.
  assert (T : forall v k w, 0 <= k -> w = 2 ^ k -> Z.land v w <> 0 <-> Z.testbit v k = true).
  { intros v k w K ->. rewrite <- Z.eqb_neq, one_bit, negb_false_iff by done. reflexivity. }
  setoid_rewrite (fun v => T v 1 PORT_DROP_TCP ltac:(lia) eq_refl). setoid_rewrite (fun v => T v 2 PORT_DROP_UDP ltac:(lia) eq_refl).
  setoid_rewrite (fun v => T v 0 PORT_PROTECT_TCP ltac:(lia) eq_refl).
  split; split.
  - intros (v & E & [[? ?] | [? ?]]); eauto 6.
  - intros [[? (v & ? & ?)] | [? (v & ? & ?)]]; eauto 7.
  - intros (v & ? & ? & ?). eauto.
  - intros [? (v & ? & ?)]. eauto.
Qed.

(** A selected packet that is a good TCP segment, or a good UDP datagram, as the program sees it. *)
Definition segment (p : packet) : packet := with_transport p (to_port d p) (at_ d (l4 p + 13)).

Definition datagram (p : packet) : packet := with_transport p (to_port d p) (flags p).

Lemma segment_kind (p : packet) : is_syn (segment p) = opens d p.
Proof using bytes. apply syn_only. now apply at_u8. Qed.

Lemma verdict_decision (why : Z) (o' : option bucket) : verdict m d o now why o' -> decision m d o now why o'.
Proof using bytes config_typed budget_typed.
  assert (Bits := fun c p q => port_bits c p q). assert (M := managed_selected). assert (Tp := tcp_parsed d). assert (Up := udp_parsed d).
  intros V. destruct V as [why k c D C A O | N ND | p I P | p I F | c p S F P X | c p S F P | c p S F X | c p S F X P T | c p S F X P T
    | c p S F X P P' | c p S F X P T K | c p S F X P T K | c p S F X P T K | c p S F X P T K K' | c p why o' S F X P T K K' G].
  - destruct (proj1 (damaged_parsed d why k bytes) D) as (p & E & W & <- & Fa).
    destruct (refused_damaged _ p E ltac:(lia)) as [(? & ? & _ & _ & _ & _ & R) | [_ Y]]; [| now destruct (Y why (dst p) c)].
    replace why with (refused_reason m (- why) p) by lia. apply (not_ip m d o now (- why) p E). lia.
  - destruct (parse_ip_safe d bytes) as ([r p] & E & _). assert (R : r <> 0) by (intros ->; now apply ip_frame_parsed in E; destruct (N p)).
    destruct (refused_damaged r p E R) as [(k & c & D & C & A & O & _) | [Z0 _]]; [now destruct (ND (- r) k c) |].
    rewrite <- Z0. now apply not_ip.
  - apply (not_selected m d o now p); [now apply ip_frame_parsed | intros c (_ & ? & ? & _); destruct P; contradiction].
  - apply (not_selected m d o now p); [now apply ip_frame_parsed |]. intros c S. apply M in S as [_ _ C O]. now apply (F c).
  - pose proof (fragmented m d o now c p (proj1 (M c p) S) F) as D. rewrite P, (proj2 (Z.eqb_neq _ _) X) in D. exact D.
  - pose proof (fragmented m d o now c p (proj1 (M c p) S) F) as D. replace (_ && _) with false in D; [exact D |].
    destruct P as [P | ->]; [now rewrite (proj2 (Z.eqb_neq _ _) P) | now rewrite andb_false_r].
  - apply (bad_header m d o now c p 1 p); [now apply M | done | | done]. unfold parse_transport. now rewrite F, X.
  - apply M in S. destruct (proj2 (Tp p bytes (proj1 S) F X P) T) as [q E]. exact (bad_header m d o now c p (-3) q S F E ltac:(done)).
  - apply M in S. destruct (proj2 (Up p bytes (proj1 S) F X P) T) as [q E]. exact (bad_header m d o now c p (-12) q S F E ltac:(done)).
  - apply M in S. pose proof (other_parsed d p bytes (proj1 S) F X P P') as E.
    apply (port_open m d o now c p p S F E); [intros (v & _ & [[? _] | [? _]]); contradiction | now intros (v & _ & ? & _)].
  - apply M in S. apply (port_closed m d o now c p (segment p) S F (proj1 (Tp p bytes (proj1 S) F X P) T)).
    apply (Bits c p); auto.
  - apply M in S. apply (port_closed m d o now c p (datagram p) S F (proj1 (Up p bytes (proj1 S) F X P) T)). apply (Bits c p); auto.
  - apply M in S. apply (port_open m d o now c p (datagram p) S F (proj1 (Up p bytes (proj1 S) F X P) T));
      [rewrite (proj1 (Bits c p (datagram p) eq_refl eq_refl)) | rewrite (proj2 (Bits c p (datagram p) eq_refl eq_refl))]; intuition lia.
  - apply M in S. apply (port_open m d o now c p (segment p) S F (proj1 (Tp p bytes (proj1 S) F X P) T));
      [rewrite (proj1 (Bits c p (segment p) eq_refl eq_refl)) | rewrite (proj2 (Bits c p (segment p) eq_refl eq_refl))]; intuition lia.
  - apply M in S. apply (port_protected m d o now c p (segment p) why o' S F (proj1 (Tp p bytes (proj1 S) F X P) T)).
    + rewrite (proj1 (Bits c p (segment p) eq_refl eq_refl)). intuition lia.
    + apply (Bits c p); auto.
    + apply (guarded_tcp m d o now c p); auto; [apply config_typed; apply S | apply segment_kind].
Qed.

(** Every frame has a verdict. *)
Lemma managed_total (c : config) (p : packet) : managed m d c p -> exists why o', verdict m d o now why o'.
Proof using config_typed budget_typed bytes.
  intros S. destruct (fragment p) eqn:F.
  { destruct (decide (proto p = 6)) as [P |]; [| do 2 eexists; eapply vd_fragment; eauto].
    destruct (decide (drop_tcp_fragments c = 0)); do 2 eexists; [eapply vd_fragment | eapply vd_fragment_tcp]; eauto. }
  destruct (deferred p) eqn:X; [do 2 eexists; eapply vd_deferred; eauto |].
  destruct (decide (proto p = 6)) as [P |].
  - destruct (decide (tcp_ok d p)) as [T |]; [| do 2 eexists; eapply vd_bad_tcp; eauto].
    destruct (decide (port_bit m d p 1)); [do 2 eexists; eapply vd_closed_tcp; eauto |].
    destruct (decide (port_bit m d p 0)); [| do 2 eexists; eapply vd_tcp; eauto].
    destruct (guarded_total m d o now c p (segment p)) as (why & o' & G); auto;
      [apply config_typed; apply S | apply segment_kind | exists why, o'; eapply vd_guarded; eauto].
  - destruct (decide (proto p = 17)) as [P |]; [| do 2 eexists; eapply vd_other; eauto].
    destruct (decide (udp_ok d p)) as [T |]; [| do 2 eexists; eapply vd_bad_udp; eauto].
    destruct (decide (port_bit m d p 2)); do 2 eexists; [eapply vd_closed_udp | eapply vd_udp]; eauto.
Qed.

Lemma verdict_total : exists why o', verdict m d o now why o'.
Proof using config_typed budget_typed bytes.
  destruct (parse_ip_safe d bytes) as ([r p] & E & _). destruct (decide (r = 0)) as [-> | R].
  - apply ip_frame_parsed in E. destruct (decide (proto p = 1)); [do 2 eexists; eapply vd_icmp; eauto |].
    destruct (decide (proto p = 58)); [do 2 eexists; eapply vd_icmp; eauto |].
    destruct (configuration m) as [c |] eqn:C in |- *; [| do 2 eexists; eapply (vd_foreign m d o now p E); congruence].
    destruct (decide (ours m c (dst p))) as [O | O]; [apply (managed_total c p); now split |].
    do 2 eexists. apply (vd_foreign m d o now p E). intros c' C'. rewrite C in C'. now injection C' as <-.
  - destruct (refused_damaged r p E R) as [(k & c & D & C & A & O & _) | [_ N]]; [do 2 eexists; eapply vd_damaged; eauto |].
    do 2 eexists. apply vd_not_ip; [| exact N]. intros p' E'. apply ip_frame_parsed in E'. congruence.
Qed.

(** ** The kinds of traffic *)

(** The frame opens a connection to a protected port. *)
Definition new_connection : Prop :=
  exists c p, managed m d c p /\ fragment p = false /\ deferred p = false /\ proto p = 6 /\ tcp_ok d p /\
    ~ port_bit m d p 1 /\ port_bit m d p 0 /\ opens d p = true.

Lemma new_connection_at (c : config) (p q : packet) (r : Z) : selected m d c p -> fragment p = false -> parse_transport d p = Some (r, q) ->
  new_connection <-> r = 0 /\ ~ closed_port m q /\ protected_port m q /\ is_syn q = true.
Proof using bytes.
  clear config_typed budget_typed. intros S F E. split.
  - intros (c' & p' & S' & _ & X & P & T & K1 & K0 & O). apply managed_selected in S'.
    destruct (selected_unique m d c' c p' p S' S) as [-> ->].
    rewrite (proj1 (tcp_parsed d p bytes (proj1 S) F X P) T) in E. injection E as <- <-. fold (segment p).
    destruct (port_bits c p (segment p) eq_refl eq_refl) as [-> ->]. rewrite segment_kind. intuition lia.
  - intros (-> & C & Pr & Y). destruct (parse_transport_src d p q 0 E) as [_ R].
    assert (P : proto p = 6) by (destruct Pr as (_ & _ & P & _); congruence).
    assert (X : deferred p = false) by (destruct (deferred p) eqn:X; [| done]; unfold parse_transport in E; rewrite X, orb_true_r in E; discriminate).
    destruct (tcp_parsed d p bytes (proj1 S) F X P) as [T1 T2].
    destruct (decide (tcp_ok d p)) as [T |]; [| destruct T2 as [q' T2]; [done |]; congruence].
    rewrite (T1 T) in E. injection E as <-. fold (segment p) in *. destruct (port_bits c p (segment p) eq_refl eq_refl) as [B1 B2].
    rewrite segment_kind in Y. exists c, p. split_and!; auto; [now apply managed_selected | intros K; apply C, B1; auto | now apply B2].
Qed.

Lemma one_packet (p : packet) (Q : packet -> Prop) : parse_ip d = Some (0, p) -> (exists p', ip_frame d p' /\ Q p') <-> Q p.
Proof using bytes.
  clear config_typed budget_typed. intros E. split; [| exists p; split; [now apply ip_frame_parsed | done]].
  intros (p' & E' & X). apply ip_frame_parsed in E'. congruence.
Qed.
End Verdict.

Section Counters.
Context {Trie : Type} `{Lpm Trie}.
Variables (m : Policy Trie) (d : list Z).
Hypothesis bytes : Forall is_u8 d.

(** The counters of kinds: new connections, UDP, ICMP, and deferred IPv6. *)
Definition kinds (s : stats) : Z * Z * Z * Z := (syn_packets s, udp_packets s, icmp_packets s, ipv6_deferred s).

Record kinds_raised (s s' : stats) : Prop := {
  kr_syn : raised (new_connection m d) (syn_packets s) (syn_packets s');
  kr_udp : raised (exists p, ip_frame d p /\ proto p = 17) (udp_packets s) (udp_packets s');
  kr_icmp : raised (exists p, ip_frame d p /\ (proto p = 1 \/ proto p = 58)) (icmp_packets s) (icmp_packets s');
  kr_deferred : raised (exists p, ip_frame d p /\ proto p <> 1 /\ proto p <> 58 /\ deferred p = true) (ipv6_deferred s) (ipv6_deferred s') }.

Lemma result_kinds (s : stats) (c : option config) (why now : Z) : kinds (snd (xdp_result s c why now)) = kinds s.
Proof using Type. unfold xdp_result. destruct (_ && _); [destruct (enforced c now)|]; reflexivity. Qed.

Lemma raised_test (P : Prop) (b : bool) (x : Z) : (b = true <-> P) -> raised P x (if b then inc64 x else x).
Proof using Type. intros E. unfold raised. destruct b; [left | right]; (split; [| reflexivity]); [now apply E | intros X; now apply E in X]. Qed.

(** The kinds the program counts. *)
Lemma kinds_tested (s s' : stats) (n : Z) (sy ud ic de : bool) :
  kinds s' = kinds (count_kinds (count_rx s n) sy ud ic de) ->
  (sy = true <-> new_connection m d) -> (ud = true <-> exists p, ip_frame d p /\ proto p = 17) ->
  (ic = true <-> exists p, ip_frame d p /\ (proto p = 1 \/ proto p = 58)) ->
  (de = true <-> exists p, ip_frame d p /\ proto p <> 1 /\ proto p <> 58 /\ deferred p = true) -> kinds_raised s s'.
Proof using Type.
  intros K Y U I D. unfold kinds in K. cbn [count_kinds count_rx syn_packets udp_packets icmp_packets ipv6_deferred] in K.
  injection K as K1 K2 K3 K4. split; rewrite ?K1, ?K2, ?K3, ?K4; now apply raised_test.
Qed.

(** A packet that is not ICMP, when the flag for new connections is known. *)
Lemma kinds_packet (s s' : stats) (p : packet) (sy : bool) :
  parse_ip d = Some (0, p) -> proto p <> 1 -> proto p <> 58 -> (sy = true <-> new_connection m d) ->
  kinds s' = kinds (count_kinds (count_rx s (frame_len d)) sy (proto p =? 17) false (deferred p)) -> kinds_raised s s'.
Proof using bytes.
  intros E P1 P58 Y K. apply (kinds_tested s s' _ _ _ _ _ K Y); rewrite (one_packet d bytes p _ E).
  - apply Z.eqb_eq.
  - split; [done | tauto].
  - tauto.
Qed.

(** What the end of the program does to them. *)
Lemma finish_kinds (k' : PerCpu) (s1 s' : stats) (cfg : option config) (why now : Z) (o : option bucket) (a : xdp_action) :
  counters k' = Some s' -> (let '(a, s) := xdp_result s1 cfg why now in Some (a, mk_percpu (Some s) o)) = Some (a, k') ->
  kinds s' = kinds s1.
Proof using Type.
  intros K' E. rewrite <- (result_kinds s1 cfg why now). destruct (xdp_result _ _ _ _) as [a' s2].
  injection E as _ <-. cbn [counters snd] in *. now injection K' as ->.
Qed.

(** A packet that opens no connection. *)
Lemma kinds_quiet (s s' : stats) (p : packet) :
  parse_ip d = Some (0, p) -> proto p <> 1 -> proto p <> 58 -> ~ new_connection m d ->
  kinds s' = kinds (count_kinds (count_rx s (frame_len d)) false (proto p =? 17) false (deferred p)) -> kinds_raised s s'.
Proof using bytes. intros E P1 P58 N. apply (kinds_packet s s' p false E P1 P58). now split. Qed.

(** A frame that opens a connection is a packet that is selected. *)
Lemma new_connection_selected (p : packet) : parse_ip d = Some (0, p) -> new_connection m d ->
  exists c, selected m d c p /\ fragment p = false.
Proof using bytes.
  intros E (c & p' & M & F & _). apply managed_selected in M; [| exact bytes]. exists c.
  assert (p' = p) as -> by (destruct M as [M _]; congruence). now split.
Qed.

(** After the packet is selected. *)
Lemma ports_kinds (s s' : stats) (k k' : PerCpu) (c : config) (p q : packet) (r now : Z) (a : xdp_action) :
  selected m d c p -> fragment p = false -> parse_transport d p = Some (r, q) -> counters k' = Some s' ->
  (let finish s why o := let '(a, s) := xdp_result s (Some c) why now in Some (a, mk_percpu (Some s) o) in
   let s1 := count_kinds (count_rx s (frame_len d)) false (proto p =? 17) false (deferred p) in
   let o := syn_budget k in
   if negb (r =? 0) then finish s1 (if r <? 0 then - r else 0) o
   else match ports m !! port q with
   | None => finish s1 0 o
   | Some policy =>
     if ((proto q =? 6) && negb (Z.land policy PORT_DROP_TCP =? 0)) ||
        ((proto q =? 17) && negb (Z.land policy PORT_DROP_UDP =? 0)) then finish s1 R_BLOCKED_PORT o
     else if negb (proto q =? 6) || (Z.land policy PORT_PROTECT_TCP =? 0) then finish s1 0 o
     else
       let s := count_kinds s1 (is_syn q) false false false in
       let '(why, o) := protected_tcp m c q o now in finish s why o
   end) = Some (a, k') -> kinds_raised s s'.
Proof using bytes.
  intros S F T K' X. cbv zeta in X. pose proof (new_connection_at m d bytes c p q r S F T) as Hs.
  destruct S as (E & P1 & P58 & _).
  destruct (Z.eqb_spec r 0) as [-> | R]; cbn [negb] in X.
  2: { apply (finish_kinds _ _ _ _ _ _ _ _ K') in X. apply (kinds_quiet s s' p E P1 P58); [rewrite Hs; tauto | exact X]. }
  destruct (ports m !! port q) as [v |] eqn:Po.
  2: { apply (finish_kinds _ _ _ _ _ _ _ _ K') in X. apply (kinds_quiet s s' p E P1 P58); [| exact X]. rewrite Hs.
       intros (_ & _ & (v & Po' & _) & _). congruence. }
  pose proof (closed_port_test m q v Po) as CT. pose proof (protected_port_test m q v Po) as PT.
  destruct (_ || _) in CT, X.
  { apply (finish_kinds _ _ _ _ _ _ _ _ K') in X. apply (kinds_quiet s s' p E P1 P58); [rewrite Hs; intuition congruence | exact X]. }
  destruct (_ || _) in PT, X.
  { apply (finish_kinds _ _ _ _ _ _ _ _ K') in X. apply (kinds_quiet s s' p E P1 P58); [rewrite Hs; intuition congruence | exact X]. }
  destruct (protected_tcp m c q (syn_budget k) now) as [why o']. apply (finish_kinds _ _ _ _ _ _ _ _ K') in X.
  apply (kinds_packet s s' p (is_syn q) E P1 P58); [| exact X]. rewrite Hs. intuition congruence.
Qed.

Lemma xddp_kinds (k k' : PerCpu) (s s' : stats) (now : Z) (a : xdp_action) :
  counters k = Some s -> xddp m k d now = Some (a, k') -> counters k' = Some s' -> kinds_raised s s'.
Proof using bytes.
  intros K X K'. unfold xddp in X. rewrite K in X.
  destruct (parse_ip d) as [[r p] |] eqn:E; [| discriminate]. cbn [mbind option_bind] in X.
  destruct (Z.eqb_spec r 0) as [-> | R]; cbn [negb] in X.
  2: { apply (finish_kinds _ _ _ _ _ _ _ _ K') in X.
       assert (N : forall p', ~ ip_frame d p') by (intros p' I; apply ip_frame_parsed in I; [congruence | done]).
       apply (kinds_tested s s' (frame_len d) false false false false X); (split; [done |]); [intros (c & p' & [] & _) | | |];
         try intros (p' & I & _); now destruct (N p'). }
  destruct (_ || _) eqn:I.
  { apply (finish_kinds _ _ _ _ _ _ _ _ K') in X.
    apply (kinds_tested s s' (frame_len d) false false true false X); rewrite ?(one_packet d bytes p _ E).
    all: apply orb_true_iff in I; rewrite !Z.eqb_eq in I.
    - split; [done |]. intros Y. apply (new_connection_selected p E) in Y as (c & (_ & ? & ? & _) & _). lia.
    - split; [done | lia].
    - tauto.
    - split; [done | lia]. }
  apply orb_false_iff in I as [P1%Z.eqb_neq P58%Z.eqb_neq].
  destruct (configuration m) as [c |] eqn:C.
  2: { apply (finish_kinds _ _ _ _ _ _ _ _ K') in X. apply (kinds_quiet s s' p E P1 P58); [| exact X].
       intros Y. apply (new_connection_selected p E) in Y as (c & (_ & _ & _ & ? & _) & _). congruence. }
  destruct (ipv6_off c p || _) eqn:V.
  { apply (finish_kinds _ _ _ _ _ _ _ _ K') in X. apply (kinds_quiet s s' p E P1 P58); [| exact X].
    intros Y. apply (new_connection_selected p E) in Y as (c' & (_ & _ & _ & C' & V' & W) & _).
    assert (c' = c) as -> by congruence. rewrite V', W in V. discriminate. }
  apply orb_false_iff in V as [V W%negb_false_iff].
  destruct (fragment p) eqn:F.
  { apply (finish_kinds _ _ _ _ _ _ _ _ K') in X. apply (kinds_quiet s s' p E P1 P58); [| exact X].
    intros Y. apply (new_connection_selected p E) in Y as (c' & _ & F'). congruence. }
  destruct (parse_transport d p) as [[r q] |] eqn:T; [| discriminate]. cbn [mbind option_bind] in X.
  eapply (ports_kinds s s' k k' c p q r now a); eauto. now split_and!.
Qed.
End Counters.

(** ** The program follows the table *)

Section Follows.
Context {Trie : Type} `{Lpm Trie}.

Lemma in_force_enforced (m : Policy Trie) (now : Z) : in_force m now <-> enforced (configuration m) now = true.
Proof.
  unfold in_force, enforced, XDDP_ABI. destruct (configuration m) as [c |]; [| split; [now intros (? & ? & _) | done]].
  rewrite !andb_true_iff, !Z.eqb_eq, Z.ltb_lt. split; [intros (? & [= <-] & ?); tauto | intros ?; exists c; tauto].
Qed.

(** What [result] does with a decision. *)
Lemma result_booked (m : Policy Trie) (s s1 : stats) (d : list Z) (why now : Z) :
  counted s s1 d -> why = 0 \/ In why live_reasons ->
  let '(a, s') := xdp_result s1 (configuration m) why now in
  (a = XDP_DROP <-> why <> 0 /\ in_force m now) /\ (kinds_raised m d s s' -> booked m d why (a = XDP_DROP) s s').
Proof.
  intros (R1 & B1 & P1 & D1 & Rs1) W.
  assert (W' : why = 0 \/ 0 < why < R_COUNT) by (destruct W as [| W]; [auto | right; now apply live_index]).
  pose proof (in_force_enforced m now) as Fo. unfold xdp_result.
  assert (Rz : forall i x y, reasons s !! i = Some x -> reasons s1 !! i = Some y -> x = y) by (intros i x y; rewrite Rs1; congruence).
  assert (Rn : forall i x y, reasons s !! i = Some x -> alter inc64 (Z.to_nat why) (reasons s1) !! i = Some y -> 0 < why ->
    raised (why <> 0 /\ Z.of_nat i = why) x y).
  { intros i x y X Y N. rewrite Rs1 in Y. destruct (decide (i = Z.to_nat why)) as [-> | I].
    - rewrite list_lookup_alter_eq, X in Y. injection Y as <-. left. split; [lia | reflexivity].
    - rewrite list_lookup_alter_ne, X in Y by done. injection Y as <-. right. split; [lia | reflexivity]. }
  destruct W' as [-> | N].
  - cbn [Z.ltb Z.compare andb]. split; [intuition congruence |]. intros [Ky Ku Ki Kd].
    split; auto; cbn [count_pass rx_packets rx_bytes pass_packets drop_packets reasons]; try assumption.
    + right. split; [discriminate | exact D1].
    + left. split; [discriminate |]. now rewrite P1.
    + split; [now rewrite Rs1 |]. intros i x y X Y. right. split; [lia |]. symmetry. eauto.
  - rewrite (proj2 (Z.ltb_lt 0 why)), (proj2 (Z.ltb_lt why R_COUNT)) by lia. cbn [andb].
    destruct (enforced (configuration m) now); (split; [rewrite Fo; intuition (lia || congruence) |]; intros [Ky Ku Ki Kd];
      split; auto; cbn [count_pass count_drop count_reason rx_packets rx_bytes pass_packets drop_packets reasons]; try assumption).
    1, 5: left; (split; [congruence |]); now rewrite ?D1, ?P1.
    1, 3: right; (split; [congruence |]); now rewrite ?D1, ?P1.
    all: split; [now rewrite length_alter, Rs1 | intros i x y X Y; apply Rn; auto; lia].
Qed.
End Follows.

(** C10: The program implements the decision table of this file, for every frame, policy, budget and time. It
    always returns and never reads outside of the frame. The table, which is stated on the layout of frames, on the bytes of
    the transport header and on the policy, gives the frame exactly one verdict: the reason to drop it, 0 for none, and the
    budget afterwards. The program leaves that budget; it drops the frame exactly when there is a reason and the lease is in
    force; and it raises exactly the counters that the table names, each by one modulo [2 ^ 64], and the bytes by the length
    of the frame. Without counters the frame passes and nothing changes. *)
Theorem xdp_refines_table {Trie : Type} `{Lpm Trie} (m : Policy Trie) (k : PerCpu) (d : list Z) (now : Z) :
  Forall is_u8 d -> (forall c, configuration m = Some c -> typed_config c) -> (forall b, syn_budget k = Some b -> typed_bucket b) ->
  exists a k', xddp m k d now = Some (a, k') /\
  match counters k with
  | None => a = XDP_PASS /\ k' = k
  | Some s => exists why o' s', (forall w u, verdict m d (syn_budget k) now w u <-> w = why /\ u = o') /\
      k' = mk_percpu (Some s') o' /\ (a = XDP_DROP <-> why <> 0 /\ in_force m now) /\ booked m d why (a = XDP_DROP) s s'
  end.
Proof.
  intros B Tc Tb. destruct (counters k) as [s |] eqn:K.
  2: { exists XDP_PASS, k. unfold xddp. now rewrite K. }
  destruct (xddp_outcome m k s d now B K) as ([a k'] & E & (s1 & why & o' & D & C & A & N)). exists a, k'. split; [done |].
  cbn [fst snd] in A, N. pose proof (decision_reason m d _ o' now why D) as W.
  pose proof (result_booked m s s1 d why now C W) as R. destruct (xdp_result s1 (configuration m) why now) as [a' s'].
  cbn [fst snd] in A, N. subst a'. destruct R as [R1 R2]. exists why, o', s'. split_and!; [| done | done |].
  - intros w u. split.
    + intros V. apply verdict_decision in V; [| done | done | done]. eapply decision_unique; eauto.
    + intros [-> ->]. destruct (verdict_total m d (syn_budget k) now B Tc Tb) as (w & u & V).
      pose proof (verdict_decision m d _ now B Tc Tb w u V) as V'. now destruct (decision_unique m d _ now w why u o' V' D) as [<- <-].
  - apply R2. eapply xddp_kinds; eauto. now subst k'.
Qed.
