(* ===== verification/XdpWitness.v ===== *)
(** * Instances of the XDP filter's theorems

    Longest-prefix lookup over an association list, a policy with one protected port, and concrete frames. *)
From stdpp Require Import base option list gmap.
From S2P Require Import Prelude Machine XdpParse XdpFrame XdpFilter XdpProps XdpRun XdpTable.
From Stdlib Require Import ZArith Lia.
Local Open Scope Z_scope.

(** ** The kernel's tries *)

(** A key's data, the family as the bytes of a little-endian [u32], and its bits from the most significant
    of each byte. *)
Definition key_bytes (k : prefix_key) : list Z := [family k; 0; 0; 0] ++ addr k.
Definition key_bit (k : prefix_key) (i : nat) : bool :=
  Z.testbit (nth (i / 8) (key_bytes k) 0) (7 - Z.of_nat (i mod 8)).
Definition key_matches (e k : prefix_key) : bool :=
  (prefixlen e <=? prefixlen k) &&
  forallb (fun i => Bool.eqb (key_bit e i) (key_bit k i)) (seq 0 (Z.to_nat (prefixlen e))).

Definition Entries : Type := list (prefix_key * Z).

Definition longer (a b : option (prefix_key * Z)) : option (prefix_key * Z) :=
  match a, b with
  | Some x, Some y => if prefixlen (fst x) <? prefixlen (fst y) then b else a
  | Some _, None => a
  | None, _ => b
  end.

#[global] Instance entries_lpm : Lpm Entries := fun t k =>
  option_map snd (foldr (fun e best => longer (if key_matches (fst e) k then Some e else None) best) None t).

(** ** A policy *)

Definition v4_prefix (len : Z) (bytes : list Z) : prefix_key := key_of (32 + len) 4 bytes.

(** Protect port 25565 of 192.0.2.0/24; block 198.51.100.0/24 as given; rate and burst are 2. *)
Definition sample_config (mode lease : Z) : config := mk_config lease XDDP_ABI 0 mode 0 1 2 2.
Definition sample_policy (mode lease : Z) (al bl : Entries) : Policy Entries :=
  mk_policy (Some (sample_config mode lease)) {[25565 := PORT_PROTECT_TCP]} [(v4_prefix 24 [192; 0; 2; 0], 1)] al bl.
Definition sample_block : Entries := [(v4_prefix 24 [198; 51; 100; 0], R_MANUAL_BLOCK)].
Definition sample_cpu : PerCpu := mk_percpu (Some stats0) (Some bucket0).

(** A SYN and an ACK. *)
Definition sample_flags (fl : Z) : Prop := fl = 2 \/ fl = 16.

Lemma sample_frame_bytes (fl : Z) : sample_flags fl -> Forall is_u8 (sample_frame fl).
Proof.
  intros [-> | ->];
  (repeat (constructor; [unfold is_u8; vm_compute; split; (discriminate || reflexivity) |]); constructor).
Qed.

(** The packet that a sample frame holds. *)
Definition sample_packet (fl : Z) : packet := with_transport (ipv4_packet 18 (sample_ipv4 fl)) 25565 fl.

Lemma sample_protected (mode lease fl : Z) (al bl : Entries) :
  sample_flags fl ->
  protected_frame (sample_policy mode lease al bl) (sample_frame fl) (sample_config mode lease) (sample_packet fl).
Proof.
  intros F. exists (ipv4_packet 18 (sample_ipv4 fl)). split_and!.
  - destruct F as [-> | ->]; split_and!; try reflexivity; discriminate.
  - destruct F as [-> | ->]; reflexivity.
  - destruct F as [-> | ->]; reflexivity.
  - intros (v & E & D). replace (port _) with 25565 in E by (destruct F as [-> | ->]; reflexivity).
    cbn [sample_policy ports] in E. rewrite lookup_singleton_eq in E. injection E as <-.
    destruct D as [[_ D] | [_ D]]; now apply D.
  - exists PORT_PROTECT_TCP. replace (port _) with 25565 by (destruct F as [-> | ->]; reflexivity).
    split; [apply lookup_singleton_eq |]. destruct F as [-> | ->]; now split.
Qed.

(** ** Instances *)

(** The emergency drops a SYN. *)
Lemma xdp_drops_only_witness :
  exists k', xddp (sample_policy 3 1000 [] []) sample_cpu (sample_frame 2) 500 = Some (XDP_DROP, k') /\
  exists c, configuration (sample_policy 3 1000 [] []) = Some c /\ 500 < lease_ns c.
Proof.
  assert (E : exists k', xddp (sample_policy 3 1000 [] []) sample_cpu (sample_frame 2) 500 = Some (XDP_DROP, k'))
    by (eexists; vm_compute; reflexivity).
  destruct E as [k' E]. exists k'. split; [exact E |].
  destruct (xdp_drops_only (sample_policy 3 1000 [] []) sample_cpu k' (sample_frame 2) 500
    (sample_frame_bytes 2 (or_introl eq_refl)) E) as (c & r & p & C & _ & _ & L & _).
  exists c. now split.
Defined.

(** A SYN during EMERGENCY: the table has a reason, and the program drops the frame. *)
Lemma xdp_refines_table_witness :
  exists k' why o', xddp (sample_policy 3 1000 [] []) sample_cpu (sample_frame 2) 500 = Some (XDP_DROP, k') /\
    verdict (sample_policy 3 1000 [] []) (sample_frame 2) (Some bucket0) 500 why o' /\ why <> 0.
Proof.
  destruct (xdp_refines_table (sample_policy 3 1000 [] []) sample_cpu (sample_frame 2) 500
    (sample_frame_bytes 2 (or_introl eq_refl))) as (a & k' & E & M).
  - intros c C. injection C as <-. split; cbn; lia.
  - intros b C. injection C as <-. split; cbn; lia.
  - cbn [counters sample_cpu syn_budget] in M. destruct M as (why & o' & s' & V & _ & A & _). exists k', why, o'.
    assert (D : a = XDP_DROP) by (vm_compute in E; now injection E as <- _).
    split; [now rewrite E, D |]. split; [now apply V | now apply A].
Defined.

(** An ACK from a blocked source is dropped, from an unlisted one it passes, even in EMERGENCY. *)
Lemma xdp_protected_exact_witness :
  (exists k', xddp (sample_policy 1 1000 [] sample_block) sample_cpu (sample_frame 16) 500 = Some (XDP_DROP, k') /\
    new_connection_refused (sample_policy 1 1000 [] sample_block) (sample_config 1 1000) (sample_packet 16) (Some bucket0) 500) /\
  (exists a k', xddp (sample_policy 3 1000 [] []) sample_cpu (sample_frame 16) 500 = Some (a, k') /\ a <> XDP_DROP).
Proof.
  split.
  - assert (E : exists k', xddp (sample_policy 1 1000 [] sample_block) sample_cpu (sample_frame 16) 500 = Some (XDP_DROP, k'))
      by (eexists; vm_compute; reflexivity).
    destruct E as [k' E]. exists k'. split; [exact E |].
    apply (xdp_protected_exact (sample_policy 1 1000 [] sample_block) sample_cpu k' stats0 (sample_frame 16) 500
      (sample_config 1 1000) (sample_packet 16) XDP_DROP (sample_frame_bytes 16 (or_intror eq_refl)) eq_refl
      (sample_protected 1 1000 16 [] sample_block (or_intror eq_refl)) eq_refl E). reflexivity.
  - assert (E : exists k', xddp (sample_policy 3 1000 [] []) sample_cpu (sample_frame 16) 500 = Some (XDP_PASS, k'))
      by (eexists; vm_compute; reflexivity).
    destruct E as [k' E]. exists XDP_PASS, k'. split; [exact E |].
    destruct (xdp_protected_exact (sample_policy 3 1000 [] []) sample_cpu k' stats0 (sample_frame 16) 500
      (sample_config 3 1000) (sample_packet 16) XDP_PASS (sample_frame_bytes 16 (or_intror eq_refl)) eq_refl
      (sample_protected 3 1000 16 [] [] (or_intror eq_refl)) eq_refl E) as [_ X].
    intros D. apply (X eq_refl) in D as [_ D]. vm_compute in D. discriminate.
Defined.

(** A SYN that is dropped and one that passes after the lease. *)
Lemma xdp_accounting_witness :
  exists al k s, xdp_run sample_cpu [(sample_policy 3 1000 [] [], sample_frame 2, 500);
                                     (sample_policy 3 1000 [] [], sample_frame 2, 2000)] = Some (al, k) /\
    counters k = Some s /\ rx_packets s = wrap 64 (tally XDP_PASS al + tally XDP_DROP al).
Proof.
  destruct (xdp_accounting [(sample_policy 3 1000 [] [], sample_frame 2, 500); (sample_policy 3 1000 [] [], sample_frame 2, 2000)]
    (Some bucket0)) as (al & k & s & rs & E & K & _ & (R & _) & _).
  - do 2 (constructor; [apply (sample_frame_bytes 2); now left |]). constructor.
  - exists al, k, s. now split_and!.
Defined.

Lemma sample_charged (mode lease : Z) : charged (sample_config mode lease) (sample_policy mode lease [] []) (sample_frame 2).
Proof. exists (sample_packet 2). split_and!; [apply sample_protected; now left | reflexivity | reflexivity]. Qed.

(** Two SYNs of three pass at once. *)
Lemma xdp_syn_budget_witness :
  exists k, syn_run (sample_config 0 1000) 5 sample_cpu 5 k 2 /\ (2 - 2) * 1000000000 <= 2 * (5 - 5).
Proof.
  assert (B : Forall is_u8 (sample_frame 2)) by (apply sample_frame_bytes; now left).
  assert (R : exists k, syn_run (sample_config 0 1000) 5 sample_cpu 5 k 2).
  { eexists. change 2 with (0 + 1 + 1 + 0).
    eapply (syn_frame _ _ _ 5 _ _ (sample_policy 0 1000 [] []) (sample_frame 2) 5 XDP_DROP);
      [| lia | exact B | reflexivity | reflexivity | | right; split; [reflexivity | now intros []]].
    - eapply (syn_frame _ _ _ 5 _ _ (sample_policy 0 1000 [] []) (sample_frame 2) 5 XDP_PASS);
        [| lia | exact B | reflexivity | reflexivity | | left; split_and!; [reflexivity | apply sample_charged | reflexivity]].
      + eapply (syn_frame _ _ _ 5 _ _ (sample_policy 0 1000 [] []) (sample_frame 2) 5 XDP_PASS);
        [apply syn_start | lia | exact B | reflexivity | reflexivity | vm_compute; reflexivity
        | left; split_and!; [reflexivity | apply sample_charged | reflexivity]].
      + vm_compute. reflexivity.
    - vm_compute. reflexivity. }
  destruct R as [k R]. exists k. split; [exact R |].
  apply (xdp_syn_budget (sample_config 0 1000) 5 5 2 sample_cpu k stats0 bucket0); [cbn; lia | cbn; lia | lia | done | done | | exact R].
  split; cbn; auto with lia.
Defined.
