(* ===== verification/PyNum.v ===== *)
(** * Python numbers

    An [int] of any size or a [float], compared by value as Python does, without rounding the integer.
    Converting an integer that no double can hold raises [OverflowError], here [None]. *)
From S2P Require Import Prelude Machine Float64.
From stdpp Require Import base option list.
From Stdlib Require Import ZArith Lia SpecFloat.
Local Open Scope Z_scope.

Inductive PyNum : Type := PyInt (n : Z) | PyFloat (x : f64).

(** [float(v)], as [math.isfinite] and mixed arithmetic convert. *)
Definition py_float (v : PyNum) : exec f64 :=
  match v with
  | PyInt n => let x := f64_of_Z n in if is_finite x then Some x else None
  | PyFloat x => Some x
  end.

(** [math.isfinite]. *)
Definition py_isfinite (v : PyNum) : exec bool := x ← py_float v; Some (is_finite x).

Definition signed (s : bool) (m : positive) : Z := if s then Zneg m else Zpos m.

(** An integer against a float. *)
Definition cmp_int (n : Z) (x : f64) : option comparison :=
  match x with
  | S754_nan => None
  | S754_infinity s => Some (if s then Gt else Lt)
  | S754_zero _ => Some (n ?= 0)
  | S754_finite s m e =>
    Some (if 0 <=? e then n ?= signed s m * 2 ^ e else n * 2 ^ (- e) ?= signed s m)
  end.

(** Comparison by value; [None] when an operand is a NaN. *)
Definition py_compare (a b : PyNum) : option comparison :=
  match a, b with
  | PyInt m, PyInt n => Some (m ?= n)
  | PyInt m, PyFloat y => cmp_int m y
  | PyFloat x, PyInt n => CompOpp <$> cmp_int n x
  | PyFloat x, PyFloat y => SFcompare x y
  end.

Definition py_le (a b : PyNum) : bool :=
  match py_compare a b with Some Lt | Some Eq => true | _ => false end.
Definition py_ge (a b : PyNum) : bool := py_le b a.
Definition py_lt (a b : PyNum) : bool := match py_compare a b with Some Lt => true | _ => false end.
