(* ===== verification/Adaptive.v ===== *)
(** * The controller's mode machine ([controller/core.py], class [Adaptive])

    Samples of telemetry move the perimeter between NORMAL, ELEVATED, ATTACK and EMERGENCY, and reopen it
    in stages after an EMERGENCY. Dictionaries that the code iterates over are association lists in their
    order, the others finite maps; an exception that leaves [sample] is [None]. *)
From S2P Require Import Prelude Machine Float64 PyNum.
From stdpp Require Import base option list gmap strings.
From Stdlib Require Import ZArith Lia.
Local Open Scope Z_scope.

Definition NORMAL : Z := 0.
Definition ELEVATED : Z := 1.
Definition ATTACK : Z := 2.
Definition EMERGENCY : Z := 3.
Definition MODES : list string := ["normal"; "elevated"; "attack"; "emergency"]%string.

(** ** The [adaptive] section of the configuration *)

Record Band : Type := mk_band { enter : PyNum; exit : PyNum }.
Record Budget : Type := mk_budget { rate : Z; burst : Z }.
Record Stage : Type := mk_stage { seconds : Z; admits : Budget }.
Record Recovery : Type := mk_recovery { enabled : bool; stages : list Stage }.

(** The optional key ["recovery"], which may also be [null]. *)
Inductive RecoveryKey : Type := absent | null | present (r : Recovery).

Abbreviation Bands := (list (string * Band)).
Abbreviation Signals := (gmap string PyNum).

(** Options of the section that have a default hold it when the key is absent. *)
Record AdaptiveConfig : Type := mk_adaptive_config {
  up_samples : Z; down_samples : Z; cooldown_seconds : Z; up_cooldown_seconds : option Z;
  thresholds : gmap string Bands;
  required_signals : gmap string (list string); immediate_signals : gmap string (list string);
  allow_emergency : bool; recovery : RecoveryKey;
  emergency_max_seconds : Z; emergency_rearm_seconds : Z }.

(** ** State *)

Record Adaptive : Type := mk_adaptive {
  mode : Z; changed : f64; up : Z; down : Z; target : Z; recovery_index : Z; recovery_since : f64;
  emergency_blocked_until : f64; emergency_timeouts : Z }.

Definition Adaptive_init (now : f64) : Adaptive := mk_adaptive NORMAL now 0 0 0 (-1) now now 0.

Definition with_counts (a : Adaptive) (u d t : Z) : Adaptive :=
  mk_adaptive (mode a) (changed a) u d t (recovery_index a) (recovery_since a) (emergency_blocked_until a)
    (emergency_timeouts a).
Definition with_recovery (a : Adaptive) (i : Z) (since : f64) : Adaptive :=
  mk_adaptive (mode a) (changed a) (up a) (down a) (target a) i since (emergency_blocked_until a)
    (emergency_timeouts a).

(** A Python list at an index, which counts from the end when it is negative. *)
Definition py_index {A : Type} (l : list A) (i : Z) : exec A :=
  let i := if i <? 0 then Z.of_nat (length l) + i else i in
  if i <? 0 then None else l !! Z.to_nat i.

(** [float(b) - float(a) >= seconds], and [float(now) + seconds], for whole seconds. *)
Definition elapsed_ge (now since : f64) (s : Z) : bool := py_ge (PyFloat (f64_sub now since)) (PyInt s).
Definition later (now : f64) (s : Z) : f64 := f64_add now (f64_of_Z s).

Section Machine.
Variable cfg : AdaptiveConfig.

(** [self.cfg.get("recovery", {}).get("enabled", False)]. *)
Definition recovery_enabled : exec bool :=
  match recovery cfg with absent => Some false | null => None | present r => Some (enabled r) end.

(** [self.cfg["recovery"]["stages"]]. *)
Definition recovery_stages : exec (list Stage) :=
  match recovery cfg with present r => Some (stages r) | _ => None end.

Definition recovery_stage (a : Adaptive) : Z := recovery_index a + 1.

Definition syn_budget (a : Adaptive) (budgets : gmap string Budget) : exec Budget :=
  if (mode a =? ATTACK) && (0 <=? recovery_index a) then
    l ← recovery_stages; s ← py_index l (recovery_index a); Some (admits s)
  else m ← py_index MODES (mode a); budgets !! m.

(** [all] over the bands, which stops at the first that fails. *)
Fixpoint all_below (signals : Signals) (bands : Bands) : exec bool :=
  match bands with
  | [] => Some true
  | (name, band) :: bands =>
    match signals !! name with
    | None => Some false
    | Some v => f ← py_isfinite v; if f && py_le v (exit band) then all_below signals bands else Some false
    end
  end.

(** [_below_exit]. *)
Definition below_exit (m : Z) (signals : Signals) : exec bool :=
  name ← py_index MODES m;
  let bands := default [] (thresholds cfg !! name) in
  if bool_decide (bands = []) then Some false else all_below signals bands.

(** [_start_recovery]. *)
Definition start_recovery (a : Adaptive) (now : f64) : Adaptive := with_recovery a 0 now.

(** [_transition]. *)
Definition transition (a : Adaptive) (m : Z) (now : f64) : Adaptive :=
  mk_adaptive m now (up a) (down a) (target a) (if m =? EMERGENCY then -1 else recovery_index a) (recovery_since a)
    (emergency_blocked_until a) (emergency_timeouts a).

(** [_expire_emergency]. *)
Definition expire_emergency (a : Adaptive) (now : f64) : exec Adaptive :=
  let a := transition a ATTACK now in
  let a := mk_adaptive (mode a) (changed a) 0 0 0 (recovery_index a) (recovery_since a)
             (later now (emergency_rearm_seconds cfg)) (emergency_timeouts a + 1) in
  e ← recovery_enabled;
  Some (if e : bool then start_recovery a now else with_recovery a (-1) now).

(** The names whose signal is at or above its band's [enter]. *)
Fixpoint high_signals (signals : Signals) (bands : Bands) : exec (list string) :=
  match bands with
  | [] => Some []
  | (name, band) :: bands =>
    h ← match signals !! name with
        | None => Some false
        | Some v => f ← py_isfinite v; Some (f && py_ge v (enter band))
        end;
    rest ← high_signals signals bands;
    Some (if h : bool then name :: rest else rest)
  end.

(** One turn of the loop of [_targets]. *)
Definition target_of (a : Adaptive) (signals : Signals) (now : f64) (i : Z) (m : string) (acc : Z * Z) : exec (Z * Z) :=
  if bool_decide (m = "emergency"%string) && (negb (allow_emergency cfg) || f64_ltb now (emergency_blocked_until a))
  then Some acc
  else
    bands ← thresholds cfg !! m;
    high ← high_signals signals bands;
    let guards := default [] (required_signals cfg !! m) in
    if negb (bool_decide (high = [])) && forallb (fun n => bool_decide (n ∈ high)) guards then
      let hurry := existsb (fun n => bool_decide (n ∈ high)) (default [] (immediate_signals cfg !! m)) in
      Some (i, if hurry then i else snd acc)
    else Some acc.

(** [_targets]. *)
Definition targets (a : Adaptive) (signals : Signals) (now : f64) : exec (Z * Z) :=
  acc ← target_of a signals now 1 "elevated" (NORMAL, NORMAL);
  acc ← target_of a signals now 2 "attack" acc;
  target_of a signals now 3 "emergency" acc.

(** [_sample_recovery]. *)
Definition sample_recovery (a : Adaptive) (signals : Signals) (now : f64) (t : Z) : exec Adaptive :=
  b ← below_exit ATTACK signals;
  a ← (if negb b then Some (start_recovery a now)
       else
         l ← recovery_stages;
         stage ← py_index l (recovery_index a);
         if elapsed_ge now (recovery_since a) (seconds stage) then
           let i := recovery_index a + 1 in
           Some (with_recovery a (if i =? Z.of_nat (length l) then -1 else i) now)
         else Some a);
  Some (with_counts a 0 0 t).

(** [_escalate]. *)
Definition escalate (a : Adaptive) (t : Z) (now : f64) : Adaptive :=
  let a := with_counts a (if target a =? t then up a + 1 else 1) 0 t in
  let cooldown := default (cooldown_seconds cfg) (up_cooldown_seconds cfg) in
  if (up_samples cfg <=? up a) && elapsed_ge now (changed a) cooldown then
    let a := transition a t now in with_counts a 0 (down a) (target a)
  else a.

(** [_relax]. *)
Definition relax (a : Adaptive) (signals : Signals) (now : f64) : exec Adaptive :=
  b ← below_exit (mode a) signals;
  let a := with_counts a 0 (if b : bool then down a + 1 else 0) (target a) in
  if negb (mode a =? 0) && (down_samples cfg <=? down a) && elapsed_ge now (changed a) (cooldown_seconds cfg) then
    let previous := mode a in
    let a := transition a (mode a - 1) now in
    let a := with_counts a (up a) 0 (target a) in
    if previous =? EMERGENCY then e ← recovery_enabled; Some (if e : bool then start_recovery a now else a)
    else Some a
  else Some a.

(** [sample]; its result is the new [mode]. *)
Definition sample (a : Adaptive) (signals : Signals) (now : f64) : exec Adaptive :=
  if (mode a =? EMERGENCY) && elapsed_ge now (changed a) (emergency_max_seconds cfg) then expire_emergency a now
  else
    '(t, it) ← targets a signals now;
    if mode a <? it then Some (with_counts (transition a it now) 0 0 0)
    else if (mode a =? ATTACK) && (0 <=? recovery_index a) && (t <? EMERGENCY) then sample_recovery a signals now t
    else if mode a <? t then Some (escalate a t now)
    else relax a signals now.
End Machine.

(** ** Validation ([validate], its part for the section) *)

Definition SIGNALS : gset string := list_to_set
  ["pps"; "bps"; "syn_per_second"; "accepts_per_second"; "handshakes_per_second";
   "status_per_second"; "logins_per_second"; "churn_per_second"; "active_prelogin";
   "new_ip_entries_per_second"; "new_prefix_entries_per_second"; "active_status";
   "backend_connections"; "backend_failures_per_second"; "resource_limited_per_second"; "conntrack_percent";
   "conntrack_projected_percent"; "conntrack_growth_per_second"; "conntrack_drops_per_second";
   "listen_overflows_per_second"; "listen_drops_per_second"; "syncookies_per_second"]%string.
Definition traffic : list string := ["syn_per_second"; "accepts_per_second"; "handshakes_per_second"; "churn_per_second"]%string.
Definition pressure : list string :=
  ["conntrack_percent"; "conntrack_projected_percent"; "conntrack_growth_per_second";
   "conntrack_drops_per_second"; "listen_overflows_per_second"; "listen_drops_per_second"; "active_prelogin";
   "backend_connections"; "resource_limited_per_second"]%string.
Definition higher_modes : gset string := list_to_set (tail MODES).

(** [positive] does not raise; an integer too large for [isfinite] raises as well. *)
Definition positive (v : PyNum) (minimum maximum : Z) : bool :=
  match py_isfinite v with
  | Some f => f && py_le (PyInt minimum) v && py_le v (PyInt maximum)
  | None => false
  end.
Definition within (v minimum maximum : Z) : bool := (minimum <=? v) && (v <=? maximum).

Definition band_ok (b : Band) : bool :=
  positive (enter b) 1 1000000000 && positive (exit b) 0 1000000000 && negb (py_ge (exit b) (enter b)).

Definition names_ok (names : list string) (bands : Bands) : bool :=
  bool_decide (NoDup names) && forallb (fun n => bool_decide (n ∈ fst <$> bands)) names.

Definition mode_ok (cfg : AdaptiveConfig) (m : string) : bool :=
  let bands := default [] (thresholds cfg !! m) in
  forallb (fun nb => bool_decide (fst nb ∈ SIGNALS) && band_ok (snd nb)) bands &&
  names_ok (default [] (required_signals cfg !! m)) bands &&
  names_ok (default [] (immediate_signals cfg !! m)) bands.

Definition emergency_guarded (cfg : AdaptiveConfig) : bool :=
  let guards := default [] (required_signals cfg !! "emergency"%string) in
  existsb (fun n => bool_decide (n ∈ traffic)) guards && existsb (fun n => bool_decide (n ∈ pressure)) guards.

(** The loop over the recovery stages, with the rate and burst of the one before. *)
Fixpoint stages_ok (on : bool) (attack : Budget) (last_rate last_burst : Z) (l : list Stage) : bool :=
  match l with
  | [] => true
  | s :: l =>
    let r := rate (admits s) in let b := burst (admits s) in
    within (seconds s) 1 3600 && within r 1 1000000000 && within b 1 1000000 &&
    negb ((r <? last_rate) || (b <? last_burst)) && negb (on && ((rate attack <? r) || (burst attack <? b))) &&
    stages_ok on attack r b l
  end.

Definition recovery_ok (cfg : AdaptiveConfig) (attack : Budget) : bool :=
  match recovery cfg with
  | present r =>
    within (Z.of_nat (length (stages r))) 1 4 && stages_ok (enabled r) attack 0 0 (stages r) &&
    (negb (enabled r) ||
     (allow_emergency cfg && negb (bool_decide (default [] (thresholds cfg !! "emergency"%string) = [])) &&
      negb (bool_decide (default [] (thresholds cfg !! "attack"%string) = []))))
  | _ => true
  end.

Definition validate_adaptive (attack : Budget) (cfg : AdaptiveConfig) : bool :=
  within (emergency_max_seconds cfg) 1 3600 && within (emergency_rearm_seconds cfg) 1 3600 &&
  match up_cooldown_seconds cfg with Some c => within c 0 3600 | None => true end &&
  bool_decide (dom (required_signals cfg) ⊆ higher_modes) && bool_decide (dom (immediate_signals cfg) ⊆ higher_modes) &&
  within (up_samples cfg) 1 3600 && within (down_samples cfg) 1 3600 && within (cooldown_seconds cfg) 1 3600 &&
  bool_decide (dom (thresholds cfg) = higher_modes) &&
  (negb (allow_emergency cfg) || emergency_guarded cfg) &&
  forallb (mode_ok cfg) (tail MODES) && recovery_ok cfg attack.
