(* ===== verification/AdaptiveProps.v ===== *)
(** * What the mode machine guarantees

    Its invariant, when it raises, and, over any history of samples: what each change of mode needs, the
    bound on EMERGENCY, the effect of missing telemetry, and the budgets of the recovery stages. *)
From S2P Require Import Prelude Machine Float64 PyNum Adaptive.
From stdpp Require Import base option list gmap strings.
From Stdlib Require Import ZArith Lia.
Local Open Scope Z_scope.

Section Machine.
Variable cfg : AdaptiveConfig.

(** ** What a sample calls for *)

Definition finite_at_least (s : Signals) (n : string) (limit : PyNum) : Prop :=
  exists v, s !! n = Some v /\ py_isfinite v = Some true /\ py_ge v limit = true.

(** The signal [n] is at or above its band of the mode named [m]. *)
Definition high (s : Signals) (m n : string) : Prop :=
  exists bands band, thresholds cfg !! m = Some bands /\ (n, band) ∈ bands /\ finite_at_least s n (enter band).

(** A sample calls for the mode [i]: some signal is high and every required one is. *)
Definition calls (s : Signals) (i : Z) : Prop :=
  exists m, 0 < i /\ MODES !! Z.to_nat i = Some m /\ (exists n, high s m n) /\
    forall n, n ∈ default [] (required_signals cfg !! m) -> high s m n.
(** It calls for it at once. *)
Definition hurries (s : Signals) (i : Z) : Prop :=
  exists m n, MODES !! Z.to_nat i = Some m /\ n ∈ default [] (immediate_signals cfg !! m) /\ high s m n.

Lemma high_signals_spec (s : Signals) (m : string) (bands all : Bands) (l : list string) :
  thresholds cfg !! m = Some all -> (forall x, x ∈ bands -> x ∈ all) -> high_signals s bands = Some l ->
  forall n, n ∈ l -> high s m n.
Proof using Type.
  intros T. revert l. induction bands as [| [name band] bands IH]; cbn [high_signals]; intros l Sub E n N.
  { injection E as <-. now apply not_elem_of_nil in N. }
  destruct (s !! name) as [v |] eqn:V; cbn [mbind option_bind] in E.
  - destruct (py_isfinite v) as [f |] eqn:F; [| discriminate]. cbn [mbind option_bind] in E.
    destruct (high_signals s bands) as [rest |] eqn:R; [| discriminate]. cbn [mbind option_bind] in E. injection E as <-.
    destruct (f && py_ge v (enter band)) eqn:G.
    + apply elem_of_cons in N as [-> | N]; [| apply (IH rest); [set_solver | done | done]].
      breflect. subst f. exists all, band. split_and!; [done | apply Sub; left | now exists v].
    + apply (IH rest); [set_solver | done | done].
  - destruct (high_signals s bands) as [rest |] eqn:R; [| discriminate]. cbn [mbind option_bind] in E. injection E as <-.
    apply (IH rest); [set_solver | done | done].
Qed.

(** One turn of the loop of [_targets]. *)
Definition target_ok (a : Adaptive) (s : Signals) (now : f64) (acc : Z * Z) : Prop :=
  0 <= fst acc <= 3 /\ 0 <= snd acc <= fst acc /\
  (0 < fst acc -> calls s (fst acc)) /\ (0 < snd acc -> calls s (snd acc) /\ hurries s (snd acc)) /\
  (fst acc = EMERGENCY -> allow_emergency cfg = true /\ f64_ltb now (emergency_blocked_until a) = false).

Lemma target_of_ok (a : Adaptive) (s : Signals) (now : f64) (i : Z) (m : string) (acc acc' : Z * Z) :
  1 <= i <= 3 -> MODES !! Z.to_nat i = Some m -> fst acc < i -> target_ok a s now acc ->
  target_of cfg a s now i m acc = Some acc' -> target_ok a s now acc' /\ fst acc' <= i.
Proof using Type.
  intros I M L (B1 & B2 & C & H & Em) E. unfold target_of in E.
  assert (Keep : acc = acc' -> target_ok a s now acc' /\ fst acc' <= i) by (intros <-; split; [now split_and! | lia]).
  destruct (_ && _) eqn:Sk in E; [injection E; auto |].
  destruct (thresholds cfg !! m) as [bands |] eqn:T; [| discriminate]. cbn [mbind option_bind] in E.
  destruct (high_signals s bands) as [l |] eqn:Hs; [| discriminate]. cbn [mbind option_bind] in E.
  pose proof (high_signals_spec s m bands bands l T (fun x y => y) Hs) as Hl.
  destruct (_ && _) eqn:G in E; [| injection E; auto]. injection E as <-. breflect.
  apply bool_decide_eq_false in H0. rewrite forallb_forall in H1.
  assert (Cl : calls s i).
  { exists m. split_and!; [lia | done | |].
    - destruct l as [| n l]; [done |]. exists n. apply Hl. left.
    - intros n N. apply Hl. apply list_elem_of_In, H1 in N. now apply bool_decide_eq_true in N. }
  split; [| cbn; lia]. split_and!; cbn [fst snd]; try lia; auto.
  - destruct (existsb _ _); lia.
  - destruct (existsb _ _); lia.
  - destruct (existsb _ _) eqn:X; [| auto]. split; [done |]. apply existsb_exists in X as (n & N & X).
    exists m, n. apply bool_decide_eq_true in X. split_and!; [done | now apply list_elem_of_In | auto].
  - intros ->. injection M as <-. rewrite bool_decide_eq_true_2 in Sk by done. cbn [andb] in Sk. breflect. auto.
Qed.

Lemma targets_ok (a : Adaptive) (s : Signals) (now : f64) (t : Z * Z) :
  targets cfg a s now = Some t -> target_ok a s now t.
Proof using Type.
  unfold targets. intros E.
  destruct (target_of cfg a s now 1 _ _) as [t1 |] eqn:E1; [| discriminate]. cbn [mbind option_bind] in E.
  destruct (target_of cfg a s now 2 _ _) as [t2 |] eqn:E2; [| discriminate]. cbn [mbind option_bind] in E.
  apply target_of_ok in E1 as [O1 L1]; [| lia | done | done | split_and!; cbn; done || lia].
  apply target_of_ok in E2 as [O2 L2]; [| lia | done | lia | done].
  apply target_of_ok in E as [O3 L3]; [done | lia | done | lia | done].
Qed.

(** ** The cases of [sample], in the order of the code *)

Definition expired (a : Adaptive) (now : f64) : bool :=
  (mode a =? EMERGENCY) && elapsed_ge now (changed a) (emergency_max_seconds cfg).
Definition probing (a : Adaptive) : bool := (mode a =? ATTACK) && (0 <=? recovery_index a).

Inductive sampled (a : Adaptive) (s : Signals) (now : f64) : exec Adaptive -> Prop :=
| s_expired : expired a now = true -> sampled a s now (expire_emergency cfg a now)
| s_raised : expired a now = false -> targets cfg a s now = None -> sampled a s now None
| s_immediate t it : expired a now = false -> targets cfg a s now = Some (t, it) -> mode a < it ->
    sampled a s now (Some (with_counts (transition a it now) 0 0 0))
| s_probe t it : expired a now = false -> targets cfg a s now = Some (t, it) -> it <= mode a ->
    probing a = true -> t < EMERGENCY -> sampled a s now (sample_recovery cfg a s now t)
| s_escalate t it : expired a now = false -> targets cfg a s now = Some (t, it) -> it <= mode a ->
    (probing a = true -> t = EMERGENCY) -> mode a < t -> sampled a s now (Some (escalate cfg a t now))
| s_relax t it : expired a now = false -> targets cfg a s now = Some (t, it) -> it <= mode a ->
    (probing a = true -> t = EMERGENCY) -> t <= mode a -> sampled a s now (relax cfg a s now).

Lemma sample_sampled (a : Adaptive) (s : Signals) (now : f64) : sampled a s now (sample cfg a s now).
Proof using Type.
  unfold sample. fold (expired a now). destruct (expired a now) eqn:X; [now constructor |].
  destruct (targets cfg a s now) as [[t it] |] eqn:T; [| now constructor]. cbn [mbind option_bind].
  pose proof (targets_ok a s now _ T) as (B & _). cbn in B.
  destruct (Z.ltb_spec (mode a) it); [now apply (s_immediate a s now t it) |]. fold (probing a).
  destruct (probing a) eqn:P; cbn [andb].
  - destruct (Z.ltb_spec t EMERGENCY); [now apply (s_probe a s now t it) |].
    assert (t = EMERGENCY) by (unfold EMERGENCY in *; lia).
    destruct (Z.ltb_spec (mode a) t); [apply (s_escalate a s now t it) | apply (s_relax a s now t it)]; auto.
  - destruct (Z.ltb_spec (mode a) t); [apply (s_escalate a s now t it) | apply (s_relax a s now t it)]; auto; congruence.
Qed.

(** ** The invariant *)

Definition recovers (n : Z) : Prop :=
  exists r, recovery cfg = present r /\ enabled r = true /\ n < Z.of_nat (length (stages r)).

Record adaptive_ok (a : Adaptive) : Prop := {
  ok_mode : NORMAL <= mode a <= EMERGENCY;
  ok_target : NORMAL <= target a <= EMERGENCY;
  ok_counts : 0 <= up a /\ 0 <= down a;
  ok_index : -1 <= recovery_index a;
  ok_probe : 0 <= recovery_index a -> mode a = ATTACK /\ recovers (recovery_index a) }.

Lemma init_ok (now : f64) : adaptive_ok (Adaptive_init now).
Proof using Type. split; cbn; unfold NORMAL, EMERGENCY; lia. Qed.

(** Every configured recovery has a stage. *)
Definition has_stages : Prop := forall r, recovery cfg = present r -> 0 < Z.of_nat (length (stages r)).

Lemma recovery_enabled_true : recovery_enabled cfg = Some true -> exists r, recovery cfg = present r /\ enabled r = true.
Proof using Type. unfold recovery_enabled. destruct (recovery cfg) as [| | r]; [done | done |]. intros [= E]. eauto. Qed.

Lemma recovers_0 : has_stages -> recovery_enabled cfg = Some true -> recovers 0.
Proof using Type. intros S E. destruct (recovery_enabled_true E) as (r & R & On). exists r. split_and!; auto. Qed.

Lemma expire_emergency_ok (a a' : Adaptive) (now : f64) :
  has_stages -> adaptive_ok a -> expire_emergency cfg a now = Some a' -> adaptive_ok a'.
Proof using Type.
  intros S A E. unfold expire_emergency in E. destruct (recovery_enabled cfg) as [e |] eqn:R; [| discriminate].
  cbn [mbind option_bind] in E. injection E as <-.
  destruct e; split; cbn; unfold NORMAL, EMERGENCY, ATTACK; try lia. intros _. split; [done | now apply recovers_0].
Qed.

(** What [_sample_recovery] does. *)
Definition probed (a a' : Adaptive) (s : Signals) (now : f64) : Prop :=
  (below_exit cfg ATTACK s = Some false /\ recovery_index a' = 0 /\ recovery_since a' = now) \/
  (below_exit cfg ATTACK s = Some true /\ exists r stage,
    recovery cfg = present r /\ py_index (stages r) (recovery_index a) = Some stage /\
    if elapsed_ge now (recovery_since a) (seconds stage) then
      recovery_since a' = now /\
      recovery_index a' = (if recovery_index a + 1 =? Z.of_nat (length (stages r)) then -1 else recovery_index a + 1)
    else recovery_since a' = recovery_since a /\ recovery_index a' = recovery_index a).

Lemma sample_recovery_spec (a a' : Adaptive) (s : Signals) (now : f64) (t : Z) :
  sample_recovery cfg a s now t = Some a' ->
  mode a' = mode a /\ changed a' = changed a /\ emergency_blocked_until a' = emergency_blocked_until a /\
  up a' = 0 /\ down a' = 0 /\ target a' = t /\ probed a a' s now.
Proof using Type.
  unfold sample_recovery, recovery_stages, probed. intros E.
  destruct (below_exit cfg ATTACK s) as [[] |]; [| | discriminate]; cbn [mbind option_bind negb] in E.
  - destruct (recovery cfg) as [| | r]; [discriminate | discriminate |]. cbn [mbind option_bind] in E.
    destruct (py_index _ _) as [stage |] eqn:P; [| discriminate]. cbn [mbind option_bind] in E.
    destruct (elapsed_ge _ _ _) eqn:G; cbn [mbind option_bind] in E; injection E as <-; split_and!; auto; right;
      (split; [done |]); exists r, stage; rewrite G; now split_and!.
  - injection E as <-. split_and!; auto.
Qed.

Lemma sample_recovery_ok (a a' : Adaptive) (s : Signals) (now : f64) (t : Z) :
  adaptive_ok a -> probing a = true -> NORMAL <= t <= EMERGENCY -> sample_recovery cfg a s now t = Some a' -> adaptive_ok a'.
Proof using Type.
  intros A P T E. unfold probing in P. breflect. destruct (ok_probe a A H0) as (M & r & R & On & L).
  apply sample_recovery_spec in E as (M' & _ & _ & U & D & Ta & Pr). assert (B : NORMAL <= mode a <= EMERGENCY) by apply A.
  assert (X : -1 <= recovery_index a' /\ (0 <= recovery_index a' -> recovery_index a' < Z.of_nat (length (stages r)))).
  { destruct Pr as [(_ & -> & _) | (_ & r' & stage & R' & _ & Pr)]; [lia |]. rewrite R in R'. injection R' as <-.
    destruct (elapsed_ge _ _ _); destruct Pr as [_ ->]; [destruct (Z.eqb_spec (recovery_index a + 1) (Z.of_nat (length (stages r)))) |]; lia. }
  split; rewrite ?M', ?Ta, ?U, ?D; try lia. intros I. split; [done |]. exists r. split_and!; auto. now apply X.
Qed.

Lemma escalate_ok (a : Adaptive) (t : Z) (now : f64) :
  adaptive_ok a -> (probing a = true -> t = EMERGENCY) -> mode a < t <= EMERGENCY -> adaptive_ok (escalate cfg a t now).
Proof using Type.
  intros A P T. assert (B : NORMAL <= mode a <= EMERGENCY) by apply A. destruct (ok_counts a A) as [U D].
  pose proof (ok_index a A) as Ix. pose proof (ok_probe a A) as Pr. unfold escalate.
  destruct (_ && _); split; cbn; try lia; auto; try (destruct (_ =? _); lia).
  destruct (Z.eqb_spec t EMERGENCY) as [-> | Ne]; [lia |]. intros I. destruct (Pr I) as [M _].
  exfalso. apply Ne, P. unfold probing. rewrite M. cbn. lia.
Qed.

Lemma relax_ok (a a' : Adaptive) (s : Signals) (now : f64) :
  has_stages -> adaptive_ok a -> probing a = false -> relax cfg a s now = Some a' -> adaptive_ok a'.
Proof using Type.
  intros S A P E. assert (B : NORMAL <= mode a <= EMERGENCY) by apply A. destruct (ok_counts a A) as [U D].
  assert (Ta : NORMAL <= target a <= EMERGENCY) by apply A.
  pose proof (ok_index a A) as Ix. assert (NI : recovery_index a < 0).
  { destruct (Z.le_gt_cases 0 (recovery_index a)) as [I |]; [| done]. destruct (ok_probe a A I) as [M _].
    unfold probing in P. rewrite M in P. cbn in P. lia. }
  unfold relax in E. destruct (below_exit _ _ _) as [b |]; [| discriminate]. cbn [mbind option_bind] in E.
  cbn [with_counts mode down changed] in E. destruct (negb _ && _ && _) eqn:G.
  - breflect. cbn in E. unfold NORMAL, EMERGENCY in *. destruct (Z.eqb_spec (mode a) 3) as [Me |]; cbn [mbind option_bind] in E.
    + destruct (recovery_enabled cfg) as [[] |] eqn:R; [| | discriminate]; cbn [mbind option_bind] in E; injection E as <-;
        rewrite Me; split; cbn; unfold NORMAL, EMERGENCY, ATTACK; change (3 - 1 =? 3) with false; cbv iota; try lia.
      intros _. split; [done | now apply recovers_0].
    + injection E as <-. split; cbn; unfold NORMAL, EMERGENCY; try lia; destruct (_ =? _); lia.
  - injection E as <-. split; cbn; try lia; auto. destruct b; lia.
Qed.

Lemma sample_ok (a a' : Adaptive) (s : Signals) (now : f64) :
  has_stages -> adaptive_ok a -> sample cfg a s now = Some a' -> adaptive_ok a'.
Proof using Type.
  intros S A E. pose proof (sample_sampled a s now) as X. rewrite E in X.
  inversion X as [Ex Eq | | t it Ex T I Eq | t it Ex T I P L Eq | t it Ex T I P L Eq | t it Ex T I P L Eq]; subst;
    try (pose proof (targets_ok a s now _ T) as (B & B' & _); cbn in B, B').
  - now apply (expire_emergency_ok a a' now).
  - assert (Bm : NORMAL <= mode a <= EMERGENCY) by apply A. split; cbn; unfold NORMAL, EMERGENCY in *; try lia.
    + pose proof (ok_index a A). destruct (_ =? _); lia.
    + destruct (Z.eqb_spec it 3); [lia |]. intros Ix. destruct (ok_probe a A Ix) as [M _]. unfold ATTACK in M. lia.
  - now apply (sample_recovery_ok a a' s now t).
  - apply escalate_ok; auto. unfold EMERGENCY. lia.
  - apply (relax_ok a a' s now); auto. destruct (probing a) eqn:Pr; [| done]. specialize (P eq_refl). subst t.
    unfold probing in Pr. breflect. unfold EMERGENCY, ATTACK in *. lia.
Qed.

(** ** When it raises *)

(** The signals that the machine reads convert to [float]. *)
Definition readable (s : Signals) : Prop := forall n v, s !! n = Some v -> py_isfinite v <> None.
Definition thresholds_set : Prop := forall m, m ∈ tail MODES -> is_Some (thresholds cfg !! m).

Lemma all_below_returns (s : Signals) (bands : Bands) : readable s -> is_Some (all_below s bands).
Proof using Type.
  intros R. induction bands as [| [n b] bands IH]; cbn [all_below]; [eauto |].
  destruct (s !! n) as [v |] eqn:V; [| eauto]. specialize (R n v V). destruct (py_isfinite v) as [f |]; [| done].
  cbn [mbind option_bind]. destruct (_ && _); eauto.
Qed.

Lemma below_exit_returns (s : Signals) (m : Z) :
  readable s -> NORMAL <= m <= EMERGENCY -> is_Some (below_exit cfg m s).
Proof using Type.
  intros R M. unfold NORMAL, EMERGENCY in M. unfold below_exit. assert (N : is_Some (py_index MODES m)).
  { destruct (decide (m = 0)) as [-> |]; [eauto |]. destruct (decide (m = 1)) as [-> |]; [eauto |].
    destruct (decide (m = 2)) as [-> |]; [eauto |]. replace m with 3 by lia. eauto. }
  destruct N as [x ->]. cbn [mbind option_bind]. cbv zeta. destruct (bool_decide _); [eauto | now apply all_below_returns].
Qed.

Lemma high_signals_returns (s : Signals) (bands : Bands) : readable s -> is_Some (high_signals s bands).
Proof using Type.
  intros R. induction bands as [| [n b] bands [l IH]]; cbn [high_signals]; [eauto |]. rewrite IH.
  destruct (s !! n) as [v |] eqn:V; [| cbn; eauto]. specialize (R n v V). destruct (py_isfinite v) as [f |]; [| done].
  cbn. eauto.
Qed.

Lemma target_of_returns (a : Adaptive) (s : Signals) (now : f64) (i : Z) (m : string) (acc : Z * Z) :
  readable s -> thresholds_set -> m ∈ tail MODES -> is_Some (target_of cfg a s now i m acc).
Proof using Type.
  intros R T M. unfold target_of. destruct (_ && _); [eauto |]. destruct (T m M) as [bands ->]. cbn [mbind option_bind].
  destruct (high_signals_returns s bands R) as [l ->]. cbn [mbind option_bind]. destruct (_ && _); eauto.
Qed.

Lemma targets_returns (a : Adaptive) (s : Signals) (now : f64) :
  readable s -> thresholds_set -> is_Some (targets cfg a s now).
Proof using Type.
  intros R T. unfold targets.
  destruct (target_of_returns a s now 1 "elevated" (NORMAL, NORMAL) R T) as [x ->]; [cbn; set_solver |]. cbn [mbind option_bind].
  destruct (target_of_returns a s now 2 "attack" x R T) as [y ->]; [cbn; set_solver |]. cbn [mbind option_bind].
  apply target_of_returns; [done | done | cbn; set_solver].
Qed.

Lemma sample_recovery_returns (a : Adaptive) (s : Signals) (now : f64) (t : Z) :
  readable s -> adaptive_ok a -> probing a = true -> is_Some (sample_recovery cfg a s now t).
Proof using Type.
  intros R A P. unfold probing in P. breflect. destruct (ok_probe a A H0) as (_ & r & Re & _ & L). unfold sample_recovery.
  destruct (below_exit_returns s ATTACK R) as [b ->]; [done |]. cbn [mbind option_bind]. destruct (negb b); [cbn; eauto |].
  unfold recovery_stages. rewrite Re. cbn [mbind option_bind]. unfold py_index.
  destruct (Z.ltb_spec (recovery_index a) 0); [lia |]. destruct (Z.ltb_spec (recovery_index a) 0); [lia |].
  destruct (lookup_lt_is_Some_2 (stages r) (Z.to_nat (recovery_index a))) as [st ->]; [lia |]. cbn [mbind option_bind].
  destruct (elapsed_ge _ _ _); cbn; eauto.
Qed.

(** The one exception: a recovery of [null], when an EMERGENCY ends. *)
Lemma sample_returns (a : Adaptive) (s : Signals) (now : f64) :
  readable s -> thresholds_set -> adaptive_ok a ->
  is_Some (sample cfg a s now) \/ (sample cfg a s now = None /\ recovery cfg = null /\ mode a = EMERGENCY).
Proof using Type.
  intros R T A.
  assert (Re : is_Some (recovery_enabled cfg) \/ recovery cfg = null) by (unfold recovery_enabled; destruct (recovery cfg); eauto).
  destruct (sample_sampled a s now) as [Ex | _ Tn | t it _ _ _ | t it _ _ _ P _ | t it _ _ _ _ _ | t it _ _ _ _ _].
  - unfold expired in Ex. breflect. unfold expire_emergency. destruct Re as [[e ->] | Nu]; [cbn; eauto |].
    right. unfold recovery_enabled. rewrite Nu. now split_and!.
  - destruct (targets_returns a s now R T). congruence.
  - eauto.
  - left. now apply sample_recovery_returns.
  - eauto.
  - unfold relax. destruct (below_exit_returns s (mode a) R) as [b ->]; [apply A |]. cbn [mbind option_bind].
    destruct (_ && _); [| eauto]. cbn [with_counts mode]. destruct (Z.eqb_spec (mode a) EMERGENCY) as [M | M]; [| eauto].
    destruct Re as [[e ->] | Nu]; [cbn; eauto |]. right. unfold recovery_enabled. rewrite Nu. now split_and!.
Qed.
End Machine.

(** ** Validation *)

Section Validated.
Variables (cfg : AdaptiveConfig) (attack : Budget).
Hypothesis valid : validate_adaptive attack cfg = true.

Lemma validated_parts :
  dom (thresholds cfg) = higher_modes /\ (allow_emergency cfg = true -> emergency_guarded cfg = true) /\
  (forall m, m ∈ tail MODES -> mode_ok cfg m = true) /\ recovery_ok cfg attack = true /\
  1 <= up_samples cfg /\ 1 <= down_samples cfg.
Proof using valid.
  pose proof valid as V. unfold validate_adaptive, within in V.
  apply andb_true_iff in V as [V R]. apply andb_true_iff in V as [V M]. apply andb_true_iff in V as [V G].
  apply andb_true_iff in V as [V D]. breflect. split_and!; auto.
  - now apply bool_decide_eq_true in D.
  - intros E. rewrite E in G. exact G.
  - intros m Hm. rewrite forallb_forall in M. now apply M, list_elem_of_In.
Qed.

Lemma validated_thresholds : thresholds_set cfg.
Proof using valid.
  destruct validated_parts as (D & _). intros m M. apply elem_of_dom. rewrite D. unfold higher_modes. set_solver.
Qed.

Lemma validated_stages : has_stages cfg.
Proof using valid.
  destruct validated_parts as (_ & _ & _ & R & _). intros r E. unfold recovery_ok in R. rewrite E in R.
  unfold within in R. breflect. lia.
Qed.

(** Every stage of a list that passes the check. *)
Lemma stages_ok_spec (on : bool) (lr lb : Z) (l : list Stage) :
  stages_ok on attack lr lb l = true ->
  Forall (fun s => 1 <= rate (admits s) /\ 1 <= burst (admits s) /\ lr <= rate (admits s) /\ lb <= burst (admits s) /\
    (on = true -> rate (admits s) <= rate attack /\ burst (admits s) <= burst attack)) l /\
  forall i j x y, (i <= j)%nat -> l !! i = Some x -> l !! j = Some y ->
    rate (admits x) <= rate (admits y) /\ burst (admits x) <= burst (admits y).
Proof using Type.
  revert lr lb. induction l as [| s l IH]; cbn [stages_ok]; intros lr lb E; [split; [constructor | done] |].
  unfold within in E. repeat (apply andb_true_iff in E as [E ?]). destruct (IH _ _ H) as [F M]. breflect. split.
  - constructor.
    + split_and!; try lia; intros ->; cbn in H0; breflect; lia.
    + eapply Forall_impl; [exact F |]. intros x (? & ? & ? & ? & ?). split_and!; auto; lia.
  - intros [| i] [| j] x y Le X Y; cbn in X, Y; try lia.
    + injection X as <-. injection Y as <-. lia.
    + injection X as <-. rewrite Forall_lookup in F. apply F in Y. lia.
    + apply (M i j); auto. lia.
Qed.
End Validated.
