(* ===== verification/AdaptiveRun.v ===== *)
(** * The mode machine over a history of samples

    The states that samples lead to, newest sample first, and what each change of mode needs of that
    history. *)
From S2P Require Import Prelude Machine Float64 PyNum Adaptive AdaptiveProps.
From stdpp Require Import base option list gmap strings.
From Stdlib Require Import ZArith Lia.
Local Open Scope Z_scope.

(** The machine made at [t0] is in state [a] after the samples [h]. *)
Inductive reached (cfg : AdaptiveConfig) (t0 : f64) : list (Signals * f64) -> Adaptive -> Prop :=
| reached_init : reached cfg t0 [] (Adaptive_init t0)
| reached_sample h a s now a' :
    reached cfg t0 h a -> sample cfg a s now = Some a' -> reached cfg t0 ((s, now) :: h) a'.

Section Machine.
Variable cfg : AdaptiveConfig.
Variable t0 : f64.

Lemma reached_ok (h : list (Signals * f64)) (a : Adaptive) : has_stages cfg -> reached cfg t0 h a -> adaptive_ok cfg a.
Proof using Type. intros S R. induction R as [| h a s now a' R IH E]; [apply init_ok | now apply (sample_ok cfg a a' s now)]. Qed.

(** The last [n] samples satisfy [P]. *)
Definition lately (n : Z) (h : list (Signals * f64)) (P : Signals -> Prop) : Prop :=
  n <= Z.of_nat (length h) /\ Forall (fun e => P (fst e)) (take (Z.to_nat n) h).

Lemma lately_0 (h : list (Signals * f64)) (P : Signals -> Prop) : lately 0 h P.
Proof using Type. split; [lia |]. change (Z.to_nat 0) with 0%nat. constructor. Qed.

Lemma lately_more (n : Z) (h : list (Signals * f64)) (P : Signals -> Prop) (s : Signals) (now : f64) :
  0 <= n -> P s -> lately n h P -> lately (n + 1) ((s, now) :: h) P.
Proof using Type.
  intros N Ps [L F]. split; [cbn [length]; lia |]. replace (Z.to_nat (n + 1)) with (S (Z.to_nat n)) by lia. now constructor.
Qed.

Lemma lately_1 (h : list (Signals * f64)) (P : Signals -> Prop) (s : Signals) (now : f64) : P s -> lately 1 ((s, now) :: h) P.
Proof using Type. intros Ps. now apply (lately_more 0), lately_0. Qed.

Lemma lately_less (n k : Z) (h : list (Signals * f64)) (P : Signals -> Prop) : n <= k -> lately k h P -> lately n h P.
Proof using Type.
  intros N [L F]. split; [lia |]. replace (Z.to_nat n) with (Z.to_nat n `min` Z.to_nat k)%nat by lia.
  rewrite <- take_take. now apply Forall_take.
Qed.

(** The counters of the machine count samples of its history. *)
Definition counts_history (h : list (Signals * f64)) (a : Adaptive) : Prop :=
  lately (down a) h (fun s => below_exit cfg (mode a) s = Some true) /\ lately (up a) h (fun s => calls cfg s (target a)).

Lemma escalate_counts (h : list (Signals * f64)) (a : Adaptive) (s : Signals) (now : f64) (t : Z) :
  adaptive_ok cfg a -> counts_history h a -> calls cfg s t -> counts_history ((s, now) :: h) (escalate cfg a t now).
Proof using Type.
  intros A [D U] C. assert (U' : lately (if target a =? t then up a + 1 else 1) ((s, now) :: h) (fun s => calls cfg s t)).
  { destruct (Z.eqb_spec (target a) t) as [<- |]; [apply lately_more; auto; apply A | now apply lately_1]. }
  unfold escalate. destruct (_ && _); split; cbn; try apply lately_0; exact U'.
Qed.

Lemma relax_counts (h : list (Signals * f64)) (a a' : Adaptive) (s : Signals) (now : f64) :
  adaptive_ok cfg a -> counts_history h a -> relax cfg a s now = Some a' -> counts_history ((s, now) :: h) a'.
Proof using Type.
  intros A [D U] E. unfold relax in E. destruct (below_exit cfg (mode a) s) as [b |] eqn:B; [| discriminate].
  cbn [mbind option_bind with_counts mode down changed] in E. destruct (_ && _) in E.
  - assert (X : down a' = 0 /\ up a' = 0).
    { destruct (_ =? _) in E; [destruct (recovery_enabled cfg) as [[] |]; [| | discriminate] |]; cbn in E; now injection E as <-. }
    destruct X as [X Y]. unfold counts_history. rewrite X, Y. split; apply lately_0.
  - injection E as <-. split; [| apply lately_0]. destruct b; [| apply lately_0]. apply lately_more; auto. apply A.
Qed.

Lemma reached_counts (h : list (Signals * f64)) (a : Adaptive) : has_stages cfg -> reached cfg t0 h a -> counts_history h a.
Proof using Type.
  intros S R. induction R as [| h a s now a' R IH E]; [split; apply lately_0 |].
  pose proof (reached_ok h a S R) as A. pose proof (sample_sampled cfg a s now) as X. rewrite E in X.
  inversion X as [Ex Eq | | t it Ex T I Eq | t it Ex T I P L Eq | t it Ex T I P L Eq | t it Ex T I P L Eq]; subst.
  - unfold expire_emergency in Eq. destruct (recovery_enabled cfg) as [[] |]; [| | discriminate]; injection Eq as <-;
      split; apply lately_0.
  - split; apply lately_0.
  - apply sample_recovery_spec in Eq as (_ & _ & _ & Y & Z & _). unfold counts_history. rewrite Z, Y. split; apply lately_0.
  - apply escalate_counts; auto. pose proof (targets_ok cfg a s now _ T) as (_ & _ & C & _). apply C. cbn.
    assert (NORMAL <= mode a) by apply A. unfold NORMAL in *. lia.
  - now apply (relax_counts h a a' s now).
Qed.

(** ** Leaving a mode *)

(** Every signal that the mode has a band for is present, finite, and at or below [exit]; there is one. *)
Definition quiet (m : Z) (s : Signals) : Prop :=
  exists bands, bands <> [] /\ (exists name, MODES !! Z.to_nat m = Some name /\ thresholds cfg !! name = Some bands) /\
  forall n band, (n, band) ∈ bands -> exists v, s !! n = Some v /\ py_isfinite v = Some true /\ py_le v (exit band) = true.

Lemma all_below_true (s : Signals) (bands : Bands) :
  all_below s bands = Some true -> forall n band, (n, band) ∈ bands ->
  exists v, s !! n = Some v /\ py_isfinite v = Some true /\ py_le v (exit band) = true.
Proof using Type.
  induction bands as [| [n b] bands IH]; cbn [all_below]; intros E k band I; [now apply not_elem_of_nil in I |].
  destruct (s !! n) as [v |] eqn:V; [| discriminate]. destruct (py_isfinite v) as [f |] eqn:F; [| discriminate].
  cbn [mbind option_bind] in E. destruct (f && py_le v (exit b)) eqn:G; [| discriminate].
  apply elem_of_cons in I as [I | I]; [injection I as -> -> | now apply IH].
  breflect. subst f. exists v. now split_and!.
Qed.

Lemma below_exit_quiet (m : Z) (s : Signals) :
  NORMAL <= m -> below_exit cfg m s = Some true -> quiet m s.
Proof using Type.
  unfold NORMAL, below_exit, py_index. intros M E. destruct (Z.ltb_spec m 0); [lia |]. destruct (Z.ltb_spec m 0); [lia |].
  destruct (MODES !! Z.to_nat m) as [name |] eqn:N; [| discriminate]. cbn [mbind option_bind] in E. cbv zeta in E.
  destruct (bool_decide _) eqn:B in E; [discriminate |]. apply bool_decide_eq_false in B.
  destruct (thresholds cfg !! name) as [bands |] eqn:T; [| done]. exists bands. split_and!; [done | eauto |].
  now apply all_below_true.
Qed.

Lemma lately_impl (n : Z) (h : list (Signals * f64)) (P Q : Signals -> Prop) :
  (forall s, P s -> Q s) -> lately n h P -> lately n h Q.
Proof using Type. intros I [L F]. split; [done |]. eapply Forall_impl; [exact F |]. cbn. auto. Qed.

(** What a change of mode needs. *)
Definition falls_for (h : list (Signals * f64)) (a a' : Adaptive) (now : f64) : Prop :=
  (expired cfg a now = true /\ mode a' = ATTACK) \/
  (mode a' = mode a - 1 /\ elapsed_ge now (changed a) (cooldown_seconds cfg) = true /\
   lately (down_samples cfg) h (quiet (mode a))).
Definition rises_for (h : list (Signals * f64)) (s : Signals) (a a' : Adaptive) (now : f64) : Prop :=
  calls cfg s (mode a') /\
  (hurries cfg s (mode a') \/
   (elapsed_ge now (changed a) (default (cooldown_seconds cfg) (up_cooldown_seconds cfg)) = true /\
    lately (up_samples cfg) h (fun s => calls cfg s (mode a')))).

Lemma escalate_moves (h : list (Signals * f64)) (a : Adaptive) (s : Signals) (now : f64) (t : Z) :
  adaptive_ok cfg a -> counts_history h a -> calls cfg s t -> mode a < t ->
  mode (escalate cfg a t now) = mode a \/
  (mode (escalate cfg a t now) = t /\ rises_for ((s, now) :: h) s a (escalate cfg a t now) now).
Proof using Type.
  intros A [_ U] C L. unfold escalate. destruct (_ && _) eqn:G; [| now left]. right. cbn. split; [done |].
  cbn in G. breflect. split; [exact C |]. right. split; [done |]. eapply lately_less; [exact H |].
  destruct (Z.eqb_spec (target a) t) as [<- |]; [apply lately_more; auto; apply A | now apply lately_1].
Qed.

Lemma relax_moves (h : list (Signals * f64)) (a a' : Adaptive) (s : Signals) (now : f64) :
  adaptive_ok cfg a -> counts_history h a -> 1 <= down_samples cfg -> relax cfg a s now = Some a' ->
  mode a' = mode a \/ (mode a' = mode a - 1 /\ falls_for ((s, now) :: h) a a' now).
Proof using Type.
  intros A [D _] Ds E. unfold relax in E. destruct (below_exit cfg (mode a) s) as [b |] eqn:B; [| discriminate].
  cbn [mbind option_bind with_counts mode down changed] in E. destruct (_ && _) eqn:G in E; [| injection E as <-; now left].
  assert (M : mode a' = mode a - 1).
  { destruct (_ =? _) in E; [destruct (recovery_enabled cfg) as [[] |]; [| | discriminate] |]; cbn in E; now injection E as <-. }
  right. split; [done |]. right. breflect. split_and!; auto. assert (Nm : NORMAL <= mode a) by apply A.
  destruct b; [| lia]. apply (lately_impl _ _ (fun s => below_exit cfg (mode a) s = Some true)).
  - intros x. now apply below_exit_quiet.
  - eapply lately_less; [exact H1 |]. apply lately_more; auto. apply A.
Qed.

Lemma sample_moves (h : list (Signals * f64)) (a a' : Adaptive) (s : Signals) (now : f64) :
  has_stages cfg -> 1 <= down_samples cfg -> reached cfg t0 h a -> sample cfg a s now = Some a' ->
  (mode a' = mode a) \/ (mode a' < mode a /\ falls_for ((s, now) :: h) a a' now) \/
  (mode a < mode a' /\ rises_for ((s, now) :: h) s a a' now /\
   (mode a' = EMERGENCY -> allow_emergency cfg = true /\ f64_ltb now (emergency_blocked_until a) = false)).
Proof using Type.
  intros S Ds R E. pose proof (reached_ok h a S R) as A. pose proof (reached_counts h a S R) as C.
  assert (Nm : NORMAL <= mode a <= EMERGENCY) by apply A. unfold NORMAL, EMERGENCY in Nm.
  pose proof (sample_sampled cfg a s now) as X. rewrite E in X.
  inversion X as [Ex Eq | | t it Ex T I Eq | t it Ex T I P L Eq | t it Ex T I P L Eq | t it Ex T I P L Eq]; subst.
  - assert (M : mode a' = ATTACK).
    { unfold expire_emergency in Eq. destruct (recovery_enabled cfg) as [[] |]; [| | discriminate]; now injection Eq as <-. }
    right; left. split; [| now left]. pose proof Ex as Q. unfold expired in Q. breflect. rewrite M, H. done.
  - right; right. cbn. pose proof (targets_ok cfg a s now _ T) as (B & B' & Ca & Hu & Em). cbn in *.
    destruct (Hu ltac:(lia)) as [Cl Hi]. split_and!; [done | split; [done | now left] |]. intros ->. apply Em.
    unfold EMERGENCY in *. lia.
  - left. now apply sample_recovery_spec in Eq as [M _].
  - pose proof (targets_ok cfg a s now _ T) as (_ & _ & Ca & _ & Em). cbn in Ca, Em.
    destruct (escalate_moves h a s now t A C (Ca ltac:(lia)) L) as [M | [M Ri]]; [now left |]. right; right.
    split; [lia |]. split; [done |]. intros Z. apply Em. congruence.
  - destruct (relax_moves h a a' s now A C Ds Eq) as [M | [M F]]; [now left |]. right; left. split; [lia | done].
Qed.
End Machine.

(** C13: The mode moves with hysteresis. Whatever samples a validated configuration has met, a sample lowers
    the mode only by one, after the cooldown, when for [down_samples] consecutive samples every signal that has a band
    in that mode was present, finite and at or below [exit] -- or from EMERGENCY to ATTACK at its deadline;
    and it raises the mode only to one that the sample calls for (a signal at or above [enter] and every
    required one), either at once through an immediate signal, or after the cooldown when [up_samples]
    consecutive samples called for that mode. *)
Theorem adaptive_hysteresis (cfg : AdaptiveConfig) (attack : Budget) (t0 : f64) (h : list (Signals * f64)) (a a' : Adaptive)
  (s : Signals) (now : f64) :
  validate_adaptive attack cfg = true -> reached cfg t0 h a -> sample cfg a s now = Some a' ->
  (mode a' < mode a -> falls_for cfg ((s, now) :: h) a a' now) /\
  (mode a < mode a' -> rises_for cfg ((s, now) :: h) s a a' now).
Proof.
  intros V R E. destruct (validated_parts cfg attack V) as (_ & _ & _ & _ & _ & Ds).
  destruct (sample_moves cfg t0 h a a' s now (validated_stages cfg attack V) Ds R E) as [M | [[M F] | (M & Ri & _)]];
    split; intros; auto; lia.
Qed.

(** C35: A full freeze needs evidence of two kinds. Under a validated configuration the mode becomes EMERGENCY
    only if that is allowed and its re-arming time has passed, on a sample in which a signal of new connections and a signal of
    resource pressure are both finite and at or above their [enter] bands for EMERGENCY. *)
Theorem adaptive_emergency_guarded (cfg : AdaptiveConfig) (attack : Budget) (t0 : f64) (h : list (Signals * f64))
  (a a' : Adaptive) (s : Signals) (now : f64) :
  validate_adaptive attack cfg = true -> reached cfg t0 h a -> sample cfg a s now = Some a' ->
  mode a <> EMERGENCY -> mode a' = EMERGENCY ->
  allow_emergency cfg = true /\ f64_ltb now (emergency_blocked_until a) = false /\
  exists n p, n ∈ traffic /\ p ∈ pressure /\ high cfg s "emergency" n /\ high cfg s "emergency" p.
Proof.
  intros V R E Ne Em. destruct (validated_parts cfg attack V) as (_ & G & _ & _ & _ & Ds).
  pose proof (reached_ok cfg t0 h a (validated_stages cfg attack V) R) as A.
  assert (Nm : NORMAL <= mode a <= EMERGENCY) by apply A. unfold NORMAL, EMERGENCY in *.
  destruct (sample_moves cfg t0 h a a' s now (validated_stages cfg attack V) Ds R E) as [M | [[M F] | (M & Ri & Al)]]; [lia | lia |].
  destruct (Al Em) as [Allow Ready]. split_and!; auto. specialize (G Allow). unfold emergency_guarded in G.
  apply andb_true_iff in G as [G1 G2]. apply existsb_exists in G1 as (n & In1 & T), G2 as (p & In2 & P).
  destruct Ri as [(m & _ & Mo & _ & Req) _]. rewrite Em in Mo. injection Mo as <-.
  apply bool_decide_eq_true in T, P. exists n, p. split_and!; auto; apply Req; now apply list_elem_of_In.
Qed.

(** ** The deadline of EMERGENCY *)

(** Samples, oldest first. *)
Fixpoint adaptive_run (cfg : AdaptiveConfig) (a : Adaptive) (l : list (Signals * f64)) : exec Adaptive :=
  match l with
  | [] => Some a
  | (s, now) :: l => a ← sample cfg a s now; adaptive_run cfg a l
  end.

Section Deadline.
Variable cfg : AdaptiveConfig.

Lemma expire_fields (a a' : Adaptive) (now : f64) :
  expire_emergency cfg a now = Some a' ->
  mode a' = ATTACK /\ emergency_blocked_until a' = later now (emergency_rearm_seconds cfg).
Proof using Type.
  unfold expire_emergency. destruct (recovery_enabled cfg) as [[] |]; [| | discriminate]; intros [= <-]; done.
Qed.

(** Outside of EMERGENCY the time to re-arm stands. *)
Lemma sample_blocked (a a' : Adaptive) (s : Signals) (now : f64) :
  expired cfg a now = false -> sample cfg a s now = Some a' -> emergency_blocked_until a' = emergency_blocked_until a.
Proof using Type.
  intros Ex E. pose proof (sample_sampled cfg a s now) as X. rewrite E in X.
  inversion X as [Ex' Eq | | t it _ T I Eq | t it _ T I P L Eq | t it _ T I P L Eq | t it _ T I P L Eq]; subst.
  - congruence.
  - done.
  - now apply sample_recovery_spec in Eq as (_ & _ & B & _).
  - unfold escalate. now destruct (_ && _).
  - unfold relax in Eq. follow Eq; injection Eq as <-; first [done | now match goal with |- context [if ?b then start_recovery _ _ else _] => destruct b end].
Qed.

(** Until the time to re-arm has come, the mode stays out of EMERGENCY. *)
Lemma run_unarmed (t0 : f64) (h : list (Signals * f64)) (a b : Adaptive) (l : list (Signals * f64)) (until : f64) :
  has_stages cfg -> 1 <= down_samples cfg -> reached cfg t0 h a -> mode a <> EMERGENCY -> emergency_blocked_until a = until ->
  Forall (fun e => f64_ltb (snd e) until = true) l -> adaptive_run cfg a l = Some b -> mode b <> EMERGENCY.
Proof using Type.
  intros S Ds. revert h a. induction l as [| [s now] l IH]; intros h a R M B F E; cbn [adaptive_run] in E.
  { now injection E as <-. }
  apply Forall_cons_1 in F as [L F]. cbn [snd] in L. destruct (sample cfg a s now) as [a' |] eqn:E'; [| discriminate].
  cbn [mbind option_bind] in E. assert (Ex : expired cfg a now = false) by (unfold expired; now rewrite (proj2 (Z.eqb_neq _ _) M)).
  apply (IH ((s, now) :: h) a'); auto.
  - now apply (reached_sample cfg t0 h a s now).
  - pose proof (reached_ok cfg t0 h a S R) as A. assert (Nm : NORMAL <= mode a <= EMERGENCY) by apply A.
    destruct (sample_moves cfg t0 h a a' s now S Ds R E') as [M' | [[M' _] | (M' & _ & Em)]]; [congruence | lia |].
    intros X. destruct (Em X) as [_ Y]. rewrite B in Y. congruence.
  - now rewrite (sample_blocked a a' s now Ex E').
Qed.

Lemma stays_in_emergency (a a' : Adaptive) (s : Signals) (now : f64) :
  adaptive_ok cfg a -> mode a = EMERGENCY -> sample cfg a s now = Some a' -> mode a' = EMERGENCY ->
  expired cfg a now = false /\ changed a' = changed a.
Proof using Type.
  intros A M E M'. pose proof (sample_sampled cfg a s now) as X. rewrite E in X.
  inversion X as [Ex Eq | | t it Ex T I Eq | t it Ex T I P L Eq | t it Ex T I P L Eq | t it Ex T I P L Eq]; subst;
    try (pose proof (targets_ok cfg a s now _ T) as (B & B' & _); cbn in B, B').
  - apply expire_fields in Eq as [Y _]. unfold ATTACK, EMERGENCY in *. congruence.
  - unfold EMERGENCY in *. lia.
  - unfold probing in P. rewrite M in P. discriminate.
  - unfold EMERGENCY in *. lia.
  - split; [done |]. clear X. unfold relax in Eq. follow Eq; injection Eq as <-; try done; exfalso;
      (match type of M' with context [if ?b then start_recovery _ _ else _] => destruct b | _ => idtac end); cbn in M';
      unfold EMERGENCY in *; lia.
Qed.
End Deadline.

(** C26: An automatic EMERGENCY ends, unless [recovery] is given as [null] (for which see [adaptive_raises]). Whatever the telemetry, a sample at or
    past the deadline of an EMERGENCY returns and leaves it for ATTACK, and no samples before the re-arming time lead back into
    it; a sample that stays in EMERGENCY is before the deadline, which counts from when EMERGENCY was entered. *)
Theorem adaptive_emergency_ends (cfg : AdaptiveConfig) (attack : Budget) (t0 : f64) (h : list (Signals * f64))
  (a : Adaptive) (s : Signals) (now : f64) :
  validate_adaptive attack cfg = true -> recovery cfg <> null -> reached cfg t0 h a -> mode a = EMERGENCY ->
  (elapsed_ge now (changed a) (emergency_max_seconds cfg) = true ->
     exists a', sample cfg a s now = Some a' /\ mode a' = ATTACK /\
     forall l b, Forall (fun e => f64_ltb (snd e) (later now (emergency_rearm_seconds cfg)) = true) l ->
       adaptive_run cfg a' l = Some b -> mode b <> EMERGENCY) /\
  (forall a', sample cfg a s now = Some a' -> mode a' = EMERGENCY ->
     elapsed_ge now (changed a) (emergency_max_seconds cfg) = false /\ changed a' = changed a).
Proof.
  intros V Nn R M. destruct (validated_parts cfg attack V) as (_ & _ & _ & _ & _ & Ds).
  pose proof (validated_stages cfg attack V) as S. pose proof (reached_ok cfg t0 h a S R) as A.
  assert (X : expired cfg a now = elapsed_ge now (changed a) (emergency_max_seconds cfg)) by (unfold expired; now rewrite M).
  rewrite <- X. split; [intros Ex | intros a' E; apply (stays_in_emergency cfg a a' s now A M E)].
  assert (E : exists a', sample cfg a s now = Some a').
  { unfold sample. fold (expired cfg a now). rewrite Ex. unfold expire_emergency, recovery_enabled.
    destruct (recovery cfg); [eexists; reflexivity | now destruct Nn | eexists; reflexivity]. }
  destruct E as [a' E]. exists a'. split; [exact E |].
  pose proof E as E'. unfold sample in E'. fold (expired cfg a now) in E'. rewrite Ex in E'.
  destruct (expire_fields cfg a a' now E') as [Ma B]. split; [done |]. intros l b F Rn.
  apply (run_unarmed cfg t0 ((s, now) :: h) a' b l (later now (emergency_rearm_seconds cfg))); auto.
  - now apply (reached_sample cfg t0 h a s now).
  - now rewrite Ma.
Qed.

(** ** Missing telemetry *)

(** No signal is present and finite. *)
Definition blind (s : Signals) : Prop := forall n v, s !! n = Some v -> py_isfinite v = Some false.

Section Blind.
Variable cfg : AdaptiveConfig.

Lemma blind_high (s : Signals) (bands : Bands) : blind s -> high_signals s bands = Some [].
Proof using Type.
  intros B. induction bands as [| [n b] bands IH]; cbn [high_signals]; [done |]. rewrite IH.
  destruct (s !! n) as [v |] eqn:V; [now rewrite (B n v V) | done].
Qed.

Lemma blind_target_of (a : Adaptive) (s : Signals) (now : f64) (i : Z) (m : string) (acc : Z * Z) :
  blind s -> thresholds_set cfg -> m ∈ tail MODES -> target_of cfg a s now i m acc = Some acc.
Proof using Type.
  intros B T M. unfold target_of. destruct (_ && _); [done |]. destruct (T m M) as [bands ->]. cbn [mbind option_bind].
  now rewrite (blind_high s bands B).
Qed.

Lemma blind_targets (a : Adaptive) (s : Signals) (now : f64) :
  blind s -> thresholds_set cfg -> targets cfg a s now = Some (NORMAL, NORMAL).
Proof using Type.
  intros B T. unfold targets. rewrite (blind_target_of a s now 1 "elevated") by (cbn; set_solver). cbn [mbind option_bind].
  rewrite (blind_target_of a s now 2 "attack") by (cbn; set_solver). cbn [mbind option_bind].
  rewrite (blind_target_of a s now 3 "emergency") by (cbn; set_solver). done.
Qed.

Lemma blind_below (m : Z) (s : Signals) : blind s -> NORMAL <= m <= EMERGENCY -> below_exit cfg m s = Some false.
Proof using Type.
  intros B M. assert (R : readable s) by (intros n v V; now rewrite (B n v V)).
  destruct (below_exit_returns cfg s m R M) as [[] E]; [exfalso | done].
  destruct (below_exit_quiet cfg m s (proj1 M) E) as (bands & Ne & _ & Q). destruct bands as [| [n b] bands]; [done |].
  destruct (Q n b ltac:(left)) as (v & V & F & _). rewrite (B n v V) in F. discriminate.
Qed.
End Blind.

(** Missing telemetry moves nothing. A sample with no present and finite signal, before any deadline,
    returns, keeps the mode and the time of its last change, and clears the counts of consecutive samples; while a recovery
    is probed it goes back to the first stage and its timer starts again. *)
Theorem adaptive_blind (cfg : AdaptiveConfig) (attack : Budget) (t0 : f64) (h : list (Signals * f64)) (a : Adaptive)
  (s : Signals) (now : f64) :
  validate_adaptive attack cfg = true -> reached cfg t0 h a -> blind s -> expired cfg a now = false ->
  exists a', sample cfg a s now = Some a' /\ mode a' = mode a /\ changed a' = changed a /\ up a' = 0 /\ down a' = 0 /\
    if probing a then recovery_index a' = 0 /\ recovery_since a' = now
    else recovery_index a' = recovery_index a /\ recovery_since a' = recovery_since a.
Proof.
  intros V R B Ex. pose proof (validated_thresholds cfg attack V) as T.
  destruct (validated_parts cfg attack V) as (_ & _ & _ & _ & _ & Ds).
  pose proof (reached_ok cfg t0 h a (validated_stages cfg attack V) R) as A. assert (Nm : NORMAL <= mode a <= EMERGENCY) by apply A.
  unfold sample. fold (expired cfg a now). rewrite Ex, (blind_targets cfg a s now B T). cbn [mbind option_bind].
  destruct (Z.ltb_spec (mode a) NORMAL); [lia |]. fold (probing a). destruct (probing a); cbn [andb].
  - unfold sample_recovery. rewrite (blind_below cfg ATTACK s B) by done. cbn. eexists. split; [reflexivity |]. now split_and!.
  - unfold relax. rewrite (blind_below cfg (mode a) s B Nm). cbn [mbind option_bind with_counts down mode].
    replace (down_samples cfg <=? 0) with false by lia. rewrite andb_false_r. eexists. split; [reflexivity |]. now split_and!.
Qed.

(** ** Recovery *)

Section Recovery.
Variables (cfg : AdaptiveConfig) (attack : Budget).
Hypothesis valid : validate_adaptive attack cfg = true.

(** The stage that a recovery index names, within the limits that validation sets. *)
Lemma recovers_stage (i : Z) :
  0 <= i -> recovers cfg i -> exists r stage first, recovery cfg = present r /\ py_index (stages r) i = Some stage /\
    stages r !! 0%nat = Some first /\ i < 4 /\
    1 <= rate (admits first) <= rate (admits stage) /\ rate (admits stage) <= rate attack /\
    1 <= burst (admits first) <= burst (admits stage) /\ burst (admits stage) <= burst attack.
Proof using valid.
  intros I (r & R & On & L). destruct (validated_parts cfg attack valid) as (_ & _ & _ & Ok & _).
  unfold recovery_ok, within in Ok. rewrite R, On in Ok. apply andb_true_iff in Ok as [Ok _]. apply andb_true_iff in Ok as [Ln Ok].
  breflect. destruct (stages_ok_spec attack true 0 0 (stages r) Ok) as [F Mo]. rewrite Forall_lookup in F.
  destruct (lookup_lt_is_Some_2 (stages r) (Z.to_nat i)) as [st St]; [lia |].
  destruct (lookup_lt_is_Some_2 (stages r) 0) as [fs Fs]; [lia |].
  pose proof (Mo 0%nat (Z.to_nat i) fs st ltac:(lia) Fs St). pose proof (F _ _ Fs). pose proof (F _ _ St) as (_ & _ & _ & _ & At).
  specialize (At eq_refl). exists r, st, fs. unfold py_index. destruct (Z.ltb_spec i 0); [lia |].
  destruct (Z.ltb_spec i 0); [lia |]. split_and!; auto; lia.
Qed.
End Recovery.

(** The budget of every state. *)
Lemma budget_spec (cfg : AdaptiveConfig) (budgets : gmap string Budget) (attack : Budget) (t0 : f64)
  (h : list (Signals * f64)) (a : Adaptive) :
  validate_adaptive attack cfg = true -> reached cfg t0 h a ->
  (forall m, m ∈ MODES -> is_Some (budgets !! m)) -> budgets !! "attack"%string = Some attack ->
  exists b, syn_budget cfg a budgets = Some b /\ NORMAL <= mode a <= EMERGENCY /\ 0 <= recovery_stage a <= 4 /\
  if probing a then
    exists r first, recovery cfg = present r /\ stages r !! 0%nat = Some first /\
      1 <= rate (admits first) <= rate b /\ rate b <= rate attack /\
      1 <= burst (admits first) <= burst b /\ burst b <= burst attack
  else recovery_stage a = 0 /\ exists m, MODES !! Z.to_nat (mode a) = Some m /\ budgets !! m = Some b.
Proof.
  intros V R Bu At. pose proof (reached_ok cfg t0 h a (validated_stages cfg attack V) R) as A.
  assert (Nm : NORMAL <= mode a <= EMERGENCY) by apply A. pose proof (ok_index cfg a A) as Ix. pose proof (ok_probe cfg a A) as P.
  unfold syn_budget, recovery_stage, probing. destruct (Z.leb_spec 0 (recovery_index a)).
  - destruct (P H) as [M Re]. rewrite M. change (ATTACK =? ATTACK) with true. cbn [andb].
    destruct (recovers_stage cfg attack V (recovery_index a) H Re) as (r & st & fs & Rc & Pi & Fs & I4 & Lim).
    unfold recovery_stages. rewrite Rc. cbn [mbind option_bind]. rewrite Pi. cbn [mbind option_bind].
    exists (admits st). split_and!; try done; try lia. exists r, fs. now split_and!.
  - rewrite andb_false_r. unfold NORMAL, EMERGENCY in Nm. unfold py_index.
    destruct (Z.ltb_spec (mode a) 0); [lia |]. destruct (Z.ltb_spec (mode a) 0); [lia |].
    destruct (lookup_lt_is_Some_2 MODES (Z.to_nat (mode a))) as [m M]; [cbn; lia |]. rewrite M. cbn [mbind option_bind].
    destruct (Bu m) as [b B]; [now apply list_elem_of_lookup_2 in M |]. exists b. rewrite B. split_and!; auto; unfold EMERGENCY; try lia. eauto.
Qed.

(** The budget of a state: that of a stage within ATTACK's, or that of the mode. *)
Lemma budget_stage (cfg : AdaptiveConfig) (budgets : gmap string Budget) (attack : Budget) (t0 : f64)
  (h : list (Signals * f64)) (a : Adaptive) :
  validate_adaptive attack cfg = true -> reached cfg t0 h a ->
  (forall m, m ∈ MODES -> is_Some (budgets !! m)) -> budgets !! "attack"%string = Some attack ->
  exists b, syn_budget cfg a budgets = Some b /\ NORMAL <= mode a <= EMERGENCY /\
  ((1 <= rate b <= rate attack /\ 1 <= burst b <= burst attack) \/
   (exists m, MODES !! Z.to_nat (mode a) = Some m /\ budgets !! m = Some b)).
Proof.
  intros V R Bu At. destruct (budget_spec cfg budgets attack t0 h a V R Bu At) as (b & E & Nm & _ & Ok). exists b.
  split_and!; auto; try lia. destruct (probing a); [left | right; apply Ok].
  destruct Ok as (r & f & _ & _ & ? & ? & ? & ?). lia.
Qed.

(** The budget for new connections is always defined and bounded. In every state that a validated configuration
    reaches, the mode is one of the four; while a recovery is probed the mode is ATTACK, there are at most four stages, and
    the budget is that of the stage: at least the first stage's, positive, and at most ATTACK's. Otherwise it
    is the configured one of the mode. *)
Theorem adaptive_budget (cfg : AdaptiveConfig) (budgets : gmap string Budget) (attack : Budget) (t0 : f64)
  (h : list (Signals * f64)) (a : Adaptive) :
  validate_adaptive attack cfg = true -> reached cfg t0 h a ->
  (forall m, m ∈ MODES -> is_Some (budgets !! m)) -> budgets !! "attack"%string = Some attack ->
  exists b, syn_budget cfg a budgets = Some b /\ NORMAL <= mode a <= EMERGENCY /\ 0 <= recovery_stage a <= 4 /\
  if probing a then
    exists r first, recovery cfg = present r /\ stages r !! 0%nat = Some first /\
      1 <= rate (admits first) <= rate b /\ rate b <= rate attack /\
      1 <= burst (admits first) <= burst b /\ burst b <= burst attack
  else recovery_stage a = 0 /\ exists m, MODES !! Z.to_nat (mode a) = Some m /\ budgets !! m = Some b.
Proof. apply budget_spec. Qed.

(** What a sample does while a recovery is probed. If it does not call for EMERGENCY, the mode stays
    ATTACK, and one signal of ATTACK that is missing, not finite or above [exit] goes back to the first stage and restarts its
    timer, while a quiet sample moves on by one stage once the stage's time has passed, and out of the recovery after the last.
    A sample that calls for EMERGENCY freezes again, or, until that is confirmed, leaves the stage and its
    timer as they are. *)
Theorem adaptive_probe (cfg : AdaptiveConfig) (attack : Budget) (t0 : f64) (h : list (Signals * f64)) (a a' : Adaptive)
  (s : Signals) (now : f64) :
  validate_adaptive attack cfg = true -> reached cfg t0 h a -> probing a = true -> sample cfg a s now = Some a' ->
  exists t it, targets cfg a s now = Some (t, it) /\
  if t <? EMERGENCY then mode a' = ATTACK /\ probed cfg a a' s now
  else (mode a' = EMERGENCY /\ recovery_index a' = -1) \/
       (mode a' = ATTACK /\ recovery_index a' = recovery_index a /\ recovery_since a' = recovery_since a).
Proof.
  intros V R P E. assert (M : mode a = ATTACK) by (unfold probing in P; now breflect).
  pose proof (sample_sampled cfg a s now) as X. rewrite E in X.
  inversion X as [Ex Eq | | t it Ex T I Eq | t it Ex T I P' L Eq | t it Ex T I P' L Eq | t it Ex T I P' L Eq]; subst;
    try (pose proof (targets_ok cfg a s now _ T) as (B & B' & _); cbn in B, B').
  - unfold expired in Ex. rewrite M in Ex. discriminate.
  - exists t, it. split; [done |]. unfold ATTACK, EMERGENCY in *. destruct (Z.ltb_spec t 3); [lia |]. left. cbn.
    assert (it = 3) as -> by lia. now split.
  - exists t, it. split; [done |]. destruct (Z.ltb_spec t EMERGENCY); [| lia].
    apply sample_recovery_spec in Eq as (M' & _ & _ & _ & _ & _ & Pr). split; [congruence | done].
  - exists t, it. split; [done |]. specialize (P' P). subst t. change (EMERGENCY <? EMERGENCY) with false. cbv iota.
    unfold escalate. destruct (_ && _); cbn; [now left | right; now split_and!].
  - specialize (P' P). unfold ATTACK, EMERGENCY in *. lia.
Qed.

(** C34: The only exception. From every state that a validated configuration reaches, a sample of signals that convert to
    [float] returns -- except that with [recovery] given as [null], which validation accepts, the end of an EMERGENCY may
    raise; and reaching its deadline always does, which ends the controller. *)
Theorem adaptive_raises (cfg : AdaptiveConfig) (attack : Budget) (t0 : f64) (h : list (Signals * f64)) (a : Adaptive)
  (s : Signals) (now : f64) :
  validate_adaptive attack cfg = true -> reached cfg t0 h a -> readable s ->
  (sample cfg a s now = None -> recovery cfg = null /\ mode a = EMERGENCY) /\
  (recovery cfg = null -> expired cfg a now = true -> sample cfg a s now = None).
Proof.
  intros V R Rd. pose proof (reached_ok cfg t0 h a (validated_stages cfg attack V) R) as A. split.
  - intros E. destruct (sample_returns cfg a s now Rd (validated_thresholds cfg attack V) A) as [[x X] | (_ & X)]; [congruence | done].
  - intros Nu Ex. unfold sample. fold (expired cfg a now). rewrite Ex. unfold expire_emergency, recovery_enabled. now rewrite Nu.
Qed.
