(* ===== verification/AdaptiveWitness.v ===== *)
(** * Instances of the mode machine's theorems

    A guarded configuration that freezes after two samples, thaws at its deadline and reopens in two stages. *)
From S2P Require Import Prelude Machine Float64 PyNum Adaptive AdaptiveProps AdaptiveRun.
From stdpp Require Import base option list gmap strings.
From Stdlib Require Import ZArith Lia.
Local Open Scope Z_scope.

Definition sample_band (hi lo : Z) : Band := mk_band (PyInt hi) (PyInt lo).
Definition sample_thresholds : gmap string Bands := list_to_map
  [("elevated", [("pps", sample_band 100 50)]); ("attack", [("pps", sample_band 1000 500)]);
   ("emergency", [("syn_per_second", sample_band 10 5); ("conntrack_percent", sample_band 90 50)])]%string.
Definition sample_attack : Budget := mk_budget 100 200.
Definition sample_recovery_key : RecoveryKey :=
  present (mk_recovery true [mk_stage 20 (mk_budget 16 32); mk_stage 30 (mk_budget 64 128)]).

Definition sample_adaptive (rec : RecoveryKey) : AdaptiveConfig :=
  mk_adaptive_config 2 2 5 None sample_thresholds
    {["emergency"%string := ["syn_per_second"; "conntrack_percent"]%string]} ∅ true rec 120 60.
Definition sample_budgets : gmap string Budget := list_to_map
  [("normal", mk_budget 0 0); ("elevated", mk_budget 1000 2000); ("attack", sample_attack); ("emergency", mk_budget 1 1)]%string.

Definition at_second (n : Z) : f64 := f64_of_Z n.
Definition flood : Signals := list_to_map [("syn_per_second", PyFloat (f64_of_Z 50)); ("conntrack_percent", PyInt 95)]%string.
Definition calm : Signals := {["pps"%string := PyFloat (f64_of_Z 3)]}.

Lemma sample_adaptive_valid (rec : RecoveryKey) :
  rec = null \/ rec = sample_recovery_key -> validate_adaptive sample_attack (sample_adaptive rec) = true.
Proof. intros [-> | ->]; vm_compute; reflexivity. Qed.

(** The state after a list of samples, oldest first. *)
Definition state_after (rec : RecoveryKey) (l : list (Signals * f64)) : Adaptive :=
  default (Adaptive_init (at_second 0)) (adaptive_run (sample_adaptive rec) (Adaptive_init (at_second 0)) l).

Lemma reached_run (cfg : AdaptiveConfig) (t0 : f64) (l h : list (Signals * f64)) (a b : Adaptive) :
  reached cfg t0 h a -> adaptive_run cfg a l = Some b -> reached cfg t0 (rev l ++ h) b.
Proof.
  revert h a. induction l as [| [s now] l IH]; cbn [adaptive_run rev]; intros h a R E; [now injection E as <- |].
  destruct (sample cfg a s now) as [a' |] eqn:E'; [| discriminate]. cbn [mbind option_bind] in E.
  rewrite <- app_assoc. apply (IH _ a'); [now apply (reached_sample cfg t0 h a) | done].
Qed.

Lemma state_reached (rec : RecoveryKey) (l : list (Signals * f64)) :
  is_Some (adaptive_run (sample_adaptive rec) (Adaptive_init (at_second 0)) l) ->
  reached (sample_adaptive rec) (at_second 0) (rev l) (state_after rec l).
Proof.
  intros [b E]. unfold state_after. rewrite E. cbn [default]. rewrite <- (app_nil_r (rev l)).
  apply (reached_run _ _ _ _ (Adaptive_init (at_second 0))); [constructor | exact E].
Qed.

(** Frozen at 20 seconds; thawed and probing from 200. *)
Definition frozen_at : list (Signals * f64) := [(flood, at_second 10); (flood, at_second 20)].
Definition probing_at : list (Signals * f64) := frozen_at ++ [(calm, at_second 200)].

Lemma frozen_reached (rec : RecoveryKey) :
  rec = null \/ rec = sample_recovery_key -> reached (sample_adaptive rec) (at_second 0) (rev frozen_at) (state_after rec frozen_at).
Proof. intros [-> | ->]; apply state_reached; vm_compute; eauto. Qed.
Lemma probing_reached :
  reached (sample_adaptive sample_recovery_key) (at_second 0) (rev probing_at) (state_after sample_recovery_key probing_at).
Proof. apply state_reached; vm_compute; eauto. Qed.

(** ** Instances *)

Lemma calm_readable : readable calm.
Proof.
  intros n v V. unfold calm in V. apply lookup_singleton_Some in V as [_ <-]. vm_compute. discriminate.
Qed.

(** The freeze itself, after two samples. *)
Lemma adaptive_hysteresis_witness :
  let a := state_after sample_recovery_key [(flood, at_second 10)] in
  exists a', sample (sample_adaptive sample_recovery_key) a flood (at_second 20) = Some a' /\ mode a < mode a' /\
    rises_for (sample_adaptive sample_recovery_key) [(flood, at_second 20); (flood, at_second 10)] flood a a' (at_second 20).
Proof.
  intros a. exists (state_after sample_recovery_key frozen_at).
  assert (E : sample (sample_adaptive sample_recovery_key) a flood (at_second 20) = Some (state_after sample_recovery_key frozen_at))
    by (vm_compute; reflexivity).
  assert (R : reached (sample_adaptive sample_recovery_key) (at_second 0) [(flood, at_second 10)] a)
    by (apply (state_reached sample_recovery_key [(flood, at_second 10)]); vm_compute; eauto).
  assert (L : mode a < mode (state_after sample_recovery_key frozen_at)) by (vm_compute; reflexivity).
  split_and!; [exact E | exact L |].
  apply (adaptive_hysteresis (sample_adaptive sample_recovery_key) sample_attack (at_second 0) [(flood, at_second 10)] a
    (state_after sample_recovery_key frozen_at) flood (at_second 20) (sample_adaptive_valid _ (or_intror eq_refl)) R E). exact L.
Defined.

Lemma adaptive_emergency_guarded_witness :
  exists n p, n ∈ traffic /\ p ∈ pressure /\
    high (sample_adaptive sample_recovery_key) flood "emergency" n /\ high (sample_adaptive sample_recovery_key) flood "emergency" p.
Proof.
  assert (R : reached (sample_adaptive sample_recovery_key) (at_second 0) [(flood, at_second 10)]
    (state_after sample_recovery_key [(flood, at_second 10)]))
    by (apply (state_reached sample_recovery_key [(flood, at_second 10)]); vm_compute; eauto).
  destruct (adaptive_emergency_guarded (sample_adaptive sample_recovery_key) sample_attack (at_second 0) [(flood, at_second 10)]
    (state_after sample_recovery_key [(flood, at_second 10)]) (state_after sample_recovery_key frozen_at) flood (at_second 20)
    (sample_adaptive_valid _ (or_intror eq_refl)) R) as (_ & _ & X); [vm_compute; reflexivity | vm_compute; discriminate
    | vm_compute; reflexivity | exact X].
Defined.

(** The deadline passes during the flood, and another sample of it does not freeze again. *)
Lemma adaptive_emergency_ends_witness :
  exists a', sample (sample_adaptive sample_recovery_key) (state_after sample_recovery_key frozen_at) flood (at_second 140) = Some a' /\
    mode a' = ATTACK.
Proof.
  destruct (adaptive_emergency_ends (sample_adaptive sample_recovery_key) sample_attack (at_second 0) (rev frozen_at)
    (state_after sample_recovery_key frozen_at) flood (at_second 140) (sample_adaptive_valid _ (or_intror eq_refl)) ltac:(discriminate)
    (frozen_reached _ (or_intror eq_refl)) ltac:(vm_compute; reflexivity)) as [X _].
  destruct X as (a' & E & M & _); [vm_compute; reflexivity |]. exists a'. now split.
Defined.

Lemma adaptive_blind_witness :
  exists a', sample (sample_adaptive sample_recovery_key) (state_after sample_recovery_key probing_at) ∅ (at_second 210) = Some a' /\
    mode a' = ATTACK /\ recovery_since a' = at_second 210.
Proof.
  destruct (adaptive_blind (sample_adaptive sample_recovery_key) sample_attack (at_second 0) (rev probing_at)
    (state_after sample_recovery_key probing_at) ∅ (at_second 210) (sample_adaptive_valid _ (or_intror eq_refl)) probing_reached)
    as (a' & E & M & _ & _ & _ & P).
  - intros n v V. rewrite lookup_empty in V. discriminate.
  - vm_compute. reflexivity.
  - exists a'. split_and!; [exact E | rewrite M; vm_compute; reflexivity | apply P].
Defined.

Lemma adaptive_budget_witness :
  exists b, syn_budget (sample_adaptive sample_recovery_key) (state_after sample_recovery_key probing_at) sample_budgets = Some b /\
    rate b = 16.
Proof.
  destruct (adaptive_budget (sample_adaptive sample_recovery_key) sample_budgets sample_attack (at_second 0) (rev probing_at)
    (state_after sample_recovery_key probing_at) (sample_adaptive_valid _ (or_intror eq_refl)) probing_reached) as (b & E & _).
  - intros m M. cbn in M. repeat (apply elem_of_cons in M as [-> | M]; [vm_compute; eauto |]). now apply not_elem_of_nil in M.
  - reflexivity.
  - exists b. split; [exact E |]. vm_compute in E. now injection E as <-.
Defined.

(** A quiet sample after twenty seconds moves on to the second stage. *)
Lemma adaptive_probe_witness :
  exists a' t it, sample (sample_adaptive sample_recovery_key) (state_after sample_recovery_key probing_at) calm (at_second 221) = Some a' /\
    targets (sample_adaptive sample_recovery_key) (state_after sample_recovery_key probing_at) calm (at_second 221) = Some (t, it) /\
    recovery_index a' = 1.
Proof.
  assert (E : is_Some (sample (sample_adaptive sample_recovery_key) (state_after sample_recovery_key probing_at) calm (at_second 221)))
    by (vm_compute; eauto).
  destruct E as [a' E].
  destruct (adaptive_probe (sample_adaptive sample_recovery_key) sample_attack (at_second 0) (rev probing_at)
    (state_after sample_recovery_key probing_at) a' calm (at_second 221) (sample_adaptive_valid _ (or_intror eq_refl)) probing_reached
    ltac:(vm_compute; reflexivity) E) as (t & it & T & _).
  exists a', t, it. split_and!; [exact E | exact T |]. vm_compute in E. now injection E as <-.
Defined.

(** A validated configuration whose recovery is [null] raises at the deadline. *)
Lemma adaptive_raises_witness :
  validate_adaptive sample_attack (sample_adaptive null) = true /\
  sample (sample_adaptive null) (state_after null frozen_at) calm (at_second 140) = None.
Proof.
  split; [exact (sample_adaptive_valid _ (or_introl eq_refl)) |].
  apply (adaptive_raises (sample_adaptive null) sample_attack (at_second 0) (rev frozen_at) (state_after null frozen_at) calm
    (at_second 140) (sample_adaptive_valid _ (or_introl eq_refl)) (frozen_reached _ (or_introl eq_refl)) calm_readable);
    [reflexivity | vm_compute; reflexivity].
Defined.

(** ** A sample that calls for EMERGENCY keeps the stage

    In the second stage a flood, in which the signal of ATTACK is missing and those of EMERGENCY are high, does
    not go back to the first stage while the freeze is not confirmed. *)
Lemma overload_keeps_stage :
  let a := state_after sample_recovery_key (probing_at ++ [(calm, at_second 221)]) in
  recovery_index a = 1 /\ below_exit (sample_adaptive sample_recovery_key) ATTACK flood = Some false /\
  (fun a' => (mode a', recovery_index a')) <$> sample (sample_adaptive sample_recovery_key) a flood (at_second 300) = Some (ATTACK, 1).
Proof. vm_compute. auto. Qed.
