(* ===== verification/Controller.v ===== *)
(** * The controller ([controller/ddosctl.py], [controller/policy.py], the [config] command of [xdp/loader.c])

    What one tick publishes to the gate and writes to the kernel, and how a command changes the policy. The
    loader is a subprocess: a refusal of it, like any other exception, is [None]. Clocks, the samples of
    telemetry and the order in which Python iterates over a set are arguments. Prefixes are the canonical
    texts that [validate] leaves in the configuration. *)
From stdpp Require Import base option list gmap strings sorting.
From S2P Require Import Prelude Machine Float64 PyNum Exposition XdpParse XdpFilter Adaptive.
From Stdlib Require Import ZArith Lia.
Local Open Scope Z_scope.

(** ** Configuration *)

(** The last field counts the bytes that [json.dumps(cfg, indent=2)] and its newline spend on everything but the
    values that a command can change: the observation flag, the manual mode, and the lists of allowed and of
    blocked prefixes. *)
Record ControllerConfig : Type := mk_controller_config {
  observed : bool; manual_mode : string; lease_seconds : Z; cover_ipv6 : bool; tcp_fragments : bool;
  owned_prefixes : list string; allow_prefixes : list string; block_prefixes : list string; bogon_prefixes : list string;
  protected_tcp_ports : list Z; drop_tcp_ports : list Z; drop_udp_ports : list Z;
  syn_per_cpu : gmap string Budget; adaptive_cfg : AdaptiveConfig; other_bytes : Z }.

Definition budget_ok (b : Budget) : bool :=
  within (Adaptive.rate b) 0 1000000000 && within (Adaptive.burst b) 0 1000000 &&
  Bool.eqb (Adaptive.rate b =? 0) (Adaptive.burst b =? 0).

Definition ports_ok (l : list Z) : bool :=
  (Z.of_nat (length l) <=? 65535) && forallb (fun p => within p 1 65535) l.

(** ** The size of a document *)

(** [MAX_DOCUMENT_BYTES] of [core.py]. *)
Definition MAX_WRITTEN_BYTES : Z := 262144.

(** The bytes [json.dumps] writes for one byte of a text: a printable ASCII character, or one with a short escape, or the
    lead byte of a character that becomes one or two [\uXXXX]; the other bytes of that character write nothing. *)
Definition json_byte (b : Z) : Z :=
  if (b =? 34) || (b =? 92) || ((8 <=? b) && (b <=? 10)) || (b =? 12) || (b =? 13) then 2
  else if (32 <=? b) && (b <=? 126) then 1
  else if (b <? 32) || (b =? 127) then 6
  else if b <? 192 then 0 else if b <? 240 then 6 else 12.
Definition json_text (s : string) : Z := foldr (fun b n => json_byte b + n) 2 (text s).
Definition json_bool (b : bool) : Z := if b then 4 else 5.
(** A list of texts, each of which comes with [around] bytes of separators and indentation. *)
Definition json_list (around last : Z) (l : list string) : Z :=
  match l with [] => 2 | _ => foldr (fun s n => around + json_text s + n) last l end.

(** [bounded_json(cfg, indent=2)]. *)
Definition config_bytes (c : ControllerConfig) : Z :=
  other_bytes c + json_bool (observed c) + json_text (manual_mode c) +
  json_list 6 4 (allow_prefixes c) + json_list 6 4 (block_prefixes c).

Definition denied (c : ControllerConfig) : gset string := list_to_set (block_prefixes c) ∪ list_to_set (bogon_prefixes c).

(** [runtime_document]: the names and punctuation are 80 bytes, the newline included. *)
Definition runtime_bytes (c : ControllerConfig) (generation expires_unix mode : Z) : Z :=
  80 + Z.of_nat (length (u64_to_string generation)) + Z.of_nat (length (u64_to_string expires_unix)) +
  Z.of_nat (length (u64_to_string mode)) + json_bool (observed c) +
  json_list 2 0 (allow_prefixes c) + json_list 2 0 (elements (denied c)).

(** The checks of [validate] that concern the policy. *)
Definition validate_policy (c : ControllerConfig) : bool :=
  bool_decide (manual_mode c ∈ "auto"%string :: MODES) && within (lease_seconds c) 5 15 &&
  forallb (fun l => Z.of_nat (length l) <=? 4096)
    [owned_prefixes c; allow_prefixes c; block_prefixes c; bogon_prefixes c] &&
  (Z.of_nat (size (denied c)) <=? 4096) &&
  forallb ports_ok [protected_tcp_ports c; drop_tcp_ports c; drop_udp_ports c] &&
  forallb (fun p => negb (bool_decide (p ∈ drop_tcp_ports c))) (protected_tcp_ports c) &&
  bool_decide (dom (syn_per_cpu c) = list_to_set MODES) &&
  forallb (fun mb => budget_ok (snd mb)) (map_to_list (syn_per_cpu c)) &&
  match syn_per_cpu c !! "attack"%string with Some attack => validate_adaptive attack (adaptive_cfg c) | None => false end &&
  (config_bytes c <=? MAX_WRITTEN_BYTES) && (runtime_bytes c u64_max u64_max 3 <=? MAX_WRITTEN_BYTES).

(** ** State *)

Record Controller : Type := mk_controller {
  cfg : ControllerConfig; machine : Adaptive; current_mode : Z; generation : Z }.

(** [Controller.__init__]: the generation starts at the nanoseconds of the wall clock. *)
Definition Controller_init (c : ControllerConfig) (now : f64) (time_ns : Z) : Controller :=
  mk_controller c (Adaptive_init now) 0 time_ns.

(** [MODES.index]. *)
Fixpoint index_of (x : string) (l : list string) : exec Z :=
  match l with
  | [] => None
  | y :: l => if bool_decide (x = y) then Some 0 else i ← index_of x l; Some (i + 1)
  end.

(** ** The gate's document *)

Record Document : Type := mk_document {
  d_generation : Z; d_expires_unix : Z; d_mode : Z; d_observe : bool; d_allow : list string; d_block : list string }.

(** [sorted(set(a) | set(b))]. *)
Definition sorted_union (a b : list string) : list string :=
  merge_sort (fun x y => Is_true (String.leb x y)) (elements (list_to_set a ∪ list_to_set b : gset string)).

Definition runtime_document (c : ControllerConfig) (generation expires_unix mode : Z) : Document :=
  mk_document generation expires_unix mode (observed c) (allow_prefixes c) (sorted_union (block_prefixes c) (bogon_prefixes c)).

Definition publish (k : Controller) (expired : bool) (unix : Z) : Document * Controller :=
  let g := generation k + 1 in
  (runtime_document (cfg k) g (unix + (if expired then 0 else lease_seconds (cfg k))) (current_mode k),
   mk_controller (cfg k) (machine k) (current_mode k) g).

(** ** The kernel's configuration *)

(** The [config] command of the loader. *)
Definition loader_config (lease_ns observe mode ipv6 fragments rate burst abi : Z) : exec config :=
  if within lease_ns 0 (2 ^ 64 - 1) && within observe 0 1 && within mode 0 3 && within ipv6 0 1 && within fragments 0 1 &&
     within rate 0 1000000000 && within burst 0 1000000 && within abi 0 (2 ^ 32 - 1) && (abi =? XDDP_ABI) &&
     Bool.eqb (rate =? 0) (burst =? 0)
  then Some (mk_config lease_ns XDDP_ABI observe mode ipv6 fragments rate burst)
  else None.

Definition is_auto (c : ControllerConfig) : bool := bool_decide (manual_mode c = "auto"%string).

(** [_syn_budget]. *)
Definition current_budget (k : Controller) : exec Budget :=
  if is_auto (cfg k) then Adaptive.syn_budget (adaptive_cfg (cfg k)) (machine k) (syn_per_cpu (cfg k))
  else m ← py_index MODES (current_mode k); syn_per_cpu (cfg k) !! m.

(** [lease] for a number of seconds, at [mono_ns] of the monotonic clock. *)
Definition lease (k : Controller) (seconds mono_ns : Z) : exec config :=
  b ← current_budget k;
  loader_config (if seconds =? 0 then 0 else mono_ns + seconds * 1000000000) (Z.b2z (observed (cfg k))) (current_mode k)
    (Z.b2z (cover_ipv6 (cfg k))) (Z.b2z (tcp_fragments (cfg k))) (Adaptive.rate b) (Adaptive.burst b) 2.

(** The mode that the configuration selects. *)
Definition select_mode (c : ControllerConfig) (a : Adaptive) : exec Z :=
  if is_auto c then Some (Adaptive.mode a) else index_of (manual_mode c) MODES.

(** [tick], on the signals of its sample: the state, the document and the configuration it publishes. *)
Definition tick (k : Controller) (signals : Signals) (now : f64) (unix mono_ns : Z) : exec (Controller * Document * config) :=
  a ← Adaptive.sample (adaptive_cfg (cfg k)) (machine k) signals now;
  m ← select_mode (cfg k) a;
  let '(d, k) := publish (mk_controller (cfg k) a m (generation k)) false unix in
  c ← lease k (lease_seconds (cfg k)) mono_ns;
  Some (k, d, c).

(** ** Policy maps *)

(** The kernel's maps that a command may change: the configuration and two of the tries. *)
Record Kernel : Type := mk_kernel { k_config : config; k_allow : gmap string Z; k_block : gmap string Z }.

(** One call of the loader. *)
Inductive Call : Type :=
| SetConfig (c : config)
| PrefixAdd (blocked : bool) (n : string) (reason : Z)
| PrefixDel (blocked : bool) (n : string).

Definition call (k : Kernel) (x : Call) : Kernel :=
  match x with
  | SetConfig c => mk_kernel c (k_allow k) (k_block k)
  | PrefixAdd false n r => mk_kernel (k_config k) (<[n := r]> (k_allow k)) (k_block k)
  | PrefixAdd true n r => mk_kernel (k_config k) (k_allow k) (<[n := r]> (k_block k))
  | PrefixDel false n => mk_kernel (k_config k) (delete n (k_allow k)) (k_block k)
  | PrefixDel true n => mk_kernel (k_config k) (k_allow k) (delete n (k_block k))
  end.

Definition PREFIX_MARKER : Z := 1.
Definition BOGON_REASON : Z := 5.
Definition MANUAL_BLOCK_REASON : Z := 11.

(** [loader_policy]: what the tries hold for a configuration. *)
Definition allow_map (c : ControllerConfig) : gmap string Z :=
  list_to_map ((fun n => (n, PREFIX_MARKER)) <$> allow_prefixes c).
Definition block_map (c : ControllerConfig) : gmap string Z :=
  list_to_map ((fun n => (n, MANUAL_BLOCK_REASON)) <$> block_prefixes c) ∪
  list_to_map ((fun n => (n, BOGON_REASON)) <$> bogon_prefixes c).

(** The calls of [command] for one trie, with [gone] and [fresh] the differences of the lists as Python
    iterates over them. *)
Definition trie_calls (blocked : bool) (bogons gone fresh : list string) (reason : Z) : list Call :=
  flat_map (fun n => PrefixDel blocked n ::
    (if blocked && bool_decide (n ∈ bogons) then [PrefixAdd blocked n BOGON_REASON] else [])) gone ++
  ((fun n => PrefixAdd blocked n reason) <$> fresh).

(** [command] on a change of policy, up to the renewal of the lease: the lease expires, then the tries. *)
Definition command_calls (expired : config) (new : ControllerConfig) (gone_a fresh_a gone_b fresh_b : list string) : list Call :=
  SetConfig expired :: trie_calls false (bogon_prefixes new) gone_a fresh_a PREFIX_MARKER ++
  trie_calls true (bogon_prefixes new) gone_b fresh_b MANUAL_BLOCK_REASON.
