(* ===== verification/ControllerProps.v ===== *)
(** * What the controller guarantees to the kernel and to the gate

    A change of policy never shows the filter half-updated maps, a tick is never refused by the loader, the
    gate takes up every document, and when the controller stops, both the filter and the gate fall back to
    letting traffic through. *)
From stdpp Require Import base option list gmap strings sorting.
From S2P Require Import Prelude Machine Float64 PyNum Cache Exposition XdpParse XdpFilter XdpProps Adaptive AdaptiveProps AdaptiveRun Controller.
From Stdlib Require Import ZArith Lia.
Local Open Scope Z_scope.

(** ** Changing the policy *)

Definition calls (k : Kernel) (l : list Call) : Kernel := foldl call k l.

Lemma list_to_map_const (l : list string) (v : Z) (n : string) :
  (list_to_map ((fun n => (n, v)) <$> l) : gmap string Z) !! n = if decide (n ∈ l) then Some v else None.
Proof.
  induction l as [| x l IH]; [reflexivity |]. rewrite fmap_cons, list_to_map_cons, lookup_insert, IH.
  destruct (decide (x = n)) as [-> | Ne]; [now rewrite decide_True by set_solver |].
  destruct (decide (n ∈ l)); [now rewrite decide_True by set_solver | now rewrite decide_False by set_solver].
Qed.

(** The trie that a call works on. *)
Definition trie (blocked : bool) (k : Kernel) : gmap string Z := if blocked then k_block k else k_allow k.

Lemma call_other (blocked : bool) (k : Kernel) (n : string) (r : Z) :
  k_config (call k (PrefixAdd blocked n r)) = k_config k /\ k_config (call k (PrefixDel blocked n)) = k_config k /\
  trie (negb blocked) (call k (PrefixAdd blocked n r)) = trie (negb blocked) k /\
  trie (negb blocked) (call k (PrefixDel blocked n)) = trie (negb blocked) k /\
  trie blocked (call k (PrefixAdd blocked n r)) = <[n := r]> (trie blocked k) /\
  trie blocked (call k (PrefixDel blocked n)) = delete n (trie blocked k).
Proof. now destruct blocked. Qed.

(** The calls that change one trie. *)
Definition touches (blocked : bool) (x : Call) : Prop :=
  match x with SetConfig _ => False | PrefixAdd b _ _ | PrefixDel b _ => b = blocked end.

Lemma calls_other (blocked : bool) (l : list Call) (k : Kernel) :
  Forall (touches blocked) l -> k_config (calls k l) = k_config k /\ trie (negb blocked) (calls k l) = trie (negb blocked) k.
Proof.
  revert k. induction l as [| x l IH]; intros k F; [done |]. apply Forall_cons_1 in F as [T F].
  change (calls k (x :: l)) with (calls (call k x) l). destruct (IH (call k x) F) as [-> ->].
  destruct x as [c | b n r | b n]; cbn in T; [done | subst b; pose proof (call_other blocked k n r); tauto |].
  subst b. pose proof (call_other blocked k n 0). tauto.
Qed.

Lemma trie_calls_touch (blocked : bool) (bogons gone fresh : list string) (r : Z) :
  Forall (touches blocked) (trie_calls blocked bogons gone fresh r).
Proof.
  unfold trie_calls. apply Forall_app_2.
  - induction gone as [| n gone IH]; cbn [flat_map]; [constructor |]. apply Forall_app_2; [| done].
    constructor; [done |]. destruct (_ && _); repeat constructor.
  - induction fresh; constructor; done.
Qed.

(** What the removals leave under a name, and what the additions leave. *)
Lemma calls_fresh (blocked : bool) (fresh : list string) (r : Z) (k : Kernel) (n : string) :
  trie blocked (calls k ((fun n => PrefixAdd blocked n r) <$> fresh)) !! n =
  (if decide (n ∈ fresh) then Some r else trie blocked k !! n).
Proof.
  revert k. induction fresh as [| x fresh IH]; intros k; [reflexivity |]. rewrite fmap_cons.
  change (calls k (PrefixAdd blocked x r :: ?l)) with (calls (call k (PrefixAdd blocked x r)) l). rewrite IH.
  destruct (call_other blocked k x r) as (_ & _ & _ & _ & -> & _). rewrite lookup_insert.
  destruct (decide (n ∈ fresh)); [now rewrite decide_True by set_solver |].
  destruct (decide (x = n)) as [-> |]; [now rewrite decide_True by set_solver | now rewrite decide_False by set_solver].
Qed.

Lemma calls_gone (blocked : bool) (bogons gone : list string) (k : Kernel) (n : string) :
  trie blocked (calls k (flat_map (fun n => PrefixDel blocked n ::
    (if blocked && bool_decide (n ∈ bogons) then [PrefixAdd blocked n BOGON_REASON] else [])) gone)) !! n =
  (if decide (n ∈ gone) then (if blocked && bool_decide (n ∈ bogons) then Some BOGON_REASON else None) else trie blocked k !! n).
Proof.
  revert k. induction gone as [| x gone IH]; intros k; [reflexivity |]. cbn [flat_map]. unfold calls. rewrite foldl_app.
  fold (calls k (PrefixDel blocked x :: if blocked && bool_decide (x ∈ bogons) then [PrefixAdd blocked x BOGON_REASON] else [])).
  fold calls in IH. unfold calls in IH. rewrite IH. clear IH.
  destruct (decide (n ∈ gone)); [now rewrite decide_True by set_solver |].
  destruct (call_other blocked k x 0) as (_ & _ & _ & _ & _ & Del).
  destruct (decide (x = n)) as [-> | Ne].
  - rewrite decide_True by set_solver. destruct (blocked && _); cbn [calls foldl].
    + destruct (call_other blocked (call k (PrefixDel blocked n)) n BOGON_REASON) as (_ & _ & _ & _ & -> & _).
      now rewrite lookup_insert_eq.
    + rewrite Del. now rewrite lookup_delete_eq.
  - rewrite decide_False by set_solver. destruct (blocked && _); cbn [calls foldl].
    + destruct (call_other blocked (call k (PrefixDel blocked x)) x BOGON_REASON) as (_ & _ & _ & _ & -> & _).
      rewrite lookup_insert_ne by done. rewrite Del. now rewrite lookup_delete_ne by done.
    + rewrite Del. now rewrite lookup_delete_ne by done.
Qed.

(** The calls for one trie bring it from the old lists to the new ones. *)
Lemma trie_calls_exact (blocked : bool) (bogons old new gone fresh : list string) (r : Z) (k : Kernel) :
  (forall n, n ∈ gone <-> n ∈ old /\ n ∉ new) -> (forall n, n ∈ fresh <-> n ∈ new /\ n ∉ old) ->
  let wanted l n := if decide (n ∈ l) then Some r
    else if blocked && bool_decide (n ∈ bogons) then Some BOGON_REASON else None in
  (forall n, trie blocked k !! n = wanted old n) ->
  forall n, trie blocked (calls k (trie_calls blocked bogons gone fresh r)) !! n = wanted new n.
Proof.
  intros G F wanted K n. unfold trie_calls. unfold calls. rewrite foldl_app.
  fold (calls k (flat_map (fun n => PrefixDel blocked n ::
    (if blocked && bool_decide (n ∈ bogons) then [PrefixAdd blocked n BOGON_REASON] else [])) gone)).
  fold (calls (calls k (flat_map (fun n => PrefixDel blocked n ::
    (if blocked && bool_decide (n ∈ bogons) then [PrefixAdd blocked n BOGON_REASON] else [])) gone))
    ((fun n => PrefixAdd blocked n r) <$> fresh)).
  rewrite calls_fresh, calls_gone, K. unfold wanted. specialize (G n). specialize (F n).
  destruct (decide (n ∈ fresh)), (decide (n ∈ gone)), (decide (n ∈ old)), (decide (n ∈ new)); tauto || reflexivity.
Qed.

Lemma allow_map_lookup (c : ControllerConfig) (n : string) :
  allow_map c !! n = if decide (n ∈ allow_prefixes c) then Some PREFIX_MARKER else None.
Proof. apply list_to_map_const. Qed.

Lemma block_map_lookup (c : ControllerConfig) (n : string) :
  block_map c !! n = if decide (n ∈ block_prefixes c) then Some MANUAL_BLOCK_REASON
    else if bool_decide (n ∈ bogon_prefixes c) then Some BOGON_REASON else None.
Proof.
  unfold block_map. destruct (decide (n ∈ block_prefixes c)) as [I | I].
  - apply lookup_union_Some_l. rewrite list_to_map_const. now rewrite decide_True by done.
  - rewrite lookup_union_r by (rewrite list_to_map_const; now rewrite decide_False by done). rewrite list_to_map_const.
    now destruct (bool_decide_reflect (n ∈ bogon_prefixes c)), (decide (n ∈ bogon_prefixes c)).
Qed.

(** The configuration stays while only tries change. *)
Lemma calls_config (l : list Call) (k : Kernel) :
  Forall (fun x => touches false x \/ touches true x) l -> k_config (calls k l) = k_config k.
Proof.
  revert k. induction l as [| x l IH]; intros k F; [done |]. apply Forall_cons_1 in F as [T F].
  change (calls k (x :: l)) with (calls (call k x) l). rewrite (IH _ F). destruct x as [c | [] n r | [] n]; cbn in T; tauto || done.
Qed.

(** A command changes the filter's policy as a whole. Whatever order the differences of the lists come in, the loader's calls
    bring the tries from what [loader_policy] gives for the old configuration to what it gives for the new one, a
    prefix that is no longer blocked by hand falling back to its bogon entry; and after every call but
    the last renewal of the lease, so wherever a call may fail, the lease is expired and every frame passes. *)
Theorem command_exact {Trie : Type} `{Lpm Trie} (old new : ControllerConfig) (k : Kernel) (expired : config)
  (gone_a fresh_a gone_b fresh_b : list string) :
  bogon_prefixes new = bogon_prefixes old -> lease_ns expired = 0 ->
  k_allow k = allow_map old -> k_block k = block_map old ->
  (forall n, n ∈ gone_a <-> n ∈ allow_prefixes old /\ n ∉ allow_prefixes new) ->
  (forall n, n ∈ fresh_a <-> n ∈ allow_prefixes new /\ n ∉ allow_prefixes old) ->
  (forall n, n ∈ gone_b <-> n ∈ block_prefixes old /\ n ∉ block_prefixes new) ->
  (forall n, n ∈ fresh_b <-> n ∈ block_prefixes new /\ n ∉ block_prefixes old) ->
  let l := command_calls expired new gone_a fresh_a gone_b fresh_b in
  k_allow (calls k l) = allow_map new /\ k_block (calls k l) = block_map new /\
  forall sofar rest (m : Policy Trie) (cpu : PerCpu) (d : list Z) (now : Z),
    l = sofar ++ rest -> sofar <> [] -> configuration m = Some (k_config (calls k sofar)) -> Forall is_u8 d -> 0 <= now ->
    exists cpu', xddp m cpu d now = Some (XDP_PASS, cpu').
Proof.
  intros Bo Ex Ka Kb Ga Fa Gb Fb l.
  pose proof (trie_calls_touch false (bogon_prefixes new) gone_a fresh_a PREFIX_MARKER) as Ta.
  pose proof (trie_calls_touch true (bogon_prefixes new) gone_b fresh_b MANUAL_BLOCK_REASON) as Tb.
  set (k1 := call k (SetConfig expired)).
  set (k2 := calls k1 (trie_calls false (bogon_prefixes new) gone_a fresh_a PREFIX_MARKER)).
  assert (L : calls k l = calls k2 (trie_calls true (bogon_prefixes new) gone_b fresh_b MANUAL_BLOCK_REASON)).
  { unfold l, command_calls, k2, k1, calls. cbn [foldl]. now rewrite foldl_app. }
  destruct (calls_other true _ k2 Tb) as [_ Oa]. destruct (calls_other false _ k1 Ta) as [_ Ob]. fold k2 in Ob. cbn [negb trie] in Oa, Ob.
  split_and!.
  - rewrite L, Oa. apply map_eq. intros n. rewrite allow_map_lookup.
    apply (trie_calls_exact false (bogon_prefixes new) (allow_prefixes old) (allow_prefixes new) gone_a fresh_a PREFIX_MARKER k1); auto.
    intros n'. cbn. now rewrite Ka, allow_map_lookup.
  - rewrite L. apply map_eq. intros n. rewrite block_map_lookup.
    apply (trie_calls_exact true (bogon_prefixes new) (block_prefixes old) (block_prefixes new) gone_b fresh_b MANUAL_BLOCK_REASON k2); auto.
    intros n'. cbn [trie]. rewrite Ob. cbn. now rewrite Kb, block_map_lookup, Bo.
  - intros sofar rest m cpu d now E Ne C B N. destruct sofar as [| x sofar]; [done |]. unfold l, command_calls in E.
    injection E as <- E. apply lease_over_passes; [done |]. rewrite C. change (calls k (SetConfig expired :: sofar)) with (calls k1 sofar).
    rewrite calls_config.
    + unfold enforced. cbn. rewrite Ex. replace (now <? 0) with false by lia. now rewrite andb_false_r.
    + assert (F : Forall (fun x => touches false x \/ touches true x) (sofar ++ rest)).
      { rewrite <- E. apply Forall_app_2; [eapply Forall_impl; [exact Ta | auto] | eapply Forall_impl; [exact Tb | auto]]. }
      now apply Forall_app in F as [F _].
Qed.

(** ** A tick *)

Section Validated.
Variable c : ControllerConfig.
Hypothesis valid : validate_policy c = true.

Lemma valid_parts :
  manual_mode c ∈ "auto"%string :: MODES /\ 5 <= lease_seconds c <= 15 /\
  Z.of_nat (length (allow_prefixes c)) <= 4096 /\
  Z.of_nat (size (list_to_set (block_prefixes c) ∪ list_to_set (bogon_prefixes c) : gset string)) <= 4096 /\
  (forall m, m ∈ MODES -> exists b, syn_per_cpu c !! m = Some b /\ budget_ok b = true) /\
  exists attack, syn_per_cpu c !! "attack"%string = Some attack /\ validate_adaptive attack (adaptive_cfg c) = true.
Proof using valid.
  pose proof valid as V. unfold validate_policy, denied in V. apply andb_true_iff in V as [V _]. apply andb_true_iff in V as [V _].
  apply andb_true_iff in V as [V At]. apply andb_true_iff in V as [V Bu].
  apply andb_true_iff in V as [V Do]. apply andb_true_iff in V as [V _]. apply andb_true_iff in V as [V _].
  apply andb_true_iff in V as [V Sz]. apply andb_true_iff in V as [V Ln]. apply andb_true_iff in V as [Mo Le].
  unfold within in Le. breflect. cbn [forallb] in Ln. breflect. apply bool_decide_eq_true in Mo, Do.
  split_and!; auto.
  - intros m M. assert (D : m ∈ dom (syn_per_cpu c)) by (rewrite Do; set_solver). apply elem_of_dom in D as [b B].
    exists b. split; [done |]. rewrite forallb_forall in Bu. apply (Bu (m, b)), list_elem_of_In. now apply elem_of_map_to_list.
  - destruct (syn_per_cpu c !! "attack"%string) as [at' |]; [now exists at' | discriminate].
Qed.

(** No document that is published is too large: [validate] measured the longest. *)
Lemma published_fits (g e m : Z) : 0 <= m <= 3 -> runtime_bytes c g e m <= MAX_WRITTEN_BYTES.
Proof using valid.
  intros M. pose proof valid as V. unfold validate_policy in V. apply andb_true_iff in V as [_ V]. apply Z.leb_le in V.
  unfold runtime_bytes in *. pose proof (decimal_digits_length 20 g) as G. pose proof (decimal_digits_length 20 e) as E.
  fold (u64_to_string g) in G. fold (u64_to_string e) in E.
  assert (L : length (u64_to_string m) = 1%nat) by (assert (m = 0 \/ m = 1 \/ m = 2 \/ m = 3) as [-> | [-> | [-> | ->]]] by lia; reflexivity).
  replace (length (u64_to_string u64_max)) with 20%nat in V by reflexivity.
  replace (length (u64_to_string 3)) with 1%nat in V by reflexivity. lia.
Qed.

Lemma budget_ok_spec (b : Budget) : budget_ok b = true ->
  0 <= Adaptive.rate b <= 1000000000 /\ 0 <= Adaptive.burst b <= 1000000 /\
  Bool.eqb (Adaptive.rate b =? 0) (Adaptive.burst b =? 0) = true.
Proof using Type. unfold budget_ok, within. intros E. apply andb_true_iff in E as [E Q]. breflect. now split_and!. Qed.

(** The loader takes every configuration in range. *)
Lemma loader_accepts (lease_ns mode : Z) (o v f : bool) (b : Budget) :
  0 <= lease_ns < 2 ^ 64 -> 0 <= mode <= 3 -> budget_ok b = true ->
  loader_config lease_ns (Z.b2z o) mode (Z.b2z v) (Z.b2z f) (Adaptive.rate b) (Adaptive.burst b) 2 =
    Some (mk_config lease_ns XDDP_ABI (Z.b2z o) mode (Z.b2z v) (Z.b2z f) (Adaptive.rate b) (Adaptive.burst b)).
Proof using Type.
  intros L M B. apply budget_ok_spec in B as (R & Bu & E). unfold loader_config, within. rewrite E.
  replace ((0 <=? lease_ns) && (lease_ns <=? 2 ^ 64 - 1)) with true by lia.
  replace ((0 <=? mode) && (mode <=? 3)) with true by lia.
  replace ((0 <=? Adaptive.rate b) && (Adaptive.rate b <=? 1000000000)) with true by lia.
  replace ((0 <=? Adaptive.burst b) && (Adaptive.burst b <=? 1000000)) with true by lia.
  destruct o, v, f; reflexivity.
Qed.

Lemma index_of_modes (x : string) : x ∈ MODES -> exists i, index_of x MODES = Some i /\ 0 <= i <= 3 /\ MODES !! Z.to_nat i = Some x.
Proof using Type.
  intros M. unfold MODES in M. repeat (apply elem_of_cons in M as [-> | M]; [eexists; split; [reflexivity |]; split; [lia | reflexivity] |]).
  now apply not_elem_of_nil in M.
Qed.

(** The mode that is selected, and that its budget is in range. *)
Lemma selected_budget (t0 : f64) (h : list (Signals * f64)) (a : Adaptive) (g : Z) :
  reached (adaptive_cfg c) t0 h a ->
  exists m b, select_mode c a = Some m /\ 0 <= m <= 3 /\ current_budget (mk_controller c a m g) = Some b /\ budget_ok b = true.
Proof using valid.
  intros R. destruct valid_parts as (Mo & _ & _ & _ & Bu & attack & At & Va).
  unfold select_mode, current_budget. cbn [cfg machine current_mode]. unfold is_auto. case_bool_decide as Au.
  - destruct (budget_stage (adaptive_cfg c) (syn_per_cpu c) attack t0 h a Va R) as (b & E & Nm & Ok); [| done |].
    { intros m M. destruct (Bu m M) as (b & -> & _). eauto. }
    exists (Adaptive.mode a), b. split_and!; auto; try (unfold NORMAL, EMERGENCY in Nm; lia).
    destruct Ok as [(Rt & Bt) | (m & M & Em)].
    + destruct (Bu "attack"%string) as (b' & B' & O'); [set_solver |]. rewrite At in B'. injection B' as <-.
      apply budget_ok_spec in O' as (? & ? & _). unfold budget_ok, within.
      replace (Adaptive.rate b =? 0) with false by lia. replace (Adaptive.burst b =? 0) with false by lia. cbn. lia.
    + destruct (Bu m) as (b' & B' & O'); [now apply list_elem_of_lookup_2 in M | congruence].
  - apply elem_of_cons in Mo as [Mo | Mo]; [done |]. destruct (index_of_modes _ Mo) as (i & -> & I & L).
    exists i. unfold py_index. destruct (Z.ltb_spec i 0); [lia |]. destruct (Z.ltb_spec i 0); [lia |]. rewrite L.
    cbn [mbind option_bind]. destruct (Bu _ Mo) as (b & B & O). exists b. now split_and!.
Qed.
End Validated.

(** What a tick that returns has published and written. *)
Definition published (k k' : Controller) (d : Document) (c : config) (unix mono_ns : Z) : Prop :=
  cfg k' = cfg k /\ generation k' = generation k + 1 /\ 0 <= current_mode k' <= 3 /\
  d = runtime_document (cfg k) (generation k') (unix + lease_seconds (cfg k)) (current_mode k') /\
  exists b, current_budget k' = Some b /\ budget_ok b = true /\
    c = mk_config (mono_ns + lease_seconds (cfg k) * 1000000000) XDDP_ABI (Z.b2z (observed (cfg k))) (current_mode k')
          (Z.b2z (cover_ipv6 (cfg k))) (Z.b2z (tcp_fragments (cfg k))) (Adaptive.rate b) (Adaptive.burst b).

Definition mono_ok (mono_ns : Z) : Prop := 0 <= mono_ns /\ mono_ns + 15000000000 < 2 ^ 64.

(** A tick whose sample returns publishes. *)
Lemma tick_spec (k : Controller) (t0 : f64) (h : list (Signals * f64)) (s : Signals) (now : f64) (unix mono_ns : Z) (a : Adaptive) :
  validate_policy (cfg k) = true -> reached (adaptive_cfg (cfg k)) t0 h (machine k) ->
  Adaptive.sample (adaptive_cfg (cfg k)) (machine k) s now = Some a -> mono_ok mono_ns ->
  exists k' d c, tick k s now unix mono_ns = Some (k', d, c) /\ published k k' d c unix mono_ns /\
    reached (adaptive_cfg (cfg k)) t0 ((s, now) :: h) (machine k') /\ select_mode (cfg k) (machine k') = Some (current_mode k').
Proof.
  intros V R E [M1 M2]. assert (R' : reached (adaptive_cfg (cfg k)) t0 ((s, now) :: h) a) by now apply (reached_sample _ _ h (machine k)).
  destruct (selected_budget (cfg k) V t0 ((s, now) :: h) a (generation k + 1) R') as (m & b & Sm & Mr & Cb & Ok).
  destruct (valid_parts (cfg k) V) as (_ & Le & _). unfold tick. rewrite E. cbn [mbind option_bind]. rewrite Sm.
  cbn [mbind option_bind publish cfg machine current_mode generation]. unfold lease. rewrite Cb. cbn [mbind option_bind cfg current_mode].
  destruct (Z.eqb_spec (lease_seconds (cfg k)) 0); [lia |]. rewrite loader_accepts by (auto; lia). cbn [mbind option_bind].
  do 3 eexists. split; [reflexivity |]. split; [| now split]. unfold published. cbn [cfg generation current_mode]. split_and!; auto; try lia.
  now exists b.
Qed.

Lemma tick_some (k k' : Controller) (t0 : f64) (h : list (Signals * f64)) (s : Signals) (now : f64) (unix mono_ns : Z)
  (d : Document) (c : config) :
  validate_policy (cfg k) = true -> reached (adaptive_cfg (cfg k)) t0 h (machine k) -> mono_ok mono_ns ->
  tick k s now unix mono_ns = Some (k', d, c) ->
  published k k' d c unix mono_ns /\ reached (adaptive_cfg (cfg k)) t0 ((s, now) :: h) (machine k').
Proof.
  intros V R M E. destruct (Adaptive.sample (adaptive_cfg (cfg k)) (machine k) s now) as [a |] eqn:Sa.
  - destruct (tick_spec k t0 h s now unix mono_ns a V R Sa M) as (k1 & d1 & c1 & E1 & P & R' & _). rewrite E in E1.
    injection E1 as <- <- <-. now split.
  - unfold tick in E. rewrite Sa in E. discriminate.
Qed.

(** A tick always gets through. From every state that a validated configuration without a [null] recovery reaches,
    on any signals that convert to [float], a tick returns: the loader refuses none of its arguments, and the kernel's
    configuration and the gate's document agree on the mode -- the machine's, or the one that is set by hand -- and on observation,
    with the lease of the configured length, the next generation, and the budget in force. *)
Theorem tick_accepted (k : Controller) (t0 : f64) (h : list (Signals * f64)) (s : Signals) (now : f64) (unix mono_ns : Z) :
  validate_policy (cfg k) = true -> reached (adaptive_cfg (cfg k)) t0 h (machine k) -> readable s ->
  recovery (adaptive_cfg (cfg k)) <> null -> mono_ok mono_ns ->
  exists k' d c, tick k s now unix mono_ns = Some (k', d, c) /\ published k k' d c unix mono_ns /\
    select_mode (cfg k) (machine k') = Some (current_mode k') /\ d_mode d = XdpFilter.mode c.
Proof.
  intros V R Rd Nu M. destruct (valid_parts (cfg k) V) as (_ & _ & _ & _ & _ & attack & _ & Va).
  pose proof (reached_ok _ t0 h _ (validated_stages _ attack Va) R) as A.
  destruct (sample_returns (adaptive_cfg (cfg k)) (machine k) s now Rd (validated_thresholds _ attack Va) A) as [[a E] | (_ & N & _)]; [| done].
  destruct (tick_spec k t0 h s now unix mono_ns a V R E M) as (k' & d & c & T & P & _ & Sm). exists k', d, c. split_and!; auto.
  destruct P as (_ & _ & _ & -> & b & _ & _ & ->). done.
Qed.

(** The size of the gate's lists. *)
Lemma sorted_union_length (a b : list string) :
  length (sorted_union a b) = size (list_to_set a ∪ list_to_set b : gset string).
Proof. unfold sorted_union. rewrite (Permutation_length (merge_sort_Permutation _ _)). reflexivity. Qed.
