(* ===== verification/Perimeter.v ===== *)
(** * The perimeter as a whole

    The controller's documents and kernel configurations meet the gate and the filter. The gate reads the
    documents as JSON: [serde] and [json.dumps] are arguments, and what is assumed of them is that the bytes
    of a document parse to it. *)
From stdpp Require Import base option list gmap strings.
From S2P Require Import Prelude Machine Net Config Limiter Runtime Float64 PyNum XdpParse XdpFilter XdpProps Adaptive AdaptiveProps AdaptiveRun Controller ControllerProps.
From Stdlib Require Import ZArith Lia.
Local Open Scope Z_scope.

Lemma existsb_fmap {A B : Type} (f : A -> B) (p : B -> bool) (l : list A) : existsb p (f <$> l) = existsb (fun x => p (f x)) l.
Proof. induction l as [| x l IH]; [reflexivity |]. cbn. now rewrite <- IH. Qed.

(** ** A run of the controller *)

(** One tick's inputs: signals, the three clocks. *)
Definition Input : Type := Signals * f64 * Z * Z.

Fixpoint tick_run (k : Controller) (l : list Input) : exec (list (Document * config) * Controller) :=
  match l with
  | [] => Some ([], k)
  | (s, now, unix, mono) :: l => '(k, d, c) ← tick k s now unix mono; '(out, k) ← tick_run k l; Some ((d, c) :: out, k)
  end.

Section Gate.
Context {IpNet : Type} `{IpNetLaws IpNet}.
Variable parse : list Z -> option (Wire IpNet).
Variable net_of : string -> IpNet.

Definition wire_of (d : Document) : Wire IpNet :=
  mkWire (d_generation d) (d_expires_unix d) (d_mode d) (d_observe d) (net_of <$> d_allow d) (net_of <$> d_block d).

(** The gate reads the document [d] of the policy file at [unix'] and [received]; its clock may be up to 15 seconds
    behind the controller's. *)
Definition picks_up (d : Document) (unix : Z) (round : FileRead * Z * Instant) : Prop :=
  exists b unix' received, round = (Contents b, unix', received) /\ parse b = Some (wire_of d) /\
    Z.of_nat (length b) <= MAX_DOCUMENT_BYTES /\ unix - 15 <= unix' /\ 0 <= unix' < 2 ^ 63 /\ 0 <= unix < 2 ^ 63.

Lemma document_accepted (r : Runtime IpNet) (k : ControllerConfig) (g m unix : Z) (round : FileRead * Z * Instant) :
  validate_policy k = true -> 0 <= m <= 3 -> (forall s, r_value r = Some s -> w_generation (wire s) < g) ->
  let d := runtime_document k g (unix + lease_seconds k) m in
  picks_up d unix round ->
  exists s, r_value (watch_round parse r (fst (fst round)) (snd (fst round)) (snd round)) = Some s /\
    wire s = wire_of d /\ received s = snd round.
Proof using Type.
  intros V M G d (b & u' & rc & -> & P & L & U & Ru & Uu). cbn [fst snd].
  destruct (valid_parts k V) as (_ & Le & La & Lb & _).
  unfold watch_round. rewrite take_ge by (unfold MAX_DOCUMENT_BYTES in *; lia). unfold Runtime_apply. rewrite P.
  replace (Z.of_nat (length b) >? MAX_DOCUMENT_BYTES) with false by lia.
  unfold wire_of at 1 2 3 4. cbn [w_mode expires_unix Runtime.allow Runtime.block w_generation].
  rewrite !length_fmap. unfold d, runtime_document. cbn [d_mode d_expires_unix d_allow d_block d_generation].
  rewrite sorted_union_length. unfold saturating_add.
  replace (m >? 3) with false by lia. replace (4096 <? Z.of_nat (length (allow_prefixes k))) with false by lia.
  rewrite (proj2 (Z.ltb_ge _ _) Lb).
  replace (unix + lease_seconds k >? Z.min (u' + 30) (2 ^ 64 - 1)) with false by lia. cbn [orb].
  destruct (r_value r) as [s |] eqn:Rv; [| cbn; eexists; split_and!; reflexivity].
  specialize (G s eq_refl). cbn [w_generation wire_of d_generation]. 
  destruct (Z.ltb_spec g (w_generation (wire s))); [lia |]. destruct (Z.eqb_spec g (w_generation (wire s))); [lia |]. cbn. eauto.
Qed.

(** A round that finds no file, an unreadable one, a document that does not parse, or one of [docs]. *)
Definition harmless (docs : list Document) (round : FileRead * Z * Instant) : Prop :=
  match fst (fst round) with
  | Contents b =>
    match parse (take (Z.to_nat (MAX_DOCUMENT_BYTES + 1)) b) with
    | Some w => exists d, d ∈ docs /\ w_generation w = d_generation d
    | None => True
    end
  | _ => True
  end.

Lemma harmless_round (docs : list Document) (r : Runtime IpNet) (round : FileRead * Z * Instant) :
  harmless docs round ->
  let r' := watch_round parse r (fst (fst round)) (snd (fst round)) (snd round) in
  r_value r' = r_value r \/
  exists s d, r_value r' = Some s /\ d ∈ docs /\ w_generation (wire s) = d_generation d /\
    forall s0, r_value r = Some s0 -> w_generation (wire s0) < d_generation d.
Proof using Type*.
  destruct round as [[f u] now]. unfold harmless. cbn [fst snd]. intros Hl. destruct f as [[] | | b]; [now left .. |].
  unfold watch_round. pose proof (apply_cases parse r (take (Z.to_nat (MAX_DOCUMENT_BYTES + 1)) b) u now) as C.
  destruct (Runtime_apply parse r _ u now) as [ok r'].
  destruct C as [-> | (w & P & -> & _ & _ & _ & _ & _ & G & ->)]; [destruct (negb ok); now left |]. right. rewrite P in Hl.
  destruct Hl as (d & D & E). eexists _, d. split_and!; [reflexivity | done | done |]. intros s0 R. rewrite <- E. apply G.
  unfold generation_of. now rewrite R.
Qed.

(** Harmless rounds leave the generation at most that of the documents, and a snapshot that no document
    supersedes as it is. *)
Lemma harmless_run (docs : list Document) (g : Z) (r : Runtime IpNet) (rounds : list (FileRead * Z * Instant)) :
  (forall d, d ∈ docs -> d_generation d <= g) -> Forall (harmless docs) rounds ->
  (forall s, r_value r = Some s -> w_generation (wire s) <= g) ->
  (forall s, r_value (watch_run parse r rounds) = Some s -> w_generation (wire s) <= g) /\
  (forall s, r_value r = Some s -> w_generation (wire s) = g -> r_value (watch_run parse r rounds) = Some s).
Proof using Type*.
  intros D F. revert r. induction rounds as [| round rounds IH]; intros r R; [now split |].
  apply Forall_cons_1 in F as [Hr F]. pose proof (harmless_round docs r round Hr) as C. destruct round as [[f u] now].
  cbn [fst snd] in C. cbn [watch_run]. destruct C as [C | (s1 & d & C & Dd & E & G)].
  - destruct (IH F (watch_round parse r f u now)) as [X Y]; [now rewrite C |]. split; [done |]. intros s Rs. apply Y. now rewrite C.
  - pose proof (D d Dd). destruct (IH F (watch_round parse r f u now)) as [X Y].
    { intros s Rs. rewrite C in Rs. injection Rs as <-. lia. }
    split; [done |]. intros s Rs Gs. specialize (G s Rs). lia.
Qed.

(** The documents of a run have the generations after the controller's. *)
Lemma tick_run_spec (l : list Input) (k k' : Controller) (t0 : f64) (h : list (Signals * f64)) (out : list (Document * config)) :
  validate_policy (cfg k) = true -> reached (adaptive_cfg (cfg k)) t0 h (machine k) -> Forall (fun i => mono_ok (snd i)) l ->
  tick_run k l = Some (out, k') ->
  cfg k' = cfg k /\ (exists h', reached (adaptive_cfg (cfg k)) t0 h' (machine k')) /\ generation k <= generation k' /\
  forall d, d ∈ fst <$> out -> d_generation d <= generation k'.
Proof using Type.
  revert k h out. induction l as [| [[[s now] unix] mono] l IH]; intros k h out V R M E; cbn [tick_run] in E.
  { injection E as <- <-. split_and!; auto; [eauto | lia |]. intros d D. now apply not_elem_of_nil in D. }
  apply Forall_cons_1 in M as [M1 M]. cbn [snd] in M1.
  destruct (tick k s now unix mono) as [[[k1 d1] c1] |] eqn:T; [| discriminate]. cbn [mbind option_bind] in E.
  destruct (tick_run k1 l) as [[out1 k2] |] eqn:Rn; [| discriminate]. cbn [mbind option_bind] in E. injection E as <- <-.
  destruct (tick_some k k1 t0 h s now unix mono d1 c1 V R M1 T) as ((Cf & G & _ & Dd & _) & R1). rewrite <- Cf in V, R1.
  destruct (IH k1 _ out1 V R1 M Rn) as (Cf' & (h' & R') & G' & Ds). rewrite Cf in Cf', R'.
  split_and!; [done | eauto | lia |]. intros d D. rewrite fmap_cons in D. apply elem_of_cons in D as [-> | D]; [| auto].
  cbn [fst]. rewrite Dd. cbn. lia.
Qed.

Lemma tick_run_app (l1 l2 : list Input) (k k' : Controller) (out : list (Document * config)) :
  tick_run k (l1 ++ l2) = Some (out, k') ->
  exists out1 k1 out2, tick_run k l1 = Some (out1, k1) /\ tick_run k1 l2 = Some (out2, k') /\ out = out1 ++ out2.
Proof using Type.
  revert k out. induction l1 as [| [[[s now] unix] mono] l1 IH]; intros k out E; cbn [app tick_run] in E |- *; [eauto 6 |].
  destruct (tick k s now unix mono) as [[[k1 d1] c1] |]; [| discriminate]. cbn [mbind option_bind] in E |- *.
  destruct (tick_run k1 (l1 ++ l2)) as [[out' k2] |] eqn:Rn; [| discriminate]. cbn [mbind option_bind] in E. injection E as <- <-.
  destruct (IH k1 out' Rn) as (o1 & k3 & o2 & -> & E2 & ->). cbn. eauto 6.
Qed.

(** The controller runs from [k] on the inputs [l] and then [i], and publishes [out] and then [d] and [c]. *)
Record ran (k k' : Controller) (l : list Input) (i : Input) (out : list (Document * config)) (d : Document) (c : config)
  : Prop := {
  ran_valid : validate_policy (cfg k) = true;
  ran_reached : exists t0 h, reached (adaptive_cfg (cfg k)) t0 h (machine k);
  ran_clock : Forall (fun i => mono_ok (snd i)) (l ++ [i]);
  ran_run : tick_run k (l ++ [i]) = Some (out ++ [(d, c)], k') }.

(** A gate that is not ahead of the controller has met any of its documents, and then reads the last. *)
Record read_by (k : Controller) (i : Input) (out : list (Document * config)) (d : Document) (r : Runtime IpNet)
  (rounds : list (FileRead * Z * Instant)) (round : FileRead * Z * Instant) : Prop := {
  rb_behind : forall s, r_value r = Some s -> w_generation (wire s) <= generation k;
  rb_rounds : Forall (harmless (fst <$> out)) rounds;
  rb_last : picks_up d (snd (fst i)) round }.

(** What is in force then. *)
Lemma ran_published (k k' : Controller) (l : list Input) (i : Input) (out : list (Document * config)) (d : Document) (c : config) :
  ran k k' l i out d c ->
  exists k1, published k1 k' d c (snd (fst i)) (snd i) /\ cfg k1 = cfg k /\ generation k <= generation k1 /\
    (forall d', d' ∈ fst <$> out -> d_generation d' <= generation k1).
Proof using Type.
  intros [V (t0 & h & R) M E]. apply Forall_app in M as [Ml Mi]. apply Forall_inv in Mi.
  destruct (tick_run_app l [i] k k' _ E) as (o1 & k1 & o2 & E1 & E2 & Eq).
  destruct i as [[[s now] unix] mono]. cbn [tick_run] in E2. cbn [fst snd] in Mi |- *.
  destruct (tick k1 s now unix mono) as [[[k2 d2] c2] |] eqn:T; [| discriminate]. cbn [mbind option_bind] in E2.
  injection E2 as <- <-. apply app_inj_tail in Eq as [<- Eq]. injection Eq as <- <-.
  destruct (tick_run_spec l k k1 t0 h out V R Ml E1) as (Cf & (h1 & R1) & G & Ds).
  rewrite <- Cf in V, R1. destruct (tick_some k1 k2 t0 h1 s now unix mono d c V R1 Mi T) as [P _].
  exists k1. now split_and!.
Qed.

Lemma ran_in_force (k k' : Controller) (l : list Input) (i : Input) (out : list (Document * config)) (d : Document) (c : config)
  (r : Runtime IpNet) (rounds : list (FileRead * Z * Instant)) (round : FileRead * Z * Instant) :
  ran k k' l i out d c -> read_by k i out d r rounds round ->
  exists sn, r_value (watch_run parse r (rounds ++ [round])) = Some sn /\ wire sn = wire_of d /\ received sn = snd round.
Proof using Type*.
  intros Ra [B F P]. destruct (ran_published k k' l i out d c Ra) as (k1 & (Cf & G & M & Dd & _) & Ck & Gk & Ds).
  destruct (harmless_run (fst <$> out) (generation k1) r rounds Ds F) as [X _]; [intros s0 Rs; specialize (B s0 Rs); lia |].
  assert (App : watch_run parse r (rounds ++ [round]) =
    watch_round parse (watch_run parse r rounds) (fst (fst round)) (snd (fst round)) (snd round)).
  { clear. revert r. induction rounds as [| [[f u] now] rounds IH]; intros r; [now destruct round as [[] ?] | apply IH]. }
  rewrite App, Dd. rewrite Dd in P.
  apply (document_accepted (watch_run parse r rounds) (cfg k1) (generation k') (current_mode k') (snd (fst i)) round); auto.
  - rewrite Ck. apply Ra.
  - intros s0 Rs. specialize (X s0 Rs). lia.
Qed.
End Gate.

(** C11: The gate follows the controller. Whatever ticks a validated controller makes, and whatever of its documents the
    gate has read, missed or read again, once it reads the last one, it puts it into force: the mode is the
    controller's and the filter's, observation is the configured one, and an address is blocked exactly when enforcing, on one of the
    controller's block lists and on no allow list. *)
Theorem gate_follows_controller {IpNet : Type} `{IpNetLaws IpNet} (parse : list Z -> option (Wire IpNet)) (net_of : string -> IpNet)
  (k k' : Controller) (l : list Input) (i : Input) (out : list (Document * config)) (d : Document) (c : config)
  (r : Runtime IpNet) (rounds : list (FileRead * Z * Instant)) (round : FileRead * Z * Instant)
  (ip : IpAddr) (u : Z) (now : Instant) :
  ran k k' l i out d c -> read_by parse net_of k i out d r rounds round -> runtime_ok r ->
  ip_wf (normalize ip) -> u < snd (fst i) + lease_seconds (cfg k) -> now <= snd round + from_secs 15 ->
  let listed ns := existsb (fun n => net_contains (net_of n) (normalize ip)) ns in
  Runtime_policy (watch_run parse r (rounds ++ [round])) ip u now =
    (mkPolicy (XdpFilter.mode c) (observed (cfg k)) (listed (allow_prefixes (cfg k))),
     negb (observed (cfg k)) && negb (listed (allow_prefixes (cfg k))) &&
     listed (sorted_union (block_prefixes (cfg k)) (bogon_prefixes (cfg k)))).
Proof.
  intros Ra Rb Ok Wf U N listed. destruct (ran_in_force parse net_of k k' l i out d c r rounds round Ra Rb) as (sn & Rv & Wi & Rc).
  destruct (ran_published k k' l i out d c Ra) as (k1 & (Cf & G & M & Dd & b & _ & _ & Cc) & Ck & _).
  pose proof (watch_run_ok parse r (rounds ++ [round]) Ok sn Rv) as (Ea & Eb & _).
  unfold Runtime_policy. rewrite Rv. unfold lease_over. rewrite Wi, Rc. unfold saturating_duration_since.
  replace ((Z.max 0 (now - snd round) >? from_secs 15) || (expires_unix (wire_of net_of d) <=? u)) with false.
  - rewrite Ea, Eb, Wi. rewrite Dd. rewrite !PrefixIndex_scan by done. cbn. rewrite Ck, Cc. cbn.
    unfold listed. now rewrite !existsb_fmap.
  - symmetry. apply orb_false_iff. rewrite Z.gtb_ltb, Z.ltb_ge, Z.leb_gt. rewrite Dd. cbn. rewrite Ck. unfold from_secs, NANOS_PER_SEC in *. lia.
Qed.
