(* ===== verification/PerimeterWitness.v ===== *)
(** * Instances of the controller's and the perimeter's theorems

    A controller with one blocked network, and a gate that reads its document. *)
From stdpp Require Import base option list gmap strings.
From S2P Require Import Prelude Machine Net Config Limiter Runtime Float64 PyNum XdpParse XdpFrame XdpFilter XdpProps XdpWitness Adaptive AdaptiveProps AdaptiveRun AdaptiveWitness Controller ControllerProps Perimeter.
From Stdlib Require Import ZArith Lia.
Local Open Scope Z_scope.

Definition sample_controller_config (blocked : list string) : ControllerConfig :=
  mk_controller_config false "auto" 10 false true ["192.0.2.0/24"] [] blocked ["203.0.113.0/24"; "198.51.100.0/24"]
    [25565] [] [] sample_budgets (sample_adaptive sample_recovery_key) 3000.
Definition sample_blocks : list string := ["198.51.100.0/24"%string].
Definition sample_controller : Controller := Controller_init (sample_controller_config sample_blocks) (at_second 0) 1000.

Lemma sample_controller_valid : validate_policy (cfg sample_controller) = true.
Proof. vm_compute. reflexivity. Qed.
Lemma sample_controller_reached : reached (adaptive_cfg (cfg sample_controller)) (at_second 0) [] (machine sample_controller).
Proof. apply reached_init. Qed.

(** One tick at 5000 seconds of the wall clock. *)
Definition sample_input : Input := (calm, at_second 1, 5000, 1000000000).
Definition sample_document : Document :=
  mk_document 1001 5010 0 false [] ["198.51.100.0/24"; "203.0.113.0/24"]%string.
Definition sample_written : config := mk_config 11000000000 XDDP_ABI 0 0 0 1 0 0.

Lemma sample_ran : exists k', ran sample_controller k' [] sample_input [] sample_document sample_written.
Proof.
  assert (E : exists k', tick_run sample_controller ([] ++ [sample_input]) = Some ([] ++ [(sample_document, sample_written)], k'))
    by (eexists; vm_compute; reflexivity).
  destruct E as [k' E]. exists k'. split; [exact sample_controller_valid | exists (at_second 0), []; exact sample_controller_reached | | exact E].
  repeat constructor; cbn; lia.
Qed.

(** 198.51.100.0/24 and 203.0.113.0/24, and a library that reads one byte as the document. *)
Definition sample_net_of (s : string) : Cidr :=
  if bool_decide (s = "198.51.100.0/24"%string) then mkCidr (V4 3325256704) 24 eq_refl else mkCidr (V4 3405803776) 24 eq_refl.
Definition read_document (b : list Z) : option (Wire Cidr) :=
  match b with [1] => Some (wire_of sample_net_of sample_document) | _ => None end.
Definition sample_round : FileRead * Z * Instant := (Contents [1], 5001, from_secs 100).

Lemma sample_read : read_by read_document sample_net_of sample_controller sample_input [] sample_document (Runtime_new true) [] sample_round.
Proof.
  split; [intros s E; discriminate | constructor |]. exists [1], 5001, (from_secs 100).
  split_and!; try reflexivity; cbn; unfold MAX_DOCUMENT_BYTES; lia.
Qed.

Lemma gate_follows_controller_witness :
  Runtime_policy (watch_run read_document (Runtime_new true) ([] ++ [sample_round])) (V4 3325256711) 5005 (from_secs 104) =
    (mkPolicy 0 false false, true).
Proof.
  destruct sample_ran as [k' Ra].
  rewrite (gate_follows_controller read_document sample_net_of sample_controller k' [] sample_input [] sample_document sample_written
    (Runtime_new true) [] sample_round (V4 3325256711) 5005 (from_secs 104) Ra sample_read).
  - vm_compute. reflexivity.
  - intros s E. discriminate.
  - cbn. unfold is_u32. lia.
  - cbn. lia.
  - cbn. unfold from_secs, NANOS_PER_SEC. lia.
Defined.

Lemma tick_accepted_witness :
  exists k' d c, tick sample_controller calm (at_second 1) 5000 1000000000 = Some (k', d, c) /\ XdpFilter.mode c = 0.
Proof.
  destruct (tick_accepted sample_controller (at_second 0) [] calm (at_second 1) 5000 1000000000 sample_controller_valid
    sample_controller_reached calm_readable) as (k' & d & c & E & _).
  - discriminate.
  - unfold mono_ok. lia.
  - exists k', d, c. split; [exact E |]. vm_compute in E. now injection E as _ _ <-.
Defined.

(** Unblocking a bogon leaves it blocked as a bogon. *)
Lemma command_exact_witness :
  let old := sample_controller_config sample_blocks in let new := sample_controller_config [] in
  let k := mk_kernel sample_written (allow_map old) (block_map old) in
  k_block (calls k (command_calls (mk_config 0 2 0 0 0 1 0 0) new [] [] sample_blocks [])) = block_map new /\
  block_map new !! "198.51.100.0/24"%string = Some BOGON_REASON.
Proof.
  intros old new k. split; [| vm_compute; reflexivity].
  apply (command_exact (Trie := Entries) old new k (mk_config 0 2 0 0 0 1 0 0) [] [] sample_blocks []); try reflexivity;
    intros n; cbn; set_solver.
Defined.
