(* ===== verification/Loader.v ===== *)
(** * Installing a policy ([controller/policy.py]; [policy] and [prefix_key] and [validate_generation] of [xdp/loader.c])

    The controller prints its policy as lines of text; the loader reads all of them, checks them and the
    pinned generation, and only then writes the kernel's maps. Texts are lists of bytes. [inet_pton] is a parameter; what C's [fgets], [sscanf],
    [strtoull] and [strchr] do for the calls in the source is written out. An exit of the loader, and an exception of
    the controller, is [None]. *)
From stdpp Require Import base option list gmap strings sorting.
From S2P Require Import Prelude Machine Cache Exposition XdpParse Adaptive Controller.
From Stdlib Require Import ZArith Lia.
Local Open Scope Z_scope.

Definition MAX_POLICY_BYTES : Z := 4194304.

(** ** [loader_policy] *)

(** A row of the document. *)
Inductive Row : Type := PortRow (port flags : Z) | PrefixRow (map : list Z) (prefix : list Z) (reason : Z).

Definition print_row (r : Row) : list Z :=
  match r with
  | PortRow p f => text "port " ++ u64_to_string p ++ [32] ++ u64_to_string f
  | PrefixRow m p v => m ++ [32] ++ p ++ [32] ++ u64_to_string v
  end.

Definition add_flag (flag : Z) (m : gmap Z Z) (port : Z) : gmap Z Z := <[port := Z.lor (default 0 (m !! port)) flag]> m.
Definition port_map (c : ControllerConfig) : gmap Z Z :=
  let m := foldl (add_flag PORT_PROTECT_TCP) ∅ (protected_tcp_ports c) in
  let m := foldl (add_flag PORT_DROP_TCP) m (drop_tcp_ports c) in
  foldl (add_flag PORT_DROP_UDP) m (drop_udp_ports c).
Definition owned_map (c : ControllerConfig) : gmap string Z :=
  list_to_map ((fun n => (n, PREFIX_MARKER)) <$> owned_prefixes c).

(** [sorted(d.items())]. *)
Definition port_items (m : gmap Z Z) : list (Z * Z) := merge_sort (fun x y => Is_true (fst x <=? fst y)) (map_to_list m).
Definition prefix_items (m : gmap string Z) : list (string * Z) :=
  merge_sort (fun x y => Is_true (String.leb (fst x) (fst y))) (map_to_list m).

Definition prefix_rows (name : string) (m : gmap string Z) : list Row :=
  (fun x => PrefixRow (text name) (text (fst x)) (snd x)) <$> prefix_items m.
Definition policy_rows (c : ControllerConfig) : list Row :=
  ((fun x => PortRow (fst x) (snd x)) <$> port_items (port_map c)) ++
  prefix_rows "owned" (owned_map c) ++ prefix_rows "allow" (allow_map c) ++ prefix_rows "block" (block_map c).

(** [str.join]. *)
Fixpoint join (sep : list Z) (l : list (list Z)) : list Z :=
  match l with [] => [] | [x] => x | x :: l => x ++ sep ++ join sep l end.

Definition loader_policy (c : ControllerConfig) : exec (list Z) :=
  let document := join [10] (print_row <$> policy_rows c) ++ [10] in
  if Z.of_nat (length document) >? MAX_POLICY_BYTES then None else Some document.

(** ** The C library *)

(** [fgets] into [n + 1] bytes. *)
Fixpoint fgets (n : nat) (s : list Z) : list Z * list Z :=
  match n, s with
  | S n, b :: s => if b =? 10 then ([10], s) else let '(l, r) := fgets n s in (b :: l, r)
  | _, _ => ([], s)
  end.

(** The bytes before the terminator. *)
Fixpoint c_string (s : list Z) : list Z :=
  match s with [] => [] | b :: s => if b =? 0 then [] else b :: c_string s end.

Definition isspace (b : Z) : bool := (b =? 32) || ((9 <=? b) && (b <=? 13)).
Definition isdigit (b : Z) : bool := (48 <=? b) && (b <=? 57).

Fixpoint skip_space (s : list Z) : list Z :=
  match s with b :: s' => if isspace b then skip_space s' else s | [] => [] end.
Fixpoint scan_word (width : nat) (s : list Z) : list Z * list Z :=
  match width, s with
  | S n, b :: s' => if isspace b then ([], s) else let '(w, r) := scan_word n s' in (b :: w, r)
  | _, _ => ([], s)
  end.
(** [sscanf] of words with the given widths: those it converts. *)
Fixpoint sscanf (widths : list nat) (s : list Z) : list (list Z) :=
  match widths with
  | [] => []
  | w :: widths =>
    match skip_space s with
    | [] => []
    | s => let '(x, r) := scan_word w s in x :: sscanf widths r
    end
  end.

(** [number]: a text of digits only, at most [max], within [strtoull]'s range. *)
Definition number (s : list Z) (max : Z) : exec Z :=
  if bool_decide (s <> []) && forallb isdigit s && (decimal_value s <? 2 ^ 64) && (decimal_value s <=? max)
  then Some (decimal_value s) else None.

(** [strchr] as a split: the text before the first [c], and after it. *)
Fixpoint cut (c : Z) (s : list Z) : list Z * option (list Z) :=
  match s with
  | [] => ([], None)
  | b :: s => if b =? c then ([], Some s) else let '(l, r) := cut c s in (b :: l, r)
  end.

(** ** [prefix_key] *)

Section Loader.
Variable inet_pton : Z -> list Z -> option (list Z).

(** Clear bit [i] of an address, counted from the most significant of the first byte. *)
Definition clear_bit (a : list Z) (i : nat) : list Z :=
  alter (fun b => Z.land b (Z.lnot (Z.shiftl 1 (7 - Z.of_nat i mod 8)))) (i / 8)%nat a.

Definition prefix_key_of (cidr : list Z) : exec prefix_key :=
  if 128 <=? Z.of_nat (length cidr) then None else
  let '(host, slash) := cut 47 cidr in
  let family := match snd (cut 58 cidr) with Some _ => 6 | None => 4 end in
  let width := if family =? 4 then 32 else 128 in
  bits ← (match slash with Some s => number s width | None => Some width end);
  a ← inet_pton family host;
  let a := a ++ replicate (16 - length a) 0 in
  Some (mk_prefix_key (32 + bits) family (foldl clear_bit a (seq (Z.to_nat bits) (Z.to_nat (width - bits))))).

(** ** [policy] *)

(** What has been read: the ports, and the entries of the three tries. *)
Record Installed : Type := mk_installed {
  i_ports : gmap Z Z; i_owned : list (prefix_key * Z); i_allow : list (prefix_key * Z); i_block : list (prefix_key * Z) }.
Definition nothing_installed : Installed := mk_installed ∅ [] [] [].

Definition entry (l : list (prefix_key * Z)) (key value : list Z) : exec (list (prefix_key * Z)) :=
  if PREFIX_CAP <=? Z.of_nat (length l) then None else
  k ← prefix_key_of key;
  reason ← number value (R_COUNT - 1);
  if existsb (fun e => bool_decide (fst e = k)) l then None else Some (l ++ [(k, reason)]).

(** One row, as its three words. *)
Definition policy_words (st : Installed) (name key value : list Z) : exec Installed :=
  if bool_decide (name = text "port") then
    port ← number key 65535;
    flags ← number value 7;
    if negb (port =? 0) && negb (flags =? 0) && negb (Z.land flags 3 =? 3) && (default 0 (i_ports st !! port) =? 0)
    then Some (mk_installed (<[port := flags]> (i_ports st)) (i_owned st) (i_allow st) (i_block st)) else None
  else if bool_decide (name = text "owned") then
    l ← entry (i_owned st) key value; Some (mk_installed (i_ports st) l (i_allow st) (i_block st))
  else if bool_decide (name = text "allow") then
    l ← entry (i_allow st) key value; Some (mk_installed (i_ports st) (i_owned st) l (i_block st))
  else if bool_decide (name = text "block") then
    l ← entry (i_block st) key value; Some (mk_installed (i_ports st) (i_owned st) (i_allow st) l)
  else None.

(** The loop over the lines, with the bytes read before. *)
Fixpoint policy_lines (fuel : nat) (s : list Z) (total : Z) (st : Installed) : exec Installed :=
  match fuel, s with
  | _, [] => Some st
  | O, _ => None
  | S fuel, s =>
    let '(line, s) := fgets 159 s in
    let line := c_string line in
    let length := Z.of_nat (length line) in
    let total := total + length in
    if negb ((total <=? MAX_POLICY_BYTES) && negb (length =? 0) && bool_decide (last line = Some 10)) then None
    else if length =? 1 then policy_lines fuel s total st
    else match sscanf [15; 127; 31; 1]%nat line with
    | [name; key; value] => st ← policy_words st name key value; policy_lines fuel s total st
    | _ => None
    end
  end.

(** ** The generation of pinned maps *)

(** What the kernel reports of a map, and of what is pinned in the directory: the type and the maps of the program, and
    the maps by name. *)
Record MapInfo : Type := mk_map_info {
  mi_id : Z; mi_type : Z; mi_key_size : Z; mi_value_size : Z; mi_max_entries : Z; mi_flags : Z }.
Record Generation : Type := mk_generation { g_is_xdp : bool; g_map_ids : list Z; g_maps : gmap string MapInfo }.

(** [BPF_MAP_TYPE_ARRAY], [BPF_MAP_TYPE_PERCPU_ARRAY], [BPF_MAP_TYPE_LPM_TRIE] and [BPF_F_NO_PREALLOC]. *)
Definition MAP_ARRAY : Z := 2.
Definition MAP_PERCPU_ARRAY : Z := 6.
Definition MAP_LPM_TRIE : Z := 11.
Definition NO_PREALLOC : Z := 1.

(** Type, key size, value size, entries and flags; [struct config], [struct stats], [struct bucket] and
    [struct prefix_key] of [shared.h] have 40, 176, 24 and 24 bytes. *)
Definition schemas : list (string * (Z * Z * Z * Z * Z)) :=
  [("configuration", (MAP_ARRAY, 4, 40, 1, 0)); ("counters", (MAP_PERCPU_ARRAY, 4, 176, 1, 0));
   ("syn_budget", (MAP_PERCPU_ARRAY, 4, 24, 1, 0)); ("ports", (MAP_ARRAY, 4, 4, 65536, 0));
   ("owned", (MAP_LPM_TRIE, 24, 4, PREFIX_CAP, NO_PREALLOC)); ("allow", (MAP_LPM_TRIE, 24, 4, PREFIX_CAP, NO_PREALLOC));
   ("block", (MAP_LPM_TRIE, 24, 4, PREFIX_CAP, NO_PREALLOC))]%string.

(** The comparison of [check_map]. *)
Definition check_map (info : MapInfo) (schema : Z * Z * Z * Z * Z) : bool :=
  bool_decide ((mi_type info, mi_key_size info, mi_value_size info, mi_max_entries info, mi_flags info) = schema).

(** [validate_generation]: every map is pinned, has its schema and is one of the pinned program's. *)
Definition validate_generation (g : Generation) : bool :=
  g_is_xdp g && (Z.of_nat (length (g_map_ids g)) <=? 64) &&
  forallb (fun x =>
    match g_maps g !! fst x with
    | Some info => check_map info (snd x) && bool_decide (mi_id info ∈ g_map_ids g)
    | None => false
    end) schemas.

(** The maps of the kernel: an array of ports, and the tries by key; and the generation they belong to. *)
Record Maps : Type := mk_maps {
  m_lease_ns : Z; m_ports : gmap Z Z; m_owned : gmap prefix_key Z; m_allow : gmap prefix_key Z; m_block : gmap prefix_key Z;
  m_generation : Generation }.

(** The pass over the array. *)
Definition write_ports (ports : gmap Z Z) (old : gmap Z Z) : gmap Z Z :=
  foldl (fun m k => if default 0 (m !! k) =? default 0 (ports !! k) then m else <[k := default 0 (ports !! k)]> m)
    old (Z.of_nat <$> seq 0 (Z.to_nat 65536)).

(** [bpf_map_get_next_key] of a trie without a key: some key of it. *)
Variable first_key : gmap prefix_key Z -> option prefix_key.

(** [clear_map] of a trie. *)
Fixpoint clear_trie (rounds : nat) (m : gmap prefix_key Z) : gmap prefix_key Z :=
  match rounds with
  | O => m
  | S rounds => match first_key m with None => m | Some k => clear_trie rounds (delete k m) end
  end.
Definition clear_map (m : gmap prefix_key Z) : gmap prefix_key Z := clear_trie (S (Z.to_nat PREFIX_CAP)) m.

(** [bpf_map_update_elem] of a trie of [PREFIX_CAP] entries. *)
Definition update_elem (m : gmap prefix_key Z) (e : prefix_key * Z) : exec (gmap prefix_key Z) :=
  if bool_decide (m !! fst e = None) && (PREFIX_CAP <=? Z.of_nat (size m)) then None else Some (<[fst e := snd e]> m).
Fixpoint update_elems (m : gmap prefix_key Z) (l : list (prefix_key * Z)) : exec (gmap prefix_key Z) :=
  match l with [] => Some m | e :: l => m ← update_elem m e; update_elems m l end.

(** [policy]: nothing is written before everything has been read and the generation has been checked. *)
Definition policy (document : list Z) (k : Maps) : exec Maps :=
  st ← policy_lines (length document) document 0 nothing_installed;
  if negb (validate_generation (m_generation k)) then None else
  if negb (m_lease_ns k =? 0) then None else
  let ports := write_ports (i_ports st) (m_ports k) in
  owned ← update_elems (clear_map (m_owned k)) (i_owned st);
  allow ← update_elems (clear_map (m_allow k)) (i_allow st);
  block ← update_elems (clear_map (m_block k)) (i_block st);
  Some (mk_maps (m_lease_ns k) ports owned allow block (m_generation k)).
End Loader.
