(* ===== verification/LoaderProps.v ===== *)
(** * The loader installs the controller's policy

    The text that the controller prints for a validated configuration is read back row by row, passes every
    check of the loader, and what is written to the maps is the configuration. *)
From stdpp Require Import base option list gmap strings sorting.
From S2P Require Import Prelude Machine Cache Exposition XdpParse Adaptive Controller ControllerProps Loader.
From Stdlib Require Import ZArith Lia.
Local Open Scope Z_scope.

(** ** Words and lines *)

Definition visible (b : Z) : Prop := 33 <= b <= 126.

Lemma visible_not_space (b : Z) : visible b -> isspace b = false.
Proof. unfold visible, isspace. lia. Qed.

Lemma u64_digits (n : Z) : 0 <= n -> Forall (fun b => 48 <= b <= 57) (u64_to_string n).
Proof. apply decimal_digits_range. Qed.
Lemma u64_visible (n : Z) : 0 <= n -> Forall visible (u64_to_string n).
Proof. intros N. eapply Forall_impl; [now apply u64_digits |]. cbn. unfold visible. lia. Qed.
Lemma u64_nonempty (n : Z) : u64_to_string n <> [].
Proof. unfold u64_to_string. cbn [decimal_digits]. destruct (n <? 10); [done |]. now intros [_ [=]]%app_eq_nil. Qed.

Lemma number_print (n max : Z) : 0 <= n <= max -> max < 2 ^ 64 -> number (u64_to_string n) max = Some n.
Proof.
  intros N M. unfold number. assert (V : decimal_value (u64_to_string n) = n) by (apply decimal_digits_value; lia).
  rewrite V, (bool_decide_eq_true_2 _ (u64_nonempty n)).
  assert (D : forallb isdigit (u64_to_string n) = true).
  { apply forallb_forall. intros b B. pose proof (u64_digits n ltac:(lia)) as F. rewrite Forall_forall in F.
    specialize (F b (proj2 (list_elem_of_In _ _) B)). unfold isdigit. lia. }
  rewrite D. replace (n <? 2 ^ 64) with true by lia. replace (n <=? max) with true by lia. reflexivity.
Qed.

Lemma decimal_length (fuel : nat) (n k : Z) :
  0 <= n < 10 ^ k -> 0 < k -> (Z.to_nat k <= fuel)%nat -> Z.of_nat (length (decimal_digits fuel n)) <= k.
Proof.
  revert n k. induction fuel as [| fuel IH]; intros n k N K F; [lia |]. cbn [decimal_digits].
  destruct (Z.ltb_spec n 10); [cbn; lia |]. rewrite length_app. cbn [length].
  destruct (Z.eq_dec k 1) as [-> | Ne]; [lia |].
  assert (n / 10 < 10 ^ (k - 1)).
  { apply Z.div_lt_upper_bound; [lia |]. replace (10 * 10 ^ (k - 1)) with (10 ^ k); [lia |].
    rewrite <- Z.pow_succ_r by lia. f_equal. lia. }
  specialize (IH (n / 10) (k - 1) ltac:(split; [apply Z.div_pos; lia | done]) ltac:(lia) ltac:(lia)). lia.
Qed.

(** Words separated by a space, and the newline, scan as themselves. *)
Lemma scan_word_visible (n : nat) (w r : list Z) (b : Z) :
  Forall visible w -> (length w <= n)%nat -> isspace b = true -> scan_word n (w ++ b :: r) = (w, b :: r).
Proof.
  revert n. induction w as [| x w IH]; intros n F L B; cbn [app].
  - destruct n; cbn [scan_word]; [done | now rewrite B].
  - apply Forall_cons_1 in F as [X F]. cbn [length] in L. destruct n as [| n]; [lia |]. cbn [scan_word].
    rewrite (visible_not_space x X), (IH n F ltac:(lia) B). done.
Qed.

Lemma skip_space_visible (w r : list Z) : Forall visible w -> w <> [] -> skip_space (w ++ r) = w ++ r.
Proof.
  intros F N. destruct w as [| x w]; [done |]. apply Forall_cons_1 in F as [X _]. cbn [app skip_space].
  now rewrite (visible_not_space x X).
Qed.

Lemma sscanf_word (n : nat) (ws : list nat) (w r : list Z) (b : Z) :
  Forall visible w -> w <> [] -> (length w <= n)%nat -> isspace b = true ->
  sscanf (n :: ws) (w ++ b :: r) = w :: sscanf ws (b :: r).
Proof.
  intros F N L B. cbn [sscanf]. rewrite skip_space_visible by done.
  destruct (w ++ b :: r) eqn:E; [now destruct w |]. rewrite <- E, scan_word_visible by done. done.
Qed.

Lemma sscanf_space (ws : list nat) (r : list Z) : sscanf ws (32 :: r) = sscanf ws r.
Proof. destruct ws; [done |]. cbn [sscanf skip_space]. reflexivity. Qed.

Lemma sscanf_row (a b c : list Z) :
  Forall visible a -> Forall visible b -> Forall visible c -> a <> [] -> b <> [] -> c <> [] ->
  (length a <= 15)%nat -> (length b <= 127)%nat -> (length c <= 31)%nat ->
  sscanf [15; 127; 31; 1]%nat (a ++ [32] ++ b ++ [32] ++ c ++ [10]) = [a; b; c].
Proof.
  intros. cbn [app]. rewrite sscanf_word, sscanf_space, sscanf_word, sscanf_space, sscanf_word by done. reflexivity.
Qed.

Lemma fgets_line (n : nat) (l r : list Z) :
  Forall (fun b => b <> 10) l -> (length l < n)%nat -> fgets n (l ++ 10 :: r) = (l ++ [10], r).
Proof.
  revert n. induction l as [| b l IH]; intros n F L; (destruct n as [| n]; [cbn in L; lia |]); cbn [app fgets]; [done |].
  apply Forall_cons_1 in F as [B F]. cbn [length] in L. destruct (Z.eqb_spec b 10); [done |]. now rewrite (IH n F ltac:(lia)).
Qed.

Lemma c_string_same (l : list Z) : Forall (fun b => b <> 0) l -> c_string l = l.
Proof.
  induction l as [| b l IH]; intros F; [done |]. apply Forall_cons_1 in F as [B F]. cbn [c_string].
  destruct (Z.eqb_spec b 0); [done |]. now rewrite IH.
Qed.

(** ** Rows *)

(** A row's three words fit the loader's buffers. *)
Definition row_ok (r : Row) : Prop :=
  match r with
  | PortRow p f => 0 <= p <= 65535 /\ 0 <= f <= 9
  | PrefixRow m p v => Forall visible m /\ m <> [] /\ (length m <= 5)%nat /\ Forall visible p /\ p <> [] /\ (length p <= 43)%nat /\
      0 <= v <= 13
  end.

Definition row_words (r : Row) : list Z * list Z * list Z :=
  match r with
  | PortRow p f => (text "port", u64_to_string p, u64_to_string f)
  | PrefixRow m p v => (m, p, u64_to_string v)
  end.

Lemma u64_short (n k : Z) : 0 <= n < 10 ^ k -> 0 < k <= 20 -> Z.of_nat (length (u64_to_string n)) <= k.
Proof. intros N K. unfold u64_to_string. apply decimal_length; lia. Qed.

(** The three words of a row, and what makes them scan as they were printed. *)
Definition words_ok (w : list Z * list Z * list Z) : Prop :=
  let '(a, b, c) := w in
  (Forall visible a /\ Forall visible b /\ Forall visible c) /\ (a <> [] /\ b <> [] /\ c <> []) /\
  (length a <= 5)%nat /\ (length b <= 43)%nat /\ (length c <= 2)%nat.
Definition words_line (w : list Z * list Z * list Z) : list Z := let '(a, b, c) := w in a ++ [32] ++ b ++ [32] ++ c.

Lemma row_words_ok (r : Row) : row_ok r -> words_ok (row_words r).
Proof.
  destruct r as [p f | m p v]; cbn [row_ok row_words words_ok].
  - intros [P F]. pose proof (u64_short p 5 ltac:(lia) ltac:(lia)). pose proof (u64_short f 1 ltac:(lia) ltac:(lia)).
    assert (T : Forall visible (text "port")) by (repeat constructor; cbn; lia).
    split_and!; auto using u64_nonempty; try (apply u64_visible; lia); try done; lia.
  - intros (? & ? & ? & ? & ? & ? & V). pose proof (u64_short v 2 ltac:(lia) ltac:(lia)).
    split_and!; auto using u64_nonempty; try (apply u64_visible; lia); lia.
Qed.

Lemma row_words_line (r : Row) : print_row r = words_line (row_words r).
Proof. now destruct r. Qed.

Lemma visible_line (w : list Z * list Z * list Z) :
  words_ok w -> Forall (fun b => b <> 10 /\ b <> 0) (words_line w) /\ (2 < length (words_line w) < 60)%nat.
Proof.
  destruct w as [[a b] c]. intros ((A & B & C) & (NA & NB & NC) & LA & LB & LC).
  assert (V : forall l, Forall visible l -> Forall (fun b => b <> 10 /\ b <> 0) l).
  { intros l H. eapply Forall_impl; [exact H |]. unfold visible. cbn. lia. }
  assert (N : forall l : list Z, l <> [] -> (0 < length l)%nat) by (intros []; cbn; [done | lia]).
  apply N in NA, NB, NC. cbn [words_line]. rewrite !length_app. cbn [length]. split; [| lia].
  repeat apply Forall_app_2; auto; repeat constructor; lia.
Qed.

Section LoaderProps.
Context (inet_pton : Z -> list Z -> option (list Z)).

(** ** From text to rows *)

Fixpoint run_rows (st : Installed) (rows : list Row) : exec Installed :=
  match rows with
  | [] => Some st
  | r :: rows => let '(a, b, c) := row_words r in st ← policy_words inet_pton st a b c; run_rows st rows
  end.

Definition printed (rows : list Row) : list Z := flat_map (fun r => print_row r ++ [10]) rows.

Lemma policy_line (fuel : nat) (w : list Z * list Z * list Z) (s : list Z) (total : Z) (st : Installed) :
  words_ok w -> total + Z.of_nat (length (words_line w)) + 1 <= MAX_POLICY_BYTES ->
  policy_lines inet_pton (S fuel) (words_line w ++ 10 :: s) total st =
  (let '(a, b, c) := w in st ← policy_words inet_pton st a b c;
   policy_lines inet_pton fuel s (total + Z.of_nat (length (words_line w)) + 1) st).
Proof.
  intros W T. destruct (visible_line w W) as [V L]. set (l := words_line w) in *. cbn [policy_lines].
  destruct (l ++ 10 :: s) eqn:E; [now destruct l |]. rewrite <- E.
  rewrite fgets_line; [| eapply Forall_impl; [exact V | now intros ? []] | lia].
  rewrite c_string_same by (apply Forall_app_2; [eapply Forall_impl; [exact V | now intros ? []] | repeat constructor; lia]).
  rewrite last_snoc, length_app, bool_decide_eq_true_2 by done. cbn [length].
  rewrite (proj2 (Z.leb_le (total + Z.of_nat (length l + 1)) MAX_POLICY_BYTES)) by lia.
  rewrite (proj2 (Z.eqb_neq (Z.of_nat (length l + 1)) 0)) by lia. cbn [negb andb].
  rewrite (proj2 (Z.eqb_neq (Z.of_nat (length l + 1)) 1)) by lia. subst l.
  destruct w as [[a b] c]. destruct W as ((A & B & C) & (NA & NB & NC) & LA & LB & LC).
  replace (words_line (a, b, c) ++ [10]) with (a ++ [32] ++ b ++ [32] ++ c ++ [10])
    by (cbn [words_line]; now rewrite <- !app_assoc).
  rewrite sscanf_row by (done || lia). now rewrite Nat2Z.inj_add, Z.add_assoc.
Qed.

(** A line for a port has at most 13 bytes, a line for a prefix at most 60. *)
Definition row_size (r : Row) : Z := match r with PortRow _ _ => 13 | PrefixRow _ _ _ => 60 end.

Lemma print_row_length (r : Row) : row_ok r -> 0 <= Z.of_nat (length (print_row r)) + 1 <= row_size r.
Proof.
  intros R. destruct r as [p f | m p v].
  - destruct R as [P F]. cbn [print_row row_size]. rewrite !length_app. cbn [length].
    pose proof (u64_short p 5 ltac:(lia) ltac:(lia)). pose proof (u64_short f 1 ltac:(lia) ltac:(lia)).
    change (length (text "port ")) with 5%nat. lia.
  - rewrite row_words_line. pose proof (visible_line _ (row_words_ok _ R)). cbn [row_size]. lia.
Qed.

Lemma policy_rows_read (rows : list Row) (fuel : nat) (total : Z) (st : Installed) :
  Forall row_ok rows -> (length rows <= fuel)%nat -> total + Z.of_nat (length (printed rows)) <= MAX_POLICY_BYTES ->
  policy_lines inet_pton fuel (printed rows) total st = run_rows st rows.
Proof.
  revert fuel total st. induction rows as [| r rows IH]; intros fuel total st F L T; [now destruct fuel |].
  apply Forall_cons_1 in F as [R F]. cbn [length] in L, T. destruct fuel as [| fuel]; [lia |].
  cbn [printed flat_map run_rows] in *. fold (printed rows) in *. rewrite !length_app in T. cbn [length] in T.
  rewrite <- app_assoc. cbn [app].
  rewrite row_words_line in *. rewrite policy_line by (auto using row_words_ok; lia).
  destruct (row_words r) as [[a b] c]. destruct (policy_words _ _ _ _ _); [| done].
  apply IH; [done | lia | lia].
Qed.

Lemma join_printed (rows : list Row) : rows <> [] -> join [10] (print_row <$> rows) ++ [10] = printed rows.
Proof.
  induction rows as [| r rows IH]; intros N; [done |]. destruct rows as [| r' rows].
  - cbn. now rewrite app_nil_r.
  - specialize (IH ltac:(done)). rewrite !fmap_cons in *.
    change (join [10] (print_row r :: print_row r' :: (print_row <$> rows)))
      with (print_row r ++ [10] ++ join [10] (print_row r' :: (print_row <$> rows))).
    rewrite <- !app_assoc, IH. cbn [printed flat_map]. now rewrite <- !app_assoc.
Qed.

Lemma printed_length (rows : list Row) : (length rows <= length (printed rows))%nat.
Proof. induction rows as [| r rows IH]; [done |]. cbn [printed flat_map length]. rewrite !length_app. cbn [length]. fold (printed rows). lia. Qed.

Lemma printed_size (size : Z) (rows : list Row) :
  Forall row_ok rows -> Forall (fun r => row_size r <= size) rows ->
  Z.of_nat (length (printed rows)) <= size * Z.of_nat (length rows).
Proof.
  intros F. induction F as [| r rows R F IH]; intros G; [cbn; lia |]. apply Forall_cons_1 in G as [S G]. specialize (IH G).
  cbn [printed flat_map length]. fold (printed rows). rewrite !length_app. cbn [length].
  pose proof (print_row_length r R). lia.
Qed.

(** The document that the controller prints, and what the loader makes of it. *)
Lemma document_read (c : ControllerConfig) :
  Forall row_ok (policy_rows c) -> Z.of_nat (length (printed (policy_rows c))) <= MAX_POLICY_BYTES ->
  exists document, loader_policy c = Some document /\
    policy_lines inet_pton (length document) document 0 nothing_installed = run_rows nothing_installed (policy_rows c).
Proof.
  intros F L. unfold loader_policy. set (rows := policy_rows c) in *. destruct (decide (rows = [])) as [-> | N].
  - exists [10]. done.
  - rewrite join_printed by done. exists (printed rows). rewrite Z.gtb_ltb, (proj2 (Z.ltb_ge _ _)) by done.
    split; [done |]. apply policy_rows_read; [done | apply printed_length | lia].
Qed.
End LoaderProps.
