(* ===== verification/LoaderInstall.v ===== *)
(** * The loader writes the controller's policy into the maps

    What [policy] of the loader leaves in the kernel when it is given the text of [loader_policy]: the flags of
    every port, and in each trie the networks of the configuration and nothing else. That the two programs spell
    addresses alike is [canonical]: Python's text of an address is one that [inet_pton] reads back. *)
From stdpp Require Import base option list gmap strings sorting.
From S2P Require Import Prelude Machine Cache Exposition XdpParse Adaptive Controller ControllerProps Loader LoaderProps.
From Stdlib Require Import ZArith Lia.
Local Open Scope Z_scope.

(** ** Splitting at a character *)

Lemma cut_none (c : Z) (l : list Z) : c ∉ l -> cut c l = (l, None).
Proof.
  induction l as [| b l IH]; intros N; [done |]. cbn [cut]. destruct (Z.eqb_spec b c); [set_solver |].
  now rewrite IH by set_solver.
Qed.
Lemma cut_at (c : Z) (l r : list Z) : c ∉ l -> cut c (l ++ c :: r) = (l, Some r).
Proof.
  induction l as [| b l IH]; intros N; cbn [app cut]; [now rewrite Z.eqb_refl |].
  destruct (Z.eqb_spec b c); [set_solver |]. now rewrite IH by set_solver.
Qed.
Lemma cut_found (c : Z) (l r : list Z) : c ∈ l -> exists x, snd (cut c (l ++ r)) = Some x.
Proof.
  induction l as [| b l IH]; intros E; [now apply elem_of_nil in E |]. cbn [app cut]. destruct (Z.eqb_spec b c); [eauto |].
  apply elem_of_cons in E as [-> | E]; [done |]. destruct (IH E) as [x X]. destruct (cut c (l ++ r)). eauto.
Qed.

Lemma text_inj (a b : string) : text a = text b -> a = b.
Proof.
  intros E. rewrite <- (String.string_of_list_ascii_of_string a), <- (String.string_of_list_ascii_of_string b). f_equal.
  revert E. unfold text. generalize (String.list_ascii_of_string a), (String.list_ascii_of_string b).
  intros l. induction l as [| x l IH]; intros [| y m] E; try done. cbn in E. injection E as X E.
  rewrite (IH m E). f_equal. rewrite <- (Ascii.ascii_N_embedding x), <- (Ascii.ascii_N_embedding y). f_equal. lia.
Qed.

(** ** Ports *)

Lemma add_flag_lookup (f : Z) (l : list Z) (m : gmap Z Z) (p : Z) :
  default 0 (foldl (add_flag f) m l !! p) = (if decide (p ∈ l) then Z.lor (default 0 (m !! p)) f else default 0 (m !! p)) /\
  (is_Some (foldl (add_flag f) m l !! p) <-> is_Some (m !! p) \/ p ∈ l).
Proof.
  revert m. induction l as [| x l IH]; intros m; cbn [foldl].
  { split; [done |]. rewrite elem_of_nil. tauto. }
  destruct (IH (add_flag f m x)) as [-> ->]. unfold add_flag. rewrite lookup_insert. clear IH.
  destruct (decide (x = p)) as [<- | Ne].
  - rewrite (decide_True (P := x ∈ x :: l)) by constructor. cbn [default from_option id]. rewrite <- Z.lor_assoc, Z.lor_diag.
    split; [now destruct (decide (x ∈ l)) |]. rewrite elem_of_cons. split; [auto | intros _; left; eauto].
  - rewrite (decide_ext (p ∈ x :: l) (p ∈ l)) by (rewrite elem_of_cons; naive_solver).
    split; [done | rewrite elem_of_cons; naive_solver].
Qed.

(** The flags of a port, from the lists of the configuration. *)
Definition port_bits (c : ControllerConfig) (p : Z) : Z :=
  Z.lor (Z.lor (if decide (p ∈ protected_tcp_ports c) then PORT_PROTECT_TCP else 0)
    (if decide (p ∈ drop_tcp_ports c) then PORT_DROP_TCP else 0)) (if decide (p ∈ drop_udp_ports c) then PORT_DROP_UDP else 0).

Lemma port_map_bits (c : ControllerConfig) (p : Z) :
  default 0 (port_map c !! p) = port_bits c p /\
  (is_Some (port_map c !! p) <-> p ∈ protected_tcp_ports c \/ p ∈ drop_tcp_ports c \/ p ∈ drop_udp_ports c).
Proof.
  unfold port_map, port_bits. repeat (rewrite (proj1 (add_flag_lookup _ _ _ _)) || rewrite (proj2 (add_flag_lookup _ _ _ _))).
  rewrite lookup_empty, is_Some_alt. split; [| tauto]. cbn [default]. repeat case_decide; done.
Qed.

(** A port in the map may be printed and passes the loader's checks. *)
Lemma port_map_ok (c : ControllerConfig) (p f : Z) :
  validate_policy c = true -> port_map c !! p = Some f -> 1 <= p <= 65535 /\ 1 <= f <= 7 /\ Z.land f 3 <> 3.
Proof.
  unfold validate_policy. rewrite !andb_true_iff. intros [[[[[[[_ Ports] Apart] _] _] _] _] _] E.
  destruct (port_map_bits c p) as [B I]. rewrite E in B, I. cbn in B. pose proof (proj1 I ltac:(eauto)) as U. clear E I. split.
  - cbn [forallb] in Ports. rewrite !andb_true_iff in Ports. destruct Ports as (P & D & X & _). unfold ports_ok in *.
    rewrite andb_true_iff, forallb_forall in P, D, X. unfold within in *. rewrite !list_elem_of_In in U.
    destruct U as [U | [U | U]]; [apply P in U | apply D in U | apply X in U]; lia.
  - rewrite B. unfold port_bits. rewrite forallb_forall in Apart. specialize (Apart p). rewrite <- list_elem_of_In in Apart.
    destruct (decide (p ∈ protected_tcp_ports c)) as [P | P], (decide (p ∈ drop_tcp_ports c)) as [D | D],
      (decide (p ∈ drop_udp_ports c)) as [X | X]; cbn; try tauto; try (repeat split; discriminate);
      specialize (Apart P); rewrite bool_decide_eq_true_2 in Apart by done; discriminate.
Qed.

Section Install.
Context (inet_pton : Z -> list Z -> option (list Z)).

(** Python's [str] of an address of a family. *)
Context (host_of : Z -> list Z -> list Z).

(** ** Networks *)

Record Network : Type := mk_network { n_family : Z; n_length : Z; n_bytes : list Z }.
Definition n_width (w : Network) : Z := if n_family w =? 4 then 32 else 128.
Definition net_key (w : Network) : prefix_key := key_of (32 + n_length w) (n_family w) (n_bytes w).
Definition host (w : Network) : list Z := host_of (n_family w) (n_bytes w).

(** An address of its family without host bits. *)
Definition network_ok (w : Network) : Prop :=
  (n_family w = 4 \/ n_family w = 6) /\ Z.of_nat (length (n_bytes w)) = n_width w / 8 /\ 0 <= n_length w <= n_width w /\
  foldl clear_bit (addr (net_key w)) (seq (Z.to_nat (n_length w)) (Z.to_nat (n_width w - n_length w))) = addr (net_key w).

(** What the two libraries say of its text. *)
Definition spelled (w : Network) : Prop :=
  inet_pton (n_family w) (host w) = Some (n_bytes w) /\ Forall visible (host w) /\ host w <> [] /\ (length (host w) <= 39)%nat /\
  (47 ∉ host w) /\ (58 ∈ host w <-> n_family w = 6).

Definition canonical (n : string) (w : Network) : Prop :=
  network_ok w /\ spelled w /\ text n = (host w ++ [47] ++ u64_to_string (n_length w)).

Lemma n_width_cases (w : Network) : n_width w = 32 \/ n_width w = 128.
Proof. unfold n_width. destruct (_ =? _); auto. Qed.

Lemma canonical_text (n : string) (w : Network) :
  canonical n w -> Forall visible (text n) /\ text n <> [] /\ (length (text n) <= 43)%nat.
Proof.
  intros ((F & _ & L & _) & (_ & V & N & H & _ & _) & ->).
  pose proof (n_width_cases w).
  pose proof (u64_short (n_length w) 3 ltac:(lia) ltac:(lia)). rewrite !length_app. cbn [length].
  split_and!; [| now destruct (host w) | lia].
  repeat apply Forall_app_2; [done | repeat constructor; cbn; lia | apply u64_visible; lia].
Qed.

Lemma digits_no_colon (n : Z) : 0 <= n -> 58 ∉ u64_to_string n.
Proof. intros N E. pose proof (u64_digits n N) as F. rewrite Forall_forall in F. specialize (F 58 E). lia. Qed.

(** The loader reads a canonical text as the key of its network. *)
Lemma prefix_key_canonical (n : string) (w : Network) : canonical n w -> prefix_key_of inet_pton (text n) = Some (net_key w).
Proof.
  intros C. destruct (canonical_text n w C) as (_ & _ & L). destruct C as ((F & B & R & Z0) & (P & _ & _ & _ & S & O) & E).
  unfold prefix_key_of. replace (128 <=? Z.of_nat (length (text n))) with false by lia. rewrite E. cbn [app].
  rewrite (cut_at 47 (host w)) by done.
  assert (X : (match snd (cut 58 (host w ++ 47 :: u64_to_string (n_length w))) with Some _ => 6 | None => 4 end) = n_family w).
  { destruct (decide (58 ∈ host w)) as [I | I].
    - destruct (cut_found 58 (host w) (47 :: u64_to_string (n_length w)) I) as [x ->]. symmetry. tauto.
    - rewrite cut_none; [cbn; destruct F; [lia | tauto] |]. pose proof (digits_no_colon (n_length w) ltac:(lia)).
      rewrite not_elem_of_app, not_elem_of_cons. auto. }
  rewrite X. fold (n_width w). rewrite number_print; [| lia | destruct (n_width_cases w) as [-> | ->]; done]. cbn [mbind option_bind].
  rewrite P. cbn [mbind option_bind]. unfold net_key, key_of in *. cbn [addr] in Z0. now rewrite Z0.
Qed.

Lemma net_key_inj (w w' : Network) : network_ok w -> network_ok w' -> net_key w = net_key w' -> w = w'.
Proof.
  intros (_ & B & _) (_ & B' & _) [= L F E]. unfold n_width in *. rewrite F in B. apply app_inj_1 in E as [E _]; [| lia].
  destruct w, w'. cbn in *. f_equal; [done | lia | done].
Qed.

Lemma canonical_inj (n n' : string) (w w' : Network) : canonical n w -> canonical n' w' -> net_key w = net_key w' -> n = n'.
Proof.
  intros (O & _ & E) (O' & _ & E') K. apply (net_key_inj w w' O O') in K as ->. apply text_inj. now rewrite E, E'.
Qed.

(** ** Reading the rows *)

Lemma run_rows_app (st : Installed) (a b : list Row) :
  run_rows inet_pton st (a ++ b) = (st ← run_rows inet_pton st a; run_rows inet_pton st b).
Proof.
  revert st. induction a as [| r a IH]; intros st; [done |]. cbn [app run_rows]. destruct (row_words r) as [[x y] z].
  destruct (policy_words _ _ _ _ _) as [st' |]; cbn [mbind option_bind]; [apply IH | done].
Qed.

Lemma run_port (st : Installed) (p f : Z) :
  1 <= p <= 65535 -> 1 <= f <= 7 -> Z.land f 3 <> 3 -> i_ports st !! p = None ->
  policy_words inet_pton st (text "port") (u64_to_string p) (u64_to_string f) =
  Some (mk_installed (<[p := f]> (i_ports st)) (i_owned st) (i_allow st) (i_block st)).
Proof.
  intros P F L N. unfold policy_words. rewrite bool_decide_eq_true_2 by done. rewrite !number_print by lia.
  cbn [mbind option_bind]. rewrite N. cbn [default from_option]. unfold id.
  replace (p =? 0) with false by lia. replace (f =? 0) with false by lia. replace (Z.land f 3 =? 3) with false by lia. done.
Qed.

Lemma run_ports (l : list (Z * Z)) (st : Installed) :
  (forall p f, (p, f) ∈ l -> 1 <= p <= 65535 /\ 1 <= f <= 7 /\ Z.land f 3 <> 3 /\ i_ports st !! p = None) -> NoDup l.*1 ->
  run_rows inet_pton st ((fun x => PortRow (fst x) (snd x)) <$> l) =
  Some (mk_installed (list_to_map l ∪ i_ports st) (i_owned st) (i_allow st) (i_block st)).
Proof.
  revert st. induction l as [| [p f] l IH]; intros st H N.
  { cbn. rewrite left_id_L by apply _. now destruct st. }
  rewrite fmap_cons in *. apply NoDup_cons in N as [N D]. cbn [fst snd run_rows row_words] in *.
  destruct (H p f ltac:(constructor)) as (P & F & L & E). rewrite run_port by done. cbn [mbind option_bind]. rewrite IH; [| | done].
  - cbn [i_ports i_owned i_allow i_block]. do 2 f_equal. cbn [list_to_map foldr fst snd].
    rewrite <- insert_union_r; [now rewrite insert_union_l | now apply not_elem_of_list_to_map_1].
  - intros q g I. destruct (H q g ltac:(now constructor)) as (Q & G & M & X). split_and!; try done; try lia.
    cbn [i_ports]. rewrite lookup_insert_ne; [done |]. intros <-. apply N. now apply (list_elem_of_fmap_2 fst) in I.
Qed.

(** A trie of what has been read. *)
Inductive Which : Type := Owned | Allow | Block.
Definition which_name (w : Which) : string := match w with Owned => "owned" | Allow => "allow" | Block => "block" end.
Definition get_trie (w : Which) (st : Installed) : list (prefix_key * Z) :=
  match w with Owned => i_owned st | Allow => i_allow st | Block => i_block st end.
Definition set_trie (w : Which) (st : Installed) (l : list (prefix_key * Z)) : Installed :=
  match w with
  | Owned => mk_installed (i_ports st) l (i_allow st) (i_block st)
  | Allow => mk_installed (i_ports st) (i_owned st) l (i_block st)
  | Block => mk_installed (i_ports st) (i_owned st) (i_allow st) l
  end.

Lemma policy_words_trie (w : Which) (st : Installed) (key value : list Z) :
  policy_words inet_pton st (text (which_name w)) key value =
  (l ← entry inet_pton (get_trie w st) key value; Some (set_trie w st l)).
Proof. now destruct w. Qed.

Context (net : string -> Network).
Definition keyed (l : list (string * Z)) : list (prefix_key * Z) := (fun x => (net_key (net (fst x)), snd x)) <$> l.

(** The prefixes of a trie, as [validate] leaves them. *)
Definition prefixes_ok (l : list (string * Z)) : Prop :=
  (forall n v, (n, v) ∈ l -> canonical n (net n) /\ 0 <= v <= 13) /\ NoDup l.*1.

Lemma prefixes_ok_cons (n : string) (v : Z) (l : list (string * Z)) :
  prefixes_ok ((n, v) :: l) -> canonical n (net n) /\ 0 <= v <= 13 /\ prefixes_ok l /\
  net_key (net n) ∉ (keyed l).*1.
Proof.
  intros [C N]. rewrite fmap_cons in N. apply NoDup_cons in N as [N D]. destruct (C n v ltac:(constructor)) as [Cn V].
  refine (conj Cn (conj V (conj (conj _ D) _))); [intros x y I; apply C; now constructor |].
  intros ((k & y) & E & ((x & z) & [= -> ->] & I)%list_elem_of_fmap)%list_elem_of_fmap. cbn in *. apply N.
  rewrite (canonical_inj _ _ _ _ Cn (proj1 (C x z ltac:(now constructor))) E). now apply (list_elem_of_fmap_2 fst) in I.
Qed.

Lemma keyed_nodup (l : list (string * Z)) : prefixes_ok l -> NoDup (keyed l).*1.
Proof.
  induction l as [| [n v] l IH]; intros O; [constructor |]. apply prefixes_ok_cons in O as (_ & _ & O & N).
  cbn. constructor; auto.
Qed.

Lemma entry_new (l : list (prefix_key * Z)) (n : string) (v : Z) :
  canonical n (net n) -> 0 <= v <= 13 -> Z.of_nat (length l) < PREFIX_CAP -> net_key (net n) ∉ l.*1 ->
  entry inet_pton l (text n) (u64_to_string v) = Some (l ++ [(net_key (net n), v)]).
Proof.
  intros C V L N. unfold entry. replace (PREFIX_CAP <=? Z.of_nat (length l)) with false by lia.
  rewrite (prefix_key_canonical n (net n) C), number_print by (unfold R_COUNT; lia). cbn [mbind option_bind].
  destruct (existsb _ l) eqn:E; [| done]. apply existsb_exists in E as ([k y] & I & B%bool_decide_eq_true). cbn in B. subst k.
  exfalso. apply N, (list_elem_of_fmap_2 fst _ (_, y)), list_elem_of_In, I.
Qed.

Lemma run_prefixes (w : Which) (l : list (string * Z)) (st : Installed) :
  prefixes_ok l -> Z.of_nat (length (get_trie w st) + length l) <= PREFIX_CAP ->
  (forall k, k ∈ (get_trie w st).*1 -> k ∉ (keyed l).*1) ->
  run_rows inet_pton st ((fun x => PrefixRow (text (which_name w)) (text (fst x)) (snd x)) <$> l) =
  Some (set_trie w st (get_trie w st ++ keyed l)).
Proof.
  revert st. induction l as [| [n v] l IH]; intros st O L D.
  { cbn. rewrite app_nil_r. now destruct st, w. }
  apply prefixes_ok_cons in O as (C & V & O & N). rewrite fmap_cons. cbn [fst snd run_rows row_words length keyed] in *.
  rewrite policy_words_trie, entry_new; [| done | done | lia | intros I; eapply D; [exact I | constructor]].
  cbn [mbind option_bind]. assert (G : forall x, get_trie w (set_trie w st x) = x) by (now destruct w).
  rewrite IH; rewrite ?G; [| done | rewrite length_app; cbn [length]; lia |].
  - rewrite <- app_assoc. destruct w; done.
  - intros k. rewrite fmap_app, elem_of_app. intros [I | I%list_elem_of_singleton].
    + intros X. eapply D; [exact I | now constructor].
    + now rewrite I.
Qed.

(** ** Sorted items *)

Lemma port_items_perm (m : gmap Z Z) : port_items m ≡ₚ map_to_list m.
Proof. apply merge_sort_Permutation. Qed.
Lemma prefix_items_perm (m : gmap string Z) : prefix_items m ≡ₚ map_to_list m.
Proof. apply merge_sort_Permutation. Qed.

Lemma items_nodup `{Countable K} {A} (l : list (K * A)) (m : gmap K A) : l ≡ₚ map_to_list m -> NoDup l.*1.
Proof. intros P. rewrite P. apply NoDup_fst_map_to_list. Qed.
Lemma items_map `{Countable K} {A} (l : list (K * A)) (m : gmap K A) : l ≡ₚ map_to_list m -> list_to_map l = m.
Proof. intros P. rewrite (list_to_map_proper l (map_to_list m)); [apply list_to_map_to_list | now apply (items_nodup l m) | done]. Qed.

Lemma in_prefix_items (m : gmap string Z) (n : string) (v : Z) : (n, v) ∈ prefix_items m <-> m !! n = Some v.
Proof. rewrite prefix_items_perm. apply elem_of_map_to_list. Qed.
Lemma in_port_items (m : gmap Z Z) (p f : Z) : (p, f) ∈ port_items m <-> m !! p = Some f.
Proof. rewrite port_items_perm. apply elem_of_map_to_list. Qed.

(** ** The maps of a configuration *)

Definition prefixes (c : ControllerConfig) : list string :=
  owned_prefixes c ++ allow_prefixes c ++ block_prefixes c ++ bogon_prefixes c.
Definition trie_map (w : Which) (c : ControllerConfig) : gmap string Z :=
  match w with Owned => owned_map c | Allow => allow_map c | Block => block_map c end.

Lemma trie_map_lookup (w : Which) (c : ControllerConfig) (n : string) (v : Z) :
  trie_map w c !! n = Some v -> n ∈ prefixes c /\ 0 <= v <= 13.
Proof.
  unfold prefixes. rewrite !elem_of_app. unfold trie_map, owned_map, allow_map, block_map. destruct w.
  1,2: rewrite list_to_map_const; case_decide; [intros [= <-]; split; [auto | done] | done].
  rewrite lookup_union, !list_to_map_const. repeat case_decide; intros [= <-]; (split; [auto | done]).
Qed.

Lemma list_map_size (l : list string) (v : Z) :
  (size (list_to_map ((fun n => (n, v)) <$> l) : gmap string Z) <= length l)%nat.
Proof.
  induction l as [| n l IH]; [done |]. rewrite fmap_cons, list_to_map_cons, map_size_insert. cbn [length].
  case_match; cbn [fst snd] in *; unfold id in *; lia.
Qed.

Lemma trie_map_size (w : Which) (c : ControllerConfig) :
  validate_policy c = true -> Z.of_nat (size (trie_map w c)) <= PREFIX_CAP.
Proof.
  unfold validate_policy, denied. rewrite !andb_true_iff. intros [[[[[[[[[_ Lists] Deny] _] _] _] _] _] _] _].
  cbn [forallb] in Lists. rewrite !andb_true_iff in Lists. destruct Lists as (O & A & _). unfold PREFIX_CAP.
  destruct w; cbn [trie_map].
  - pose proof (list_map_size (owned_prefixes c) PREFIX_MARKER). unfold owned_map. lia.
  - pose proof (list_map_size (allow_prefixes c) PREFIX_MARKER). unfold allow_map. lia.
  - unfold block_map. rewrite <- size_dom, dom_union_L, !dom_list_to_map_L, <- !list_fmap_compose.
    unfold compose. cbn [fst]. rewrite !list_fmap_id. lia.
Qed.

Section Configured.
Context (c : ControllerConfig) (Valid : validate_policy c = true) (Canonical : forall n, n ∈ prefixes c -> canonical n (net n)).

Lemma trie_prefixes_ok (w : Which) : prefixes_ok (prefix_items (trie_map w c)).
Proof.
  split; [| eapply items_nodup, prefix_items_perm]. intros n v I%in_prefix_items%trie_map_lookup. destruct I. auto.
Qed.

Lemma prefix_items_length (w : Which) : Z.of_nat (length (prefix_items (trie_map w c))) <= PREFIX_CAP.
Proof. rewrite prefix_items_perm, length_map_to_list. now apply trie_map_size. Qed.

Lemma port_items_length : Z.of_nat (length (port_items (port_map c))) <= 65535.
Proof.
  rewrite port_items_perm, length_map_to_list, <- size_dom.
  assert (S : dom (port_map c) ⊆ list_to_set (seqZ 1 65535)).
  { intros p [f E]%elem_of_dom. apply elem_of_list_to_set, elem_of_seqZ. pose proof (port_map_ok c p f Valid E). lia. }
  apply subseteq_size in S. rewrite size_list_to_set in S by apply NoDup_seqZ. rewrite length_seqZ in S. lia.
Qed.

Lemma policy_rows_ok : Forall row_ok (policy_rows c).
Proof.
  assert (P : forall w, Forall row_ok (prefix_rows (which_name w) (trie_map w c))).
  { intros w. apply Forall_fmap, Forall_forall. intros [n v] I. destruct (trie_prefixes_ok w) as [O _]. destruct (O n v I) as [C V].
    destruct (canonical_text n (net n) C) as (T & N & L). cbn. split_and!; try done; try lia; destruct w; cbn; try done; try lia;
    repeat constructor; cbn; lia. }
  unfold policy_rows. repeat apply Forall_app_2; [| exact (P Owned) | exact (P Allow) | exact (P Block)].
  apply Forall_fmap, Forall_forall. intros [p f] I%in_port_items. pose proof (port_map_ok c p f Valid I). cbn. lia.
Qed.

Lemma printed_app (a b : list Row) : printed (a ++ b) = printed a ++ printed b.
Proof. apply flat_map_app. Qed.

Lemma policy_rows_size : Z.of_nat (length (printed (policy_rows c))) <= MAX_POLICY_BYTES.
Proof.
  pose proof policy_rows_ok as F. unfold policy_rows in *. rewrite !Forall_app in F. destruct F as (P & O & A & B).
  rewrite !printed_app, !length_app. pose proof (printed_size 13 _ P) as SP. pose proof (printed_size 60 _ O) as SO.
  pose proof (printed_size 60 _ A) as SA. pose proof (printed_size 60 _ B) as SB.
  pose proof port_items_length. pose proof (prefix_items_length Owned) as LO. pose proof (prefix_items_length Allow) as LA.
  pose proof (prefix_items_length Block) as LB. cbn [trie_map] in *. unfold prefix_rows in *. rewrite !length_fmap in *.
  unfold PREFIX_CAP, MAX_POLICY_BYTES in *.
  specialize (SP ltac:(apply Forall_fmap, Forall_true; done)). specialize (SO ltac:(apply Forall_fmap, Forall_true; done)).
  specialize (SA ltac:(apply Forall_fmap, Forall_true; done)). specialize (SB ltac:(apply Forall_fmap, Forall_true; done)). lia.
Qed.

(** What the loader has read when the document ends. *)
Definition read_policy : Installed :=
  mk_installed (port_map c) (keyed (prefix_items (trie_map Owned c))) (keyed (prefix_items (trie_map Allow c)))
    (keyed (prefix_items (trie_map Block c))).

Lemma run_policy_rows : run_rows inet_pton nothing_installed (policy_rows c) = Some read_policy.
Proof.
  assert (P : forall w st, get_trie w st = [] -> run_rows inet_pton st (prefix_rows (which_name w) (trie_map w c)) =
    Some (set_trie w st (keyed (prefix_items (trie_map w c))))).
  { intros w st E. unfold prefix_rows. rewrite run_prefixes; rewrite ?E; [done | apply trie_prefixes_ok | apply prefix_items_length |].
    intros k I. now apply elem_of_nil in I. }
  unfold policy_rows. rewrite !run_rows_app, run_ports; [| | eapply items_nodup, port_items_perm].
  - cbn [mbind option_bind]. change (prefix_rows "owned" (owned_map c)) with (prefix_rows (which_name Owned) (trie_map Owned c)).
    change (prefix_rows "allow" (allow_map c)) with (prefix_rows (which_name Allow) (trie_map Allow c)).
    change (prefix_rows "block" (block_map c)) with (prefix_rows (which_name Block) (trie_map Block c)).
    rewrite run_rows_app, (P Owned) by done. cbn [mbind option_bind]. rewrite run_rows_app, (P Allow) by done. cbn [mbind option_bind].
    rewrite (P Block) by done. cbn [set_trie i_ports i_owned i_allow i_block]. unfold read_policy.
    now rewrite (items_map _ _ (port_items_perm _)), right_id_L by apply _.
  - intros p f I%in_port_items. destruct (port_map_ok c p f Valid I) as (A & B & C). split_and!; try lia. apply lookup_empty.
Qed.
End Configured.
End Install.
