(* ===== verification/LoaderMaps.v ===== *)
(** * The maps after the loader has written a policy

    From the entries that were read to the kernel's maps: the array of ports, and the tries that are emptied and
    filled. The last theorems join the controller's text to the maps, and bound what any text can install. *)
From stdpp Require Import base option list gmap strings sorting.
From S2P Require Import Prelude Machine Cache Exposition XdpParse Adaptive Controller ControllerProps Loader LoaderProps LoaderInstall.
From Stdlib Require Import ZArith Lia.
Local Open Scope Z_scope.

(** ** The array *)

Lemma write_ports_lookup (ports old : gmap Z Z) (p : Z) :
  0 <= p < 65536 -> default 0 (write_ports ports old !! p) = default 0 (ports !! p).
Proof.
  intros P. unfold write_ports.
  assert (G : forall l m, default 0 (foldl (fun (m : gmap Z Z) k => if default 0 (m !! k) =? default 0 (ports !! k) then m
      else <[k := default 0 (ports !! k)]> m) m l !! p) = if decide (p ∈ l) then default 0 (ports !! p) else default 0 (m !! p)).
  { intros l. induction l as [| k l IH]; intros m; [done |]. cbn [foldl]. rewrite IH. clear IH.
    destruct (decide (p ∈ l)); [now rewrite decide_True by (now constructor) |].
    destruct (Z.eqb_spec (default 0 (m !! k)) (default 0 (ports !! k))) as [E | E].
    - destruct (decide (p ∈ k :: l)) as [I |]; [| done]. apply elem_of_cons in I as [-> |]; done.
    - rewrite lookup_insert. destruct (decide (k = p)) as [-> | Ne]; [now rewrite decide_True by constructor |].
      rewrite decide_False; [done |]. rewrite elem_of_cons. intros [-> |]; done. }
  rewrite G, decide_True; [done |]. apply list_elem_of_fmap. exists (Z.to_nat p). split; [lia |]. apply elem_of_seq. lia.
Qed.

(** ** The tries *)

Section Tries.
Context (first_key : gmap prefix_key Z -> option prefix_key).

(** A trie with entries has a first key, which is one of its keys. *)
Definition finds_keys : Prop :=
  (forall m k, first_key m = Some k -> is_Some (m !! k)) /\ (forall m, first_key m = None -> m = ∅).

Lemma clear_trie_empty (rounds : nat) (m : gmap prefix_key Z) :
  finds_keys -> (size m <= rounds)%nat -> clear_trie first_key rounds m = ∅.
Proof.
  intros [F E]. revert m. induction rounds as [| rounds IH]; intros m S; cbn [clear_trie].
  - apply map_size_empty_iff. lia.
  - destruct (first_key m) as [k |] eqn:K; [| auto]. apply IH. apply F in K as [v K].
    rewrite map_size_delete, K. lia.
Qed.

Lemma update_elems_fresh (l : list (prefix_key * Z)) (m : gmap prefix_key Z) :
  NoDup l.*1 -> Z.of_nat (size m + length l) <= PREFIX_CAP -> (forall k, k ∈ l.*1 -> m !! k = None) ->
  update_elems m l = Some (list_to_map l ∪ m).
Proof.
  revert m. induction l as [| [k v] l IH]; intros m N S D; [now rewrite list_to_map_nil, left_id_L by apply _ |].
  rewrite fmap_cons in *. apply NoDup_cons in N as [N1 N2]. cbn [update_elems fst snd length] in *.
  assert (K : m !! k = None) by (apply D; constructor).
  unfold update_elem. cbn [fst snd]. rewrite bool_decide_eq_true_2 by done.
  replace (PREFIX_CAP <=? Z.of_nat (size m)) with false by lia. cbn [andb mbind option_bind]. rewrite IH; [| done | |].
  - rewrite list_to_map_cons, <- insert_union_r; [now rewrite insert_union_l | now apply not_elem_of_list_to_map_1].
  - rewrite map_size_insert_None by done. lia.
  - intros x X. rewrite lookup_insert_ne; [apply D; now constructor |]. now intros ->.
Qed.

Lemma write_trie (l : list (prefix_key * Z)) (m : gmap prefix_key Z) :
  finds_keys -> Z.of_nat (size m) <= PREFIX_CAP -> NoDup l.*1 -> Z.of_nat (length l) <= PREFIX_CAP ->
  update_elems (clear_map first_key m) l = Some (list_to_map l).
Proof.
  intros F S N L. unfold clear_map. rewrite clear_trie_empty by (done || lia).
  rewrite update_elems_fresh; [| done | rewrite map_size_empty; lia | intros; apply lookup_empty].
  now rewrite right_id_L by apply _.
Qed.

Definition tries_small (k : Maps) : Prop :=
  Z.of_nat (size (m_owned k)) <= PREFIX_CAP /\ Z.of_nat (size (m_allow k)) <= PREFIX_CAP /\ Z.of_nat (size (m_block k)) <= PREFIX_CAP.
Definition get_map (w : Which) (k : Maps) : gmap prefix_key Z :=
  match w with Owned => m_owned k | Allow => m_allow k | Block => m_block k end.

(** A prefix is no longer than its address. *)
Definition key_ok (k : prefix_key) : Prop :=
  (family k = 4 \/ family k = 6) /\ 32 <= prefixlen k <= 32 + (if family k =? 4 then 32 else 128).

(** The entries that were read are distinct, well formed, and fit. *)
Definition entries_ok (l : list (prefix_key * Z)) : Prop :=
  NoDup l.*1 /\ Z.of_nat (length l) <= PREFIX_CAP /\ Forall (fun e => key_ok (fst e) /\ 0 <= snd e < R_COUNT) l.
Definition port_ok (p f : Z) : Prop := 1 <= p <= 65535 /\ 1 <= f <= 7 /\ Z.land f 3 <> 3.
Definition installed_ok (st : Installed) : Prop :=
  (forall p f, i_ports st !! p = Some f -> port_ok p f) /\ forall w, entries_ok (get_trie w st).

(** Once everything has been read, the maps are written as a whole. *)
Lemma policy_writes (inet_pton : Z -> list Z -> option (list Z)) (document : list Z) (st : Installed) (k : Maps) :
  policy_lines inet_pton (length document) document 0 nothing_installed = Some st ->
  installed_ok st -> finds_keys -> tries_small k -> validate_generation (m_generation k) = true -> m_lease_ns k = 0 ->
  policy inet_pton first_key document k =
  Some (mk_maps 0 (write_ports (i_ports st) (m_ports k)) (list_to_map (i_owned st)) (list_to_map (i_allow st)) (list_to_map (i_block st))
    (m_generation k)).
Proof.
  intros R [_ E] F (SO & SA & SB) G L. unfold policy. rewrite R. cbn [mbind option_bind]. rewrite G, L. cbn [Z.eqb negb].
  destruct (E Owned) as (NO & LO & _), (E Allow) as (NA & LA & _), (E Block) as (NB & LB & _). cbn [get_trie] in *.
  rewrite !write_trie by done. reflexivity.
Qed.

(** ** What any text can install *)

Context (inet_pton : Z -> list Z -> option (list Z)).

Lemma decimal_value_nonneg (s : list Z) : forallb isdigit s = true -> 0 <= decimal_value s.
Proof.
  unfold decimal_value. assert (G : forall a, 0 <= a -> forallb isdigit s = true -> 0 <= fold_left (fun acc b => acc * 10 + (b - 48)) s a).
  { induction s as [| b s IH]; intros a A F; [done |]. cbn [forallb fold_left] in *. apply andb_true_iff in F as [D F].
    apply IH; [unfold isdigit in D; lia | done]. }
  now apply G.
Qed.

Lemma number_range (s : list Z) (max n : Z) : number s max = Some n -> 0 <= n <= max.
Proof.
  unfold number. destruct (_ && _) eqn:E; [| done]. intros [= <-]. rewrite !andb_true_iff in E. destruct E as [[[_ D] _] M].
  apply decimal_value_nonneg in D. lia.
Qed.

Lemma prefix_key_ok (s : list Z) (k : prefix_key) : prefix_key_of inet_pton s = Some k -> key_ok k.
Proof.
  unfold prefix_key_of. destruct (128 <=? _); [done |]. destruct (cut 47 s) as [h slash].
  set (f := match snd (cut 58 s) with Some _ => 6 | None => 4 end).
  assert (F : f = 4 \/ f = 6) by (subst f; destruct (snd _); auto).
  set (b := match slash with Some _ => _ | None => _ end). destruct b as [bits |] eqn:B; [| done]. cbn [mbind option_bind].
  destruct (inet_pton f h); [| done]. intros [= <-]. unfold key_ok. cbn [family prefixlen]. split; [done |].
  subst b. destruct slash as [t |]; [apply number_range in B | injection B as <-]; destruct F as [-> | ->]; cbn in *; lia.
Qed.

Lemma entry_ok (l l' : list (prefix_key * Z)) (key value : list Z) :
  entry inet_pton l key value = Some l' -> entries_ok l -> entries_ok l'.
Proof.
  unfold entry. destruct (Z.leb_spec PREFIX_CAP (Z.of_nat (length l))) as [| L]; [done |].
  destruct (prefix_key_of inet_pton key) as [k |] eqn:K; [| done]. destruct (number value _) as [r |] eqn:R; [| done].
  cbn [mbind option_bind]. destruct (existsb _ l) eqn:E; [done |]. intros [= <-] (N & C & F).
  apply prefix_key_ok in K. apply number_range in R. split_and!.
  - rewrite fmap_app. apply NoDup_app. split_and!; [done | | apply NoDup_singleton].
    intros x X ->%list_elem_of_singleton. apply list_elem_of_fmap in X as (e & Ek & X).
    enough (existsb (fun e => bool_decide (fst e = k)) l = true) by congruence.
    apply existsb_exists. exists e. split; [now apply list_elem_of_In | now apply bool_decide_eq_true_2].
  - rewrite length_app. cbn [length]. lia.
  - apply Forall_app_2; [done |]. apply Forall_singleton. cbn [fst snd]. split; [done | lia].
Qed.

Lemma words_keep_ok (st st' : Installed) (name key value : list Z) :
  policy_words inet_pton st name key value = Some st' -> installed_ok st -> installed_ok st'.
Proof.
  intros E [P T].
  assert (G : forall w, (l ← entry inet_pton (get_trie w st) key value; Some (set_trie w st l)) = Some st' -> installed_ok st').
  { intros w. destruct (entry inet_pton (get_trie w st) key value) as [l |] eqn:L; [| done]. intros [= <-].
    split; [now destruct w |]. intros w'. pose proof (entry_ok _ _ _ _ L (T w)). pose proof (T w'). now destruct w, w'. }
  unfold policy_words in E. destruct (bool_decide (name = text "port")).
  - destruct (number key 65535) as [p |] eqn:Np; [| done]. destruct (number value 7) as [f |] eqn:Nf; [| done].
    cbn [mbind option_bind] in E. destruct (_ && _) eqn:B; [| done]. injection E as <-. apply number_range in Np, Nf.
    split; [| intros w; exact (T w)]. cbn [i_ports]. intros q g Q.
    apply lookup_insert_Some in Q as [[<- <-] | [_ Q]]; [| now apply P]. unfold port_ok. lia.
  - destruct (bool_decide (name = text "owned")); [now apply (G Owned) |].
    destruct (bool_decide (name = text "allow")); [now apply (G Allow) |].
    destruct (bool_decide (name = text "block")); [now apply (G Block) | done].
Qed.

Lemma read_ok (fuel : nat) (s : list Z) (total : Z) (st st' : Installed) :
  policy_lines inet_pton fuel s total st = Some st' -> installed_ok st -> installed_ok st'.
Proof.
  revert s total st. induction fuel as [| fuel IH]; intros s total st E O; destruct s as [| b s]; cbn [policy_lines] in E;
    try (now injection E as <-); try done.
  destruct (fgets 159 (b :: s)) as [line rest]. destruct (negb _); [done |]. destruct (_ =? 1); [eapply IH; [exact E | done] |].
  destruct (sscanf _ _) as [| n [| k [| v [|]]]]; try done.
  destruct (policy_words inet_pton st n k v) as [st1 |] eqn:W; [| done]. eapply IH; [exact E |]. exact (words_keep_ok _ _ _ _ _ W O).
Qed.

Lemma nothing_ok : installed_ok nothing_installed.
Proof. split; [intros p f; cbn; now rewrite lookup_empty |]. intros []; (split_and!; [constructor | done | constructor]). Qed.

(** Whatever text the loader is given, it is refused before anything is written (a row that is not well
    formed, maps of a mixed generation, or a lease that still runs), or it is installed as a whole: then the filter's configuration was expired and stays so,
    no port is both protected and dropped, port 0 has no rule, and each trie has at most [PREFIX_CAP] entries, each with a key
    whose prefix fits its address and a reason that the filter can count. *)
Theorem policy_sound (document : list Z) (k : Maps) :
  finds_keys -> tries_small k ->
  match policy inet_pton first_key document k with
  | Some k' => m_lease_ns k = 0 /\ m_lease_ns k' = 0 /\ validate_generation (m_generation k) = true /\
      (forall p, 0 <= p < 65536 -> let f := default 0 (m_ports k' !! p) in f = 0 \/ port_ok p f) /\
      (forall w, Z.of_nat (size (get_map w k')) <= PREFIX_CAP /\
        forall key v, get_map w k' !! key = Some v -> key_ok key /\ 0 <= v < R_COUNT)
  | None => m_lease_ns k <> 0 \/ validate_generation (m_generation k) = false \/ policy_lines inet_pton (length document) document 0 nothing_installed = None
  end.
Proof.
  intros F S. destruct (policy_lines inet_pton (length document) document 0 nothing_installed) as [st |] eqn:R.
  2: { unfold policy. rewrite R. cbn [mbind option_bind]. auto. }
  destruct (validate_generation (m_generation k)) eqn:Gn.
  2: { unfold policy. rewrite R. cbn [mbind option_bind]. rewrite Gn. cbn [negb]. auto. }
  destruct (Z.eqb_spec (m_lease_ns k) 0) as [L | L].
  2: { unfold policy. rewrite R. cbn [mbind option_bind]. rewrite Gn, (proj2 (Z.eqb_neq _ _) L). cbn [negb]. auto. }
  pose proof (read_ok _ _ _ _ _ R nothing_ok) as O. rewrite (policy_writes inet_pton document st k R O F S Gn L).
  destruct O as [P T]. split_and!; [done | done | done | |].
  - intros p Rp f. subst f. cbn [m_ports]. rewrite write_ports_lookup by done.
    destruct (i_ports st !! p) as [f |] eqn:E; [right; now apply P | now left].
  - intros w. destruct (T w) as (N & C & G).
    assert (X : get_map w (mk_maps 0 (write_ports (i_ports st) (m_ports k)) (list_to_map (i_owned st)) (list_to_map (i_allow st))
      (list_to_map (i_block st)) (m_generation k)) = list_to_map (get_trie w st)) by (now destruct w).
    rewrite X. split.
    + rewrite <- (length_map_to_list (list_to_map _)), map_to_list_to_map by done. done.
    + intros key v E%elem_of_list_to_map_2. rewrite Forall_forall in G. exact (G _ E).
Qed.
End Tries.

(** ** The configuration is what the kernel has *)

Section Roundtrip.
Context (inet_pton : Z -> list Z -> option (list Z)) (host_of : Z -> list Z -> list Z) (net : string -> Network).
Context (first_key : gmap prefix_key Z -> option prefix_key).

(** The keys of canonical prefixes are distinct, so a trie holds exactly the networks of the prefixes. *)
Lemma keyed_lookup (m : gmap string Z) (key : prefix_key) (v : Z) :
  prefixes_ok inet_pton host_of net (prefix_items m) ->
  (list_to_map (keyed net (prefix_items m)) : gmap prefix_key Z) !! key = Some v <->
  exists n, m !! n = Some v /\ net_key (net n) = key.
Proof.
  intros O. rewrite <- elem_of_list_to_map by (now apply (keyed_nodup inet_pton host_of)). unfold keyed. rewrite list_elem_of_fmap. split.
  - intros ((n & x) & [= -> ->] & I). exists n. now rewrite in_prefix_items in I.
  - intros (n & E & <-). exists (n, v). now rewrite in_prefix_items.
Qed.

(** C38: The loader installs the controller's policy. For a configuration that passed validation, [loader_policy] prints a
    document (it is never too large), the loader accepts every row of it, and after [policy] has run on a complete generation under an expired lease
    the flags of every port are those of the three lists, and the tries hold the networks of the
    configured prefixes with their reasons (a manual block before a bogon) and nothing else, whatever the maps held before. *)
Theorem policy_installed (c : ControllerConfig) (k : Maps) :
  validate_policy c = true -> (forall n, n ∈ prefixes c -> canonical inet_pton host_of n (net n)) ->
  finds_keys first_key -> tries_small k -> validate_generation (m_generation k) = true -> m_lease_ns k = 0 ->
  exists document k', loader_policy c = Some document /\ policy inet_pton first_key document k = Some k' /\
    (forall p, 0 <= p < 65536 -> default 0 (m_ports k' !! p) = port_bits c p) /\
    (forall w key v, get_map w k' !! key = Some v <-> exists n, trie_map w c !! n = Some v /\ net_key (net n) = key).
Proof.
  intros V C F S G L.
  destruct (document_read inet_pton c (policy_rows_ok _ _ _ c V C) (policy_rows_size _ _ _ c V C)) as (document & D & R).
  rewrite (run_policy_rows inet_pton host_of net c V C) in R. pose proof (read_ok _ _ _ _ _ _ R nothing_ok) as O.
  eexists document, _. split; [done |]. split; [exact (policy_writes first_key inet_pton document _ k R O F S G L) |]. split.
  - intros p P. cbn [m_ports]. rewrite write_ports_lookup by done. exact (proj1 (port_map_bits c p)).
  - intros w key v. rewrite <- keyed_lookup by (now apply trie_prefixes_ok). now destruct w.
Qed.
End Roundtrip.
