(* ===== verification/LoaderWitness.v ===== *)
(** * Instances of the loader's theorems

    The sample controller's policy, with dotted addresses printed and read back. *)
From stdpp Require Import base option list gmap strings sorting.
From S2P Require Import Prelude Machine Cache Exposition XdpParse Adaptive Controller ControllerProps PerimeterWitness Loader LoaderProps LoaderInstall LoaderMaps.
From Stdlib Require Import ZArith Lia.
Local Open Scope Z_scope.

(** An address as dotted bytes, and how they are read. *)
Definition dotted (family : Z) (bytes : list Z) : list Z := join [46] (u64_to_string <$> bytes).
Fixpoint read_dotted (parts : nat) (s : list Z) : option (list Z) :=
  match parts with
  | O => None
  | S parts =>
    match cut 46 s with
    | (d, None) => b ← number d 255; if bool_decide (parts = O) then Some [b] else None
    | (d, Some s) => b ← number d 255; l ← read_dotted parts s; Some (b :: l)
    end
  end.
Definition sample_pton (family : Z) (s : list Z) : option (list Z) := if family =? 4 then read_dotted 4 s else None.

Definition sample_net (n : string) : Network :=
  if bool_decide (n = "192.0.2.0/24"%string) then mk_network 4 24 [192; 0; 2; 0]
  else if bool_decide (n = "198.51.100.0/24"%string) then mk_network 4 24 [198; 51; 100; 0]
  else mk_network 4 24 [203; 0; 113; 0].

Definition sample_first (m : gmap prefix_key Z) : option prefix_key := fst <$> head (map_to_list m).
Lemma sample_first_finds : finds_keys sample_first.
Proof.
  unfold finds_keys, sample_first. split; intros m.
  - intros k E. destruct (map_to_list m) as [| [x v] l] eqn:L; [done |]. injection E as <-. exists v.
    apply elem_of_map_to_list. rewrite L. constructor.
  - destruct (map_to_list m) as [| x l] eqn:L; [| done]. intros _. now apply map_to_list_empty_iff.
Qed.

(** A complete generation: seven maps, all of the program, and one more. *)
Definition sample_generation : Generation :=
  mk_generation true [11; 12; 13; 14; 15; 16; 17; 99]
    (list_to_map [("configuration", mk_map_info 11 2 4 40 1 0); ("counters", mk_map_info 12 6 4 176 1 0);
      ("syn_budget", mk_map_info 13 6 4 24 1 0); ("ports", mk_map_info 14 2 4 4 65536 0); ("owned", mk_map_info 15 11 24 4 4096 1);
      ("allow", mk_map_info 16 11 24 4 4096 1); ("block", mk_map_info 17 11 24 4 4096 1)]%string).

(** A kernel with an old rule and an old prefix under an expired lease. *)
Definition sample_key : prefix_key := mk_prefix_key 40 4 (10 :: replicate 15 0).
Definition sample_maps : Maps := mk_maps 0 {[ 80 := 2 ]} {[ sample_key := 1 ]} ∅ ∅ sample_generation.
Lemma sample_maps_small : tries_small sample_maps.
Proof. unfold tries_small. split_and!; vm_compute; discriminate. Qed.

Lemma sample_canonical (n : string) :
  n ∈ prefixes (sample_controller_config sample_blocks) -> canonical sample_pton dotted n (sample_net n).
Proof.
  unfold prefixes. cbn. rewrite !elem_of_cons, elem_of_nil.
  assert (V : forall l, forallb (fun b => (33 <=? b) && (b <=? 126)) l = true -> Forall visible l).
  { intros l F. apply Forall_forall. intros b B. rewrite forallb_forall in F. specialize (F b (proj1 (list_elem_of_In _ _) B)). unfold visible. lia. }
  assert (C : forall l c, existsb (Z.eqb c) l = false -> c ∉ l).
  { intros l c E I%list_elem_of_In. enough (existsb (Z.eqb c) l = true) by congruence. apply existsb_exists. exists c. now rewrite Z.eqb_refl. }
  intros [-> | [-> | [-> | [-> | []]]]];
    (split; [refine (conj (or_introl eq_refl) (conj eq_refl (conj (conj _ _) _))); [discriminate | discriminate | vm_compute; reflexivity] |];
     split; [| vm_compute; reflexivity];
     refine (conj _ (conj (V _ _) (conj _ (conj _ (conj (C _ _ _) (conj (fun B => False_ind _ (C _ _ _ B)) _))))));
     [vm_compute; reflexivity | vm_compute; reflexivity | discriminate | vm_compute; repeat constructor |
      vm_compute; reflexivity | vm_compute; reflexivity | discriminate]).
Qed.

Lemma policy_installed_witness :
  exists document k', loader_policy (sample_controller_config sample_blocks) = Some document /\
    policy sample_pton sample_first document sample_maps = Some k' /\
    default 0 (m_ports k' !! 25565) = PORT_PROTECT_TCP /\ default 0 (m_ports k' !! 80) = 0 /\
    m_block k' !! net_key (sample_net "198.51.100.0/24") = Some MANUAL_BLOCK_REASON /\ m_owned k' !! sample_key <> Some 1.
Proof.
  destruct (policy_installed sample_pton dotted sample_net sample_first (sample_controller_config sample_blocks) sample_maps
    sample_controller_valid sample_canonical sample_first_finds sample_maps_small ltac:(vm_compute; reflexivity) eq_refl) as (document & k' & D & P & Ports & Tries).
  exists document, k'. split; [exact D |]. split; [exact P |]. split; [exact (Ports 25565 ltac:(lia)) |].
  split; [exact (Ports 80 ltac:(lia)) |]. split.
  - apply (Tries Block). exists "198.51.100.0/24"%string. now split.
  - intros (n & E & K)%(Tries Owned). apply trie_map_lookup in E as [_ _]. revert K. unfold sample_net.
    repeat case_bool_decide; vm_compute; discriminate.
Defined.

(** Text with a rule for port 80, one owned network, and a blank line. *)
Definition sample_text : list Z := text "port 80 6" ++ [10; 10] ++ text "owned 10.1.2.3/8 1" ++ [10].

Lemma policy_sound_witness :
  match policy sample_pton sample_first sample_text sample_maps with
  | Some k' => m_lease_ns sample_maps = 0 /\ m_lease_ns k' = 0 /\ validate_generation (m_generation sample_maps) = true /\
      (forall p, 0 <= p < 65536 -> let f := default 0 (m_ports k' !! p) in f = 0 \/ port_ok p f) /\
      (forall w, Z.of_nat (size (get_map w k')) <= PREFIX_CAP /\
        forall key v, get_map w k' !! key = Some v -> key_ok key /\ 0 <= v < R_COUNT)
  | None => m_lease_ns sample_maps <> 0 \/ validate_generation (m_generation sample_maps) = false \/ policy_lines sample_pton (length sample_text) sample_text 0 nothing_installed = None
  end.
Proof. exact (policy_sound sample_first sample_pton sample_text sample_maps sample_first_finds sample_maps_small). Defined.

(** It is read with the host bits of the network cleared. *)
Example sample_text_read :
  policy_lines sample_pton (length sample_text) sample_text 0 nothing_installed =
  Some (mk_installed {[ 80 := 6 ]} [(sample_key, 1)] [] []).
Proof. vm_compute. reflexivity. Qed.
