(* ===== verification/Telemetry.v ===== *)
(** * Telemetry ([controller/core.py], [host_pressure], [host_network_counters], [rates]; sampling in [controller/ddosctl.py])

    What the controller reads once a second, from the loader, the gate's page and files under [/proc], and how it
    turns two samples into signals. Files and the page are lists of bytes, [None] when they could not be read; texts are parsed
    as Python's [str] and [bytes] do on ASCII. [float] of a text is a parameter. An exception is [None]. *)
From stdpp Require Import base option list gmap strings.
From S2P Require Import Prelude Machine Float64 Metrics Cache Exposition PyNum XdpFilter Loader Adaptive.
From Stdlib Require Import ZArith Lia.
Local Open Scope Z_scope.

Abbreviation Sample := (gmap string PyNum).

Definition MAX_PROC_BYTES : Z := 262144.
Definition MAX_GATE_BYTES : Z := 65536.

(** ** Texts *)

(** [str.decode("ascii")]. *)
Definition ascii_only (s : list Z) : bool := forallb (fun b => b <? 128) s.

(** [str.isspace] and the line boundaries of [str.splitlines], on ASCII. *)
Definition py_space (b : Z) : bool := (b =? 32) || ((9 <=? b) && (b <=? 13)) || ((28 <=? b) && (b <=? 31)).
Definition py_break (b : Z) : bool := ((10 <=? b) && (b <=? 13)) || ((28 <=? b) && (b <=? 30)).

(** [splitlines], with the characters of the line before in [acc], reversed. *)
Fixpoint splitlines (acc s : list Z) : list (list Z) :=
  match s with
  | [] => match acc with [] => [] | _ => [rev acc] end
  | b :: s =>
    if py_break b then
      rev acc :: match s with c :: s' => if (b =? 13) && (c =? 10) then splitlines [] s' else splitlines [] s | [] => [] end
    else splitlines (b :: acc) s
  end.

(** [split] at whitespace. *)
Fixpoint split_words (acc s : list Z) : list (list Z) :=
  match s with
  | [] => match acc with [] => [] | _ => [rev acc] end
  | b :: s =>
    if py_space b then match acc with [] => split_words [] s | _ => rev acc :: split_words [] s end
    else split_words (b :: acc) s
  end.

(** [bytes.strip]. *)
Definition strip (s : list Z) : list Z := rev (skip_space (rev (skip_space s))).

Definition all_digits (s : list Z) : bool := bool_decide (s <> []) && forallb isdigit s.

(** [int] of decimal digits: at most 4300 of them. *)
Definition py_int (s : list Z) : exec Z := if 4300 <? Z.of_nat (length s) then None else Some (decimal_value s).

Definition hex_digit (b : Z) : option Z :=
  if isdigit b then Some (b - 48) else if (65 <=? b) && (b <=? 70) then Some (b - 55)
  else if (97 <=? b) && (b <=? 102) then Some (b - 87) else None.
(** [int(value, 16)] of hexadecimal digits. *)
Definition hex_value (s : list Z) : Z := fold_left (fun acc b => acc * 16 + default 0 (hex_digit b)) s 0.

(** ** The kernel's files *)

(** [min(100.0, x)] and [max(0.0, x)]. *)
Definition f64_hundred : f64 := Eval vm_compute in f64_of_Z 100.
Definition at_most_hundred (x : f64) : f64 := if f64_ltb x f64_hundred then x else f64_hundred.
Definition at_least_zero (x : f64) : f64 := if f64_ltb f64_zero x then x else f64_zero.

(** A file of [host_pressure]. *)
Definition pressure_file (raw : option (list Z)) : option Z :=
  raw ← raw;
  let raw := take 65 raw in
  if (64 <? Z.of_nat (length raw)) || negb (all_digits (strip raw)) then None else Some (decimal_value (strip raw)).

Definition host_pressure (count maximum : option (list Z)) : Sample :=
  match pressure_file count, pressure_file maximum with
  | Some count, Some maximum =>
    if maximum <=? 0 then ∅ else
    match py_float (PyInt count), py_float (PyInt maximum) with
    | Some c, Some m =>
      {[ "conntrack_percent" := PyFloat (at_most_hundred (f64_div (f64_mul f64_hundred c) m));
         "conntrack_entries" := PyInt count; "conntrack_limit" := PyInt maximum ]}%string
    | _, _ => ∅
    end
  | _, _ => ∅
  end.

(** [_proc_lines]. *)
Definition proc_lines (raw : option (list Z)) : option (list (list Z)) :=
  raw ← raw;
  if (MAX_PROC_BYTES <? Z.of_nat (length raw)) || negb (ascii_only raw) then None else Some (splitlines [] raw).

Definition word_index (w : list Z) (l : list (list Z)) : option nat := fst <$> list_find (w =.) l.

(** The column [index] of the rows of [nf_conntrack], added up. *)
Fixpoint dropped (width index : nat) (rows : list (list Z)) : option Z :=
  match rows with
  | [] => Some 0
  | row :: rows =>
    let values := split_words [] row in
    if bool_decide (length values <> width) then None else
    value ← values !! index;
    if bool_decide (value = []) || negb (forallb (fun c => bool_decide (is_Some (hex_digit c))) value) then None else
    n ← dropped width index rows; Some (hex_value value + n)
  end.

Definition conntrack_dropped (raw : option (list Z)) : option Z :=
  lines ← proc_lines raw;
  match lines with
  | [] => None
  | first :: rows =>
    let header := split_words [] first in
    if bool_decide (NoDup header) then
      index ← word_index (text "drop") header;
      if bool_decide (rows = []) then None else dropped (length header) index rows
    else None
  end.

Definition netstat_names : list (string * string) :=
  [("ListenOverflows", "host_listen_overflow_total"); ("ListenDrops", "host_listen_drop_total");
   ("SyncookiesSent", "host_syncookies_sent_total")]%string.

Fixpoint netstat_counters (pairs : list (list Z * list Z)) (acc : Sample) : option Sample :=
  match pairs with
  | [] => Some acc
  | (name, value) :: pairs =>
    match list_find (fun nk => name = text (fst nk)) netstat_names with
    | Some (_, (_, key)) =>
      if all_digits value then n ← py_int value; netstat_counters pairs (<[key := PyInt n]> acc) else None
    | None => netstat_counters pairs acc
    end
  end.

(** The loop over the lines of [netstat]. *)
Fixpoint netstat (lines : list (list Z)) : option Sample :=
  match lines with
  | [] => Some ∅
  | line :: lines =>
    let header := split_words [] line in
    if bool_decide (head header = Some (text "TcpExt:")) then
      next ← head lines;
      let values := split_words [] next in
      if bool_decide (length header = length values) && bool_decide (head values = Some (text "TcpExt:")) && bool_decide (NoDup header)
      then netstat_counters (zip (tail header) (tail values)) ∅ else None
    else netstat lines
  end.

Definition host_network_counters (conntrack net : option (list Z)) : Sample :=
  let result := match conntrack_dropped conntrack with Some n => {[ "host_conntrack_drop_total"%string := PyInt n ]} | None => ∅ end in
  default ∅ (lines ← proc_lines net; netstat lines) ∪ result.

(** ** The gate's page *)

Section Gate.
(** [float] of a text. *)
Context (parse_float : list Z -> option f64).

Definition gate_value (value : list Z) : exec PyNum :=
  if all_digits value then n ← py_int value; Some (PyInt n) else x ← parse_float value; Some (PyFloat x).

(** A name after [xddp_gate_], as the key that it is. *)
Definition key_of_text (s : list Z) : string :=
  String.string_of_list_ascii (map (fun b => Ascii.ascii_of_N (Z.to_N b)) s).

Definition gate_prefix : list Z := text "xddp_gate_".

Fixpoint gate_lines (lines : list (list Z)) (counters : Sample) : exec Sample :=
  match lines with
  | [] => Some counters
  | line :: lines =>
    if starts_with gate_prefix line then
      match split_words [] line with
      | [name; value] => v ← gate_value value; gate_lines lines (<[key_of_text (drop (length gate_prefix) name) := v]> counters)
      | _ => None
      end
    else gate_lines lines counters
  end.

(** [gate_counters], on the body of the answer. *)
Definition gate_counters (data : list Z) : exec Sample :=
  if (MAX_GATE_BYTES <? Z.of_nat (length data)) || negb (ascii_only data) then None
  else gate_lines (splitlines [] data) ∅.

(** ** One sample *)

(** What the sources answer: the numbers of the loader's statistics, the page, the files. *)
Record Readings : Type := mk_readings {
  rd_stats : option Sample; rd_page : option (list Z); rd_count : option (list Z); rd_max : option (list Z);
  rd_conntrack : option (list Z); rd_netstat : option (list Z) }.

(** [_gate_sample]. *)
Definition gate_sample (r : Readings) : option Sample := data ← rd_page r; gate_counters data.

(** The counters of [_collect_sample]. *)
Definition collect_sample (r : Readings) : Sample :=
  default ∅ (gate_sample r) ∪ (host_network_counters (rd_conntrack r) (rd_netstat r) ∪
    (host_pressure (rd_count r) (rd_max r) ∪ default ∅ (rd_stats r))).

(** The sources that failed are counted. *)
Definition sample_errors (r : Readings) : Z :=
  (match rd_stats r with None => 1 | Some _ => 0 end) + (match gate_sample r with None => 1 | Some _ => 0 end).
End Gate.

(** ** [rates] *)

Definition counter_names : list (string * string) :=
  [("rx_packets", "pps"); ("rx_bytes", "bps"); ("syn_packets", "syn_per_second");
   ("tcp_accepts", "accepts_per_second"); ("handshake_ok", "handshakes_per_second");
   ("status_requests", "status_per_second"); ("login_starts", "logins_per_second");
   ("churn", "churn_per_second"); ("new_ip_entries", "new_ip_entries_per_second");
   ("new_prefix_entries", "new_prefix_entries_per_second");
   ("backend_connect_failures", "backend_failures_per_second");
   ("resource_limited", "resource_limited_per_second");
   ("host_conntrack_drop_total", "conntrack_drops_per_second");
   ("host_listen_overflow_total", "listen_overflows_per_second");
   ("host_listen_drop_total", "listen_drops_per_second");
   ("host_syncookies_sent_total", "syncookies_per_second")]%string.
Definition gauge_names : list string := ["active_prelogin"; "active_status"; "backend_connections"; "conntrack_percent"]%string.

(** [a - b]. *)
Definition py_sub (a b : PyNum) : exec PyNum :=
  match a, b with
  | PyInt m, PyInt n => Some (PyInt (m - n))
  | _, _ => x ← py_float a; y ← py_float b; Some (PyFloat (f64_sub x y))
  end.

(** [8] or [1], times a [float]. *)
Definition rate_scale (signal : string) : f64 := f64_of_Z (if bool_decide (signal = "bps"%string) then 8 else 1).

Definition counter_rate (previous current : Sample) (dt : f64) (counter signal : string) : exec (option PyNum) :=
  match current !! counter, previous !! counter with
  | Some c, Some p =>
    if py_ge c p then
      d ← py_sub c p; x ← py_float d;
      Some (Some (PyFloat (f64_mul (f64_div x dt) (rate_scale signal))))
    else Some None
  | _, _ => Some None
  end.

Fixpoint counter_rates (previous current : Sample) (dt : f64) (names : list (string * string)) (result : Signals) : exec Signals :=
  match names with
  | [] => Some result
  | (counter, signal) :: names =>
    r ← counter_rate previous current dt counter signal;
    counter_rates previous current dt names (match r with Some v => <[signal := v]> result | None => result end)
  end.

Definition copy_gauges (current : Sample) (result : Signals) : Signals :=
  foldl (fun result g => match current !! g with Some v => <[g := v]> result | None => result end) result gauge_names.

Definition f64_ten : f64 := Eval vm_compute in f64_of_Z 10.

(** The growth of the table of connections, and where it will be in ten seconds. *)
Definition growth_signals (count old maximum : Z) (dt : f64) (result : Signals) : exec Signals :=
  d ← py_float (PyInt (count - old));
  let growth := at_least_zero (f64_div d dt) in
  c ← py_float (PyInt count); m ← py_float (PyInt maximum);
  Some (<["conntrack_projected_percent"%string :=
           PyFloat (at_most_hundred (f64_div (f64_mul f64_hundred (f64_add c (f64_mul f64_ten growth))) m))]>
        (<["conntrack_growth_per_second"%string := PyFloat growth]> result)).

Definition conntrack_growth (previous current : Sample) (dt : f64) (result : Signals) : exec Signals :=
  match current !! "conntrack_entries"%string, previous !! "conntrack_entries"%string, current !! "conntrack_limit"%string,
        previous !! "conntrack_limit"%string with
  | Some (PyInt count), Some (PyInt old), Some (PyInt maximum), Some limit =>
    if (0 <? maximum) && (0 <=? Z.min count old) && bool_decide (py_compare limit (PyInt maximum) = Some Eq)
    then growth_signals count old maximum dt result else Some result
  | _, _, _, _ => Some result
  end.

Definition rates (previous current : Sample) (dt : f64) : exec Signals :=
  if bool_decide (previous = ∅) || negb (is_finite dt) || f64_leb dt f64_zero then Some ∅ else
  result ← counter_rates previous current dt counter_names ∅;
  conntrack_growth previous current dt (copy_gauges current result).

(** ** The loader's statistics *)

(** The sums over the CPUs, in 64 bits, of [stats] in the loader; reasons are printed under their names. *)
Definition add_stats (a b : XdpFilter.stats) : XdpFilter.stats :=
  XdpFilter.mk_stats (wrap 64 (rx_packets a + rx_packets b)) (wrap 64 (rx_bytes a + rx_bytes b))
    (wrap 64 (pass_packets a + pass_packets b)) (wrap 64 (drop_packets a + drop_packets b))
    (wrap 64 (syn_packets a + syn_packets b)) (wrap 64 (udp_packets a + udp_packets b))
    (wrap 64 (icmp_packets a + icmp_packets b)) (wrap 64 (ipv6_deferred a + ipv6_deferred b))
    (zip_with (fun x y => wrap 64 (x + y)) (XdpFilter.reasons a) (XdpFilter.reasons b)).
Definition sum_stats (all : list XdpFilter.stats) : XdpFilter.stats := foldl add_stats XdpFilter.stats0 all.

(** The numbers of the JSON object that it prints. *)
Definition stats_fields (all : list XdpFilter.stats) : Sample :=
  let sum := sum_stats all in
  {[ "rx_packets" := PyInt (rx_packets sum); "rx_bytes" := PyInt (rx_bytes sum);
     "pass_packets" := PyInt (pass_packets sum); "drop_packets" := PyInt (drop_packets sum);
     "syn_packets" := PyInt (syn_packets sum); "udp_packets" := PyInt (udp_packets sum);
     "icmp_packets" := PyInt (icmp_packets sum); "ipv6_deferred" := PyInt (ipv6_deferred sum);
     "possible_cpus" := PyInt (Z.of_nat (length all)) ]}%string.
