(* ===== verification/TelemetryProps.v ===== *)
(** * What the controller learns from its telemetry

    The gate's page is read back as the registry that it shows, and the signals of a tick are the
    differences of the gate's and the filter's counters over the time between two samples; a source that is
    missing from either sample, or that was restarted, has no rate. *)
From stdpp Require Import base option list gmap strings.
From S2P Require Import Prelude Machine Float64 Metrics Cache Exposition PyNum XdpFilter Loader LoaderProps LoaderInstall Adaptive AdaptiveProps Telemetry.
From Stdlib Require Import ZArith Lia.
Local Open Scope Z_scope.

(** ** Lines and words *)

Lemma splitlines_app (l rest acc : list Z) :
  Forall (fun b => py_break b = false) l -> splitlines acc (l ++ 10 :: rest) = (rev acc ++ l) :: splitlines [] rest.
Proof.
  revert acc. induction l as [| b l IH]; intros acc F; cbn [app splitlines].
  - rewrite app_nil_r. cbn. now destruct rest.
  - apply Forall_cons_1 in F as [-> F]. rewrite IH by done. cbn [rev]. now rewrite <- app_assoc.
Qed.

Lemma splitlines_write (ls : list (list Z)) (rest : list Z) :
  Forall (Forall (fun b => py_break b = false)) ls -> splitlines [] (write_lines ls ++ rest) = ls ++ splitlines [] rest.
Proof.
  induction ls as [| l ls IH]; intros F; [done |]. apply Forall_cons_1 in F as [Fl F].
  cbn [write_lines flat_map app]. rewrite <- !app_assoc. cbn [app]. rewrite splitlines_app by done. cbn [rev app].
  f_equal. now apply IH.
Qed.

Lemma visible_word (b : Z) : visible b -> py_space b = false /\ py_break b = false /\ (b <? 128) = true.
Proof. unfold visible, py_space, py_break. lia. Qed.

Lemma split_words_app (w rest acc : list Z) :
  Forall visible w -> split_words acc (w ++ rest) = split_words (rev w ++ acc) rest.
Proof.
  revert acc. induction w as [| b w IH]; intros acc F; [done |]. apply Forall_cons_1 in F as [B F].
  cbn [app split_words rev]. destruct (visible_word b B) as (-> & _ & _). rewrite IH by done. now rewrite <- app_assoc.
Qed.

Lemma split_two (a b : list Z) :
  Forall visible a -> Forall visible b -> a <> [] -> b <> [] -> split_words [] (a ++ 32 :: b) = [a; b].
Proof.
  intros A B Na Nb. rewrite split_words_app, app_nil_r by done. cbn [app split_words py_space]. unfold py_space. cbn [Z.eqb orb].
  destruct (rev a) eqn:E; [apply (f_equal (@rev Z)) in E; rewrite rev_involutive in E; done |]. rewrite <- E, rev_involutive.
  f_equal. rewrite <- (app_nil_r b) at 1. rewrite split_words_app, app_nil_r by done. cbn [split_words].
  destruct (rev b) eqn:Eb; [apply (f_equal (@rev Z)) in Eb; rewrite rev_involutive in Eb; done |]. now rewrite <- Eb, rev_involutive.
Qed.

(** ** The page *)

Lemma key_of_text_text (s : string) : key_of_text (text s) = s.
Proof.
  unfold key_of_text, text. rewrite map_map. rewrite <- (String.string_of_list_ascii_of_string s) at 2. f_equal.
  induction (String.list_ascii_of_string s) as [| c l IH]; [done |]. cbn [map]. rewrite IH. f_equal.
  rewrite N2Z.id. apply Ascii.ascii_N_embedding.
Qed.

Lemma starts_with_app (p l : list Z) : starts_with p (p ++ l) = true.
Proof. apply starts_with_spec. now exists l. Qed.

Lemma all_digits_print (n : Z) : 0 <= n -> all_digits (u64_to_string n) = true.
Proof.
  intros N. unfold all_digits. rewrite bool_decide_eq_true_2 by apply u64_nonempty. apply forallb_forall. intros b B.
  pose proof (u64_digits n N) as F. rewrite Forall_forall in F. specialize (F b (proj2 (list_elem_of_In _ _) B)). unfold isdigit. lia.
Qed.

Section Page.
Context (parse_float : list Z -> option f64).

Lemma gate_value_print (n : Z) : is_u64 n -> gate_value parse_float (u64_to_string n) = Some (PyInt n).
Proof.
  unfold is_u64. intros N. unfold gate_value. rewrite all_digits_print by lia. unfold py_int.
  pose proof (u64_short n 20 ltac:(lia) ltac:(lia)). replace (4300 <? Z.of_nat (length (u64_to_string n))) with false by lia.
  cbn [mbind option_bind]. do 2 f_equal. apply decimal_digits_value; [lia |]. change (10 ^ Z.of_nat 20) with 100000000000000000000. lia.
Qed.

Lemma names_visible (n : string) : n ∈ NAMES -> Forall visible (text n) /\ (length (text n) <= 40)%nat.
Proof.
  intros I. assert (C : forallb (fun n => forallb (fun b => (33 <=? b) && (b <=? 126)) (text n) && (length (text n) <=? 40)%nat) NAMES = true)
    by (vm_compute; reflexivity).
  rewrite forallb_forall in C. specialize (C n (proj1 (list_elem_of_In _ _) I)). apply andb_true_iff in C as [V L]. split.
  - apply Forall_forall. intros b B. rewrite forallb_forall in V. specialize (V b (proj1 (list_elem_of_In _ _) B)). unfold visible. lia.
  - now apply Nat.leb_le.
Qed.

Lemma prefix_visible : Forall visible gate_prefix.
Proof. repeat (constructor; [split; discriminate |]). constructor. Qed.

Lemma gate_line (name : list Z) (value : list Z) (v : PyNum) (rest : list (list Z)) (s : Sample) :
  Forall visible name -> Forall visible value -> value <> [] -> gate_value parse_float value = Some v ->
  gate_lines parse_float ((gate_prefix ++ name ++ 32 :: value) :: rest) s =
  gate_lines parse_float rest (<[key_of_text name := v]> s).
Proof.
  intros N V Ne G. cbn [gate_lines]. rewrite starts_with_app, app_assoc.
  rewrite split_two; [| apply Forall_app_2; [apply prefix_visible | done] | done | done | done].
  rewrite G. cbn [mbind option_bind]. now rewrite drop_app_length.
Qed.

Lemma gate_comment (l : list Z) (rest : list (list Z)) (s : Sample) :
  gate_lines parse_float ((text "# TYPE " ++ l) :: rest) s = gate_lines parse_float rest s.
Proof. reflexivity. Qed.

Lemma metric_lines_read (m : Metrics) (i : nat) (name : string) (rest : list (list Z)) (s : Sample) :
  name ∈ NAMES -> is_u64 (Metrics_get m i) ->
  gate_lines parse_float (metric_lines m i name ++ rest) s = gate_lines parse_float rest (<[name := PyInt (Metrics_get m i)]> s).
Proof.
  intros I U. destruct (names_visible name I) as [V _]. unfold metric_lines. cbn [app].
  rewrite gate_comment. change (metric_name name) with (gate_prefix ++ text name). rewrite <- app_assoc.
  rewrite (gate_line (text name) _ (PyInt (Metrics_get m i))); auto.
  - now rewrite key_of_text_text.
  - apply u64_visible. unfold is_u64 in U. lia.
  - apply u64_nonempty.
  - now apply gate_value_print.
Qed.

(** The metrics as the controller keeps them. *)
Fixpoint counters_of (names : list string) (value : nat -> Z) (s : Sample) : Sample :=
  match names with [] => s | n :: names => counters_of names (value ∘ S) (<[n := PyInt (value O)]> s) end.

Lemma pages_read (names : list string) :
  forall (F : nat -> string -> list (list Z)) (value : nat -> Z) (rest : list (list Z)) (s : Sample),
    (forall i n rest s, n ∈ names -> gate_lines parse_float (F i n ++ rest) s = gate_lines parse_float rest (<[n := PyInt (value i)]> s)) ->
    gate_lines parse_float (concat (imap F names) ++ rest) s = gate_lines parse_float rest (counters_of names value s).
Proof.
  induction names as [| n names IH]; intros F value rest s H; [done |]. rewrite imap_cons. cbn [concat counters_of].
  rewrite <- app_assoc, H by constructor. apply (IH (F ∘ S) (value ∘ S)). intros i k r t K. apply H. now constructor.
Qed.

Lemma counters_of_other (names : list string) (value : nat -> Z) (s : Sample) (k : string) :
  k ∉ names -> counters_of names value s !! k = s !! k.
Proof.
  revert value s. induction names as [| n names IH]; intros value s K; [done |]. apply not_elem_of_cons in K as [Ne K].
  cbn [counters_of]. rewrite IH by done. now rewrite lookup_insert_ne.
Qed.

Lemma counters_of_lookup (names : list string) (value : nat -> Z) (s : Sample) (i : nat) (k : string) :
  NoDup names -> names !! i = Some k -> counters_of names value s !! k = Some (PyInt (value i)).
Proof.
  revert value s i. induction names as [| n names IH]; intros value s i N E; [done |]. apply NoDup_cons in N as [N D].
  cbn [counters_of]. destruct i as [| i]; cbn in E.
  - injection E as ->. rewrite counters_of_other by done. now rewrite lookup_insert_eq.
  - now rewrite (IH (value ∘ S) _ i).
Qed.

Lemma names_nodup : NoDup NAMES.
Proof. apply (bool_decide_unpack _). vm_compute. exact I. Qed.

(** [Display] prints a number that fits a line and that [float] reads. *)
Definition displayed (s : list Z) : Prop :=
  Forall visible s /\ s <> [] /\ (length s <= 400)%nat /\ is_Some (parse_float s).

Lemma displayed_value (s : list Z) : displayed s -> is_Some (gate_value parse_float s).
Proof.
  intros (_ & _ & L & x & P). unfold gate_value. destruct (all_digits s).
  - unfold py_int. replace (4300 <? Z.of_nat (length s)) with false by lia. cbn. eauto.
  - rewrite P. cbn. eauto.
Qed.

Lemma metric_lines_plain (m : Metrics) (i : nat) (name : string) :
  name ∈ NAMES -> is_u64 (Metrics_get m i) ->
  Forall (fun l => Forall (fun b => b = 32 \/ visible b) l /\ (length l <= 80)%nat) (metric_lines m i name).
Proof.
  intros I U. destruct (names_visible name I) as [V L]. unfold is_u64 in U.
  pose proof (u64_short (Metrics_get m i) 20 ltac:(lia) ltac:(lia)).
  assert (W : forall l, Forall visible l -> Forall (fun b => b = 32 \/ visible b) l)
    by (intros l F; eapply Forall_impl; [exact F | auto]).
  assert (P : Forall (fun b => b = 32 \/ visible b) (metric_name name)).
  { apply Forall_app_2; apply W; [apply prefix_visible | done]. }
  assert (Ln : (length (metric_name name) <= 50)%nat) by (unfold metric_name; rewrite length_app; change (length (text "xddp_gate_")) with 10%nat; lia).
  assert (T : Forall (fun b => b = 32 \/ visible b) (text "# TYPE ")) by (repeat (constructor; [first [now left | right; split; discriminate] |]); constructor).
  assert (K : Forall (fun b => b = 32 \/ visible b) (metric_kind i) /\ (length (metric_kind i) <= 7)%nat).
  { unfold metric_kind. destruct (existsb _ _); (split; [| cbn; lia]); apply W; repeat (constructor; [split; discriminate |]); constructor. }
  assert (D : Forall (fun b => b = 32 \/ visible b) (u64_to_string (Metrics_get m i))) by (apply W, u64_visible; lia).
  assert (B : Forall (fun b => b = 32 \/ visible b) [32]) by (apply Forall_singleton; now left).
  unfold metric_lines. rewrite Forall_cons, Forall_singleton, !Forall_app, !length_app.
  change (length (text "# TYPE ")) with 7%nat. cbn [length]. destruct K. split_and!; try done; lia.
Qed.

Lemma write_lines_length (ls : list (list Z)) :
  Forall (fun l => (length l <= 80)%nat) ls -> (length (write_lines ls) <= 81 * length ls)%nat.
Proof. induction 1 as [| l ls L F IH]; [done |]. cbn [write_lines flat_map length]. fold (write_lines ls). rewrite !length_app. cbn [length]. lia. Qed.

Definition average_name : string := "average_prelogin_duration_seconds".

(** The counters of the whole page. *)
Definition page_counters (m : Metrics) (v : PyNum) : Sample := <[average_name := v]> (counters_of NAMES (Metrics_get m) ∅).

Lemma all_metric_lines (m : Metrics) :
  metrics_typed m ->
  let ls := concat (imap (metric_lines m) NAMES) in
  Forall (fun l => Forall (fun b => b = 32 \/ visible b) l /\ (length l <= 80)%nat) ls /\ length ls = 112%nat.
Proof.
  intros T ls. split.
  - apply Forall_concat, Forall_forall. intros l L. apply elem_of_lookup_imap in L as (i & n & -> & Hn).
    apply metric_lines_plain; [exact (list_elem_of_lookup_2 _ _ _ Hn) | now apply typed_get].
  - assert (G : forall (F : nat -> string -> list (list Z)) names, (forall i n, length (F i n) = 2%nat) ->
      length (concat (imap F names)) = (2 * length names)%nat).
    { intros F names. revert F. induction names as [| n names IH]; intros F HF; [done |]. rewrite imap_cons. cbn [concat].
      rewrite length_app, HF, IH by (intros; apply HF). cbn [length]. lia. }
    unfold ls. now rewrite G.
Qed.

Lemma page_shape (show : f64 -> list Z) (m : Metrics) :
  Metrics_render show m =
  write_lines (concat (imap (metric_lines m) NAMES) ++ [gate_prefix ++ text average_name ++ 32 :: show (average m)]).
Proof.
  unfold Metrics_render, write_lines. rewrite flat_map_app. f_equal. cbn [flat_map app]. rewrite app_nil_r, <- !app_assoc. reflexivity.
Qed.

Lemma page_ok (show : f64 -> list Z) (m : Metrics) :
  metrics_typed m -> displayed (show (average m)) ->
  ascii_only (Metrics_render show m) = true /\ Z.of_nat (length (Metrics_render show m)) <= MAX_GATE_BYTES /\
  splitlines [] (Metrics_render show m) =
    concat (imap (metric_lines m) NAMES) ++ [gate_prefix ++ text average_name ++ 32 :: show (average m)].
Proof.
  intros T (V & _ & L & _). destruct (all_metric_lines m T) as [F N]. rewrite page_shape.
  set (ls := concat _) in *. set (last := gate_prefix ++ _).
  assert (A : Forall (fun b => b = 32 \/ visible b) last /\ (length last <= 460)%nat).
  { unfold last. rewrite !length_app. cbn [length]. split; [| cbn; lia].
    repeat apply Forall_app_2; [| | constructor; [now left |]].
    - eapply Forall_impl; [exact prefix_visible | auto].
    - repeat (constructor; [right; split; discriminate |]). constructor.
    - eapply Forall_impl; [exact V | auto]. }
  assert (All : Forall (Forall (fun b => b = 32 \/ visible b)) (ls ++ [last])).
  { apply Forall_app_2; [eapply Forall_impl; [exact F | tauto] | apply Forall_singleton; tauto]. }
  split_and!.
  - apply forallb_forall. intros b B. unfold write_lines in B. apply in_flat_map in B as (l & Hl & B).
    rewrite Forall_forall in All. specialize (All l (proj2 (list_elem_of_In _ _) Hl)). rewrite Forall_forall in All.
    apply in_app_iff in B as [B | [<- | []]]; [| done]. apply list_elem_of_In, All in B as [-> | B]; [done |]. unfold visible in B. lia.
  - unfold write_lines. rewrite flat_map_app, length_app. fold (write_lines ls). cbn [flat_map]. rewrite !length_app. cbn [length].
    pose proof (write_lines_length ls) as W. rewrite N in W. specialize (W ltac:(eapply Forall_impl; [exact F | tauto])).
    unfold MAX_GATE_BYTES. destruct A. lia.
  - rewrite <- (app_nil_r (write_lines _)), splitlines_write; [cbn [splitlines]; now rewrite app_nil_r |].
    eapply Forall_impl; [exact All |]. intros l Fl. eapply Forall_impl; [exact Fl |]. intros b [-> | B]; [done |]. now apply visible_word.
Qed.

(** What the controller makes of the page of a registry. *)
Lemma gate_page_read (show : f64 -> list Z) (m : Metrics) :
  metrics_typed m -> displayed (show (average m)) ->
  exists v, gate_value parse_float (show (average m)) = Some v /\
    gate_counters parse_float (Metrics_render show m) = Some (page_counters m v).
Proof.
  intros T D. destruct (page_ok show m T D) as (A & L & S). destruct (displayed_value _ D) as [v G]. exists v. split; [done |].
  unfold gate_counters. rewrite A, S. replace (MAX_GATE_BYTES <? _) with false by lia. cbn [negb orb].
  rewrite (pages_read NAMES (metric_lines m) (Metrics_get m)).
  - destruct D as (V & Ne & _). rewrite (gate_line (text average_name) _ v); auto.
    repeat (constructor; [split; discriminate |]). constructor.
  - intros i n rest s I. apply metric_lines_read; [done | now apply typed_get].
Qed.

Lemma page_counters_lookup (m : Metrics) (v : PyNum) (i : nat) (n : string) :
  NAMES !! i = Some n -> page_counters m v !! n = Some (PyInt (Metrics_get m i)).
Proof.
  intros E. unfold page_counters. rewrite lookup_insert_ne; [now apply counters_of_lookup; [apply names_nodup |] |].
  intros <-. apply list_elem_of_lookup_2 in E. revert E. apply (bool_decide_unpack (average_name ∉ NAMES)). vm_compute. exact I.
Qed.

(** C17: The controller reads the gate's metrics exactly. Whatever the registry holds, the page that the gate serves is within
    the size that [gate_counters] reads, parses without an exception, and gives under the name of every metric its 64-bit value, as
    an integer, and beyond them only the average. *)
Theorem gate_telemetry_exact (show : f64 -> list Z) (m : Metrics) :
  metrics_typed m -> displayed (show (average m)) ->
  exists counters, gate_counters parse_float (Metrics_render show m) = Some counters /\
    (forall i n, NAMES !! i = Some n -> counters !! n = Some (PyInt (Metrics_get m i))) /\
    (forall n, is_Some (counters !! n) -> n ∈ NAMES \/ n = average_name).
Proof.
  intros T D. destruct (gate_page_read show m T D) as (v & _ & E). exists (page_counters m v).
  split; [done |]. split; [intros i n; apply page_counters_lookup |]. intros n [x X]. destruct (decide (n ∈ NAMES)); [now left |]. right.
  unfold page_counters in X. apply lookup_insert_Some in X as [[<- _] | [_ X]]; [done |]. now rewrite counters_of_other in X.
Qed.
End Page.
