(* ===== verification/TelemetryRates.v ===== *)
(** * The signals of two samples

    [rates] on samples that were collected while the sources worked, and across a gap. *)
From stdpp Require Import base option list gmap strings.
From S2P Require Import Prelude Machine Float64 Metrics Cache Exposition PyNum XdpFilter Loader LoaderProps Adaptive AdaptiveProps Telemetry TelemetryProps.
From Stdlib Require Import ZArith Lia SpecFloat.
Local Open Scope Z_scope.

(** Membership of a name in a list of names. *)
Ltac member := apply (bool_decide_unpack _); vm_compute; exact Logic.I.

(** ** Conversions *)

Lemma of_canonical_finite (s : bool) (m e : Z) : e <= 971 -> is_finite (of_canonical s m e) = true.
Proof. intros E. unfold of_canonical. destruct m; [done | | done]. now rewrite (proj2 (Z.leb_le _ _) E). Qed.

Lemma binary_round_finite (s : bool) (p : positive) : Zpos p < 2 ^ 1000 -> is_finite (binary_round prec emax s p 0) = true.
Proof.
  intros P. destruct (binary_round_spec s p 0) as (q & e0 & e1 & m2 & e2 & -> & C1 & C2 & L & E0 & E1 & _ & [_ B] & _).
  apply of_canonical_finite. assert (E : e1 <= 947).
  { assert (Z.log2 (Zpos p) < 1000) by (apply Z.log2_lt_pow2; lia). rewrite E1, fexp64. unfold emin64. lia. }
  destruct (Z.le_gt_cases e2 971) as [| G]; [done |]. exfalso.
  assert (M : 2 ^ 52 <= m2) by (unfold canonical, emin64 in C2; lia).
  assert (X : 2 ^ 2 <= 2 ^ (e2 - e1)) by (apply Z.pow_le_mono_r; lia).
  assert (Q : q < 2 ^ 53) by (unfold canonical in C1; lia).
  assert (Y : 2 ^ 52 * 2 ^ 2 <= m2 * 2 ^ (e2 - e1)) by (apply Z.mul_le_mono_nonneg; lia). lia.
Qed.

Lemma f64_of_Z_finite (n : Z) : Z.abs n < 2 ^ 1000 -> is_finite (f64_of_Z n) = true.
Proof.
  intros B. unfold f64_of_Z, binary_normalize. destruct n as [| p | p]; [done | apply binary_round_finite; lia |].
  apply binary_round_finite. lia.
Qed.

Lemma py_float_int (n : Z) : Z.abs n < 2 ^ 1000 -> py_float (PyInt n) = Some (f64_of_Z n).
Proof. intros B. unfold py_float. now rewrite f64_of_Z_finite. Qed.

(** ** The loop over the counters *)

Section Rates.
Context (previous current : Sample) (dt : f64).

Lemma counter_rates_some (names : list (string * string)) (acc : Signals) :
  (forall c s, (c, s) ∈ names -> is_Some (counter_rate previous current dt c s)) ->
  is_Some (counter_rates previous current dt names acc).
Proof using Type.
  revert acc. induction names as [| [c s] names IH]; intros acc H; [cbn; eauto |]. cbn [counter_rates].
  destruct (H c s ltac:(constructor)) as [r ->]. cbn [mbind option_bind]. apply IH. intros c' s' I. apply H. now constructor.
Qed.

Lemma counter_rates_lookup (names : list (string * string)) (acc r : Signals) :
  NoDup names.*2 -> counter_rates previous current dt names acc = Some r ->
  (forall s, s ∉ names.*2 -> r !! s = acc !! s) /\
  (forall c s, (c, s) ∈ names -> acc !! s = None -> counter_rate previous current dt c s = Some (r !! s)).
Proof using Type.
  revert acc. induction names as [| [c s] names IH]; intros acc N E; cbn [counter_rates] in E.
  { injection E as ->. split; [done |]. intros c s I. now apply not_elem_of_nil in I. }
  rewrite fmap_cons in *. apply NoDup_cons in N as [N D]. cbn [snd] in *.
  destruct (counter_rate previous current dt c s) as [o |] eqn:R; [| done]. cbn [mbind option_bind] in E.
  destruct (IH _ D E) as [Other In]. split.
  - intros t T. apply not_elem_of_cons in T as [Ne T]. rewrite Other by done. destruct o; [now rewrite lookup_insert_ne | done].
  - intros c' s' I A. apply elem_of_cons in I as [[= -> ->] | I].
    + rewrite R, Other by done. destruct o; [now rewrite lookup_insert_eq | now rewrite A].
    + apply In; [done |]. destruct o; [rewrite lookup_insert_ne; [done |] | done]. intros ->. apply N. now apply (list_elem_of_fmap_2 snd) in I.
Qed.

(** Integers that a double can hold. *)
Definition bounded_ints (s : Sample) : Prop := forall n k, s !! n = Some (PyInt k) -> 0 <= k < 2 ^ 1000.

Lemma py_float_bounded (s : Sample) (n : string) (v : PyNum) : bounded_ints s -> s !! n = Some v -> is_Some (py_float v).
Proof using Type. intros B E. destruct v as [k | x]; [| cbn; eauto]. apply B in E. rewrite py_float_int by lia. eauto. Qed.

Lemma counter_rate_some (c s : string) :
  bounded_ints previous -> bounded_ints current -> is_Some (counter_rate previous current dt c s).
Proof using Type.
  intros P C. unfold counter_rate. destruct (current !! c) as [v |] eqn:V; [| eauto].
  destruct (previous !! c) as [w |] eqn:W; [| eauto]. destruct (py_ge v w); [| eauto].
  pose proof (py_float_bounded _ _ _ C V) as [x X]. pose proof (py_float_bounded _ _ _ P W) as [y Y].
  destruct v as [k | v], w as [l | w]; cbn [py_sub]; try (rewrite X, Y; cbn; eauto).
  apply C in V. apply P in W. cbn [mbind option_bind]. rewrite py_float_int by lia. cbn. eauto.
Qed.

(** What a counter gives: nothing when it went back, and otherwise its difference over the time. *)
Definition measured (a b : Z) (signal : string) : option PyNum :=
  if a <=? b then Some (PyFloat (f64_mul (f64_div (f64_of_Z (b - a)) dt) (rate_scale signal))) else None.

Lemma counter_rate_ints (c s : string) (a b : Z) :
  previous !! c = Some (PyInt a) -> current !! c = Some (PyInt b) -> 0 <= a < 2 ^ 64 -> 0 <= b < 2 ^ 64 ->
  counter_rate previous current dt c s = Some (measured a b s).
Proof using Type.
  intros P C A B. unfold counter_rate, measured. rewrite P, C. unfold py_ge, py_le. cbn [py_compare]. unfold Z.leb.
  destruct (a ?= b); [| | done]; cbn [py_sub mbind option_bind]; rewrite py_float_int by lia; done.
Qed.

Lemma measured_nonneg (a b : Z) (s : string) (x : f64) :
  positive_finite dt -> measured a b s = Some (PyFloat x) -> nonneg x.
Proof using Type.
  intros D. unfold measured. destruct (Z.leb_spec a b); [| done]. intros [= <-]. apply f64_mul_nonneg.
  - apply f64_div_nonneg; [apply f64_of_Z_nonneg; lia | done].
  - unfold rate_scale. case_bool_decide; (split_and!; vm_compute; reflexivity).
Qed.

(** Gauges and the growth of the connection table have names of their own. *)
Lemma copy_gauges_lookup (r : Signals) (s : string) :
  copy_gauges current r !! s = if decide (s ∈ gauge_names) then match current !! s with Some v => Some v | None => r !! s end else r !! s.
Proof using Type.
  unfold copy_gauges. generalize gauge_names. intros l. revert r. induction l as [| g l IH]; intros r; [done |]. cbn [foldl]. rewrite IH.
  destruct (decide (s = g)) as [-> | Ne].
  - rewrite (decide_True (P := g ∈ g :: l)) by constructor. destruct (current !! g) eqn:G; destruct (decide (g ∈ l)); rewrite ?lookup_insert_eq; done.
  - rewrite (decide_ext (s ∈ g :: l) (s ∈ l)) by (rewrite elem_of_cons; naive_solver).
    destruct (current !! g); [now rewrite lookup_insert_ne | done].
Qed.

Lemma growth_other (r r' : Signals) (s : string) :
  conntrack_growth previous current dt r = Some r' -> s <> "conntrack_projected_percent"%string -> s <> "conntrack_growth_per_second"%string ->
  r' !! s = r !! s.
Proof using Type.
  intros E N1 N2. unfold conntrack_growth in E.
  destruct (current !! "conntrack_entries"%string) as [[count |] |]; try (now injection E as <-).
  destruct (previous !! "conntrack_entries"%string) as [[old |] |]; try (now injection E as <-).
  destruct (current !! "conntrack_limit"%string) as [[maximum |] |]; try (now injection E as <-).
  destruct (previous !! "conntrack_limit"%string) as [limit |]; try (now injection E as <-).
  destruct (_ && _); [| now injection E as <-]. unfold growth_signals in E.
  destruct (py_float (PyInt (count - old))); [| discriminate]. destruct (py_float (PyInt count)); [| discriminate].
  destruct (py_float (PyInt maximum)); [| discriminate]. injection E as <-. now rewrite !lookup_insert_ne.
Qed.

Lemma growth_some (r : Signals) :
  bounded_ints previous -> bounded_ints current ->
  exists r', conntrack_growth previous current dt r = Some r' /\
    (forall s v, r' !! s = Some v -> r !! s = Some v \/ exists x, v = PyFloat x).
Proof using Type.
  intros P C. unfold conntrack_growth. set (e := "conntrack_entries"%string). set (m := "conntrack_limit"%string).
  destruct (current !! e) as [[count | ] |] eqn:E1; [| eauto ..]. destruct (previous !! e) as [[old |] |] eqn:E2; [| eauto ..].
  destruct (current !! m) as [[maximum |] |] eqn:E3; [| eauto ..]. destruct (previous !! m) as [limit |] eqn:E4; [| eauto].
  destruct (_ && _); [| eauto]. apply C in E1, E3. apply P in E2. unfold growth_signals. rewrite !py_float_int by lia.
  cbn [mbind option_bind]. eexists. split; [reflexivity |].
  intros s v L. apply lookup_insert_Some in L as [[_ <-] | [_ L]]; [eauto |].
  apply lookup_insert_Some in L as [[_ <-] | [_ L]]; [eauto | now left].
Qed.

(** ** [rates] *)

Definition usable : Prop := previous <> ∅ /\ positive_finite dt.

Lemma usable_guard : usable -> bool_decide (previous = ∅) || negb (is_finite dt) || f64_leb dt f64_zero = false.
Proof using Type.
  intros [P (L & F & V)]. rewrite bool_decide_eq_false_2 by done. rewrite F. cbn [negb orb].
  destruct dt as [s | s | | [] m e]; try discriminate; reflexivity.
Qed.

Lemma signals_nodup : NoDup counter_names.*2.
Proof using Type. apply (bool_decide_unpack _). vm_compute. exact I. Qed.

Lemma rate_names_apart (n : string) :
  n ∈ counter_names.*2 -> (n ∉ gauge_names) /\ n <> "conntrack_projected_percent"%string /\ n <> "conntrack_growth_per_second"%string.
Proof using Type.
  revert n. apply Forall_forall. member.
Qed.

(** Whatever the samples are, a signal of a counter is what its counter gives. *)
Lemma rates_counter (s : Signals) (c n : string) :
  usable -> rates previous current dt = Some s -> (c, n) ∈ counter_names -> counter_rate previous current dt c n = Some (s !! n).
Proof using Type.
  intros U E I. unfold rates in E. rewrite usable_guard in E by done.
  destruct (counter_rates previous current dt counter_names ∅) as [r |] eqn:R; [| discriminate]. cbn [mbind option_bind] in E.
  destruct (counter_rates_lookup counter_names ∅ r signals_nodup R) as [_ In]. rewrite (In c n I) by apply lookup_empty. f_equal.
  apply (list_elem_of_fmap_2 snd), rate_names_apart in I as (G & N1 & N2). cbn [snd] in G, N1, N2.
  now rewrite (growth_other _ _ _ E), copy_gauges_lookup, decide_False.
Qed.

(** A gauge is copied. *)
Lemma rates_gauge (s : Signals) (n : string) (v : PyNum) :
  usable -> rates previous current dt = Some s -> n ∈ gauge_names -> current !! n = Some v -> s !! n = Some v.
Proof using Type.
  intros U E I V. unfold rates in E. rewrite usable_guard in E by done.
  destruct (counter_rates previous current dt counter_names ∅) as [r |] eqn:R; [| discriminate]. cbn [mbind option_bind] in E.
  assert (A : n <> "conntrack_projected_percent"%string /\ n <> "conntrack_growth_per_second"%string).
  { clear V. revert n I. apply Forall_forall. member. }
  destruct A. rewrite (growth_other _ _ _ E), copy_gauges_lookup, decide_True by done. now rewrite V.
Qed.

Lemma rates_returns : usable -> bounded_ints previous -> bounded_ints current ->
  exists s, rates previous current dt = Some s /\ readable s.
Proof using Type.
  intros U P C. unfold rates. rewrite usable_guard by done.
  destruct (counter_rates_some counter_names ∅ (fun c s _ => counter_rate_some c s P C)) as [r R]. rewrite R. cbn [mbind option_bind].
  destruct (counter_rates_lookup counter_names ∅ r signals_nodup R) as [Other In].
  destruct (growth_some (copy_gauges current r) P C) as (s & E & New). exists s. split; [exact E |].
  intros n v V. destruct (New n v V) as [Q | [x ->]]; [| done]. rewrite copy_gauges_lookup in Q.
  assert (Cr : r !! n = Some v -> exists x, v = PyFloat x).
  { intros W. destruct (decide (n ∈ counter_names.*2)) as [I | I]; [| now rewrite Other, lookup_empty in W].
    apply list_elem_of_fmap in I as ([c n'] & -> & I). cbn [snd] in W. specialize (In c n' I (lookup_empty _)). rewrite W in In.
    unfold counter_rate in In. destruct (current !! c) as [v1 |]; [| discriminate]. destruct (previous !! c) as [v2 |]; [| discriminate].
    destruct (py_ge v1 v2); [| discriminate]. destruct (py_sub v1 v2) as [d |]; [| discriminate]. cbn [mbind option_bind] in In.
    destruct (py_float d); [| discriminate]. injection In as <-. eauto. }
  destruct (decide (n ∈ gauge_names)); [destruct (current !! n) as [w |] eqn:W |].
  - injection Q as <-. destruct (py_float_bounded _ _ _ C W) as [x X]. unfold py_isfinite. rewrite X. discriminate.
  - destruct (Cr Q) as [x ->]. done.
  - destruct (Cr Q) as [x ->]. done.
Qed.
End Rates.

(** ** Collected samples *)

(** The part of a sample that the kernel's files give. *)
Definition host_sample (r : Readings) : Sample :=
  host_network_counters (rd_conntrack r) (rd_netstat r) ∪ host_pressure (rd_count r) (rd_max r).

Definition host_names : list string :=
  ["host_conntrack_drop_total"; "host_listen_overflow_total"; "host_listen_drop_total"; "host_syncookies_sent_total";
   "conntrack_percent"; "conntrack_entries"; "conntrack_limit"]%string.
Definition stats_names : list string :=
  ["rx_packets"; "rx_bytes"; "pass_packets"; "drop_packets"; "syn_packets"; "udp_packets"; "icmp_packets"; "ipv6_deferred";
   "possible_cpus"]%string.

Lemma netstat_counters_names (pairs : list (list Z * list Z)) (acc s : Sample) :
  netstat_counters pairs acc = Some s -> (forall n, is_Some (acc !! n) -> n ∈ host_names) -> forall n, is_Some (s !! n) -> n ∈ host_names.
Proof.
  revert acc. induction pairs as [| [name value] pairs IH]; intros acc E A; cbn [netstat_counters] in E; [now injection E as <- |].
  destruct (list_find _ netstat_names) as [[i [nm key]] |] eqn:F; [| now apply (IH acc)].
  destruct (all_digits value); [| done]. destruct (py_int value) as [k |]; [| done]. cbn [mbind option_bind] in E. apply (IH _ E).
  intros n [v V]. apply lookup_insert_Some in V as [[<- _] | [_ V]]; [| eauto]. apply list_find_Some in F as (F & _ & _).
  destruct i as [| [| [| i]]]; cbn in F; [injection F as _ <- .. | done]; member.
Qed.

Lemma netstat_names_only (lines : list (list Z)) (s : Sample) :
  netstat lines = Some s -> forall n, is_Some (s !! n) -> n ∈ host_names.
Proof.
  induction lines as [| line lines IH]; cbn [netstat].
  - intros [= <-] n [v V]. now rewrite lookup_empty in V.
  - case_bool_decide; [| exact IH]. destruct (head lines); [| done]. cbn [mbind option_bind]. destruct (_ && _); [| done].
    intros E. apply (netstat_counters_names _ _ _ E). intros n [v V]. now rewrite lookup_empty in V.
Qed.

Lemma host_names_only (r : Readings) (n : string) : is_Some (host_sample r !! n) -> n ∈ host_names.
Proof.
  unfold host_sample, host_network_counters, host_pressure. rewrite lookup_union_is_Some, lookup_union_is_Some. intros [[H | H] | H].
  - destruct (proc_lines (rd_netstat r)) as [ls |]; cbn in H; [| destruct H; now rewrite lookup_empty in *].
    destruct (netstat ls) as [s |] eqn:E; cbn in H; [eapply netstat_names_only; eauto | destruct H; now rewrite lookup_empty in *].
  - destruct (conntrack_dropped _); [| destruct H; now rewrite lookup_empty in *].
    destruct H as [v [<- _]%lookup_singleton_Some]. member.
  - assert (Em : is_Some ((∅ : Sample) !! n) -> n ∈ host_names) by (intros [v V]; now rewrite lookup_empty in V).
    destruct (pressure_file _); [| tauto]. destruct (pressure_file _); [| tauto]. destruct (_ <=? 0); [tauto |].
    destruct (py_float _); [| tauto]. destruct (py_float _); [| tauto]. destruct H as [v V].
    repeat (apply lookup_insert_Some in V as [[<- _] | [_ V]]; [member |]). apply lookup_singleton_Some in V as [<- _]. member.
Qed.

Lemma stats_names_only (cpus : list stats) (n : string) : is_Some (stats_fields cpus !! n) -> n ∈ stats_names.
Proof.
  intros [v V]. unfold stats_fields in V. repeat (apply lookup_insert_Some in V as [[<- _] | [_ V]]; [member |]).
  apply lookup_singleton_Some in V as [<- _]. member.
Qed.

Section Collected.
Context (parse_float : list Z -> option f64) (show : f64 -> list Z).

(** A sample for which the gate answered with the page of [m] and the loader with the counters of [cpus]. *)
Record working (r : Readings) (m : Metrics) (cpus : list stats) : Prop := {
  wk_typed : metrics_typed m;
  wk_page : rd_page r = Some (Metrics_render show m);
  wk_shown : displayed parse_float (show (average m));
  wk_average : forall k, gate_value parse_float (show (average m)) = Some (PyInt k) -> 0 <= k < 2 ^ 1000;
  wk_stats : rd_stats r = Some (stats_fields cpus);
  wk_cpus : Z.of_nat (length cpus) < 2 ^ 64;
  wk_host : bounded_ints (host_sample r) }.

Lemma collect_parts (r : Readings) (m : Metrics) (cpus : list stats) :
  working r m cpus -> exists v, gate_value parse_float (show (average m)) = Some v /\
    collect_sample parse_float r = page_counters m v ∪ (host_sample r ∪ stats_fields cpus).
Proof.
  intros [T P D _ S _ _]. destruct (gate_page_read parse_float show m T D) as (v & G & R). exists v. split; [exact G |].
  unfold collect_sample, gate_sample, host_sample. rewrite P, S. cbn [mbind option_bind]. rewrite R. cbn [default from_option].
  unfold id. now rewrite (map_union_assoc (host_network_counters _ _)).
Qed.

Lemma collect_gate (r : Readings) (m : Metrics) (cpus : list stats) (i : nat) (n : string) :
  working r m cpus -> NAMES !! i = Some n -> collect_sample parse_float r !! n = Some (PyInt (Metrics_get m i)).
Proof.
  intros W E. destruct (collect_parts r m cpus W) as (v & _ & ->). apply lookup_union_Some_l. now apply page_counters_lookup.
Qed.

Lemma other_names : Forall (fun n => (n ∉ NAMES) /\ n <> average_name) (host_names ++ stats_names) /\ Forall (fun n => n ∉ host_names) stats_names.
Proof. split; apply (bool_decide_unpack _); vm_compute; exact I. Qed.

Lemma page_other (m : Metrics) (v : PyNum) (n : string) : (n ∉ NAMES) -> n <> average_name -> page_counters m v !! n = None.
Proof. intros N A. unfold page_counters. rewrite lookup_insert_ne by done. rewrite counters_of_other by done. apply lookup_empty. Qed.

Lemma collect_stats (r : Readings) (m : Metrics) (cpus : list stats) (n : string) (v : PyNum) :
  working r m cpus -> stats_fields cpus !! n = Some v -> collect_sample parse_float r !! n = Some v.
Proof.
  intros W E. destruct (collect_parts r m cpus W) as (w & _ & ->).
  assert (I : n ∈ stats_names) by (apply (stats_names_only cpus); eauto). destruct other_names as [O H].
  rewrite Forall_forall in O, H. destruct (O n) as [N A]; [apply elem_of_app; now right |].
  rewrite lookup_union_r by exact (page_other m w n N A). rewrite lookup_union_r; [exact E |].
  destruct (host_sample r !! n) eqn:Hs; [| reflexivity]. exfalso. apply (H n I). apply (host_names_only r). eauto.
Qed.

Lemma sum_wrapped (cpus : list stats) (f : stats -> Z) :
  (f stats0 = 0 /\ forall a b, f (add_stats a b) = wrap 64 (f a + f b)) -> 0 <= f (sum_stats cpus) < 2 ^ 64.
Proof.
  intros [Z0 S]. unfold sum_stats. assert (G : forall l a, 0 <= f a < 2 ^ 64 -> 0 <= f (foldl add_stats a l) < 2 ^ 64).
  { induction l as [| b l IH]; intros a A; [done |]. cbn [foldl]. apply IH. rewrite S. unfold wrap. apply Z.mod_pos_bound. lia. }
  apply G. rewrite Z0. lia.
Qed.

Lemma stats_range (cpus : list stats) (n : string) (k : Z) :
  Z.of_nat (length cpus) < 2 ^ 64 -> stats_fields cpus !! n = Some (PyInt k) -> 0 <= k < 2 ^ 64.
Proof.
  intros L E. unfold stats_fields in E.
  repeat (apply lookup_insert_Some in E as [[_ [= <-]] | [_ E]]; [now apply (sum_wrapped cpus) |]).
  apply lookup_singleton_Some in E as [_ [= <-]]. lia.
Qed.

Lemma stats_bounded (cpus : list stats) : Z.of_nat (length cpus) < 2 ^ 64 -> bounded_ints (stats_fields cpus).
Proof.
  intros L n k E. pose proof (stats_range cpus n k L E). lia.
Qed.

(** Every integer of a sample of working sources converts. *)
Lemma collect_bounded (r : Readings) (m : Metrics) (cpus : list stats) :
  working r m cpus -> bounded_ints (collect_sample parse_float r).
Proof.
  intros W n k E. destruct (collect_parts r m cpus W) as (w & G & C). rewrite C in E. destruct W as [T _ _ A _ L H].
  apply lookup_union_Some_raw in E as [E | [_ E]]; [| apply lookup_union_Some_raw in E as [E | [_ E]]; [exact (H n k E) | exact (stats_bounded cpus L n k E)]].
  unfold page_counters in E. apply lookup_insert_Some in E as [[_ ->] | [_ E]]; [now apply A |].
  destruct (decide (n ∈ NAMES)) as [I | I]; [| now rewrite counters_of_other, lookup_empty in E].
  apply list_elem_of_lookup in I as [i I]. rewrite (counters_of_lookup NAMES _ _ i n names_nodup I) in E. injection E as <-.
  pose proof (typed_get m i T) as U. unfold is_u64 in U. lia.
Qed.

(** ** What is measured of what *)

(** The slots of the gate's registry whose growth is measured, and the signals. *)
Definition gate_rows : list (nat * string) :=
  [(0, "accepts_per_second"); (4, "handshakes_per_second"); (6, "status_per_second"); (7, "logins_per_second");
   (22, "churn_per_second"); (28, "new_ip_entries_per_second"); (29, "new_prefix_entries_per_second");
   (17, "backend_failures_per_second"); (20, "resource_limited_per_second")]%nat%string.
(** The slots that are signals themselves. *)
Definition gauge_rows : list (nat * string) := [(2, "active_prelogin"); (36, "active_status"); (3, "backend_connections")]%nat%string.
(** The counters of the filter, with the factor of the unit. *)
Definition filter_rows : list ((stats -> Z) * string * Z) :=
  [(rx_packets, "pps", 1); (rx_bytes, "bps", 8); (syn_packets, "syn_per_second", 1)]%string.

(** A counter of the filter over all CPUs, in 64 bits. *)
Definition total (field : stats -> Z) (cpus : list stats) : Z := foldr (fun c n => field c + n) 0 cpus mod 2 ^ 64.

(** The growth from [a] to [b] over the time, in units of [1 / scale]; nothing when the counter went back. *)
Definition per_second (dt : f64) (a b scale : Z) : option PyNum :=
  if a <=? b then Some (PyFloat (f64_mul (f64_div (f64_of_Z (b - a)) dt) (f64_of_Z scale))) else None.

Lemma sum_stats_total (cpus : list stats) (f : stats -> Z) :
  f stats0 = 0 -> (forall a b, f (add_stats a b) = wrap 64 (f a + f b)) -> f (sum_stats cpus) = total f cpus.
Proof.
  intros Z0 S. unfold sum_stats, total.
  assert (G : forall l a, 0 <= f a < 2 ^ 64 -> f (foldl add_stats a l) = (f a + foldr (fun c n => f c + n) 0 l) mod 2 ^ 64).
  { induction l as [| b l IH]; intros a A; cbn [foldl foldr]; [rewrite Z.add_0_r; symmetry; now apply Z.mod_small |].
    rewrite IH, S by (rewrite S; unfold wrap; apply Z.mod_pos_bound; lia). unfold wrap. rewrite Zplus_mod_idemp_l. f_equal. lia. }
  rewrite G, Z0 by (rewrite Z0; lia). reflexivity.
Qed.

(** The rows of the filter against what the loader prints. *)
Lemma filter_row (f : stats -> Z) (n : string) (scale : Z) (cpus : list stats) : (f, n, scale) ∈ filter_rows ->
  exists c, stats_fields cpus !! c = Some (PyInt (total f cpus)) /\ (c, n) ∈ counter_names /\ rate_scale n = f64_of_Z scale.
Proof.
  unfold filter_rows. rewrite !elem_of_cons, elem_of_nil.
  intros [[= -> -> ->] | [[= -> -> ->] | [[= -> -> ->] | []]]];
    [exists "rx_packets"%string | exists "rx_bytes"%string | exists "syn_packets"%string]; (split; [| split; [member | reflexivity]]);
    rewrite <- (sum_stats_total cpus) by reflexivity; reflexivity.
Qed.

Lemma gate_row (i : nat) (n : string) : (i, n) ∈ gate_rows ->
  exists c, NAMES !! i = Some c /\ (c, n) ∈ counter_names /\ rate_scale n = f64_of_Z 1.
Proof.
  enough (F : Forall (fun r => exists c, NAMES !! (fst r) = Some c /\ (c, snd r) ∈ counter_names /\ rate_scale (snd r) = f64_of_Z 1) gate_rows).
  { rewrite Forall_forall in F. exact (F (i, n)). }
  unfold gate_rows. repeat (apply Forall_cons; split; [eexists; split; [reflexivity | split; [member | reflexivity]] |]). constructor.
Qed.

Lemma gauge_row (i : nat) (n : string) : (i, n) ∈ gauge_rows -> NAMES !! i = Some n /\ n ∈ gauge_names.
Proof.
  unfold gauge_rows. rewrite !elem_of_cons, elem_of_nil. intros [[= -> ->] | [[= -> ->] | [[= -> ->] | []]]]; (split; [reflexivity | member]).
Qed.

(** A signal has one counter. *)
Lemma signal_counter (c c' n : string) : (c, n) ∈ counter_names -> (c', n) ∈ counter_names -> c' = c.
Proof.
  intros I J. apply list_elem_of_lookup in I as [i I]. apply list_elem_of_lookup in J as [j J].
  assert (Ij : i = j) by (apply (NoDup_lookup counter_names.*2 i j n signals_nodup); now rewrite list_lookup_fmap, ?I, ?J).
  subst j. congruence.
Qed.

Lemma measured_per_second (dt : f64) (a b scale : Z) (n : string) : rate_scale n = f64_of_Z scale -> measured dt a b n = per_second dt a b scale.
Proof. unfold measured, per_second. now intros ->. Qed.

(** C16: The controller measures what the gate and the filter count. When both answered for two samples, whatever they had counted,
    [rates] raises nothing; the signal of each slot of the gate's registry and of each counter of the filter that this file's rows name is
    the growth of that slot, or of the sum of that counter over all CPUs, divided by the time between the samples, in bits for the
    bytes and in units for the others; a counter that went back, because its program was restarted, has no signal; a gauge of the gate is a signal as it
    is. Every signal converts to a [float], as the mode machine needs, and no rate is negative or a NaN. *)
Theorem telemetry_measures (r1 r2 : Readings) (m1 m2 : Metrics) (cpus1 cpus2 : list stats) (dt : f64) :
  working r1 m1 cpus1 -> working r2 m2 cpus2 -> positive_finite dt ->
  exists s, rates (collect_sample parse_float r1) (collect_sample parse_float r2) dt = Some s /\ readable s /\
    (forall i n, (i, n) ∈ gate_rows -> s !! n = per_second dt (Metrics_get m1 i) (Metrics_get m2 i) 1) /\
    (forall f n scale, (f, n, scale) ∈ filter_rows -> s !! n = per_second dt (total f cpus1) (total f cpus2) scale) /\
    (forall i n, (i, n) ∈ gauge_rows -> s !! n = Some (PyInt (Metrics_get m2 i))) /\
    (forall n x, n ∈ (snd <$> gate_rows) ++ (snd ∘ fst <$> filter_rows) -> s !! n = Some (PyFloat x) -> nonneg x).
Proof.
  intros W1 W2 D. pose proof (collect_bounded r1 m1 cpus1 W1) as B1. pose proof (collect_bounded r2 m2 cpus2 W2) as B2.
  assert (U : usable (collect_sample parse_float r1) dt).
  { split; [| done]. intros Em. pose proof (collect_gate r1 m1 cpus1 0 "tcp_accepts" W1 eq_refl) as C. rewrite Em in C. now rewrite lookup_empty in C. }
  destruct (rates_returns _ _ dt U B1 B2) as (s & E & Rd). exists s. split; [exact E |]. split; [exact Rd |].
  assert (X : forall c n a b, (c, n) ∈ counter_names -> collect_sample parse_float r1 !! c = Some (PyInt a) -> collect_sample parse_float r2 !! c = Some (PyInt b) ->
    0 <= a < 2 ^ 64 -> 0 <= b < 2 ^ 64 -> s !! n = measured dt a b n).
  { intros c n a b I P C Ra Rb. pose proof (rates_counter _ _ dt s c n U E I) as R.
    rewrite (counter_rate_ints _ _ dt c n a b P C Ra Rb) in R. now injection R as <-. }
  assert (G : forall i n, (i, n) ∈ gate_rows -> s !! n = measured dt (Metrics_get m1 i) (Metrics_get m2 i) n).
  { intros i n I. destruct (gate_row i n I) as (c & N & Cn & _). apply (X c n); [done | now apply (collect_gate r1 m1 cpus1) |
      now apply (collect_gate r2 m2 cpus2) | apply typed_get, (wk_typed _ _ _ W1) | apply typed_get, (wk_typed _ _ _ W2)]. }
  assert (L : forall f n scale, (f, n, scale) ∈ filter_rows -> s !! n = measured dt (total f cpus1) (total f cpus2) n).
  { intros f n scale I. destruct (filter_row f n scale cpus1 I) as (c & C1 & Cn & _). destruct (filter_row f n scale cpus2 I) as (c' & C2 & Cn' & _).
    assert (c' = c) as -> by (eapply signal_counter; eauto).
    apply (X c n); [done | exact (collect_stats r1 m1 cpus1 c _ W1 C1) | exact (collect_stats r2 m2 cpus2 c _ W2 C2) | |]; apply Z.mod_pos_bound; lia. }
  split_and!.
  - intros i n I. rewrite (G i n I). apply measured_per_second. destruct (gate_row i n I) as (_ & _ & _ & Sc). exact Sc.
  - intros f n scale I. rewrite (L f n scale I). apply measured_per_second. destruct (filter_row f n scale cpus1 I) as (_ & _ & _ & Sc). exact Sc.
  - intros i n I. destruct (gauge_row i n I) as [N Gn]. apply (rates_gauge _ _ dt s n _ U E Gn). now apply (collect_gate r2 m2 cpus2).
  - intros n x I V. apply elem_of_app in I as [I | I]; apply list_elem_of_fmap in I as (row & -> & I).
    + destruct row as [i n]. cbn [snd] in V. rewrite (G i n I) in V. exact (measured_nonneg dt _ _ n x D V).
    + destruct row as [[f n] scale]. cbn in V. rewrite (L f n scale I) in V. exact (measured_nonneg dt _ _ n x D V).
Qed.

(** What a source that failed leaves out of a sample. *)
Lemma host_apart (r : Readings) (c : string) : c ∈ NAMES \/ c ∈ stats_names -> host_sample r !! c = None.
Proof.
  intros I. destruct (host_sample r !! c) eqn:Q; [| reflexivity]. exfalso. assert (Hn : c ∈ host_names) by (apply (host_names_only r); eauto).
  destruct other_names as [On Of]. rewrite Forall_forall in On, Of. destruct I as [I | I]; [| exact (Of c I Hn)].
  apply (proj1 (On c (proj2 (elem_of_app _ _ _) (or_introl Hn))) I).
Qed.

(** The loader's numbers are its counters, and the gate's are those of a page. *)
Definition from_loader (r : Readings) : Prop := forall s, rd_stats r = Some s -> exists cpus, s = stats_fields cpus.
Definition from_gate (r : Readings) : Prop := forall s, gate_sample parse_float r = Some s -> exists m v, s = page_counters m v.

Lemma gate_silent (r : Readings) (c : string) :
  from_loader r -> gate_sample parse_float r = None -> c ∈ NAMES -> collect_sample parse_float r !! c = None.
Proof.
  intros Ls N I. unfold collect_sample. rewrite (map_union_assoc (host_network_counters _ _)). fold (host_sample r). rewrite N.
  cbn [default from_option]. rewrite map_empty_union. apply lookup_union_None. split; [apply host_apart; now left |].
  destruct (rd_stats r) as [st |] eqn:Q; [| apply lookup_empty]. destruct (Ls st Q) as [cpus ->]. cbn [default from_option]. unfold id.
  destruct (stats_fields cpus !! c) eqn:Sc; [| reflexivity]. exfalso. destruct other_names as [On _]. rewrite Forall_forall in On.
  assert (J : c ∈ stats_names) by (apply (stats_names_only cpus); eauto).
  apply (proj1 (On c (proj2 (elem_of_app _ _ _) (or_intror J))) I).
Qed.

Lemma loader_silent (r : Readings) (c : string) :
  from_gate r -> rd_stats r = None -> c ∈ stats_names -> collect_sample parse_float r !! c = None.
Proof.
  intros Gs N I. unfold collect_sample. rewrite (map_union_assoc (host_network_counters _ _)). fold (host_sample r). rewrite N.
  apply lookup_union_None. split; [| apply lookup_union_None; split; [apply host_apart; now right | apply lookup_empty]].
  destruct (gate_sample parse_float r) as [page |] eqn:Q; [| apply lookup_empty]. destruct (Gs page Q) as (m & v & ->).
  cbn [default from_option]. destruct other_names as [On _]. rewrite Forall_forall in On.
  destruct (On c (proj2 (elem_of_app _ _ _) (or_intror I))) as [A B]. exact (page_other m v c A B).
Qed.

Lemma missing_counter (p q : Sample) (dt : f64) (s : Signals) (c n : string) :
  positive_finite dt -> rates p q dt = Some s -> (c, n) ∈ counter_names -> p !! c = None \/ q !! c = None -> s !! n = None.
Proof.
  intros D E I M. destruct (decide (p = ∅)) as [Em | Ne].
  - unfold rates in E. rewrite bool_decide_eq_true_2 in E by exact Em. cbn [orb] in E. injection E as <-. apply lookup_empty.
  - pose proof (rates_counter _ _ dt s c n (conj Ne D) E I) as R. unfold counter_rate in R.
    destruct M as [M | M]; rewrite M in R; [destruct (q !! c) |]; now injection R as <-.
Qed.

(** Silence is not calm, and its end is not a spike: when the gate, or the loader, could not be read for one of two samples, for
    whatever reason, none of its counters has a signal, so that the mode machine treats them as unknown. *)
Theorem telemetry_gap (r1 r2 : Readings) (dt : f64) (s : Signals) :
  from_loader r1 -> from_loader r2 -> from_gate r1 -> from_gate r2 -> positive_finite dt ->
  rates (collect_sample parse_float r1) (collect_sample parse_float r2) dt = Some s ->
  (gate_sample parse_float r1 = None \/ gate_sample parse_float r2 = None ->
    forall c n, (c, n) ∈ counter_names -> c ∈ NAMES -> s !! n = None) /\
  (rd_stats r1 = None \/ rd_stats r2 = None -> forall c n, (c, n) ∈ counter_names -> c ∈ stats_names -> s !! n = None).
Proof.
  intros L1 L2 G1 G2 D E. split; intros M c n I N; eapply missing_counter; eauto.
  - destruct M as [M | M]; [left | right]; now apply gate_silent.
  - destruct M as [M | M]; [left | right]; now apply loader_silent.
Qed.
End Collected.
