(* ===== verification/LoaderMain.v ===== *)
(** * The loader's commands ([xdp/loader.c])

    Every command that writes to the kernel: [config], [port], [prefix], [clear], [policy], [attach] and [detach], dispatched by
    [main] from its arguments, which are texts. One generation of pinned maps, in one directory, and one interface; the kernel's
    attachment calls are parameters. [None] is an exit with an error. *)
From stdpp Require Import base option list gmap strings.
From S2P Require Import Prelude Machine Cache Exposition XdpParse XdpFilter Controller Loader LoaderProps LoaderInstall LoaderMaps.
From Stdlib Require Import ZArith Lia.
Local Open Scope Z_scope.

(** A pinned generation: the configuration, the array of ports, the three tries, and what the kernel reports of them. *)
Record Pinned : Type := mk_pinned {
  p_config : config; p_ports : gmap Z Z; p_owned : gmap prefix_key Z; p_allow : gmap prefix_key Z; p_block : gmap prefix_key Z;
  p_generation : Generation }.

Definition maps_of (p : Pinned) : Maps := mk_maps (lease_ns (p_config p)) (p_ports p) (p_owned p) (p_allow p) (p_block p) (p_generation p).
Definition with_maps (p : Pinned) (m : Maps) : Pinned := mk_pinned (p_config p) (m_ports m) (m_owned m) (m_allow m) (m_block m) (m_generation m).

Definition get_pinned (w : Which) (p : Pinned) : gmap prefix_key Z :=
  match w with Owned => p_owned p | Allow => p_allow p | Block => p_block p end.
Definition set_pinned (w : Which) (p : Pinned) (t : gmap prefix_key Z) : Pinned :=
  match w with
  | Owned => mk_pinned (p_config p) (p_ports p) t (p_allow p) (p_block p) (p_generation p)
  | Allow => mk_pinned (p_config p) (p_ports p) (p_owned p) t (p_block p) (p_generation p)
  | Block => mk_pinned (p_config p) (p_ports p) (p_owned p) (p_allow p) t (p_generation p)
  end.

(** The map that a name selects. *)
Definition which_of (name : list Z) : option Which :=
  if bool_decide (name = text "owned") then Some Owned else if bool_decide (name = text "allow") then Some Allow
  else if bool_decide (name = text "block") then Some Block else None.

Definition u32_max : Z := 4294967295.

(** ** The maps *)

(** The [config] branch of [main]. *)
Definition config_command (lease observe mode ipv6 fragments rate burst abi : list Z) (p : Pinned) : exec Pinned :=
  lease ← number lease (2 ^ 64 - 1); observe ← number observe 1; mode ← number mode 3; ipv6 ← number ipv6 1;
  fragments ← number fragments 1; rate ← number rate 1000000000; burst ← number burst 1000000; abi ← number abi u32_max;
  c ← loader_config lease observe mode ipv6 fragments rate burst abi;
  Some (mk_pinned c (p_ports p) (p_owned p) (p_allow p) (p_block p) (p_generation p)).

(** The [port] branch. *)
Definition port_command (key value : list Z) (p : Pinned) : exec Pinned :=
  k ← number key 65535; val ← number value 7;
  if negb (k =? 0) && negb (Z.land val 3 =? 3)
  then Some (mk_pinned (p_config p) (<[k := val]> (p_ports p)) (p_owned p) (p_allow p) (p_block p) (p_generation p)) else None.

Section Commands.
Variable inet_pton : Z -> list Z -> option (list Z).
Variable first_key : gmap prefix_key Z -> option prefix_key.

(** [prefix]: a deletion of a key that is not there is none. *)
Definition prefix_command (name action cidr value : list Z) (p : Pinned) : exec Pinned :=
  w ← which_of name;
  k ← prefix_key_of inet_pton cidr;
  if bool_decide (action = text "add") then
    val ← number value (R_COUNT - 1); t ← update_elem (get_pinned w p) (k, val); Some (set_pinned w p t)
  else if bool_decide (action = text "del") then Some (set_pinned w p (delete k (get_pinned w p)))
  else None.

(** [clear_map], of the array too. *)
Definition clear_command (name : list Z) (p : Pinned) : exec Pinned :=
  if bool_decide (name = text "ports") then
    Some (mk_pinned (p_config p) (foldl (fun m k => <[k := 0]> m) (p_ports p) (Z.of_nat <$> seq 0 (Z.to_nat 65536)))
            (p_owned p) (p_allow p) (p_block p) (p_generation p))
  else w ← which_of name; Some (set_pinned w p (clear_map first_key (get_pinned w p))).

Definition policy_command (document : list Z) (p : Pinned) : exec Pinned :=
  m ← policy inet_pton first_key document (maps_of p); Some (with_maps p m).

(** The branches of [main] that write maps, after the name of the directory has been taken out of the arguments. *)
Definition map_command (args : list (list Z)) (stdin : list Z) (p : Pinned) : exec Pinned :=
  match args with
  | [name; a; b; c; d; e; f; g; h] => if bool_decide (name = text "config") then config_command a b c d e f g h p else None
  | [name; a; b; c; d] => if bool_decide (name = text "prefix") then prefix_command a b c d p else None
  | [name; a; b] => if bool_decide (name = text "port") then port_command a b p else None
  | [name; a] => if bool_decide (name = text "clear") then clear_command a p else None
  | [name] => if bool_decide (name = text "policy") then policy_command stdin p else None
  | _ => None
  end.
End Commands.

(** ** Attachment *)

(** [flags]. *)
Inductive XdpMode : Type := Driver | Skb.
Definition flags (s : list Z) : exec XdpMode :=
  if bool_decide (s = text "driver") then Some Driver else if bool_decide (s = text "skb") then Some Skb else None.

(** How the kernel is asked to attach, and to detach: only where there is nothing, or in the place of one program. *)
Inductive Update : Type := IfNoexist | Replace (old : Z).

Section Attachment.
(** The identifier of the program attached to the interface, zero when there is none; [xdp_attach] and [xdp_detach] are the kernel's:
    what is attached now, how, and for the first the program, give what is attached then. *)
Variable xdp_attach : Z -> Update -> Z -> option Z.
Variable xdp_detach : Z -> Z -> option Z.

(** [attach], with the program that [bpf_xdp_query_id] reports and the one that is attached when the kernel is called: other
    programs may have come and gone between. [has_fd] tells whether the program queried still exists. *)
Definition attach (args : list (list Z)) (program queried actual : Z) (has_fd : bool) : exec Z :=
  '(mode, confirmed, expected) ← (match args with
    | [mode; confirmed] => Some (mode, confirmed, None)
    | [mode; confirmed; expected] => Some (mode, confirmed, Some expected)
    | _ => None
    end);
  _ ← flags mode;
  if negb (bool_decide (confirmed = text "confirmed")) then None else
  expected ← (match expected with None => Some 0 | Some e => number e u32_max end);
  if negb (queried =? expected) then None
  else if queried =? 0 then xdp_attach actual IfNoexist program
  else if has_fd then xdp_attach actual (Replace queried) program else None.

(** [detach]. *)
Definition detach (mode expected : list Z) (queried actual : Z) (has_fd : bool) : exec Z :=
  _ ← flags mode;
  expected ← number expected u32_max;
  if (expected =? 0) || negb (queried =? expected) || negb has_fd then None else xdp_detach actual queried.

(** The kernel's documented checks. *)
Record AttachLaws : Prop := {
  attach_noexist : forall actual program s, xdp_attach actual IfNoexist program = Some s -> actual = 0 /\ s = program;
  attach_replace : forall actual old program s, xdp_attach actual (Replace old) program = Some s -> actual = old /\ s = program;
  detach_old : forall actual old s, xdp_detach actual old = Some s -> actual = old /\ s = 0 }.
End Attachment.
