(* ===== verification/LoaderMainProps.v ===== *)
(** * What the loader's commands keep

    The maps stay well formed under any commands, a [prefix] command does to a trie what the controller's [call] does to a set of
    prefixes, and attaching never displaces a program that was not named. *)
From stdpp Require Import base option list gmap strings.
From S2P Require Import Prelude Machine Cache Exposition XdpParse Adaptive XdpFilter Controller Loader LoaderProps LoaderInstall LoaderMaps LoaderMain.
From Stdlib Require Import ZArith Lia.
Local Open Scope Z_scope.

(** ** A well-formed generation *)

Definition config_ok (c : config) : Prop :=
  0 <= lease_ns c < 2 ^ 64 /\ 0 <= observe c <= 1 /\ 0 <= XdpFilter.mode c <= 3 /\ 0 <= ipv6 c <= 1 /\ 0 <= drop_tcp_fragments c <= 1 /\
  0 <= syn_rate c <= 1000000000 /\ 0 <= syn_burst c <= 1000000 /\ (syn_rate c = 0 <-> syn_burst c = 0).
Definition trie_ok (t : gmap prefix_key Z) : Prop :=
  Z.of_nat (size t) <= PREFIX_CAP /\ map_Forall (fun k v => key_ok k /\ 0 <= v < R_COUNT) t.
Definition pinned_ok (p : Pinned) : Prop :=
  config_ok (p_config p) /\ map_Forall (fun k f => f = 0 \/ port_ok k f) (p_ports p) /\ forall w, trie_ok (get_pinned w p).

(** The maps of a program that was just loaded, in whatever directory. *)
Definition fresh_pinned (g : Generation) : Pinned := mk_pinned (mk_config 0 0 0 0 0 0 0 0) ∅ ∅ ∅ ∅ g.

Lemma trie_ok_empty : trie_ok ∅.
Proof. split; [rewrite map_size_empty; unfold PREFIX_CAP; lia | apply map_Forall_empty]. Qed.

Lemma fresh_ok (g : Generation) : pinned_ok (fresh_pinned g).
Proof.
  split; [unfold config_ok; cbn; lia |]. split; [apply map_Forall_empty |]. intros []; apply trie_ok_empty.
Qed.

Lemma update_elem_ok (t t' : gmap prefix_key Z) (k : prefix_key) (v : Z) :
  update_elem t (k, v) = Some t' -> trie_ok t -> key_ok k -> 0 <= v < R_COUNT -> trie_ok t' /\ t' = <[k := v]> t.
Proof.
  unfold update_elem. cbn [fst snd]. destruct (_ && _) eqn:E; [done |]. intros [= <-] [S F] K V. split; [| done]. split.
  - rewrite map_size_insert. apply andb_false_iff in E as [E | E].
    + apply bool_decide_eq_false in E. destruct (t !! k); [exact S | done].
    + apply Z.leb_gt in E. destruct (t !! k); cbn; unfold id; lia.
  - now apply map_Forall_insert_2.
Qed.

Lemma delete_ok (t : gmap prefix_key Z) (k : prefix_key) : trie_ok t -> trie_ok (delete k t).
Proof.
  intros [S F]. split; [| now apply map_Forall_delete]. rewrite map_size_delete. destruct (t !! k); cbn; unfold id; lia.
Qed.

Lemma set_pinned_ok (p : Pinned) (w : Which) (t : gmap prefix_key Z) : pinned_ok p -> trie_ok t -> pinned_ok (set_pinned w p t).
Proof.
  intros (C & P & T) O. destruct w; (split; [exact C |]; split; [exact P |]); intros []; first [exact O | exact (T Owned) | exact (T Allow) | exact (T Block)].
Qed.

Lemma write_ports_ok (ports old : gmap Z Z) :
  (forall k f, ports !! k = Some f -> port_ok k f) -> map_Forall (fun k f => f = 0 \/ port_ok k f) old ->
  map_Forall (fun k f => f = 0 \/ port_ok k f) (write_ports ports old).
Proof.
  intros P. unfold write_ports. generalize (Z.of_nat <$> seq 0 (Z.to_nat 65536)). intros l. revert old.
  induction l as [| k l IH]; intros m M; [exact M |]. cbn [foldl]. apply IH. destruct (_ =? _); [exact M |].
  apply map_Forall_insert_2; [| exact M]. destruct (ports !! k) as [f |] eqn:F; [right; exact (P k f F) | now left].
Qed.

Section Commands.
Context (inet_pton : Z -> list Z -> option (list Z)) (first_key : gmap prefix_key Z -> option prefix_key) (Finds : finds_keys first_key).

Lemma config_keeps (a b c d e f g h : list Z) (p p' : Pinned) :
  config_command a b c d e f g h p = Some p' -> pinned_ok p -> pinned_ok p'.
Proof using Type.
  unfold config_command. intros E (_ & P & T).
  do 8 (match type of E with mbind _ ?x = _ => destruct x; [| discriminate E]; cbn [mbind option_bind] in E end).
  destruct (loader_config _ _ _ _ _ _ _ _) as [c0 |] eqn:L; [| discriminate]. injection E as <-.
  split; [| split; [exact P | exact T]]. cbn [p_config]. unfold loader_config, within in L. destruct (_ && _) eqn:B in L; [| discriminate].
  injection L as <-. breflect. unfold config_ok. cbn. match goal with H : Bool.eqb _ _ = true |- _ => apply Bool.eqb_prop in H end. lia.
Qed.

Lemma port_keeps (a b : list Z) (p p' : Pinned) : port_command a b p = Some p' -> pinned_ok p -> pinned_ok p'.
Proof using Type.
  unfold port_command. intros E (C & P & T). destruct (number a 65535) as [k |] eqn:K; [| done]. destruct (number b 7) as [v |] eqn:V; [| done].
  cbn [mbind option_bind] in E. destruct (_ && _) eqn:B; [| done]. injection E as <-. split; [exact C |]. split; [| exact T]. cbn [p_ports].
  apply number_range in K, V. apply map_Forall_insert_2; [| exact P]. unfold port_ok. lia.
Qed.

Lemma prefix_keeps (name action cidr value : list Z) (p p' : Pinned) :
  prefix_command inet_pton name action cidr value p = Some p' -> pinned_ok p -> pinned_ok p'.
Proof using Type.
  unfold prefix_command. intros E O. destruct (which_of name) as [w |]; [| done]. destruct (prefix_key_of inet_pton cidr) as [k |] eqn:K; [| done].
  cbn [mbind option_bind] in E. apply prefix_key_ok in K. pose proof O as (_ & _ & T). case_bool_decide.
  - destruct (number value _) as [v |] eqn:V; [| done]. cbn [mbind option_bind] in E.
    destruct (update_elem _ _) as [t |] eqn:U; [| done]. injection E as <-. apply number_range in V.
    apply set_pinned_ok; [exact O |]. apply (update_elem_ok _ _ k v U (T w) K). lia.
  - case_bool_decide; [| done]. injection E as <-. apply set_pinned_ok; [exact O |]. apply delete_ok, T.
Qed.

Lemma clear_keeps (name : list Z) (p p' : Pinned) : clear_command first_key name p = Some p' -> pinned_ok p -> pinned_ok p'.
Proof using Finds.
  unfold clear_command. intros E O. pose proof O as (C & P & T). case_bool_decide.
  - revert E. generalize (Z.of_nat <$> seq 0 (Z.to_nat 65536)). intros l E. injection E as <-. split; [exact C |].
    split; [| exact T]. cbn [p_ports]. revert P. generalize (p_ports p). induction l as [| k l IH]; intros m M; [exact M |].
    cbn [foldl]. apply IH, map_Forall_insert_2; [now left | exact M].
  - destruct (which_of name) as [w |]; [| done]. injection E as <-. apply set_pinned_ok; [exact O |]. unfold clear_map.
    rewrite (clear_trie_empty first_key); [apply trie_ok_empty | exact Finds |]. destruct (T w) as [S _]. lia.
Qed.

Lemma pinned_small (p : Pinned) : pinned_ok p -> tries_small (maps_of p).
Proof using Type. intros (_ & _ & T). unfold tries_small. cbn. split_and!; [apply (T Owned) | apply (T Allow) | apply (T Block)]. Qed.

Lemma policy_keeps (document : list Z) (p p' : Pinned) :
  policy_command inet_pton first_key document p = Some p' -> pinned_ok p -> pinned_ok p'.
Proof using Finds.
  unfold policy_command. intros E O. pose proof (pinned_small p O) as S.
  destruct (policy inet_pton first_key document (maps_of p)) as [m |] eqn:Po; [| discriminate]. injection E as <-.
  pose proof O as (C & P & _).
  destruct (policy_lines inet_pton (length document) document 0 nothing_installed) as [st |] eqn:R.
  2: { unfold policy in Po. rewrite R in Po. discriminate. }
  pose proof (read_ok inet_pton _ _ _ _ _ R nothing_ok) as Ok. pose proof Ok as [Ip It].
  destruct (validate_generation (m_generation (maps_of p))) eqn:G.
  2: { unfold policy in Po. rewrite R in Po. cbn [mbind option_bind] in Po. rewrite G in Po. discriminate. }
  destruct (Z.eqb_spec (m_lease_ns (maps_of p)) 0) as [L | L].
  2: { unfold policy in Po. rewrite R in Po. cbn [mbind option_bind] in Po. rewrite G, (proj2 (Z.eqb_neq _ _) L) in Po. discriminate. }
  rewrite (policy_writes first_key inet_pton document st (maps_of p) R Ok Finds S G L) in Po.
  assert (Tr : forall w, trie_ok (list_to_map (get_trie w st))).
  { intros w. destruct (It w) as (N & Ca & F). split; [rewrite <- (length_map_to_list (list_to_map _)), map_to_list_to_map by exact N; exact Ca |].
    intros k v V. apply elem_of_list_to_map_2 in V. rewrite Forall_forall in F. exact (F _ V). }
  pose proof (write_ports_ok (i_ports st) (p_ports p) Ip P) as W. revert Po. change (m_ports (maps_of p)) with (p_ports p).
  generalize dependent (write_ports (i_ports st) (p_ports p)). intros ports W [= <-]. split; [exact C |]. split; [exact W |].
  intros []; [exact (Tr Owned) | exact (Tr Allow) | exact (Tr Block)].
Qed.
End Commands.

(** ** Any run of commands *)

Section Runs.
Context (inet_pton : Z -> list Z -> option (list Z)) (first_key : gmap prefix_key Z -> option prefix_key).

(** A command that exits with an error has written nothing. *)
Definition run_command (p : Pinned) (x : list (list Z) * list Z) : Pinned :=
  default p (map_command inet_pton first_key (fst x) (snd x) p).

Lemma command_keeps (x : list (list Z) * list Z) (p p' : Pinned) :
  finds_keys first_key -> map_command inet_pton first_key (fst x) (snd x) p = Some p' -> pinned_ok p -> pinned_ok p'.
Proof.
  intros F. destruct x as [args stdin]. cbn [fst snd]. unfold map_command.
  destruct args as [| name [| a [| b [| c [| d [| e [| f [| g [| h []]]]]]]]]]; try discriminate; case_bool_decide; try discriminate; intros E O.
  - exact (policy_keeps inet_pton first_key F stdin p p' E O).
  - exact (clear_keeps first_key F a p p' E O).
  - exact (port_keeps a b p p' E O).
  - exact (prefix_keeps inet_pton a b c d p p' E O).
  - exact (config_keeps a b c d e f g h p p' E O).
Qed.

(** C14: The filter's maps are well formed under any commands. Whatever commands the loader is given after it has loaded a program,
    with whatever texts as arguments and input, accepted or refused, the configuration is in range with rate and burst both
    zero or both positive, no port is both protected and dropped and port 0 has no rule, and every trie has at most [PREFIX_CAP]
    entries, each with a prefix that fits its address and a reason that the filter counts. *)
Theorem loader_keeps_maps (g : Generation) (l : list (list (list Z) * list Z)) :
  finds_keys first_key -> pinned_ok (foldl run_command (fresh_pinned g) l).
Proof.
  intros F. generalize (fresh_ok g). generalize (fresh_pinned g). induction l as [| x l IH]; intros p O; [exact O |]. cbn [foldl]. apply IH.
  unfold run_command. destruct (map_command _ _ _ _ p) as [p' |] eqn:E; [exact (command_keeps x p p' F E O) | exact O].
Qed.
End Runs.

(** ** The controller's view of the maps *)

Section Refinement.
Context (inet_pton : Z -> list Z -> option (list Z)) (host_of : Z -> list Z -> list Z) (net : string -> Network).
Context (first_key : gmap prefix_key Z -> option prefix_key).

(** A trie holds exactly the networks of the prefixes of [m]. *)
Definition represents (m : gmap string Z) (t : gmap prefix_key Z) : Prop :=
  (forall n, is_Some (m !! n) -> canonical inet_pton host_of n (net n)) /\
  forall key v, t !! key = Some v <-> exists n, m !! n = Some v /\ net_key (net n) = key.

Definition abstracts (k : Kernel) (p : Pinned) : Prop :=
  k_config k = p_config p /\ represents (k_allow k) (p_allow p) /\ represents (k_block k) (p_block p).

Lemma represents_insert (m : gmap string Z) (t : gmap prefix_key Z) (n : string) (v : Z) :
  canonical inet_pton host_of n (net n) -> represents m t -> represents (<[n := v]> m) (<[net_key (net n) := v]> t).
Proof.
  intros C [A R]. split.
  - intros x X. destruct (decide (n = x)) as [<- | Ne]; [exact C |]. apply A. now rewrite lookup_insert_ne in X.
  - intros key w. rewrite lookup_insert_Some. split.
    + intros [[<- <-] | [Ne E]]; [exists n; now rewrite lookup_insert_eq |]. apply R in E as (x & X & <-). exists x. split; [| done].
      rewrite lookup_insert_ne; [done |]. now intros ->.
    + intros (x & X & <-). destruct (decide (n = x)) as [<- | Ne]; [rewrite lookup_insert_eq in X; injection X as <-; now left |].
      rewrite lookup_insert_ne in X by done. right. split; [| apply R; eauto]. intros K. apply Ne.
      apply (canonical_inj inet_pton host_of n x (net n) (net x)); [exact C | apply A; eauto | exact K].
Qed.

Lemma represents_delete (m : gmap string Z) (t : gmap prefix_key Z) (n : string) :
  canonical inet_pton host_of n (net n) -> represents m t -> represents (delete n m) (delete (net_key (net n)) t).
Proof.
  intros C [A R]. split.
  - intros x [v X]. apply lookup_delete_Some in X as [_ X]. apply A. eauto.
  - intros key w. rewrite lookup_delete_Some. split.
    + intros [Ne E]. apply R in E as (x & X & <-). exists x. split; [| done]. rewrite lookup_delete_ne; [done |]. now intros ->.
    + intros (x & X & <-). apply lookup_delete_Some in X as [Ne X]. split; [| apply R; eauto]. intros K. apply Ne.
      apply (canonical_inj inet_pton host_of n x (net n) (net x)); [exact C | apply A; eauto | exact K].
Qed.

(** The arguments of a call, without the directory, as [str] prints them. *)
Definition which_blocked (blocked : bool) : Which := if blocked then Block else Allow.
Definition call_args (x : Call) : list (list Z) :=
  match x with
  | SetConfig c => text "config" :: (u64_to_string <$> [lease_ns c; observe c; XdpFilter.mode c; ipv6 c; drop_tcp_fragments c; syn_rate c; syn_burst c; abi c])
  | PrefixAdd b n r => [text "prefix"; text (which_name (which_blocked b)); text "add"; text n; u64_to_string r]
  | PrefixDel b n => [text "prefix"; text (which_name (which_blocked b)); text "del"; text n; u64_to_string (if b then MANUAL_BLOCK_REASON else PREFIX_MARKER)]
  end.

Definition call_ok (x : Call) : Prop :=
  match x with
  | SetConfig c => config_ok c /\ abi c = XDDP_ABI
  | PrefixAdd _ n r => canonical inet_pton host_of n (net n) /\ 0 <= r < R_COUNT
  | PrefixDel _ n => canonical inet_pton host_of n (net n)
  end.

(** A trie that a call may not grow. *)
Definition call_full (x : Call) (p : Pinned) : Prop :=
  match x with
  | PrefixAdd b n _ => get_pinned (which_blocked b) p !! net_key (net n) = None /\ PREFIX_CAP <= Z.of_nat (size (get_pinned (which_blocked b) p))
  | _ => False
  end.

Lemma config_printed (c : config) (p : Pinned) :
  config_ok c -> abi c = XDDP_ABI ->
  map_command inet_pton first_key (call_args (SetConfig c)) [] p =
  Some (mk_pinned c (p_ports p) (p_owned p) (p_allow p) (p_block p) (p_generation p)).
Proof.
  intros (L & O & M & V & D & R & B & Z0) A. destruct c as [le ab ob mo v6 fr ra bu]. cbn in L, O, M, V, D, R, B, Z0, A. subst ab.
  unfold call_args. cbn [fmap list_fmap map_command]. rewrite bool_decide_eq_true_2 by reflexivity. cbn [abi lease_ns observe XdpFilter.mode ipv6 drop_tcp_fragments syn_rate syn_burst].
  unfold config_command. unfold XDDP_ABI, u32_max. rewrite !number_print by lia. cbn [mbind option_bind]. unfold loader_config, within, XDDP_ABI.
  assert (E : Bool.eqb (ra =? 0) (bu =? 0) = true) by (apply Bool.eqb_true_iff, Bool.eq_iff_eq_true; rewrite !Z.eqb_eq; exact Z0).
  rewrite E. repeat match goal with |- context [(?a <=? ?x) && (?x <=? ?b)] => replace ((a <=? x) && (x <=? b)) with true by lia end. reflexivity.
Qed.

Lemma which_printed (b : bool) : which_of (text (which_name (which_blocked b))) = Some (which_blocked b).
Proof. now destruct b. Qed.

(** A [prefix] command with a canonical prefix works on the key of its network. *)
Lemma prefix_printed (b : bool) (action : list Z) (n : string) (value : list Z) (p : Pinned) :
  canonical inet_pton host_of n (net n) ->
  map_command inet_pton first_key [text "prefix"; text (which_name (which_blocked b)); action; text n; value] [] p =
  (if bool_decide (action = text "add") then
     v ← number value (R_COUNT - 1); t ← update_elem (get_pinned (which_blocked b) p) (net_key (net n), v); Some (set_pinned (which_blocked b) p t)
   else if bool_decide (action = text "del")
     then Some (set_pinned (which_blocked b) p (delete (net_key (net n)) (get_pinned (which_blocked b) p))) else None).
Proof.
  intros C. unfold map_command. rewrite bool_decide_eq_true_2 by reflexivity. unfold prefix_command.
  rewrite which_printed, (prefix_key_canonical inet_pton host_of n (net n) C). reflexivity.
Qed.

Lemma abstracts_set (k : Kernel) (p : Pinned) (b : bool) (m : gmap string Z) (t : gmap prefix_key Z) :
  abstracts k p -> represents m t ->
  abstracts (if b then mk_kernel (k_config k) (k_allow k) m else mk_kernel (k_config k) m (k_block k)) (set_pinned (which_blocked b) p t).
Proof. intros (C & A & B) R. destruct b; (split; [exact C |]; split; assumption). Qed.

(** C15: The loader carries out the controller's calls. When the kernel's tries hold the networks of the controller's
    sets of prefixes, the loader, given the arguments that the controller prints for a call, exits with an error only if
    the call would add an entry to a full trie, and otherwise leaves the configuration that was printed and tries
    that hold the networks of the controller's new sets: keys and numbers survive the command line. *)
Theorem call_refines (k : Kernel) (p : Pinned) (x : Call) :
  abstracts k p -> call_ok x ->
  match map_command inet_pton first_key (call_args x) [] p with
  | Some p' => abstracts (call k x) p'
  | None => call_full x p
  end.
Proof.
  intros R Ok. pose proof R as (C & A & B). destruct x as [c | b n v | b n].
  - destruct Ok as [O Ab]. rewrite config_printed by assumption. now split.
  - destruct Ok as [Cn V]. cbn [call_args]. rewrite prefix_printed by exact Cn. rewrite bool_decide_eq_true_2 by reflexivity.
    rewrite number_print by (unfold R_COUNT in *; lia). cbn [mbind option_bind]. unfold update_elem. cbn [fst snd].
    destruct (bool_decide _ && _) eqn:E.
    + apply andb_true_iff in E as [E1 E2]. apply bool_decide_eq_true in E1. apply Z.leb_le in E2. now split.
    + cbn [mbind option_bind]. destruct b.
      * exact (abstracts_set k p true _ _ R (represents_insert _ _ n v Cn B)).
      * exact (abstracts_set k p false _ _ R (represents_insert _ _ n v Cn A)).
  - cbn [call_args]. rewrite prefix_printed by exact Ok. rewrite bool_decide_eq_false_2 by discriminate. rewrite bool_decide_eq_true_2 by reflexivity.
    destruct b.
    + exact (abstracts_set k p true _ _ R (represents_delete _ _ n Ok B)).
    + exact (abstracts_set k p false _ _ R (represents_delete _ _ n Ok A)).
Qed.
End Refinement.

(** ** Attachment *)

(** Attaching and detaching never displace a program that was not named. Whatever program the query reports and whatever
    was attached and detached by others before the kernel acts, [attach] succeeds only if what it replaces is what the
    operator expected (nothing, when no identifier is given), and leaves this generation's program attached; [detach] removes only the
    program with the non-zero identifier that was given. *)
Theorem attachment_guarded (xdp_attach : Z -> Update -> Z -> option Z) (xdp_detach : Z -> Z -> option Z)
  (mode confirmed : list Z) (expected : option (list Z)) (program queried actual : Z) (has_fd : bool) (s : Z) :
  AttachLaws xdp_attach xdp_detach ->
  (attach xdp_attach (mode :: confirmed :: option_list expected) program queried actual has_fd = Some s ->
    confirmed = text "confirmed" /\ s = program /\ actual = queried /\
    match expected with None => actual = 0 | Some e => number e u32_max = Some actual end) /\
  (forall e, detach xdp_detach mode e queried actual has_fd = Some s -> s = 0 /\ actual <> 0 /\ number e u32_max = Some actual).
Proof.
  intros [Ln Lr Ld]. split.
  - intros E.
    assert (G : exists x, (match expected with None => Some 0 | Some e => number e u32_max end) = Some x /\ confirmed = text "confirmed" /\ queried = x /\
      ((queried = 0 /\ xdp_attach actual IfNoexist program = Some s) \/ xdp_attach actual (Replace queried) program = Some s)).
    { unfold attach in E. set (wanted := match expected with None => Some 0 | Some e => number e u32_max end).
      assert (E' : (_ ← flags mode; if negb (bool_decide (confirmed = text "confirmed")) then None else
        expected ← wanted; if negb (queried =? expected) then None else if queried =? 0 then xdp_attach actual IfNoexist program
        else if has_fd then xdp_attach actual (Replace queried) program else None) = Some s) by (now destruct expected).
      clear E. destruct (flags mode) as [md |]; [| discriminate]. cbn [mbind option_bind] in E'. case_bool_decide; [| discriminate]. cbn [negb] in E'.
      clearbody wanted. destruct wanted as [x |]; [| discriminate]. cbn [mbind option_bind] in E'. exists x.
      destruct (Z.eqb_spec queried x) as [-> | N]; [| discriminate]. cbn [negb] in E'. split_and!; try done.
      destruct (Z.eqb_spec x 0) as [-> | N]; [now left |]. destruct has_fd; [now right | discriminate]. }
    clear E. destruct G as (want & X & Cf & <- & [[Q E1] | E1]).
    + apply Ln in E1 as [-> ->]. rewrite Q in *. split_and!; try done. now destruct expected.
    + apply Lr in E1 as [-> ->]. split_and!; try done. destruct expected; [exact X | now injection X as <-].
  - intros e E. unfold detach in E. destruct (flags mode) as [md |]; [| discriminate]. destruct (number e u32_max) as [x |]; [| discriminate].
    cbn [mbind option_bind] in E. destruct (Z.eqb_spec x 0); [discriminate |]. destruct (Z.eqb_spec queried x) as [-> |]; [| discriminate].
    destruct has_fd; [| discriminate]. cbn [negb orb] in E. apply Ld in E as [-> ->]. now split_and!.
Qed.
