(* ===== verification/History.v ===== *)
(** * The archive of telemetry ([controller/history.py])

    [record] keeps one row per minute in a table of SQLite and removes the old ones once a day; [read_day] adds up, hour by hour,
    what the counters of a day have gained. A transaction is committed as a whole or not at all. Rows keep the numeric
    counters; the nested reasons and the sampled maxima are left out. *)
From stdpp Require Import base option list gmap strings sorting.
From S2P Require Import Prelude Machine Float64 PyNum Adaptive Telemetry.
From Stdlib Require Import ZArith Lia.
Local Open Scope Z_scope.

Definition DAY : Z := 86400.

(** ** [record] *)

Record HistoryRow : Type := mk_row {
  row_mode : string; row_observe : bool; row_gate : bool; row_counters : Sample; row_signals : Signals }.

Record History : Type := mk_history {
  archived : bool; retention_days : Z; last_minute : option Z; last_prune_day : option Z; samples : gmap Z HistoryRow }.

Definition History_new (path : bool) (retention : Z) (rows : gmap Z HistoryRow) : History := mk_history path retention None None rows.

(** How the transaction ends: it commits; a statement fails, the DELETE or one before it; the commit fails. Only a commit changes the table. *)
Inductive Transaction : Type := Commits | FailsBefore | FailsAfter.

(** [json.dumps(..., allow_nan=False)]. *)
Definition json_number (v : PyNum) : bool := match v with PyInt _ => true | PyFloat x => is_finite x end.
Definition json_ok (s : Sample) : bool := forallb (fun kv => json_number (snd kv)) (map_to_list s).

(** [None] is an exception. *)
Definition record (h : History) (timestamp : Z) (row : HistoryRow) (t : Transaction) : option bool * History :=
  if negb (archived h) then (Some false, h) else
  let minute := timestamp / 60 * 60 in
  if bool_decide (last_minute h = Some minute) then (Some false, h) else
  let h := mk_history (archived h) (retention_days h) (Some minute) (last_prune_day h) (samples h) in
  if negb (json_ok (row_counters row) && json_ok (row_signals row)) then (None, h) else
  match t with
  | FailsBefore => (None, h)
  | _ =>
    let rows := <[minute := row]> (samples h) in
    let day := minute / DAY in
    let prune := negb (bool_decide (last_prune_day h = Some day)) in
    let rows := if prune then filter (fun kv => minute - retention_days h * DAY <= fst kv) rows else rows in
    let h' := mk_history (archived h) (retention_days h) (last_minute h) (if prune then Some day else last_prune_day h) (samples h) in
    match t with
    | Commits => (Some true, mk_history (archived h') (retention_days h') (last_minute h') (last_prune_day h') rows)
    | _ => (None, h')
    end
  end.

(** ** [read_day] *)

Definition COUNTERS : list string :=
  ["rx_packets"; "rx_bytes"; "drop_packets"; "syn_packets"; "tcp_accepts"; "handshake_invalid"; "resource_limited";
   "rate_limited_ip"; "rate_limited_prefix"; "rate_limited_global"; "backend_connect_failures"; "status_requests"]%string.

(** What a counter gained between two rows. *)
Definition gained (last : option (Z * Sample)) (ts : Z) (counts : Sample) (key : string) : option Z :=
  match last with
  | None => None
  | Some (last_ts, last_counts) =>
    if (0 <? ts - last_ts) && (ts - last_ts <=? 90) then
      match last_counts !! key, counts !! key with
      | Some (PyInt a), Some (PyInt b) => if a <=? b then Some (b - a) else None
      | _, _ => None
      end
    else None
  end.

(** The deltas of an hour after a row. *)
Definition add_deltas (last : option (Z * Sample)) (ts : Z) (counts : Sample) (deltas : gmap string Z) : gmap string Z :=
  foldl (fun d key => match gained last ts counts key with Some n => <[key := default 0 (d !! key) + n]> d | None => d end) deltas COUNTERS.

(** A row goes to the entry of its hour, which [setdefault] appends when it is new. *)
Fixpoint update_hour (hour : string) (f : gmap string Z -> gmap string Z) (hours : list (string * gmap string Z)) : list (string * gmap string Z) :=
  match hours with
  | [] => [(hour, f ∅)]
  | (h, d) :: hours => if bool_decide (h = hour) then (h, f d) :: hours else (h, d) :: update_hour hour f hours
  end.

Section ReadDay.
(** [time.strftime] of [time.localtime]. *)
Variable hour_of : Z -> string.

Fixpoint read_rows (rows : list (Z * Sample)) (last : option (Z * Sample)) (hours : list (string * gmap string Z)) : list (string * gmap string Z) :=
  match rows with
  | [] => hours
  | (ts, counts) :: rows => read_rows rows (Some (ts, counts)) (update_hour (hour_of ts) (add_deltas last ts counts) hours)
  end.

Definition earlier (x y : Z * Sample) : Prop := fst x <= fst y.
#[export] Instance earlier_dec : RelDecision earlier := fun x y => decide (fst x <= fst y).

(** The rows from [start] to [stop] in order, after the last one before them. *)
Definition ordered (h : History) : list (Z * Sample) :=
  merge_sort earlier ((fun kv => (fst kv, row_counters (snd kv))) <$> map_to_list (samples h)).
Definition rows_of (h : History) (start stop : Z) : list (Z * Sample) := filter (fun r => start <= fst r < stop) (ordered h).
Definition row_before (h : History) (start : Z) : option (Z * Sample) := last (filter (fun r => fst r < start) (ordered h)).
Definition read_day (h : History) (start stop : Z) : list (string * gmap string Z) :=
  read_rows (rows_of h start stop) (row_before h start) [].
End ReadDay.

(** ** The archive is bounded *)

(** The table as the prunings leave it: minutes, not older than the retention before the day of the last one. *)
Definition archive_ok (h : History) : Prop :=
  forall ts, is_Some (samples h !! ts) -> ts mod 60 = 0 /\
    match last_prune_day h with Some d => (d - retention_days h) * DAY <= ts < (d + 1) * DAY | None => True end.

(** A run of records: timestamps in order, and no transaction fails once it has deleted. *)
Definition record_all (h : History) (l : list (Z * HistoryRow * Transaction)) : History :=
  foldl (fun h x => snd (record h (fst (fst x)) (snd (fst x)) (snd x))) h l.

Definition newest_before (h : History) (t : Z) : Prop :=
  (forall ts, is_Some (samples h !! ts) -> ts <= t) /\ (forall d, last_prune_day h = Some d -> d * DAY <= t).

Lemma minute_facts (t : Z) : 0 <= t -> let m := t / 60 * 60 in 0 <= m <= t /\ m mod 60 = 0 /\ m / DAY * DAY <= m < (m / DAY + 1) * DAY.
Proof.
  intros T m. assert (M : m mod 60 = 0) by (apply Z.mod_mul; lia).
  assert (m <= t) by (unfold m; pose proof (Z.mul_div_le t 60 ltac:(lia)); lia). assert (0 <= m) by (unfold m; pose proof (Z.div_pos t 60 T ltac:(lia)); lia).
  pose proof (Z.mod_pos_bound m DAY eq_refl). pose proof (Z.div_mod m DAY ltac:(discriminate)). clearbody m. unfold DAY in *. split_and!; lia.
Qed.

(** The tables of a run, before and after a transaction that does not fail once it has deleted. *)
Lemma record_cases (h : History) (t : Z) (row : HistoryRow) (o : Transaction) :
  o <> FailsAfter -> let h' := snd (record h t row o) in let m := t / 60 * 60 in let day := m / DAY in
  retention_days h' = retention_days h /\
  ((samples h' = samples h /\ last_prune_day h' = last_prune_day h /\ fst (record h t row o) <> Some true) \/
   (last_prune_day h = Some day /\ samples h' = <[m := row]> (samples h) /\ last_prune_day h' = Some day) \/
   (samples h' = filter (fun kv => m - retention_days h * DAY <= fst kv) (<[m := row]> (samples h)) /\ last_prune_day h' = Some day)).
Proof.
  intros O h' m day. subst h'. unfold record. destruct (negb (archived h)); [cbn; eauto 6 with congruence |].
  destruct (bool_decide _); [split; [reflexivity | left; split_and!; [reflexivity | reflexivity | discriminate]] |].
  destruct (negb _); [split; [reflexivity | left; split_and!; [reflexivity | reflexivity | discriminate]] |].
  destruct o; [| split; [reflexivity | left; split_and!; [reflexivity | reflexivity | discriminate]] | congruence].
  split; [reflexivity |]. right. cbn. fold m day. case_bool_decide as P; cbn in *; [left | right]; eauto.
Qed.

Lemma record_keeps (h : History) (t : Z) (row : HistoryRow) (o : Transaction) :
  0 <= t -> o <> FailsAfter -> 0 <= retention_days h -> archive_ok h -> newest_before h (t / 60 * 60) ->
  let h' := snd (record h t row o) in archive_ok h' /\ newest_before h' (t / 60 * 60).
Proof.
  intros T O R A [N P]. destruct (record_cases h t row o O) as [Rd C]. cbv zeta in *. destruct (minute_facts t T) as (M & M60 & Dm).
  unfold archive_ok, newest_before. rewrite Rd. set (m := t / 60 * 60) in *. set (day := m / DAY) in *. clearbody m.
  assert (RD : 0 <= retention_days h * DAY) by (unfold DAY; lia).
  destruct C as [(-> & -> & _) | [(Pd & -> & ->) | (-> & ->)]]; [split; [exact A | split; [exact N | exact P]] | |].
  - assert (K : forall ts, is_Some (<[m:=row]> (samples h) !! ts) -> ts = m \/ is_Some (samples h !! ts))
      by (intros ts [v X]; apply lookup_insert_Some in X as [[<- _] | [_ X]]; eauto).
    split; [| split; [intros ts [-> | X]%K; [lia | apply N, X] | intros d [= <-]; lia]].
    intros ts [-> | X]%K; [split; [exact M60 | lia] |]. destruct (A ts X) as [X60 B]. rewrite Pd in B. split; [exact X60 | exact B].
  - assert (K : forall ts, is_Some (filter (fun kv => m - retention_days h * DAY <= fst kv) (<[m:=row]> (samples h)) !! ts) ->
      m - retention_days h * DAY <= ts /\ (ts = m \/ is_Some (samples h !! ts)))
      by (intros ts [v [X F]%map_lookup_filter_Some]; split; [exact F |]; apply lookup_insert_Some in X as [[<- _] | [_ X]]; eauto).
    split; [| split; [intros ts [_ [-> | X]]%K; [lia | apply N, X] | intros d [= <-]; lia]].
    intros ts [F [-> | X]]%K; [split; [exact M60 | lia] |]. destruct (A ts X) as [X60 _]. specialize (N ts X). split; [exact X60 | lia].
Qed.

(** Times in order: each not before the one it follows. *)
Fixpoint in_order (t0 : Z) (l : list (Z * HistoryRow * Transaction)) : Prop :=
  match l with [] => True | x :: l => t0 <= fst (fst x) /\ snd x <> FailsAfter /\ in_order (fst (fst x)) l end.

Lemma newest_weaken (h : History) (t t' : Z) : t <= t' -> newest_before h (t / 60 * 60) -> newest_before h (t' / 60 * 60).
Proof.
  intros T [N P]. assert (t / 60 <= t' / 60) by (apply Z.div_le_mono; lia). split; [intros ts X; specialize (N ts X); lia | intros d D; specialize (P d D); lia].
Qed.

Lemma record_all_keeps (l : list (Z * HistoryRow * Transaction)) (h : History) (t0 : Z) :
  0 <= t0 -> in_order t0 l -> 0 <= retention_days h -> archive_ok h -> newest_before h (t0 / 60 * 60) ->
  let h' := record_all h l in archive_ok h' /\ retention_days h' = retention_days h /\
  exists t1, t0 <= t1 /\ newest_before h' (t1 / 60 * 60).
Proof.
  revert h t0. induction l as [| [[t row] o] l IH]; intros h t0 T0 L R A N; [cbn; split_and!; [exact A | reflexivity | exists t0; split; [lia | exact N]] |].
  destruct L as (T & O & L). cbn in T, O, L. destruct (record_cases h t row o O) as [Rd _].
  destruct (record_keeps h t row o ltac:(lia) O R A (newest_weaken h t0 t T N)) as [A' N']. cbv zeta in *.
  destruct (IH (snd (record h t row o)) t ltac:(lia) L ltac:(rewrite Rd; exact R) A' N') as (A'' & R'' & t1 & T1 & N''). cbv zeta in *.
  split_and!; [exact A'' | cbn; rewrite <- Rd; exact R'' | exists t1; split; [lia | exact N'']].
Qed.

(** A table of minutes within some days has one row a minute at most. *)
Lemma minutes_bound (m : gmap Z HistoryRow) (a : Z) (n : nat) :
  a mod 60 = 0 -> (forall ts, is_Some (m !! ts) -> ts mod 60 = 0 /\ a <= ts < a + 60 * Z.of_nat n) -> (size m <= n)%nat.
Proof.
  intros A B. rewrite <- (size_dom (D := gset Z)).
  transitivity (size (list_to_set ((fun i => a + 60 * Z.of_nat i) <$> seq 0 n) : gset Z)).
  - apply subseteq_size. intros ts Hts. apply elem_of_dom in Hts. destruct (B ts Hts) as [T60 T]. apply elem_of_list_to_set, list_elem_of_fmap.
    exists (Z.to_nat ((ts - a) / 60)). pose proof (Z.div_mod ts 60 ltac:(lia)). pose proof (Z.div_mod a 60 ltac:(lia)).
    assert (E : ts - a = (ts / 60 - a / 60) * 60) by lia. rewrite E, Z.div_mul by lia.
    split; [lia | apply elem_of_seq; lia].
  - transitivity (length ((fun i => a + 60 * Z.of_nat i) <$> seq 0 n)); [| rewrite length_fmap, length_seq; reflexivity].
    induction ((fun i => a + 60 * Z.of_nat i) <$> seq 0 n) as [| x l IH]; [reflexivity |]. cbn [list_to_set length].
    rewrite size_union_alt, size_singleton. pose proof (subseteq_size (list_to_set l ∖ {[x]} : gset Z) (list_to_set l) ltac:(set_solver)). lia.
Qed.

(** The archive stays bounded. Start from any table of minutes that are not in the future, and record at times that never go
    back, with any of the failures of the database before the commit of a pruning: after a record that is kept, the table holds no
    more than one row for every minute of the retention and of one more day. *)
Theorem history_bounded (retention t0 t : Z) (rows : gmap Z HistoryRow) (l : list (Z * HistoryRow * Transaction)) (row : HistoryRow) :
  0 <= t0 -> 0 <= retention -> (forall ts, is_Some (rows !! ts) -> ts mod 60 = 0 /\ ts <= t0 / 60 * 60) ->
  in_order t0 (l ++ [(t, row, Commits)]) ->
  let h := record_all (History_new true retention rows) l in
  fst (record h t row Commits) = Some true ->
  Z.of_nat (size (samples (snd (record h t row Commits)))) <= (retention + 1) * 1440.
Proof.
  intros T0 R Rows L h K.
  destruct (record_all_keeps (l ++ [(t, row, Commits)]) (History_new true retention rows) t0 T0 L R) as (A & Rd & t1 & T1 & N).
  { intros ts X. split; [apply (Rows ts X) | exact I]. }
  { split; [intros ts X; apply (Rows ts X) | discriminate]. }
  cbv zeta in *. unfold record_all in A, Rd, N. rewrite foldl_app in A, Rd, N. fold (record_all (History_new true retention rows) l) in A, Rd, N.
  fold h in A, Rd, N. cbn [foldl fst snd] in A, Rd, N. set (h' := snd (record h t row Commits)) in *.
  destruct (record_cases h t row Commits ltac:(discriminate)) as [_ C]. cbv zeta in C. fold h' in C. set (d := t / 60 * 60 / DAY) in *.
  assert (D : last_prune_day h' = Some d) by (destruct C as [(_ & _ & C) | [(_ & _ & C) | (_ & C)]]; [contradiction | exact C | exact C]).
  change (retention_days (History_new true retention rows)) with retention in Rd.
  pose proof (minutes_bound (samples h') ((d - retention) * DAY) (Z.to_nat ((retention + 1) * 1440))) as B.
  cut (size (samples h') <= Z.to_nat ((retention + 1) * 1440))%nat; [lia |]. apply B.
  - replace ((d - retention) * DAY) with ((d - retention) * 1440 * 60) by (unfold DAY; lia). apply Z.mod_mul. lia.
  - intros ts X. destruct (A ts X) as [M W]. rewrite D, Rd in W. split; [exact M |]. rewrite Z2Nat.id by lia. cbv iota in W. clearbody d. unfold DAY in *. lia.
Qed.

(** ** What [read_day] adds up *)

Definition total (key : string) (hours : list (string * gmap string Z)) : Z := foldr (fun h n => default 0 (snd h !! key) + n) 0 hours.

Fixpoint gains (key : string) (last : option (Z * Sample)) (rows : list (Z * Sample)) : Z :=
  match rows with
  | [] => 0
  | (ts, counts) :: rows => default 0 (gained last ts counts key) + gains key (Some (ts, counts)) rows
  end.

Lemma add_deltas_fold (last : option (Z * Sample)) (ts : Z) (counts : Sample) (key : string) (keys : list string) (d : gmap string Z) :
  NoDup keys ->
  default 0 (foldl (fun d key => match gained last ts counts key with Some n => <[key := default 0 (d !! key) + n]> d | None => d end) d keys !! key)
  = default 0 (d !! key) + if bool_decide (key ∈ keys) then default 0 (gained last ts counts key) else 0.
Proof.
  revert d. induction keys as [| k keys IH]; intros d ND; [cbn; rewrite bool_decide_eq_false_2 by (apply not_elem_of_nil); lia |]. apply NoDup_cons in ND as [Nk ND]. cbn [foldl]. rewrite IH by exact ND.
  destruct (decide (key = k)) as [<- | Ne].
  - rewrite (bool_decide_eq_false_2 _ Nk), (bool_decide_eq_true_2 (key ∈ key :: keys)) by set_solver.
    destruct (gained last ts counts key); [rewrite lookup_insert_eq |]; cbn; lia.
  - replace (bool_decide (key ∈ k :: keys)) with (bool_decide (key ∈ keys)) by (apply bool_decide_ext; set_solver).
    destruct (gained last ts counts k); [rewrite lookup_insert_ne by congruence |]; reflexivity.
Qed.

Lemma add_deltas_key (last : option (Z * Sample)) (ts : Z) (counts : Sample) (key : string) (d : gmap string Z) :
  key ∈ COUNTERS -> default 0 (add_deltas last ts counts d !! key) = default 0 (d !! key) + default 0 (gained last ts counts key).
Proof.
  intros K. unfold add_deltas. rewrite add_deltas_fold, bool_decide_eq_true_2 by (exact K || apply (bool_decide_unpack _); vm_compute; exact I). reflexivity.
Qed.

Lemma total_update (key hour : string) (f : gmap string Z -> gmap string Z) (n : Z) (hours : list (string * gmap string Z)) :
  (forall d, default 0 (f d !! key) = default 0 (d !! key) + n) -> total key (update_hour hour f hours) = total key hours + n.
Proof.
  intros F. induction hours as [| [h d] hours IH]; cbn; [rewrite F, lookup_empty; cbn; lia |].
  case_bool_decide; cbn; [rewrite F; lia |]. unfold total in IH. rewrite IH. lia.
Qed.

Lemma read_rows_total (hour_of : Z -> string) (key : string) (rows : list (Z * Sample)) (last : option (Z * Sample)) (hours : list (string * gmap string Z)) :
  key ∈ COUNTERS -> total key (read_rows hour_of rows last hours) = total key hours + gains key last rows.
Proof.
  intros K. revert last hours. induction rows as [| [ts counts] rows IH]; intros last hours; [symmetry; apply Z.add_0_r |].
  cbn [read_rows gains]. rewrite IH, (total_update _ _ _ (default 0 (gained last ts counts key))) by (intros d; apply add_deltas_key, K). lia.
Qed.

(** No minute is missing and the counter did not restart: it ends at [b], having begun at [a]. *)
Inductive unbroken (key : string) : Z -> Z -> list (Z * Sample) -> Z -> Prop :=
| unbroken_end ts a : unbroken key ts a [] a
| unbroken_row ts a ts' counts b rows c :
  0 < ts' - ts <= 90 -> counts !! key = Some (PyInt b) -> a <= b -> unbroken key ts' b rows c -> unbroken key ts a ((ts', counts) :: rows) c.

Lemma gains_unbroken (key : string) (ts a : Z) (s : Sample) (rows : list (Z * Sample)) (c : Z) :
  s !! key = Some (PyInt a) -> unbroken key ts a rows c -> gains key (Some (ts, s)) rows = c - a.
Proof.
  intros S U. revert s S. induction U as [| ts a ts' counts b rows c G C L U IH]; intros s S; [cbn; lia |].
  cbn [gains]. rewrite (IH counts C). unfold gained. rewrite S, C.
  rewrite (proj2 (Z.ltb_lt _ _)), (proj2 (Z.leb_le (ts' - ts) _)), (proj2 (Z.leb_le a b)) by lia. cbn. lia.
Qed.

Lemma gained_nonneg (last : option (Z * Sample)) (ts : Z) (counts : Sample) (key : string) : 0 <= default 0 (gained last ts counts key).
Proof.
  unfold gained. destruct last as [[t s] |]; [| cbn; lia]. destruct (_ && _); [| cbn; lia].
  destruct (s !! key) as [[a |] |], (counts !! key) as [[b |] |]; cbn; try lia. destruct (a <=? b) eqn:E; cbn; lia.
Qed.

Lemma elem_of_ordered (h : History) (x : Z * Sample) : x ∈ ordered h <-> exists row, samples h !! fst x = Some row /\ snd x = row_counters row.
Proof.
  unfold ordered. rewrite (merge_sort_Permutation earlier), list_elem_of_fmap. split.
  - intros ([ts row] & -> & E%elem_of_map_to_list). cbn. eauto.
  - intros (row & L & E). exists (fst x, row). split; [destruct x; cbn in *; congruence | apply elem_of_map_to_list, L].
Qed.

#[export] Instance earlier_total : Total earlier.
Proof. intros x y. unfold earlier. lia. Qed.
#[export] Instance earlier_trans : Transitive earlier.
Proof. intros x y z. unfold earlier. lia. Qed.

Lemma StronglySorted_keep (P : Z * Sample -> Prop) `{forall x, Decision (P x)} (l : list (Z * Sample)) :
  StronglySorted earlier l -> StronglySorted earlier (filter P l).
Proof.
  induction 1 as [| x l S IH F]; [constructor |]. rewrite filter_cons. case_decide; [| exact IH]. constructor; [exact IH |].
  rewrite Forall_forall in *. intros y [_ Y]%list_elem_of_filter. apply F, Y.
Qed.

Lemma rows_of_sorted (h : History) (start stop : Z) : StronglySorted earlier (rows_of h start stop).
Proof. apply StronglySorted_keep, Sorted_StronglySorted, Sorted_merge_sort; apply _. Qed.

(** What [read_day] reports of a counter. The rows of the day are read in order of time, all of them and no others; what the
    hours sum up to is what the counter gained from each row to the next, which is never negative; and when no minute is missing and
    the counter did not restart, it is exactly the last value less the one before the day. *)
Theorem day_counted (hour_of : Z -> string) (h : History) (start stop : Z) (key : string) :
  key ∈ COUNTERS ->
  let rows := rows_of h start stop in
  let counted := total key (read_day hour_of h start stop) in
  StronglySorted earlier rows /\
  (forall ts s, (ts, s) ∈ rows <-> start <= ts < stop /\ exists row, samples h !! ts = Some row /\ s = row_counters row) /\
  counted = gains key (row_before h start) rows /\ 0 <= counted /\
  (forall ts s a b, row_before h start = Some (ts, s) -> s !! key = Some (PyInt a) -> unbroken key ts a rows b -> counted = b - a).
Proof.
  intros K rows counted. assert (C : counted = gains key (row_before h start) rows) by (unfold counted, read_day; rewrite read_rows_total by exact K; reflexivity).
  split_and!; [apply rows_of_sorted | | exact C | |].
  - intros ts s. unfold rows, rows_of. rewrite list_elem_of_filter, elem_of_ordered. reflexivity.
  - rewrite C. clear C counted. generalize (row_before h start) as last. induction rows as [| [ts s] rows IH]; intros last; cbn; [lia |].
    pose proof (gained_nonneg last ts s key). specialize (IH (Some (ts, s))). lia.
  - intros ts s a b B S U. rewrite C, B. apply gains_unbroken; assumption.
Qed.
