(* ===== verification/Daemon.v ===== *)
(** * The controller as a process ([controller/ddosctl.py], class [Controller])

    [prepare], [tick], [command], [cleanup] and the loop of [run], with every call of the loader and every file written as one
    effect that may fail. An operation is a function of the world that gives a new world and a value, or no value when it raises:
    what it had done stays done. Each effect has an outcome from the environment: it was done; it raised and did nothing; or it raised
    although it was done, as a subprocess that is killed after its work. Clocks and telemetry come from the environment too. *)
From stdpp Require Import base option list gmap strings sorting.
From S2P Require Import Prelude Machine Float64 PyNum XdpParse XdpFilter Adaptive Controller Telemetry Loader.
From Stdlib Require Import ZArith Lia.
Local Open Scope Z_scope.

Inductive Outcome : Type := Done | Failed | Late.

(** What the process does not decide, at the [n]-th effect: outcomes, the clocks, the answers of the telemetry sources, the order in
    which Python iterates over a set, and what is left behind by an operation that raised half way: the mode
    machine after its sample, the tries after a policy that was cut off. [caught] tells whether the loop catches an exception of a
    command, by its class. *)
Record Env : Type := mk_env {
  outcome : nat -> Outcome; monotonic_ns : nat -> Z; monotonic : nat -> f64; unix : nat -> Z; readings : nat -> Readings;
  set_order : nat -> list string -> list string; wreck : nat -> Adaptive; torn : nat -> gmap string Z * gmap string Z;
  caught : nat -> bool }.

(** The process and what it writes: the kernel's maps, the configuration file, the gate's document. [seen] records the
    kernel after every change of it, the last first, with the configuration that the process then had, and [written] the documents that the
    gate's file has held. *)
Record World : Type := mk_world {
  ctl : Controller; previous : Sample; previous_time : f64; telemetry_errors : Z; stopping : bool;
  kern : Kernel; saved : option ControllerConfig; published_document : option Document; effects : nat;
  seen : list (Kernel * ControllerConfig); written : list Document }.

(** ** Operations *)

Definition M (A : Type) : Type := World -> option A * World.
Definition ret {A : Type} (a : A) : M A := fun w => (Some a, w).
Definition raise {A : Type} : M A := fun w => (None, w).
Definition bind {A B : Type} (m : M A) (f : A -> M B) : M B :=
  fun w => match m w with (Some a, w) => f a w | (None, w) => (None, w) end.
Definition get {A : Type} (f : World -> A) : M A := fun w => (Some (f w), w).
Definition modify (f : World -> World) : M unit := fun w => (Some tt, f w).
Definition lift {A : Type} (o : exec A) : M A := fun w => (o, w).
(** [try ... finally]: the last exception is the one that leaves. *)
Definition finally (m : M unit) (after : M unit) : M unit :=
  fun w => match m w with (r, w) => match after w with (Some _, w) => (r, w) | (None, w) => (None, w) end end.

Declare Scope daemon_scope.
Delimit Scope daemon_scope with daemon.
Notation "x <- m ; f" := (bind m (fun x => f)) (at level 200, m at level 100, f at level 200, right associativity) : daemon_scope.
Notation "m ;; f" := (bind m (fun _ => f)) (at level 100, f at level 200, right associativity) : daemon_scope.
Local Open Scope daemon_scope.

Definition next (w : World) : World :=
  mk_world (ctl w) (previous w) (previous_time w) (telemetry_errors w) (stopping w) (kern w) (saved w) (published_document w) (S (effects w)) (seen w) (written w).
Definition set_ctl (k : Controller) (w : World) : World :=
  mk_world k (previous w) (previous_time w) (telemetry_errors w) (stopping w) (kern w) (saved w) (published_document w) (effects w) (seen w) (written w).
Definition set_stopping (w : World) : World :=
  mk_world (ctl w) (previous w) (previous_time w) (telemetry_errors w) true (kern w) (saved w) (published_document w) (effects w) (seen w) (written w).
Definition set_kern (k : Kernel) (w : World) : World :=
  mk_world (ctl w) (previous w) (previous_time w) (telemetry_errors w) (stopping w) k (saved w) (published_document w) (effects w)
    ((k, cfg (ctl w)) :: seen w) (written w).
Definition set_saved (c : ControllerConfig) (w : World) : World :=
  mk_world (ctl w) (previous w) (previous_time w) (telemetry_errors w) (stopping w) (kern w) (Some c) (published_document w) (effects w) (seen w) (written w).
Definition set_document (d : Document) (w : World) : World :=
  mk_world (ctl w) (previous w) (previous_time w) (telemetry_errors w) (stopping w) (kern w) (saved w) (Some d) (effects w) (seen w) (d :: written w).
Definition set_previous (s : Sample) (t : f64) (w : World) : World :=
  mk_world (ctl w) s t (telemetry_errors w) (stopping w) (kern w) (saved w) (published_document w) (effects w) (seen w) (written w).
Definition add_errors (n : Z) (w : World) : World :=
  mk_world (ctl w) (previous w) (previous_time w) (telemetry_errors w + n) (stopping w) (kern w) (saved w) (published_document w) (effects w) (seen w) (written w).

Definition with_machine (k : Controller) (a : Adaptive) : Controller := mk_controller (cfg k) a (current_mode k) (generation k).
Definition with_mode (k : Controller) (m : Z) : Controller := mk_controller (cfg k) (machine k) m (generation k).
Definition with_cfg (k : Controller) (c : ControllerConfig) : Controller := mk_controller c (machine k) (current_mode k) (generation k).

Section Daemon.
Variable env : Env.
(** [float] of a text, and [ipaddress.ip_network] as the canonical text. *)
Variable parse_float : list Z -> option f64.
Variable network : string -> option string.

(** One effect. *)
Definition effect (f : World -> World) : M unit := fun w =>
  match outcome env (effects w) with
  | Done => (Some tt, f (next w))
  | Failed => (None, next w)
  | Late => (None, f (next w))
  end.
(** A reading of the environment. *)
Definition ask {A : Type} (f : nat -> A) : M A := fun w => (Some (f (effects w)), next w).

Definition loader (x : Call) : M unit := effect (fun w => set_kern (call (kern w) x) w).
(** Effects on what is not modelled: the loader's queries and attachments, the metrics and the history, the socket. *)
Definition elsewhere : M unit := effect id.

(** [lease]; the arguments are computed first, and the loader may refuse them. *)
Definition renew (seconds : option Z) : M unit :=
  k <- get ctl;
  mono <- ask (monotonic_ns env);
  c <- lift (lease k (default (lease_seconds (cfg k)) seconds) mono);
  loader (SetConfig c).

(** [publish]: the generation is taken before the document is written. *)
Definition publish_document (expired : bool) : M unit :=
  k <- get ctl;
  now <- ask (unix env);
  modify (set_ctl (snd (publish k expired now)));;
  effect (set_document (fst (publish k expired now))).

(** [prepare]. [None] from [loader_policy] is its exception; a policy that is cut off leaves torn tries. *)
Definition load_policy (c : ControllerConfig) : M unit := fun w =>
  let k := kern w in
  match outcome env (effects w) with
  | Done => (Some tt, set_kern (mk_kernel (k_config k) (allow_map c) (block_map c)) (next w))
  | Failed => (None, next w)
  | Late => let t := torn env (effects w) in (None, set_kern (mk_kernel (k_config k) (fst t) (snd t)) (next w))
  end.
Definition prepare : M unit :=
  k <- get ctl;
  elsewhere;; elsewhere;;
  lift (loader_policy (cfg k));;
  renew (Some 0);;
  load_policy (cfg k).

(** [tick]. A machine whose sample raised is left in some state. *)
Definition sample_machine (signals : Signals) (now : f64) : M unit :=
  k <- get ctl;
  n <- get effects;
  match Adaptive.sample (adaptive_cfg (cfg k)) (machine k) signals now with
  | Some a => modify (set_ctl (with_machine k a))
  | None => modify (set_ctl (with_machine k (wreck env n)));; raise
  end.

Definition tick_once : M unit :=
  now <- ask (monotonic env);
  r <- ask (readings env);
  modify (add_errors (sample_errors parse_float r));;
  let current := collect_sample parse_float r in
  p <- get previous; t <- get previous_time;
  signals <- lift (Telemetry.rates p current (f64_sub now t));
  modify (set_previous current now);;
  sample_machine signals now;;
  k <- get ctl;
  m <- lift (select_mode (cfg k) (machine k));
  modify (set_ctl (with_mode k m));;
  publish_document false;;
  renew None;;
  elsewhere.

(** The configuration that a command asks for. *)
Definition with_manual_mode (c : ControllerConfig) (m : string) : ControllerConfig :=
  mk_controller_config (observed c) m (lease_seconds c) (cover_ipv6 c) (tcp_fragments c) (owned_prefixes c) (allow_prefixes c)
    (block_prefixes c) (bogon_prefixes c) (protected_tcp_ports c) (drop_tcp_ports c) (drop_udp_ports c) (syn_per_cpu c) (adaptive_cfg c) (other_bytes c).
Definition with_observed (c : ControllerConfig) (o : bool) : ControllerConfig :=
  mk_controller_config o (manual_mode c) (lease_seconds c) (cover_ipv6 c) (tcp_fragments c) (owned_prefixes c) (allow_prefixes c)
    (block_prefixes c) (bogon_prefixes c) (protected_tcp_ports c) (drop_tcp_ports c) (drop_udp_ports c) (syn_per_cpu c) (adaptive_cfg c) (other_bytes c).
Definition with_lists (c : ControllerConfig) (allow block : list string) : ControllerConfig :=
  mk_controller_config (observed c) (manual_mode c) (lease_seconds c) (cover_ipv6 c) (tcp_fragments c) (owned_prefixes c) allow
    block (bogon_prefixes c) (protected_tcp_ports c) (drop_tcp_ports c) (drop_udp_ports c) (syn_per_cpu c) (adaptive_cfg c) (other_bytes c).

(** [sorted(values)] after [add] or [discard]. *)
Definition change_list (removed : bool) (n : string) (l : list string) : list string :=
  if removed then sorted_union (filter (fun x => x <> n) l) [] else sorted_union l [n].

Definition change (args : list string) (c : ControllerConfig) : exec ControllerConfig :=
  match args with
  | [verb; x] =>
    if bool_decide (verb = "mode"%string) && bool_decide (x ∈ MODES ++ ["auto"%string]) then Some (with_manual_mode c x)
    else if bool_decide (verb = "observe"%string) && bool_decide (x ∈ ["on"; "off"]%string) then Some (with_observed c (bool_decide (x = "on"%string)))
    else if bool_decide (verb ∈ ["allow"; "unallow"; "block"; "unblock"]%string) then
      n ← network x;
      let removed := bool_decide (verb ∈ ["unallow"; "unblock"]%string) in
      if bool_decide (verb ∈ ["allow"; "unallow"]%string)
      then Some (with_lists c (change_list removed n (allow_prefixes c)) (block_prefixes c))
      else Some (with_lists c (allow_prefixes c) (change_list removed n (block_prefixes c)))
    else None
  | _ => None
  end.

(** [set(a) - set(b)], in the order in which it is iterated. *)
Definition difference_of (a b : list string) : M (list string) :=
  n <- get effects; ret (set_order env n (filter (fun x => x ∉ b) a)).

Fixpoint run_calls (l : list Call) : M unit :=
  match l with [] => ret tt | x :: l => loader x;; run_calls l end.

(** One turn of the loop over the two tries. *)
Definition change_trie (blocked : bool) (bogons old new : list string) (reason : Z) : M unit :=
  gone <- difference_of old new;
  fresh <- difference_of new old;
  run_calls (trie_calls blocked bogons gone fresh reason).

(** The part of [command] that is inside of its [try]. *)
Definition commit (c : ControllerConfig) : M unit :=
  k <- get ctl;
  let old := cfg k in
  renew (Some 0);;
  change_trie false (bogon_prefixes c) (allow_prefixes old) (allow_prefixes c) PREFIX_MARKER;;
  change_trie true (bogon_prefixes c) (block_prefixes old) (block_prefixes c) MANUAL_BLOCK_REASON;;
  effect (set_saved c);;
  k <- get ctl;
  modify (set_ctl (with_cfg k c));;
  m <- lift (select_mode c (machine k));
  k <- get ctl;
  modify (set_ctl (with_mode k m));;
  publish_document false;;
  renew None.

(** [except Exception: self.stopping = True; raise]. *)
Definition or_stop (m : M unit) : M unit := fun w =>
  match m w with (Some a, w) => (Some a, w) | (None, w) => (None, set_stopping w) end.

Definition is_query (args : list string) : bool :=
  bool_decide (args ∈ [["status"]; ["stats"]; ["config"; "show"]]%string).
(** [xdp status], [xdp attach], [xdp detach]: calls of the loader that change no map. *)
Definition is_xdp (args : list string) : bool :=
  match args with verb :: action :: rest =>
    bool_decide (verb = "xdp"%string) &&
    (bool_decide (action = "status"%string) && bool_decide (rest = []) || bool_decide (action = "attach"%string) && (Z.of_nat (length rest) <=? 1) ||
     bool_decide (action = "detach"%string) && (Z.of_nat (length rest) =? 1))
  | _ => false end.

Definition command (args : list string) : M unit :=
  if is_query args then ret tt
  else if is_xdp args then elsewhere;; elsewhere;; elsewhere
  else
    k <- get ctl;
    c <- lift (change args (cfg k));
    if validate_policy c then or_stop (commit c) else raise.

(** [cleanup]. *)
Definition cleanup : M unit := finally (publish_document true) (finally (renew (Some 0)) elsewhere).

(** ** The loop *)

(** An iteration of the loop: a tick that is due, a client with its arguments, or with a request that is none or could not be
    accepted, a signal. *)
Inductive Event : Type := Tick | Client (args : option (list string)) | Signal.

(** [except (ValueError, OSError, subprocess.SubprocessError)]: any other exception leaves the loop, and so does one of [accept]. *)
Definition respond (m : M unit) : M unit := fun w =>
  match m w with
  | (Some a, w) => (Some a, w)
  | (None, w) => if caught env (effects w) then (Some tt, w) else (None, w)
  end.

(** One iteration; [None] is an exception that leaves the loop. *)
Definition handle (e : Event) : M unit :=
  match e with
  | Tick => tick_once
  | Client None => respond raise
  | Client (Some args) => respond (command args)
  | Signal => modify set_stopping
  end.

(** [while not self.stopping], and [finally]: whether the process has ended, and the world. *)
Fixpoint serve (events : list Event) (w : World) : bool * World :=
  if stopping w then (true, snd (cleanup w)) else
  match events with
  | [] => (false, w)
  | e :: events => match handle e w with
    | (Some _, w) => serve events w
    | (None, w) => (true, snd (cleanup w))
    end
  end.

(** [run]: an exception of [prepare] ends it without the cleanup. *)
Definition run (events : list Event) (w : World) : bool * World :=
  match prepare w with (Some _, w) => serve events w | (None, w) => (true, w) end.

(** [Controller.__init__], over any kernel and files. *)
Definition start (c : ControllerConfig) (now : f64) (time_ns : Z) (k : Kernel) (d : option Document) : World :=
  mk_world (Controller_init c now time_ns) ∅ now 0 false k (Some c) d 0 [] [].
End Daemon.
