(* ===== verification/DaemonProps.v ===== *)
(** * What the controller's process guarantees

    Whatever fails: the kernel never enforces with maps that are not those of one configuration, a command is carried out or
    stops the process, and once it has ended nothing is dropped 15 seconds later. Proved with triples over the operations;
    an operation that raised satisfies the last condition. *)
From stdpp Require Import base option list gmap strings sorting.
From S2P Require Import Prelude Machine Float64 PyNum XdpParse Adaptive AdaptiveProps AdaptiveRun XdpFilter XdpProps Controller ControllerProps Telemetry Loader Daemon.
From Stdlib Require Import ZArith Lia.
Local Open Scope Z_scope.

(** ** Triples *)

Definition hoare {A : Type} (P : World -> Prop) (m : M A) (Q : A -> World -> Prop) (E : World -> Prop) : Prop :=
  forall w, P w -> match m w with (Some a, w') => Q a w' | (None, w') => E w' end.

Lemma hoare_bind {A B : Type} (P E : World -> Prop) (m : M A) (f : A -> M B) (Q : A -> World -> Prop) (R : B -> World -> Prop) :
  hoare P m Q E -> (forall a, hoare (Q a) (f a) R E) -> hoare P (bind m f) R E.
Proof. intros Hm Hf w Pw. specialize (Hm w Pw). unfold bind. destruct (m w) as [[a |] w']; [exact (Hf a w' Hm) | exact Hm]. Qed.

Lemma hoare_weaken {A : Type} (P P' E E' : World -> Prop) (m : M A) (Q Q' : A -> World -> Prop) :
  hoare P' m Q' E' -> (forall w, P w -> P' w) -> (forall a w, Q' a w -> Q a w) -> (forall w, E' w -> E w) -> hoare P m Q E.
Proof. intros Hm HP HQ HE w Pw. specialize (Hm w (HP w Pw)). destruct (m w) as [[a |] w']; auto. Qed.

Lemma hoare_get {A : Type} (P E : World -> Prop) (f : World -> A) : hoare P (get f) (fun a w => P w /\ a = f w) E.
Proof. intros w Pw. cbn. auto. Qed.
Lemma hoare_ret {A : Type} (P E : World -> Prop) (a : A) : hoare P (ret a) (fun _ => P) E.
Proof. intros w Pw. exact Pw. Qed.
Lemma hoare_raise {A : Type} (P : World -> Prop) (Q : A -> World -> Prop) : hoare P raise Q P.
Proof. intros w Pw. exact Pw. Qed.
Lemma hoare_lift {A : Type} (P : World -> Prop) (o : exec A) : hoare P (lift o) (fun a w => P w /\ o = Some a) P.
Proof. intros w Pw. unfold lift. destruct o; auto. Qed.
Lemma hoare_modify (P : World -> Prop) (Q : unit -> World -> Prop) (E : World -> Prop) (f : World -> World) :
  (forall w, P w -> Q tt (f w)) -> hoare P (modify f) Q E.
Proof. intros H w Pw. exact (H w Pw). Qed.

(** ** Operations that leave the kernel and the configuration alone *)

Definition quiet (w w' : World) : Prop :=
  cfg (ctl w') = cfg (ctl w) /\ kern w' = kern w /\ seen w' = seen w /\ saved w' = saved w /\ (effects w <= effects w')%nat.
Definition stable (P : World -> Prop) : Prop := forall w w', quiet w w' -> P w -> P w'.
Definition quietly {A : Type} (m : M A) : Prop := forall w, quiet w (snd (m w)).

Lemma quiet_refl (w : World) : quiet w w.
Proof. unfold quiet. auto. Qed.
Lemma quiet_trans (w1 w2 w3 : World) : quiet w1 w2 -> quiet w2 w3 -> quiet w1 w3.
Proof. unfold quiet. intros (? & ? & ? & ? & ?) (? & ? & ? & ? & ?). split_and!; congruence || lia. Qed.
Lemma quietly_bind {A B : Type} (m : M A) (f : A -> M B) : quietly m -> (forall a, quietly (f a)) -> quietly (bind m f).
Proof.
  intros Hm Hf w. unfold bind. specialize (Hm w). destruct (m w) as [[a |] w']; cbn [snd] in *; [| exact Hm].
  eapply quiet_trans; [exact Hm | apply Hf].
Qed.
Lemma quietly_get {A : Type} (f : World -> A) : quietly (get f).
Proof. intros w. apply quiet_refl. Qed.
Lemma quietly_ret {A : Type} (a : A) : quietly (ret a).
Proof. intros w. apply quiet_refl. Qed.
Lemma quietly_raise {A : Type} : quietly (@raise A).
Proof. intros w. apply quiet_refl. Qed.
Lemma quietly_lift {A : Type} (o : exec A) : quietly (lift o).
Proof. intros w. apply quiet_refl. Qed.
Lemma quietly_modify (f : World -> World) : (forall w, quiet w (f w)) -> quietly (modify f).
Proof. intros H w. apply H. Qed.
Lemma quiet_next (w : World) : quiet w (next w).
Proof. unfold quiet. cbn. split_and!; auto. Qed.

Lemma hoare_quiet {A : Type} (P E : World -> Prop) (m : M A) :
  quietly m -> stable P -> (forall w, P w -> E w) -> hoare P m (fun _ => P) E.
Proof.
  intros Qm S I w Pw. pose proof (S w (snd (m w)) (Qm w) Pw) as P'. destruct (m w) as [[a |] w']; cbn [snd] in P'; auto.
Qed.

Create HintDb daemon discriminated.
#[export] Hint Resolve quietly_bind quietly_get quietly_ret quietly_raise quietly_lift quiet_refl quiet_next : daemon.

(** [commit] after its work on the tries, and after it has read the configuration. *)
Definition commit_tail (env : Env) (c : ControllerConfig) : M unit := (
  effect env (set_saved c);;
  k <- get ctl;
  modify (set_ctl (with_cfg k c));;
  m <- lift (select_mode c (machine k));
  k <- get ctl;
  modify (set_ctl (with_mode k m));;
  publish_document env false;;
  renew env None)%daemon.
Definition commit_rest (env : Env) (old c : ControllerConfig) : M unit := (
  renew env (Some 0);;
  change_trie env false (bogon_prefixes c) (allow_prefixes old) (allow_prefixes c) PREFIX_MARKER;;
  change_trie env true (bogon_prefixes c) (block_prefixes old) (block_prefixes c) MANUAL_BLOCK_REASON;;
  commit_tail env c)%daemon.

Section Props.
Context (env : Env).

Lemma quietly_ask {A : Type} (f : nat -> A) : quietly (ask f).
Proof using Type. intros w. apply quiet_next. Qed.
Lemma quietly_effect (f : World -> World) : (forall w, quiet w (f w)) -> quietly (effect env f).
Proof using Type.
  intros H w. unfold effect. destruct (outcome env (effects w)); cbn [snd]; try apply quiet_next;
    (eapply quiet_trans; [apply quiet_next | apply H]).
Qed.
Lemma quietly_elsewhere : quietly (elsewhere env).
Proof using Type. apply quietly_effect. intros w. apply quiet_refl. Qed.
Lemma quietly_publish (expired : bool) : quietly (publish_document env expired).
Proof using Type.
  intros w. unfold publish_document, bind, get, ask, modify. cbn [snd].
  match goal with |- context [effect env ?f ?x] => apply (quiet_trans _ x); [unfold quiet; cbn; split_and!; auto | apply (quietly_effect f)] end.
  intros v. unfold quiet. cbn. auto.
Qed.
#[local] Hint Resolve quietly_ask quietly_elsewhere quietly_publish : daemon.

(** A tick, up to the renewal of the lease. *)
Lemma quietly_machine (s : Signals) (now : f64) : quietly (sample_machine env s now).
Proof using Type.
  intros w. unfold sample_machine, bind, get. destruct (Adaptive.sample _ _ _ _); cbn; unfold quiet; cbn; auto.
Qed.
#[local] Hint Resolve quietly_machine : daemon.

(** ** The invariant *)

(** The maps and the flags of the kernel's configuration are those of [c]. *)
Definition settled_maps (c : ControllerConfig) (k : Kernel) : Prop := k_allow k = allow_map c /\ k_block k = block_map c.
Definition in_force (c : ControllerConfig) (k : Kernel) : Prop :=
  settled_maps c k /\ observe (k_config k) = Z.b2z (observed c) /\ ipv6 (k_config k) = Z.b2z (cover_ipv6 c) /\
  drop_tcp_fragments (k_config k) = Z.b2z (tcp_fragments c).
(** Either the kernel enforces nothing, or it has all of one validated configuration. *)
Definition safe (c : ControllerConfig) (k : Kernel) : Prop :=
  lease_ns (k_config k) = 0 \/ (in_force c k /\ validate_policy c = true).

(** The lease ends at most 15 seconds after the clock was read last. *)
Definition soon (n : nat) (k : Kernel) : Prop := lease_ns (k_config k) = 0 \/ lease_ns (k_config k) <= monotonic_ns env n + 15000000000.

Record Inv (w : World) : Prop := {
  inv_valid : validate_policy (cfg (ctl w)) = true;
  inv_seen : Forall (fun kc => safe (snd kc) (fst kc) /\ soon (effects w) (fst kc)) (seen w);
  inv_last : seen w = [] \/ (safe (cfg (ctl w)) (kern w) /\ head (fst <$> seen w) = Some (kern w)) }.

(** The tries are those of the configuration; the lease has ended. *)
Definition Settled (w : World) : Prop := Inv w /\ settled_maps (cfg (ctl w)) (kern w) /\ seen w <> [].
Definition Expired (w : World) : Prop := Inv w /\ lease_ns (k_config (kern w)) = 0 /\ seen w <> [].

Hypothesis clock : forall m n, (m <= n)%nat -> monotonic_ns env m <= monotonic_ns env n.

Lemma inv_stable : stable Inv.
Proof using clock.
  intros w w' (C & K & S & _ & N) [V F L]. split; rewrite ?C, ?K, ?S; [exact V | | exact L].
  eapply Forall_impl; [exact F |]. intros kc [A B]. split; [exact A |]. destruct B as [B | B]; [now left |]. right.
  pose proof (clock _ _ N). lia.
Qed.
Lemma settled_stable : stable Settled.
Proof using clock.
  intros w w' Q (I & M & N). split; [exact (inv_stable w w' Q I) |]. destruct Q as (-> & -> & -> & _). split; assumption.
Qed.
Lemma expired_stable : stable Expired.
Proof using clock.
  intros w w' Q (I & M & N). split; [exact (inv_stable w w' Q I) |]. destruct Q as (_ & -> & -> & _). split; assumption.
Qed.

(** A change of the kernel that is safe. *)
Lemma inv_set_kern (w : World) (k : Kernel) :
  Inv w -> safe (cfg (ctl w)) k -> soon (effects w) k -> Inv (set_kern k w).
Proof using Type.
  intros [V F L] S B. split; [exact V | | right; cbn; auto]. cbn [seen set_kern]. apply Forall_cons. cbn. auto.
Qed.

Lemma hoare_loader (P : World -> Prop) (x : Call) (Q E : World -> Prop) :
  (forall w, P w -> E (next w) /\ Q (set_kern (call (kern w) x) (next w)) /\ E (set_kern (call (kern w) x) (next w))) ->
  hoare P (loader env x) (fun _ => Q) E.
Proof using Type.
  intros H w Pw. destruct (H w Pw) as (A & B & C). unfold loader, effect. destruct (outcome env (effects w)); assumption.
Qed.

(** What [lease] computes is what the configuration says. *)
Lemma lease_fields (k : Controller) (seconds mono : Z) (c : config) :
  lease k seconds mono = Some c ->
  lease_ns c = (if seconds =? 0 then 0 else mono + seconds * 1000000000) /\ observe c = Z.b2z (observed (cfg k)) /\
  ipv6 c = Z.b2z (cover_ipv6 (cfg k)) /\ drop_tcp_fragments c = Z.b2z (tcp_fragments (cfg k)).
Proof using Type.
  unfold lease. destruct (current_budget k) as [b |]; [| discriminate]. cbn [mbind option_bind]. unfold loader_config.
  destruct (_ && _); [| discriminate]. intros [= <-]. auto.
Qed.

(** [lease(0)], from any state: if it returns, the lease has ended, and the tries stand. *)
Lemma expire_spec (c : ControllerConfig) (t : gmap string Z * gmap string Z) (sv : option ControllerConfig) :
  let here w := cfg (ctl w) = c /\ (k_allow (kern w), k_block (kern w)) = t /\ saved w = sv in
  hoare (fun w => Inv w /\ here w) (renew env (Some 0)) (fun _ w => Expired w /\ here w) (fun w => Inv w /\ here w).
Proof using clock.
  intros here. assert (Sh : stable (fun w => Inv w /\ here w)).
  { intros w w' Q [I (Hc & Ht & Hs)]. split; [exact (inv_stable w w' Q I) |]. unfold here in *. destruct Q as (-> & -> & _ & -> & _). now split_and!. }
  unfold renew. eapply hoare_bind; [apply hoare_get |]. intros k. cbn beta.
  eapply hoare_bind; [eapply (hoare_weaken _ (fun w => Inv w /\ here w) _ (fun w => Inv w /\ here w)); [apply hoare_quiet; [apply quietly_ask | exact Sh | auto] | tauto | | tauto] |].
  { intros a w H. exact H. }
  intros mono. eapply hoare_bind; [apply hoare_lift |]. intros cf. cbn beta. apply hoare_loader. intros w [[I Hh] E].
  pose proof (Sh w (next w) (quiet_next w) (conj I Hh)) as [In Hn]. split; [exact (conj In Hn) |].
  cbn [default from_option] in E. unfold id in E. apply lease_fields in E as (L & _). cbn in L.
  assert (In' : Inv (set_kern (call (kern w) (SetConfig cf)) (next w))).
  { apply inv_set_kern; [exact In | left; exact L | left; exact L]. }
  split; [split; [split; [exact In' | split; [exact L | discriminate]] |] | split; [exact In' |]]; exact Hn.
Qed.

(** Facts about the configuration and the file that no change of the kernel touches. *)
Definition at_cfg (c : ControllerConfig) (sv : option ControllerConfig) (w : World) : Prop := cfg (ctl w) = c /\ saved w = sv.
Lemma at_stable (c : ControllerConfig) (sv : option ControllerConfig) (P : World -> Prop) :
  stable P -> stable (fun w => P w /\ at_cfg c sv w).
Proof using Type.
  intros S w w' Q [Pw [A B]]. split; [exact (S w w' Q Pw) |]. unfold at_cfg. destruct Q as (-> & _ & _ & -> & _). now split.
Qed.

(** A step that only reads, between two conditions. *)
Lemma hoare_reads {A : Type} (P E : World -> Prop) (m : M A) : quietly m -> stable P -> (forall w, P w -> E w) -> hoare P m (fun _ => P) E.
Proof using Type. apply hoare_quiet. Qed.

(** The renewal of the lease, when the tries are those of the configuration. *)
Lemma renew_spec (c : ControllerConfig) (sv : option ControllerConfig) :
  hoare (fun w => Settled w /\ at_cfg c sv w) (renew env None) (fun _ w => Settled w /\ at_cfg c sv w) Inv.
Proof using clock.
  assert (Sh : stable (fun w => Settled w /\ at_cfg c sv w)) by apply at_stable, settled_stable.
  assert (Weak : forall w, Settled w /\ at_cfg c sv w -> Inv w) by (intros w [[I _] _]; exact I).
  unfold renew. eapply hoare_bind; [apply hoare_get |]. intros k. cbn beta.
  intros w [H Ek]. unfold bind, ask. cbn beta iota. unfold lift.
  destruct (lease k _ _) as [cf |] eqn:L; [| exact (Weak _ (Sh w (next w) (quiet_next w) H))].
  pose proof (Sh w (next w) (quiet_next w) H) as H1. apply lease_fields in L as (Ln & Ob & V6 & Fr). subst k.
  cbn [default from_option] in Ln.
  assert (G : forall w1, quiet w w1 -> (effects w < effects w1)%nat -> Settled w1 /\ at_cfg c sv w1 ->
    Settled (set_kern (call (kern w1) (SetConfig cf)) w1) /\ at_cfg c sv (set_kern (call (kern w1) (SetConfig cf)) w1)).
  { intros w1 Q N [[I [[Ma Mb] Ne]] Hc]. destruct Q as (Cq & _). rewrite <- Cq in Ln, Ob, V6, Fr. pose proof (inv_valid _ I) as V.
    destruct (valid_parts (cfg (ctl w1)) V) as (_ & Le & _).
    assert (Sf : safe (cfg (ctl w1)) (call (kern w1) (SetConfig cf))).
    { right. split; [| exact V]. split; [split; assumption |]. cbn. now split_and!. }
    split; [split; [| split; [split; assumption | discriminate]] | exact Hc]. apply inv_set_kern; [exact I | exact Sf |].
    right. cbn [call k_config]. rewrite Ln. destruct (lease_seconds (cfg (ctl w1)) =? 0) eqn:Z0; [lia |].
    pose proof (clock (effects w) (effects w1) ltac:(lia)). lia. }
  unfold loader, effect. cbn [effects next]. destruct (outcome env (S (effects w))).
  - apply G; [exact (quiet_trans _ _ _ (quiet_next w) (quiet_next _)) | cbn; lia | exact (Sh _ _ (quiet_next _) H1)].
  - apply Weak. exact (Sh _ _ (quiet_next _) H1).
  - apply Weak. apply G; [exact (quiet_trans _ _ _ (quiet_next w) (quiet_next _)) | cbn; lia | exact (Sh _ _ (quiet_next _) H1)].
Qed.

(** Calls for the tries, while the lease has ended. *)
Lemma run_calls_spec (l : list Call) (k0 : Kernel) (c : ControllerConfig) (sv : option ControllerConfig) :
  Forall (fun x => touches false x \/ touches true x) l ->
  hoare (fun w => (Expired w /\ kern w = k0) /\ at_cfg c sv w) (run_calls env l)
    (fun _ w => (Expired w /\ kern w = calls k0 l) /\ at_cfg c sv w) Inv.
Proof using clock.
  revert k0. induction l as [| x l IH]; intros k0 F; [exact (hoare_ret _ _ tt) |]. apply Forall_cons_1 in F as [Tx F]. cbn [run_calls].
  apply (hoare_bind _ _ _ _ (fun _ w => (Expired w /\ kern w = call k0 x) /\ at_cfg c sv w)); [| intros _; exact (IH (call k0 x) F)].
  apply hoare_loader. intros w [[Ex Ek] At].
  pose proof (expired_stable w (next w) (quiet_next w) Ex) as (I & L & N). subst k0.
  assert (L' : lease_ns (k_config (call (kern w) x)) = 0) by (destruct x as [cf | [] n v | [] n]; cbn in Tx; [tauto | exact L ..]).
  assert (I' : Inv (set_kern (call (kern w) x) (next w))) by (apply inv_set_kern; [exact I | left; exact L' | left; exact L']).
  split; [exact I |]. split; [| exact I']. split; [| exact At]. split; [| reflexivity]. split; [exact I' | split; [exact L' | discriminate]].
Qed.

Hypothesis order : forall n l, set_order env n l ≡ₚ l.

Lemma order_elem (n : nat) (a b : list string) (x : string) : x ∈ set_order env n (filter (fun y => y ∉ b) a) <-> x ∈ a /\ x ∉ b.
Proof using order. rewrite (order n), list_elem_of_filter. tauto. Qed.

(** One trie of a command: what it holds then. *)
Lemma change_trie_spec (blocked : bool) (bogons old new : list string) (r : Z) (k0 : Kernel) (c : ControllerConfig) (sv : option ControllerConfig) :
  let wanted l n := if decide (n ∈ l) then Some r else if blocked && bool_decide (n ∈ bogons) then Some BOGON_REASON else None in
  (forall n, trie blocked k0 !! n = wanted old n) ->
  hoare (fun w => (Expired w /\ kern w = k0) /\ at_cfg c sv w) (change_trie env blocked bogons old new r)
    (fun _ w => (Expired w /\ (forall n, trie blocked (kern w) !! n = wanted new n) /\
      trie (negb blocked) (kern w) = trie (negb blocked) k0) /\ at_cfg c sv w) Inv.
Proof using clock order.
  intros wanted T w Pw. unfold change_trie, difference_of, bind, get, ret. cbn beta iota.
  set (gone := set_order env (effects w) (filter (fun x => x ∉ new) old)). set (fresh := set_order env (effects w) (filter (fun x => x ∉ old) new)).
  pose proof (trie_calls_touch blocked bogons gone fresh r) as Tc.
  assert (F : Forall (fun x => touches false x \/ touches true x) (trie_calls blocked bogons gone fresh r))
    by (eapply Forall_impl; [exact Tc | intros x; destruct blocked; tauto]).
  pose proof (run_calls_spec _ k0 c sv F w Pw) as H. destruct (run_calls env _ w) as [[[] |] w']; [| exact H].
  destruct H as [[Ex Ek] At]. split; [| exact At]. split; [exact Ex |]. rewrite Ek. split.
  - intros n. apply (trie_calls_exact blocked bogons old new gone fresh r k0); [| | exact T]; intros x; apply order_elem.
  - apply calls_other, Tc.
Qed.

(** The same with what the other trie holds. *)
Definition half_done (blocked : bool) (bogons l : list string) (r : Z) (other : gmap string Z) (w : World) : Prop :=
  (forall n, trie blocked (kern w) !! n =
    if decide (n ∈ l) then Some r else if blocked && bool_decide (n ∈ bogons) then Some BOGON_REASON else None) /\
  trie (negb blocked) (kern w) = other.

Lemma change_trie_half (blocked : bool) (bogons old new : list string) (r : Z) (other : gmap string Z) (c : ControllerConfig)
  (sv : option ControllerConfig) :
  hoare (fun w => (Expired w /\ half_done blocked bogons old r other w) /\ at_cfg c sv w) (change_trie env blocked bogons old new r)
    (fun _ w => (Expired w /\ half_done blocked bogons new r other w) /\ at_cfg c sv w) Inv.
Proof using clock order.
  intros w [[Ex [T O]] At]. pose proof (change_trie_spec blocked bogons old new r (kern w) c sv T w (conj (conj Ex eq_refl) At)) as H.
  destruct (change_trie env blocked bogons old new r w) as [[[] |] w']; [| exact H]. destruct H as [(Ex' & T' & O') At'].
  split; [| exact At']. split; [exact Ex' |]. split; [exact T' | congruence].
Qed.

Lemma allow_half (c : ControllerConfig) (bogons : list string) (other : gmap string Z) (w : World) :
  half_done false bogons (allow_prefixes c) PREFIX_MARKER other w <-> k_allow (kern w) = allow_map c /\ k_block (kern w) = other.
Proof using Type.
  unfold half_done. cbn [trie negb andb]. split; intros [A B]; (split; [| exact B]).
  - apply map_eq. intros n. now rewrite A, allow_map_lookup.
  - intros n. now rewrite A, allow_map_lookup.
Qed.
Lemma block_half (c : ControllerConfig) (other : gmap string Z) (w : World) :
  half_done true (bogon_prefixes c) (block_prefixes c) MANUAL_BLOCK_REASON other w <-> k_block (kern w) = block_map c /\ k_allow (kern w) = other.
Proof using Type.
  unfold half_done. cbn [trie negb andb]. split; intros [A B]; (split; [| exact B]).
  - apply map_eq. intros n. now rewrite A, block_map_lookup.
  - intros n. now rewrite A, block_map_lookup.
Qed.

Lemma expired_inv (P : World -> Prop) (w : World) : Expired w /\ P w -> Inv w.
Proof using Type. intros [[I _] _]. exact I. Qed.

(** The new configuration takes over once the tries are its own. *)
Lemma switch_cfg (c : ControllerConfig) (w : World) :
  validate_policy c = true -> Expired w -> settled_maps c (kern w) -> saved w = Some c ->
  let w' := set_ctl (with_cfg (ctl w) c) w in Settled w' /\ at_cfg c (Some c) w'.
Proof using Type.
  intros V ([_ F L] & E & N) M S w'. split; [| split; [reflexivity | exact S]].
  split; [| split; [exact M | exact N]]. split; [exact V | exact F |]. right. split; [left; exact E |]. destruct L as [L | [_ L]]; [done | exact L].
Qed.

Lemma commit_tail_spec (old c : ControllerConfig) (sv : option ControllerConfig) :
  validate_policy c = true ->
  hoare (fun w => (Expired w /\ settled_maps c (kern w)) /\ at_cfg old sv w) (commit_tail env c) (fun _ w => Settled w /\ at_cfg c (Some c) w) Inv.
Proof using clock.
  intros V.
  unfold commit_tail. apply (hoare_bind _ _ _ _ (fun _ w => Expired w /\ settled_maps c (kern w) /\ saved w = Some c)).
  { intros w [[Ex M] [Ck Sv]]. pose proof (expired_stable w (next w) (quiet_next w) Ex) as Ex'. unfold effect.
    assert (Is : Inv (set_saved c (next w))) by (destruct Ex' as [[V' F' L'] _]; split; assumption).
    destruct (outcome env (effects w)); [| exact (proj1 Ex') | exact Is]. split; [split; [exact Is | exact (proj2 Ex')] | now split]. }
  intros _. eapply hoare_bind; [apply hoare_get |]. intros k'. cbn beta.
  apply (hoare_bind _ _ _ _ (fun _ w => Settled w /\ at_cfg c (Some c) w)).
  { apply hoare_modify. intros w [(Ex & M & S) ->]. now apply switch_cfg. }
  intros _. assert (St : stable (fun w => Settled w /\ at_cfg c (Some c) w)) by apply at_stable, settled_stable.
  assert (We : forall w, Settled w /\ at_cfg c (Some c) w -> Inv w) by (intros w [[I _] _]; exact I).
  apply (hoare_bind _ _ _ _ (fun _ w => Settled w /\ at_cfg c (Some c) w)); [apply hoare_quiet; [apply quietly_lift | exact St | exact We] |]. intros m.
  eapply hoare_bind; [apply hoare_get |]. intros k2. cbn beta.
  apply (hoare_bind _ _ _ _ (fun _ w => Settled w /\ at_cfg c (Some c) w)).
  { apply hoare_modify. intros w [H ->]. apply (St w); [| exact H]. unfold quiet. now split_and!. }
  intros _. apply (hoare_bind _ _ _ _ (fun _ w => Settled w /\ at_cfg c (Some c) w)); [apply hoare_quiet; [apply quietly_publish | exact St | exact We] |].
  intros _. apply renew_spec.
Qed.

Lemma commit_spec (old c : ControllerConfig) (sv : option ControllerConfig) :
  validate_policy c = true -> bogon_prefixes c = bogon_prefixes old ->
  hoare (fun w => Settled w /\ at_cfg old sv w) (commit env c) (fun _ w => Settled w /\ at_cfg c (Some c) w) Inv.
Proof using clock order.
  intros V Bo. unfold commit. eapply hoare_bind; [apply hoare_get |]. intros k. cbn beta zeta.
  intros w [[(I & [Ma Mb] & N) At] ->]. destruct At as [Ck Sv]. rewrite Ck in *.
  enough (H : hoare (fun w => (Inv w /\ cfg (ctl w) = old /\ (k_allow (kern w), k_block (kern w)) = (allow_map old, block_map old) /\ saved w = sv))
    (commit_rest env old c) (fun _ w => Settled w /\ at_cfg c (Some c) w) Inv) by (apply H; split_and!; congruence).
  clear w I Ma Mb N Ck Sv. unfold commit_rest.
  eapply hoare_bind; [eapply hoare_weaken; [apply (expire_spec old (allow_map old, block_map old) sv) | intros w H; exact H | intros a w H; exact H | intros w [I _]; exact I] |]. intros []. cbn beta.
  apply (hoare_bind _ _ _ _ (fun _ w => (Expired w /\ half_done false (bogon_prefixes c) (allow_prefixes c) PREFIX_MARKER (block_map old) w) /\ at_cfg old sv w)).
  { eapply hoare_weaken; [apply (change_trie_half false (bogon_prefixes c) (allow_prefixes old) (allow_prefixes c) PREFIX_MARKER (block_map old) old sv) | | auto | auto].
    intros w (Ex & Ck & T & Sv). injection T as Ta Tb. split; [split; [exact Ex |] | now split]. apply allow_half. now split. }
  intros _. apply (hoare_bind _ _ _ _ (fun _ w => (Expired w /\ settled_maps c (kern w)) /\ at_cfg old sv w)).
  { eapply hoare_weaken; [apply (change_trie_half true (bogon_prefixes c) (block_prefixes old) (block_prefixes c) MANUAL_BLOCK_REASON (allow_map c) old sv) | | | auto].
    - intros w ([Ex H] & At). apply allow_half in H as [A B]. split; [split; [exact Ex |] | exact At]. rewrite Bo. apply block_half. now split.
    - intros _ w ([Ex H] & At). apply block_half in H as [B A]. split; [split; [exact Ex | now split] | exact At]. }
  intros _. now apply commit_tail_spec.
Qed.

(** ** The process *)

Context (parse_float : list Z -> option f64) (network : string -> option string).

Lemma change_bogons (args : list string) (c c' : ControllerConfig) : change network args c = Some c' -> bogon_prefixes c' = bogon_prefixes c.
Proof using Type.
  unfold change. destruct args as [| verb [| x []]]; try discriminate. destruct (_ && _); [intros [= <-]; reflexivity |].
  destruct (_ && _); [intros [= <-]; reflexivity |]. case_bool_decide; [| discriminate]. destruct (network x) as [n |]; [| discriminate].
  cbn [mbind option_bind]. case_bool_decide; intros [= <-]; reflexivity.
Qed.

(** What a command may have done. *)
Definition answered (args : list string) (old : ControllerConfig) (sv : option ControllerConfig) (w : World) : Prop :=
  Settled w /\ ((at_cfg old sv w /\ (is_query args = true \/ is_xdp args = true)) \/
    exists c, change network args old = Some c /\ validate_policy c = true /\ at_cfg c (Some c) w).
Definition refused (old : ControllerConfig) (sv : option ControllerConfig) (w : World) : Prop :=
  Inv w /\ (stopping w = true \/ (Settled w /\ at_cfg old sv w)).

Lemma command_spec (args : list string) (old : ControllerConfig) (sv : option ControllerConfig) :
  hoare (fun w => Settled w /\ at_cfg old sv w) (command env network args) (fun _ => answered args old sv) (refused old sv).
Proof using clock order.
  assert (St : stable (fun w => Settled w /\ at_cfg old sv w)) by apply at_stable, settled_stable.
  unfold command. intros w Pw. destruct (is_query args) eqn:Qy; [split; [apply Pw | left; split; [apply Pw | now left]] |].
  destruct (is_xdp args) eqn:Xd.
  - assert (Qt : quietly (elsewhere env ;; elsewhere env ;; elsewhere env)%daemon) by (repeat (apply quietly_bind; [apply quietly_elsewhere | intros _]); apply quietly_elsewhere).
    specialize (Qt w). pose proof (St w _ Qt Pw) as P'. destruct ((elsewhere env ;; elsewhere env ;; elsewhere env)%daemon w) as [[[] |] w']; cbn [snd] in P'.
    + split; [apply P' | left; split; [apply P' | now right]].
    + split; [apply P' | now right].
  - unfold bind at 1. unfold get. cbn beta iota. unfold bind, lift. destruct Pw as [Sw At]. pose proof At as [Ck _]. rewrite Ck.
    destruct (change network args old) as [c |] eqn:Ch; [| split; [apply Sw | right; now split]].
    destruct (validate_policy c) eqn:V; [| split; [apply Sw | right; now split]].
    pose proof (commit_spec old c sv V (change_bogons args old c Ch) w (conj Sw At)) as H. unfold or_stop.
    destruct (commit env c w) as [[[] |] w'].
    + destruct H as [H1 H2]. split; [exact H1 | right; exists c; now split].
    + split; [| now left]. destruct H as [V' F L]. split; assumption.
Qed.

(** A tick. *)
Lemma tick_once_spec (c : ControllerConfig) (sv : option ControllerConfig) :
  hoare (fun w => Settled w /\ at_cfg c sv w) (tick_once env parse_float) (fun _ w => Settled w /\ at_cfg c sv w) Inv.
Proof using clock.
  assert (St : stable (fun w => Settled w /\ at_cfg c sv w)) by apply at_stable, settled_stable.
  assert (We : forall w, Settled w /\ at_cfg c sv w -> Inv w) by (intros w [[I _] _]; exact I).
  assert (Qb : forall A B (m : M A) (f : A -> M B), quietly m -> (forall a, hoare (fun w => Settled w /\ at_cfg c sv w) (f a) (fun _ w => Settled w /\ at_cfg c sv w) Inv) ->
    hoare (fun w => Settled w /\ at_cfg c sv w) (bind m f) (fun _ w => Settled w /\ at_cfg c sv w) Inv).
  { intros A B m f Hm Hf. apply (hoare_bind _ _ _ _ (fun _ w => Settled w /\ at_cfg c sv w)); [apply hoare_quiet; assumption | exact Hf]. }
  unfold tick_once.
  apply Qb; [apply quietly_ask | intros now]. apply Qb; [apply quietly_ask | intros r].
  apply Qb; [apply quietly_modify; intros w; unfold quiet; cbn; auto | intros _]. cbv zeta.
  apply Qb; [apply quietly_get | intros p]. apply Qb; [apply quietly_get | intros t]. apply Qb; [apply quietly_lift | intros s].
  apply Qb; [apply quietly_modify; intros w; unfold quiet; cbn; auto | intros _]. apply Qb; [apply quietly_machine | intros _].
  eapply hoare_bind; [apply hoare_get |]. intros k. cbn beta. intros w [Pw ->]. revert w Pw.
  intros w Pw. unfold bind at 1. unfold lift. destruct (select_mode _ _) as [m |]; [| exact (We w Pw)].
  unfold bind at 1. unfold modify.
  assert (P1 : Settled (set_ctl (with_mode (ctl w) m) w) /\ at_cfg c sv (set_ctl (with_mode (ctl w) m) w)).
  { apply (St w); [unfold quiet; cbn; auto | exact Pw]. }
  revert P1. generalize (set_ctl (with_mode (ctl w) m) w). clear w Pw.
  apply Qb; [apply quietly_publish | intros _].
  apply (hoare_bind _ _ _ _ (fun _ w => Settled w /\ at_cfg c sv w)); [apply renew_spec | intros _].
  apply hoare_quiet; [apply quietly_elsewhere | exact St | exact We].
Qed.

(** [prepare], on any kernel. *)
Lemma prepare_spec (c : ControllerConfig) (sv : option ControllerConfig) :
  hoare (fun w => Inv w /\ at_cfg c sv w) (prepare env) (fun _ w => Settled w /\ at_cfg c sv w) Inv.
Proof using clock.
  assert (St : stable (fun w => Inv w /\ at_cfg c sv w)) by apply at_stable, inv_stable.
  assert (We : forall w, Inv w /\ at_cfg c sv w -> Inv w) by (intros w [I _]; exact I).
  unfold prepare. eapply hoare_bind; [apply hoare_get |]. intros k. cbn beta. intros w [Pw ->]. pose proof Pw as [_ [Ck _]]. rewrite Ck. revert w Pw Ck.
  assert (H : hoare (fun w => Inv w /\ at_cfg c sv w) (elsewhere env;; elsewhere env;; lift (loader_policy c);; renew env (Some 0);; load_policy env c)%daemon
    (fun _ w => Settled w /\ at_cfg c sv w) Inv); [| intros w Pw _; exact (H w Pw)].
  do 2 (apply (hoare_bind _ _ _ _ (fun _ w => Inv w /\ at_cfg c sv w)); [apply hoare_quiet; [apply quietly_elsewhere | exact St | exact We] | intros _]).
  apply (hoare_bind _ _ _ _ (fun _ w => Inv w /\ at_cfg c sv w)); [apply hoare_quiet; [apply quietly_lift | exact St | exact We] | intros _].
  apply (hoare_bind _ _ _ _ (fun _ w => Expired w /\ at_cfg c sv w)).
  { intros w [I [Ck Sv]]. pose proof (expire_spec c (k_allow (kern w), k_block (kern w)) sv w (conj I (conj Ck (conj eq_refl Sv)))) as H.
    destruct (renew env (Some 0) w) as [[[] |] w']; [| exact (proj1 H)]. destruct H as (Ex & Ck' & _ & Sv'). now split. }
  intros _ w [Ex At]. pose proof (expired_stable w (next w) (quiet_next w) Ex) as (I & L & N). unfold load_policy.
  destruct (outcome env (effects w)); [| exact I |].
  - assert (S : forall k, lease_ns (k_config k) = 0 -> Inv (set_kern k (next w))) by (intros k Lk; apply inv_set_kern; [exact I | now left | now left]).
    split; [| exact At]. split; [apply S; exact L |]. split; [| discriminate]. destruct At as [Ck _]. cbn. rewrite Ck. now split.
  - apply inv_set_kern; [exact I | now left | now left].
Qed.
End Props.
