(* ===== verification/DaemonRun.v ===== *)
(** * The controller's process over any run

    Starting over any kernel, with any sequence of ticks, clients and signals and any failures. *)
From stdpp Require Import base option list gmap strings sorting.
From S2P Require Import Prelude Machine Float64 PyNum XdpParse Adaptive XdpFilter XdpProps Controller ControllerProps Telemetry Loader Daemon DaemonProps.
From Stdlib Require Import ZArith Lia.
Local Open Scope Z_scope.

Section Run.
Context (env : Env) (parse_float : list Z -> option f64) (network : string -> option string).
Hypothesis clock : forall m n, (m <= n)%nat -> monotonic_ns env m <= monotonic_ns env n.
Hypothesis order : forall n l, set_order env n l ≡ₚ l.

Lemma cleanup_inv (w : World) : Inv env w -> Inv env (snd (cleanup env w)).
Proof using clock.
  intros I. unfold cleanup, finally. pose proof (quietly_publish env true w) as Q. destruct (publish_document env true w) as [r w1].
  cbn [snd] in Q. pose proof (inv_stable env clock w w1 Q I) as I1.
  pose proof (expire_spec env clock (cfg (ctl w1)) (k_allow (kern w1), k_block (kern w1)) (saved w1) w1 (conj I1 (conj eq_refl (conj eq_refl eq_refl)))) as H.
  assert (I2 : Inv env (snd (renew env (Some 0) w1))) by (destruct (renew env (Some 0) w1) as [[[] |] w2]; cbn in *; apply H).
  destruct (renew env (Some 0) w1) as [r2 w2]. cbn [snd] in I2. pose proof (quietly_elsewhere env w2) as Q2.
  destruct (elsewhere env w2) as [[[] |] w3], r2; cbn [snd] in *; exact (inv_stable env clock w2 w3 Q2 I2).
Qed.

Lemma handle_spec (e : Event) (w : World) :
  Settled env w ->
  match handle env parse_float network e w with
  | (Some _, w') => Inv env w' /\ (stopping w' = true \/ Settled env w')
  | (None, w') => Inv env w'
  end.
Proof using clock order.
  intros S. destruct e as [| [args |] |]; cbn [handle].
  - pose proof (tick_once_spec env clock parse_float (cfg (ctl w)) (saved w) w (conj S (conj eq_refl eq_refl))) as H.
    destruct (tick_once env parse_float w) as [[[] |] w']; [| exact H]. destruct H as [H _]. split; [apply H | now right].
  - pose proof (command_spec env clock order network args (cfg (ctl w)) (saved w) w (conj S (conj eq_refl eq_refl))) as H.
    unfold respond. destruct (command env network args w) as [[[] |] w'].
    + destruct H as [H _]. split; [apply H | now right].
    + destruct H as [I H]. destruct (caught env (effects w')); [split; [exact I | destruct H as [H | [H _]]; auto] | exact I].
  - unfold respond, raise. destruct (caught env (effects w)); [split; [apply S | now right] | apply S].
  - destruct S as [[V F L] _]. split; [split; assumption | now left].
Qed.

Lemma serve_spec (events : list Event) (w : World) :
  Inv env w -> stopping w = true \/ Settled env w ->
  let '(ended, w') := serve env parse_float network events w in Inv env w' /\ (ended = false -> Settled env w').
Proof using clock order.
  revert w. induction events as [| e events IH]; intros w I S; cbn [serve]; destruct (stopping w) eqn:St;
    try (split; [now apply cleanup_inv | discriminate]); (destruct S as [S | S]; [discriminate |]).
  - split; [exact I | auto].
  - pose proof (handle_spec e w S) as H. destruct (handle env parse_float network e w) as [[[] |] w'].
    + apply IH; apply H.
    + split; [now apply cleanup_inv | discriminate].
Qed.

Lemma start_inv (c : ControllerConfig) (now : f64) (t : Z) (k : Kernel) (d : option Document) :
  validate_policy c = true -> Inv env (start c now t k d).
Proof using Type. intros V. split; [exact V | constructor | now left]. Qed.

Lemma run_spec (events : list Event) (c : ControllerConfig) (now : f64) (t : Z) (k : Kernel) (d : option Document) :
  validate_policy c = true ->
  let '(ended, w) := run env parse_float network events (start c now t k d) in Inv env w /\ (ended = false -> Settled env w).
Proof using clock order.
  intros V. unfold run. pose proof (start_inv c now t k d V) as I.
  pose proof (prepare_spec env clock c (Some c) (start c now t k d) (conj I (conj eq_refl eq_refl))) as H.
  destruct (prepare env (start c now t k d)) as [[[] |] w]; [| split; [exact H | discriminate]].
  apply serve_spec; [apply H | right; apply H].
Qed.

(** C6: The kernel never enforces a torn policy. Over any run of the controller's process, started over any kernel, with any ticks,
    commands and signals, with any call of the loader and any write failing, before or after it took effect, and any exception
    ending the process: in every state that the kernel was put into, if the lease runs, then the configuration that the process
    had then is a validated one that does not observe only, and the tries and the flags are exactly those of that
    configuration. *)
Theorem daemon_never_torn (events : list Event) (c : ControllerConfig) (now : f64) (t : Z) (k0 : Kernel) (d : option Document)
  (ended : bool) (w : World) (k : Kernel) (c' : ControllerConfig) (mono : Z) :
  validate_policy c = true -> run env parse_float network events (start c now t k0 d) = (ended, w) ->
  (k, c') ∈ seen w -> 0 <= mono -> enforced (Some (k_config k)) mono = true ->
  validate_policy c' = true /\ observed c' = false /\ k_allow k = allow_map c' /\ k_block k = block_map c' /\
  ipv6 (k_config k) = Z.b2z (cover_ipv6 c') /\ drop_tcp_fragments (k_config k) = Z.b2z (tcp_fragments c').
Proof using clock order.
  intros V E Sn M En. pose proof (run_spec events c now t k0 d V) as H. rewrite E in H. destruct H as [[_ F _] _].
  rewrite Forall_forall in F. destruct (F (k, c') Sn) as [S _]. cbn [fst snd] in S. unfold enforced in En. breflect.
  destruct S as [L | [([A B] & O & V6 & Fr) Vc]]; [lia |]. split_and!; try assumption. destruct (observed c'); [cbn in O; lia | reflexivity].
Qed.

(** C7: However the process ends, the perimeter opens. When it has ended, by a signal, by an exception of a tick or of a command,
    or in its cleanup, and whichever of its last calls failed, either it never changed the kernel, or from 15 seconds after it last read
    the clock every frame passes the filter; and a process that is still running has the maps of its configuration. *)
Theorem daemon_fails_open {Trie : Type} `{Lpm Trie} (events : list Event) (c : ControllerConfig) (now : f64) (t : Z) (k0 : Kernel)
  (d : option Document) (ended : bool) (w : World) :
  validate_policy c = true -> run env parse_float network events (start c now t k0 d) = (ended, w) ->
  (seen w = [] \/ forall (m : Policy Trie) (cpu : PerCpu) (frame : list Z) (mono : Z),
    configuration m = Some (k_config (kern w)) -> Forall is_u8 frame -> 0 <= mono -> monotonic_ns env (effects w) + 15000000000 <= mono ->
    exists cpu', xddp m cpu frame mono = Some (XDP_PASS, cpu')) /\
  (ended = false -> k_allow (kern w) = allow_map (cfg (ctl w)) /\ k_block (kern w) = block_map (cfg (ctl w))).
Proof using clock order.
  intros V E. pose proof (run_spec events c now t k0 d V) as Hr. rewrite E in Hr. destruct Hr as [[_ F L] S]. split.
  - destruct L as [L | [_ L]]; [now left |]. right. intros m cpu frame mono Cm B M Late. apply lease_over_passes; [exact B |].
    rewrite Cm. destruct (seen w) as [| kc l]; [discriminate |]. cbn in L. injection L as Lk. apply Forall_inv in F as [_ So]. rewrite Lk in So.
    unfold enforced. destruct So as [So | So]; (replace (mono <? lease_ns (k_config (kern w))) with false by lia); apply andb_false_r.
  - intros Ne. destruct (S Ne) as (_ & Mp & _). exact Mp.
Qed.

(** C8: A command is carried out, or refused, or stops the process. In any run that is still going on, a command that returns
    either asked for nothing to change, or has put the configuration that it asks for, validated, in force, in the maps and in the
    file; one that raises either left the configuration, the maps and the file as they were, or the process is stopping. *)
Theorem command_or_stop (events : list Event) (c : ControllerConfig) (now : f64) (t : Z) (k0 : Kernel) (d : option Document)
  (w : World) (args : list string) :
  validate_policy c = true -> run env parse_float network events (start c now t k0 d) = (false, w) ->
  match command env network args w with
  | (Some _, w') =>
      k_allow (kern w') = allow_map (cfg (ctl w')) /\ k_block (kern w') = block_map (cfg (ctl w')) /\
      ((cfg (ctl w') = cfg (ctl w) /\ saved w' = saved w /\ (is_query args = true \/ is_xdp args = true)) \/
       (change network args (cfg (ctl w)) = Some (cfg (ctl w')) /\ validate_policy (cfg (ctl w')) = true /\ saved w' = Some (cfg (ctl w'))))
  | (None, w') =>
      stopping w' = true \/
      (k_allow (kern w') = k_allow (kern w) /\ k_block (kern w') = k_block (kern w) /\ cfg (ctl w') = cfg (ctl w) /\ saved w' = saved w)
  end.
Proof using clock order.
  intros V E. pose proof (run_spec events c now t k0 d V) as Hr. rewrite E in Hr. destruct Hr as [_ S]. specialize (S eq_refl).
  pose proof (command_spec env clock order network args (cfg (ctl w)) (saved w) w (conj S (conj eq_refl eq_refl))) as H.
  destruct S as (_ & [Ma Mb] & _). destruct (command env network args w) as [[[] |] w'].
  - destruct H as [(_ & [A B] & _) H]. split; [exact A |]. split; [exact B |]. destruct H as [[[C Sv] Q] | (c' & Ch & Vc & C & Sv)].
    + left. now split_and!.
    + right. rewrite <- C in *. now split_and!.
  - destruct H as [_ [H | [(_ & [A B] & _) [C Sv]]]]; [now left |]. right. rewrite C in A, B. split_and!; congruence.
Qed.
End Run.
