(* ===== verification/Failsafe.v ===== *)
(** * The perimeter fails open

    Any run of the controller's process, whatever fails in it and wherever it stops; a gate that reads whichever of its documents
    it finds; and the filter under any of the configurations that the kernel was given. *)
From stdpp Require Import base option list gmap strings sorting.
From S2P Require Import Prelude Machine Net Config Limiter Runtime Float64 PyNum XdpParse Adaptive XdpFilter XdpProps Controller ControllerProps Perimeter Telemetry Loader Daemon DaemonProps DaemonRun.
From Stdlib Require Import ZArith Lia.
Local Open Scope Z_scope.

(** ** What the process has written *)

Section Written.
Context (env : Env) (k0 : Kernel) (d0 : option Document).
Hypothesis unix_clock : forall m n, (m <= n)%nat -> unix env m <= unix env n.

(** Every document ends at most 15 seconds after the clock was read last; the kernel and the file are as they were or as they were
    written. *)
Record Dated (w : World) : Prop := {
  dt_valid : validate_policy (cfg (ctl w)) = true;
  dt_written : Forall (fun d => d_expires_unix d <= unix env (effects w) + 15) (written w);
  dt_kern : kern w ∈ k0 :: (fst <$> seen w);
  dt_file : published_document w = d0 \/ exists d, published_document w = Some d /\ d ∈ written w }.

(** A change of the world that writes no document. *)
Record slight (w w' : World) : Prop := {
  sl_valid : validate_policy (cfg (ctl w)) = true -> validate_policy (cfg (ctl w')) = true;
  sl_written : written w' = written w; sl_file : published_document w' = published_document w;
  sl_effects : (effects w <= effects w')%nat;
  sl_kern : (kern w' = kern w /\ seen w' = seen w) \/ exists c, seen w' = (kern w', c) :: seen w }.

Lemma dated_slight (w w' : World) : slight w w' -> Dated w -> Dated w'.
Proof using unix_clock.
  intros [V W F N K] [Vd Wd Kd Fd]. split; rewrite ?W, ?F; auto.
  - eapply Forall_impl; [exact Wd |]. intros d H. cbn beta in H |- *. pose proof (unix_clock _ _ N). lia.
  - destruct K as [[-> ->] | [c ->]]; [exact Kd |]. rewrite fmap_cons. right. left.
Qed.

Definition keeps {A : Type} (m : M A) : Prop := forall w, Dated w -> Dated (snd (m w)).

Lemma keeps_bind {A B : Type} (m : M A) (f : A -> M B) : keeps m -> (forall a, keeps (f a)) -> keeps (bind m f).
Proof using Type.
  intros Hm Hf w D. specialize (Hm w D). unfold bind. destruct (m w) as [[a |] w']; [now apply Hf | exact Hm].
Qed.
Lemma keeps_same {A : Type} (m : M A) : (forall w, snd (m w) = w) -> keeps m.
Proof using Type. intros H w D. now rewrite H. Qed.
Lemma keeps_get {A B : Type} (g : World -> A) (f : A -> M B) : (forall w, Dated w -> keeps (f (g w))) -> keeps (bind (get g) f).
Proof using Type. intros H w D. exact (H w D w D). Qed.
Lemma keeps_ctl {B : Type} (f : Controller -> M B) :
  (forall k, validate_policy (cfg k) = true -> keeps (f k)) -> keeps (bind (get ctl) f).
Proof using Type. intros H. apply keeps_get. intros w D. apply H, D. Qed.
Lemma keeps_slight (m : M unit) : (forall w, slight w (snd (m w))) -> keeps m.
Proof using unix_clock. intros H w D. exact (dated_slight w _ (H w) D). Qed.
Lemma keeps_ask {A : Type} (f : nat -> A) : keeps (ask f).
Proof using unix_clock. intros w D. apply (dated_slight w); [| exact D]. split; cbn; auto. Qed.
Lemma keeps_modify (f : World -> World) : (forall w, slight w (f w)) -> keeps (modify f).
Proof using unix_clock. intros H. apply keeps_slight. exact H. Qed.
Lemma slight_effect (f : World -> World) (w : World) : (forall v, slight v (f v)) -> slight w (snd (effect env f w)).
Proof using Type.
  intros H. destruct (H (next w)) as [V W F N K]. cbn in V, W, F, N, K.
  unfold effect. destruct (outcome env (effects w)); cbn [snd]; split; cbn; auto; lia.
Qed.
Lemma keeps_effect (f : World -> World) : (forall v, slight v (f v)) -> keeps (effect env f).
Proof using unix_clock. intros H. apply keeps_slight. intros w. now apply slight_effect. Qed.
Lemma keeps_machine (k : Controller) (k' : Controller) : validate_policy (cfg k') = true -> keeps (modify (set_ctl k')).
Proof using unix_clock. intros V. apply keeps_modify. intros w. split; cbn; auto. Qed.

Lemma keeps_publish (expired : bool) : keeps (publish_document env expired).
Proof using unix_clock.
  intros w D. unfold publish_document, bind, get, ask, modify. cbn beta iota. set (w1 := set_ctl _ (next w)).
  assert (D1 : Dated w1) by (apply (dated_slight w); [split; cbn; auto | exact D]).
  unfold effect. assert (N : Dated (next w1)) by (apply (dated_slight w1); [split; cbn; auto | exact D1]).
  assert (S : Dated (set_document (fst (publish (ctl w) expired (unix env (effects w)))) (next w1))).
  { destruct N as [V W K F]. split; [exact V | | exact K |].
    - cbn [written set_document]. apply Forall_cons. split; [| exact W]. cbn.
      pose proof (unix_clock (effects w) (S (S (effects w))) ltac:(lia)) as U. destruct D as [Vd _ _ _].
      destruct (valid_parts (cfg (ctl w)) Vd) as (_ & Le & _). destruct expired; lia.
    - right. eexists. split; [reflexivity | left]. }
  destruct (outcome env (effects w1)); assumption.
Qed.

(** ** The operations *)

Context (parse_float : list Z -> option f64) (network : string -> option string).

Lemma keeps_renew (seconds : option Z) : keeps (renew env seconds).
Proof using unix_clock.
  apply keeps_ctl. intros k _. apply keeps_bind; [apply keeps_ask | intros mono]. apply keeps_bind; [now apply keeps_same | intros c].
  apply keeps_effect. intros w. split; cbn; eauto.
Qed.

Lemma keeps_elsewhere : keeps (elsewhere env).
Proof using unix_clock. apply keeps_effect. intros w. split; cbn; auto. Qed.

Lemma keeps_prepare : keeps (prepare env).
Proof using unix_clock.
  apply keeps_ctl. intros k _. do 2 (apply keeps_bind; [apply keeps_elsewhere | intros _]).
  apply keeps_bind; [now apply keeps_same | intros _]. apply keeps_bind; [apply keeps_renew | intros _].
  apply keeps_slight. intros w. unfold load_policy. destruct (outcome env (effects w)); split; cbn; eauto.
Qed.

Lemma keeps_sample (s : Signals) (now : f64) : keeps (sample_machine env s now).
Proof using unix_clock.
  apply keeps_ctl. intros k V. apply keeps_get. intros w _. destruct (Adaptive.sample _ _ _ _); [now apply keeps_machine |].
  apply keeps_bind; [now apply keeps_machine | intros _; now apply keeps_same].
Qed.

Lemma keeps_tick : keeps (tick_once env parse_float).
Proof using unix_clock.
  unfold tick_once. apply keeps_bind; [apply keeps_ask | intros now]. apply keeps_bind; [apply keeps_ask | intros r].
  apply keeps_bind; [apply keeps_modify; intros w; split; cbn; auto | intros _]. cbv zeta.
  apply keeps_get. intros w _. apply keeps_get. intros w' _. apply keeps_bind; [now apply keeps_same | intros s].
  apply keeps_bind; [apply keeps_modify; intros v; split; cbn; auto | intros _]. apply keeps_bind; [apply keeps_sample | intros _].
  apply keeps_ctl. intros k V. apply keeps_bind; [now apply keeps_same | intros m].
  apply keeps_bind; [now apply keeps_machine | intros _]. apply keeps_bind; [apply keeps_publish | intros _].
  apply keeps_bind; [apply keeps_renew | intros _]. apply keeps_elsewhere.
Qed.

Lemma keeps_calls (l : list Call) : keeps (run_calls env l).
Proof using unix_clock.
  induction l as [| x l IH]; [now apply keeps_same |]. apply keeps_bind; [| intros _; exact IH].
  apply keeps_effect. intros w. split; cbn; eauto.
Qed.

Lemma keeps_trie (blocked : bool) (bogons old new : list string) (r : Z) : keeps (change_trie env blocked bogons old new r).
Proof using unix_clock.
  unfold change_trie. do 2 (apply keeps_bind; [now apply keeps_same | intros ?]). apply keeps_calls.
Qed.

Lemma keeps_commit (c : ControllerConfig) : validate_policy c = true -> keeps (commit env c).
Proof using unix_clock.
  intros V. apply keeps_ctl. intros k _. cbv zeta. apply keeps_bind; [apply keeps_renew | intros _].
  do 2 (apply keeps_bind; [apply keeps_trie | intros _]).
  apply keeps_bind; [apply keeps_effect; intros w; split; cbn; auto | intros _].
  apply keeps_ctl. intros k2 _. apply keeps_bind; [now apply keeps_machine | intros _].
  apply keeps_bind; [now apply keeps_same | intros m]. apply keeps_ctl. intros k3 V3.
  apply keeps_bind; [now apply keeps_machine | intros _]. apply keeps_bind; [apply keeps_publish | intros _]. apply keeps_renew.
Qed.

Lemma stopping_dated (w : World) : Dated w -> Dated (set_stopping w).
Proof using unix_clock. apply dated_slight. split; cbn; auto. Qed.

Lemma keeps_command (args : list string) : keeps (command env network args).
Proof using unix_clock.
  unfold command. destruct (is_query args); [now apply keeps_same |]. destruct (is_xdp args).
  { do 2 (apply keeps_bind; [apply keeps_elsewhere | intros _]). apply keeps_elsewhere. }
  apply keeps_ctl. intros k _. apply keeps_bind; [now apply keeps_same | intros c].
  destruct (validate_policy c) eqn:V; [| now apply keeps_same]. intros w D. pose proof (keeps_commit c V w D) as H. unfold or_stop.
  destruct (commit env c w) as [[[] |] w']; [exact H | now apply stopping_dated].
Qed.

Lemma keeps_finally (m after : M unit) : keeps m -> keeps after -> keeps (finally m after).
Proof using Type.
  intros Hm Ha w D. specialize (Hm w D). unfold finally. destruct (m w) as [r w1]. specialize (Ha w1 Hm).
  destruct (after w1) as [[[] |] w2]; exact Ha.
Qed.
Lemma keeps_cleanup : keeps (cleanup env).
Proof using unix_clock. apply keeps_finally; [apply keeps_publish | apply keeps_finally; [apply keeps_renew | apply keeps_elsewhere]]. Qed.

Lemma keeps_respond (m : M unit) : keeps m -> keeps (respond env m).
Proof using Type.
  intros H w D. specialize (H w D). unfold respond. destruct (m w) as [[[] |] w']; [exact H |]. destruct (caught env (effects w')); exact H.
Qed.
Lemma keeps_handle (e : Event) : keeps (handle env parse_float network e).
Proof using unix_clock.
  destruct e as [| [args |] |]; cbn [handle]; [apply keeps_tick | apply keeps_respond, keeps_command
    | apply keeps_respond; now apply keeps_same | apply keeps_modify; intros w; split; cbn; auto].
Qed.

Lemma serve_dated (events : list Event) (w : World) : Dated w -> Dated (snd (serve env parse_float network events w)).
Proof using unix_clock.
  revert w. induction events as [| e events IH]; intros w D; cbn [serve]; destruct (stopping w); try exact (keeps_cleanup w D); [exact D |].
  pose proof (keeps_handle e w D) as H. destruct (handle env parse_float network e w) as [[[] |] w']; [exact (IH w' H) | exact (keeps_cleanup w' H)].
Qed.

Lemma run_dated (events : list Event) (c : ControllerConfig) (now : f64) (t : Z) :
  validate_policy c = true -> Dated (snd (run env parse_float network events (start c now t k0 d0))).
Proof using unix_clock.
  intros V. assert (D : Dated (start c now t k0 d0)) by (split; [exact V | constructor | left | now left]).
  unfold run. pose proof (keeps_prepare _ D) as H. destruct (prepare env _) as [[[] |] w]; [now apply serve_dated | exact H].
Qed.
End Written.

(** ** The gate *)

Section Reading.
Context {IpNet : Type} `{IpNetLaws IpNet}.
Variable parse : list Z -> option (Wire IpNet).
Variable net_of : string -> IpNet.

(** A round of reading that finds no file, one it cannot read or that does not parse, or one of [docs]. *)
Definition finds (docs : list Document) (round : FileRead * Z * Instant) : Prop :=
  forall b w, fst (fst round) = Contents b -> parse (take (Z.to_nat (MAX_DOCUMENT_BYTES + 1)) b) = Some w ->
    exists d, d ∈ docs /\ w = wire_of net_of d.

(** What the gate has put into force ends by [u]. *)
Definition ends_by (u : Z) (r : Runtime IpNet) : Prop := forall s, r_value r = Some s -> expires_unix (wire s) <= u.

Lemma finds_ends (docs : list Document) (u : Z) (r : Runtime IpNet) (rounds : list (FileRead * Z * Instant)) :
  Forall (fun d => d_expires_unix d <= u) docs -> Forall (finds docs) rounds -> ends_by u r ->
  ends_by u (watch_run parse r rounds) /\ default_observe (watch_run parse r rounds) = default_observe r.
Proof using Type*.
  intros D F. revert r. induction rounds as [| [[f v] now] rounds IH]; intros r E; [now split |].
  apply Forall_cons_1 in F as [Ff F]. cbn [watch_run].
  assert (X : ends_by u (watch_round parse r f v now) /\ default_observe (watch_round parse r f v now) = default_observe r).
  { destruct f as [[] | | b]; [now split .. |]. unfold watch_round.
    pose proof (apply_cases parse r (take (Z.to_nat (MAX_DOCUMENT_BYTES + 1)) b) v now) as C.
    destruct (Runtime_apply parse r _ v now) as [ok r']. destruct C as [-> | (w & P & -> & _ & _ & _ & _ & _ & _ & ->)].
    - destruct (negb ok); now split.
    - split; [| reflexivity]. intros s S. injection S as <-. cbn [wire]. destruct (Ff b w eq_refl P) as (d & Dd & ->).
      rewrite Forall_forall in D. exact (D d Dd). }
  destruct X as [X1 X2]. rewrite <- X2. now apply IH.
Qed.
End Reading.

(** C5: The perimeter fails open. Take any run of the controller's process: over any kernel and any file left behind, with any ticks, commands
    and signals and any failures, ended in any way, its cleanup included, or cut off. Once 15 seconds have passed on both
    clocks since they were read last, and what an earlier process had left there has ended too: under every configuration that the kernel was ever
    given, and so under the one it has, every frame passes the filter; and a gate that has found any of the documents ever written, in any
    order, missed any of them, or found files that are none, blocks no address and is in mode 0: it only observes
    when it has read a document at all, and observes as it was started otherwise. *)
Theorem perimeter_fails_open {IpNet : Type} `{IpNetLaws IpNet} {Trie : Type} `{Lpm Trie}
  (parse : list Z -> option (Wire IpNet)) (net_of : string -> IpNet)
  (env : Env) (parse_float : list Z -> option f64) (network : string -> option string)
  (events : list Event) (c : ControllerConfig) (now : f64) (t : Z) (k0 : Kernel) (d0 : option Document) (ended : bool) (w : World) :
  (forall m n, (m <= n)%nat -> monotonic_ns env m <= monotonic_ns env n) -> (forall m n, (m <= n)%nat -> unix env m <= unix env n) ->
  (forall n l, set_order env n l ≡ₚ l) ->
  validate_policy c = true -> run env parse_float network events (start c now t k0 d0) = (ended, w) ->
  kern w ∈ k0 :: (fst <$> seen w) /\
  (forall (k : Kernel) (m : Policy Trie) (cpu : PerCpu) (frame : list Z) (mono : Z),
     k ∈ k0 :: (fst <$> seen w) -> configuration m = Some (k_config k) -> Forall is_u8 frame ->
     0 <= mono -> lease_ns (k_config k0) <= mono -> monotonic_ns env (effects w) + 15000000000 <= mono ->
     exists cpu', xddp m cpu frame mono = Some (XDP_PASS, cpu')) /\
  (forall (r : Runtime IpNet) (rounds : list (FileRead * Z * Instant)) (ip : IpAddr) (u : Z) (at_time : Instant),
     unix env (effects w) + 15 <= u -> Forall (fun d => d_expires_unix d <= u) (option_list d0) -> ends_by u r ->
     Forall (finds parse net_of (option_list d0 ++ written w)) rounds ->
     let r' := watch_run parse r rounds in
     Runtime_policy r' ip u at_time =
       (mkPolicy 0 (match r_value r' with Some _ => true | None => default_observe r end) false, false)).
Proof.
  intros Mc Uc Or V E. pose proof (run_dated env k0 d0 Uc parse_float network events c now t V) as D.
  pose proof (run_spec env parse_float network Mc Or events c now t k0 d0 V) as S. rewrite E in D, S. cbn [snd] in D.
  destruct D as [_ Dw Dk _], S as [[_ F _] _]. split; [exact Dk |]. split.
  - intros k m cpu frame mono K Cm B M0 L0 L. apply lease_over_passes; [exact B |]. rewrite Cm.
    assert (Le : lease_ns (k_config k) <= mono).
    { apply elem_of_cons in K as [-> | K]; [exact L0 |]. apply list_elem_of_fmap in K as ([k' c'] & -> & K).
      rewrite Forall_forall in F. destruct (F _ K) as [_ So]. cbn [fst] in *. destruct So as [-> | So]; lia. }
    unfold enforced. replace (mono <? lease_ns (k_config k)) with false by lia. apply andb_false_r.
  - intros r rounds ip u at_time U O R Fr r'.
    assert (Fd : Forall (fun d => d_expires_unix d <= u) (option_list d0 ++ written w)).
    { apply Forall_app. split; [exact O |]. eapply Forall_impl; [exact Dw |]. intros d X. cbn beta in X. lia. }
    destruct (finds_ends parse net_of _ u r rounds Fd Fr R) as [X Y]. fold r' in X, Y. unfold Runtime_policy.
    destruct (r_value r') as [s |] eqn:Rv; [| now rewrite Y]. unfold lease_over. rewrite (proj2 (Z.leb_le _ _) (X s Rv)). now rewrite orb_true_r.
Qed.
