(* ===== verification/TelemetryWitness.v ===== *)
(** * Instances of the theorems on telemetry and on the loader's commands *)
From stdpp Require Import base option list gmap strings sorting.
From S2P Require Import Prelude Machine Float64 Metrics Cache Exposition PyNum XdpParse Adaptive AdaptiveProps XdpFilter Controller Telemetry TelemetryProps TelemetryRates History Loader LoaderProps LoaderInstall LoaderMaps LoaderWitness LoaderMain LoaderMainProps.
From Stdlib Require Import ZArith Lia.
Local Open Scope Z_scope.

(** A gate that has counted connections, before and after, and a filter on two CPUs. *)
Definition registry_before : Metrics := Metrics_add Metrics_new 0 1000.
Definition registry_after : Metrics := Metrics_add registry_before 0 500.
Definition cpus_before : list stats := [stats0; stats0].
Definition cpus_after : list stats := [mk_stats 300 64000 300 0 0 0 0 0 (replicate 14 0); mk_stats 100 6400 100 0 0 0 0 0 (replicate 14 0)].
Definition show_half (_ : f64) : list Z := text "0.5".
Definition read_half (_ : list Z) : option f64 := Some (f64_div f64_one f64_two).
Definition readings_of (m : Metrics) (cpus : list stats) : Readings :=
  mk_readings (Some (stats_fields cpus)) (Some (Metrics_render show_half m)) (Some (text "10")) (Some (text "100")) None None.

Lemma half_displayed (x : f64) : displayed read_half (show_half x).
Proof. split; [repeat (constructor; [split; discriminate |]); constructor |]. split; [discriminate |]. split; [cbn; lia | cbn; eauto]. Qed.

Lemma before_typed : metrics_typed registry_before.
Proof. apply (touches_typed Metrics_new); [unfold registry_before; auto with touches | apply Metrics_new_typed]. Qed.
Lemma after_typed : metrics_typed registry_after.
Proof. apply (touches_typed registry_before); [unfold registry_after; auto with touches | apply before_typed]. Qed.

Lemma gate_telemetry_exact_witness :
  exists counters, gate_counters read_half (Metrics_render show_half registry_after) = Some counters /\
    counters !! "tcp_accepts"%string = Some (PyInt 1500).
Proof.
  destruct (gate_telemetry_exact read_half show_half registry_after after_typed (half_displayed _)) as (s & E & L & _).
  exists s. split; [exact E | exact (L O "tcp_accepts"%string eq_refl)].
Defined.

Lemma sample_host_bounded (m : Metrics) (cpus : list stats) : bounded_ints (host_sample (readings_of m cpus)).
Proof.
  intros n k E. change (host_sample (readings_of m cpus)) with (host_sample (mk_readings None None (Some (text "10")) (Some (text "100")) None None)) in E.
  assert (C : map_Forall (fun _ v => match v with PyInt k => 0 <= k < 1000 | _ => True end)
    (host_sample (mk_readings None None (Some (text "10")) (Some (text "100")) None None))).
  { apply map_Forall_to_list. vm_compute. repeat constructor; discriminate. }
  specialize (C n _ E). cbn in C. lia.
Qed.

Lemma sample_working (m : Metrics) (cpus : list stats) :
  metrics_typed m -> Z.of_nat (length cpus) < 2 ^ 64 -> working read_half show_half (readings_of m cpus) m cpus.
Proof.
  intros T L. split; [exact T | reflexivity | apply half_displayed | | reflexivity | exact L | apply sample_host_bounded].
  intros k E. discriminate.
Qed.

Lemma one_positive : positive_finite f64_one.
Proof. split_and!; vm_compute; reflexivity. Qed.

Lemma telemetry_measures_witness :
  exists s, rates (collect_sample read_half (readings_of registry_before cpus_before)) (collect_sample read_half (readings_of registry_after cpus_after))
      f64_one = Some s /\
    s !! "accepts_per_second"%string = Some (PyFloat (f64_of_Z 500)) /\ s !! "bps"%string = Some (PyFloat (f64_of_Z 563200)).
Proof.
  destruct (telemetry_measures read_half show_half (readings_of registry_before cpus_before) (readings_of registry_after cpus_after)
    registry_before registry_after cpus_before cpus_after f64_one
    (sample_working registry_before cpus_before before_typed eq_refl) (sample_working registry_after cpus_after after_typed eq_refl) one_positive) as (s & E & _ & G & L & _).
  exists s. split; [exact E |]. split.
  - rewrite (G 0%nat "accepts_per_second"%string) by member. vm_compute. reflexivity.
  - rewrite (L rx_bytes "bps"%string 8); [vm_compute; reflexivity |]. right. left.
Defined.

(** The gate does not answer for the second sample. *)
Definition silent_gate : Readings := mk_readings (Some (stats_fields cpus_after)) None None None None None.

Lemma telemetry_gap_witness :
  exists s, rates (collect_sample read_half (readings_of registry_before cpus_before)) (collect_sample read_half silent_gate) f64_one = Some s /\
    s !! "accepts_per_second"%string = None.
Proof.
  destruct (rates (collect_sample read_half (readings_of registry_before cpus_before)) (collect_sample read_half silent_gate) f64_one) as [s |] eqn:E.
  - exists s. split; [reflexivity |].
    destruct (telemetry_gap read_half (readings_of registry_before cpus_before) silent_gate f64_one s) as [G _].
    + intros x X. injection X as <-. eauto.
    + intros x X. injection X as <-. eauto.
    + intros x X. destruct (gate_page_read read_half show_half registry_before before_typed (half_displayed _)) as (v & _ & P).
      unfold gate_sample, readings_of in X. cbn [rd_page mbind option_bind] in X. rewrite P in X. injection X as <-. eauto.
    + intros x X. discriminate.
    + exact one_positive.
    + exact E.
    + apply (G (or_intror eq_refl) "tcp_accepts"%string); member.
  - vm_compute in E. discriminate.
Defined.

(** Commands of which one is refused. *)
Definition sample_commands : list (list (list Z) * list Z) :=
  [([text "port"; text "25565"; text "1"], []); ([text "port"; text "80"; text "3"], []); ([text "policy"], sample_text)].

Lemma loader_keeps_maps_witness : pinned_ok (foldl (run_command sample_pton sample_first) (fresh_pinned sample_generation) sample_commands).
Proof. exact (loader_keeps_maps sample_pton sample_first sample_generation sample_commands sample_first_finds). Defined.

Lemma fresh_abstract : abstracts sample_pton dotted sample_net (mk_kernel (p_config (fresh_pinned sample_generation)) ∅ ∅) (fresh_pinned sample_generation).
Proof.
  assert (R : represents sample_pton dotted sample_net ∅ ∅).
  { split; [intros n [x X]; now rewrite lookup_empty in X |]. intros key v. split; [now rewrite lookup_empty |]. intros (n & X & _). now rewrite lookup_empty in X. }
  split; [reflexivity |]. split; exact R.
Qed.

Lemma call_refines_witness :
  match map_command sample_pton sample_first (call_args (PrefixAdd true "198.51.100.0/24" MANUAL_BLOCK_REASON)) [] (fresh_pinned sample_generation) with
  | Some p' => abstracts sample_pton dotted sample_net (call (mk_kernel (p_config (fresh_pinned sample_generation)) ∅ ∅) (PrefixAdd true "198.51.100.0/24" MANUAL_BLOCK_REASON)) p'
  | None => call_full sample_net (PrefixAdd true "198.51.100.0/24" MANUAL_BLOCK_REASON) (fresh_pinned sample_generation)
  end.
Proof.
  apply (call_refines sample_pton dotted sample_net sample_first); [exact fresh_abstract |]. split.
  - apply sample_canonical. member.
  - unfold MANUAL_BLOCK_REASON, R_COUNT. lia.
Defined.

(** A kernel that attaches as documented. *)
Definition sample_attach (actual : Z) (u : Update) (program : Z) : option Z :=
  match u with IfNoexist => if actual =? 0 then Some program else None | Replace old => if actual =? old then Some program else None end.
Definition sample_detach (actual old : Z) : option Z := if actual =? old then Some 0 else None.

Lemma attachment_guarded_witness :
  attach sample_attach [text "driver"; text "confirmed"; text "7"] 9 7 7 true = Some 9 /\ number (text "7") u32_max = Some 7.
Proof.
  split; [vm_compute; reflexivity |].
  destruct (attachment_guarded sample_attach sample_detach (text "driver") (text "confirmed") (Some (text "7")) 9 7 7 true 9) as [A _].
  - split.
    + intros actual program s. unfold sample_attach. destruct (Z.eqb_spec actual 0); [intros [= <-]; auto | discriminate].
    + intros actual old program s. unfold sample_attach. destruct (Z.eqb_spec actual old); [intros [= <-]; auto | discriminate].
    + intros actual old s. unfold sample_detach. destruct (Z.eqb_spec actual old); [intros [= <-]; auto | discriminate].
  - apply A. vm_compute. reflexivity.
Defined.

(** ** The archive *)

Definition counted_row (n : Z) : HistoryRow := mk_row "normal" false true {["rx_packets"%string := PyInt n]} ∅.
Definition three_days : list (Z * HistoryRow * Transaction) :=
  [((100, counted_row 10), Commits); ((130, counted_row 15), Commits); ((200, counted_row 25), FailsBefore); ((200, counted_row 25), Commits);
   ((250, counted_row 25), Commits)].

Lemma history_bounded_witness :
  let h := record_all (History_new true 1 ∅) three_days in
  size (samples h) = 3%nat /\ size (samples (snd (record h 300000 (counted_row 40) Commits))) = 1%nat /\
  Z.of_nat (size (samples (snd (record h 300000 (counted_row 40) Commits)))) <= (1 + 1) * 1440.
Proof.
  split_and!; [vm_compute; reflexivity | vm_compute; reflexivity |].
  apply (history_bounded 1 0 300000 ∅ three_days (counted_row 40)); [lia | lia | | | vm_compute; reflexivity].
  - intros ts [v E]. rewrite lookup_empty in E. discriminate.
  - vm_compute. repeat split; discriminate.
Defined.

(** A commit that fails after the rows were deleted is rolled back, and nothing is deleted for the rest of the day. *)
Example prune_lost :
  let h := snd (record (record_all (History_new true 1 ∅) three_days) 300000 (counted_row 40) FailsAfter) in
  size (samples h) = 3%nat /\ fst (record h 300060 (counted_row 41) Commits) = Some true /\
  size (samples (snd (record h 300060 (counted_row 41) Commits))) = 4%nat.
Proof. vm_compute. split_and!; reflexivity. Qed.

Lemma day_counted_witness :
  let h := record_all (History_new true 1 ∅) three_days in
  rows_of h 120 300 = [(120, row_counters (counted_row 15)); (240, row_counters (counted_row 25))] /\
  total "rx_packets" (read_day (fun _ => "00:00"%string) h 60 180) = 5.
Proof.
  cbv zeta. split; [vm_compute; reflexivity |].
  set (h := mk_history true 1 None None {[0 := counted_row 10; 60 := counted_row 10; 120 := counted_row 15]}).
  transitivity (total "rx_packets" (read_day (fun _ => "00:00"%string) h 60 180)); [vm_compute; reflexivity |].
  destruct (day_counted (fun _ => "00:00"%string) h 60 180 "rx_packets" ltac:(set_solver)) as (_ & _ & _ & _ & U).
  change 5 with (15 - 10). apply (U 0 (row_counters (counted_row 10))); [vm_compute; reflexivity | vm_compute; reflexivity |].
  replace (rows_of h 60 180) with [(60, row_counters (counted_row 10)); (120, row_counters (counted_row 15))] by (vm_compute; reflexivity).
  apply (unbroken_row _ _ _ _ _ 10); [lia | vm_compute; reflexivity | lia |].
  apply (unbroken_row _ _ _ _ _ 15); [lia | vm_compute; reflexivity | lia |]. constructor.
Defined.
