(* ===== verification/DaemonWitness.v ===== *)
(** * Instances of the theorems on the controller's process

    A process that starts over a kernel with somebody else's maps, is told to block a network, and whose
    last calls fail. *)
From stdpp Require Import base option list gmap strings sorting.
From S2P Require Import Prelude Machine Net Config Limiter Runtime Float64 PyNum XdpParse XdpFrame Adaptive AdaptiveWitness XdpFilter XdpProps XdpWitness Controller ControllerProps Perimeter PerimeterWitness Telemetry Loader Daemon DaemonProps DaemonRun Failsafe.
From Stdlib Require Import ZArith Lia.
Local Open Scope Z_scope.

(** Seconds pass with every effect; telemetry is silent; from the effect [broken] on the loader and the files fail. *)
Definition sample_env (broken : nat) : Env :=
  mk_env (fun n => if (n <? broken)%nat then Done else Failed) (fun n => Z.of_nat n * 1000000000) (fun n => at_second (Z.of_nat n))
    (fun n => 5000 + Z.of_nat n) (fun _ => mk_readings None None None None None None) (fun _ l => l)
    (fun _ => Adaptive_init (at_second 0)) (fun _ => (∅, ∅)) (fun _ => true).

Lemma sample_clock (broken m n : nat) : (m <= n)%nat -> monotonic_ns (sample_env broken) m <= monotonic_ns (sample_env broken) n.
Proof. cbn. lia. Qed.
Lemma sample_order (broken n : nat) (l : list string) : set_order (sample_env broken) n l ≡ₚ l.
Proof. reflexivity. Qed.

Definition old_kernel : Kernel := mk_kernel sample_written {[ "192.0.2.0/24"%string := 1 ]} ∅.
Definition sample_start : World := start (sample_controller_config sample_blocks) (at_second 0) 1000 old_kernel None.
Definition sample_events : list Event := [Tick; Client (Some ["block"; "192.0.2.128/25"]%string); Tick].
Definition block_run (broken : nat) : bool * World := run (sample_env broken) (fun _ => None) Some sample_events sample_start.

(** A head is an element. *)
Lemma head_elem {A : Type} (l : list A) (x : A) : head l = Some x -> x ∈ l.
Proof. destruct l as [| y l]; [discriminate |]. intros [= ->]. constructor. Qed.

Definition no_kernel : Kernel * ControllerConfig := (old_kernel, sample_controller_config []).
Definition last_seen : Kernel * ControllerConfig := default no_kernel (head (seen (snd (block_run 1000)))).

Lemma last_seen_elem : (fst last_seen, snd last_seen) ∈ seen (snd (block_run 1000)).
Proof.
  apply head_elem. unfold last_seen. destruct (head (seen (snd (block_run 1000)))) as [[k c] |] eqn:E; [reflexivity |].
  vm_compute in E. discriminate.
Qed.

Lemma daemon_never_torn_witness :
  enforced (Some (k_config (fst last_seen))) 1000000000 = true /\ "192.0.2.128/25"%string ∈ block_prefixes (snd last_seen) /\
  k_block (fst last_seen) = block_map (snd last_seen).
Proof.
  split; [vm_compute; reflexivity |]. split; [apply (bool_decide_unpack _); vm_compute; exact I |].
  destruct (daemon_never_torn (sample_env 1000) (fun _ => None) Some (sample_clock 1000) (sample_order 1000) sample_events
    (sample_controller_config sample_blocks) (at_second 0) 1000 old_kernel None (fst (block_run 1000)) (snd (block_run 1000))
    (fst last_seen) (snd last_seen) 1000000000) as (_ & _ & _ & B & _).
  - exact sample_controller_valid.
  - apply surjective_pairing.
  - exact last_seen_elem.
  - lia.
  - vm_compute. reflexivity.
  - exact B.
Defined.

(** The first tick after [prepare] cannot write: the process ends, and its cleanup fails too. *)
Lemma daemon_fails_open_witness :
  fst (block_run 12) = true /\
  forall (m : Policy (list (prefix_key * Z))) (cpu : PerCpu), configuration m = Some (k_config (kern (snd (block_run 12)))) ->
    exists cpu', xddp m cpu [] 100000000000 = Some (XDP_PASS, cpu').
Proof.
  split; [vm_compute; reflexivity |]. intros m cpu Cm.
  destruct (daemon_fails_open (sample_env 12) (fun _ => None) Some (sample_clock 12) (sample_order 12) sample_events
    (sample_controller_config sample_blocks) (at_second 0) 1000 old_kernel None (fst (block_run 12)) (snd (block_run 12))
    sample_controller_valid (surjective_pairing _)) as [[Sn | P] _].
  - exfalso. vm_compute in Sn. discriminate.
  - apply (P m cpu [] 100000000000 Cm); [constructor | lia |].
    assert (N : (effects (snd (block_run 12)) <= 80)%nat) by (apply Nat.leb_le; vm_compute; reflexivity).
    change (monotonic_ns (sample_env 12) (effects (snd (block_run 12)))) with (Z.of_nat (effects (snd (block_run 12))) * 1000000000). lia.
Defined.

Lemma command_or_stop_witness :
  match command (sample_env 1000) Some ["unblock"; "198.51.100.0/24"]%string (snd (block_run 1000)) with
  | (Some _, w') => k_block (kern w') = block_map (cfg (ctl w'))
  | (None, _) => False
  end.
Proof.
  pose proof (command_or_stop (sample_env 1000) (fun _ => None) Some (sample_clock 1000) (sample_order 1000) sample_events
    (sample_controller_config sample_blocks) (at_second 0) 1000 old_kernel None (snd (block_run 1000)) ["unblock"; "198.51.100.0/24"]%string
    sample_controller_valid) as H.
  assert (E : run (sample_env 1000) (fun _ => None) Some sample_events (start (sample_controller_config sample_blocks) (at_second 0) 1000 old_kernel None) =
    (false, snd (block_run 1000))).
  { change (run _ _ _ _ _) with (block_run 1000). destruct (block_run 1000) as [[] w] eqn:B; [| reflexivity].
    assert (F : fst (block_run 1000) = true) by (now rewrite B). vm_compute in F. discriminate. }
  specialize (H E). destruct (command (sample_env 1000) Some ["unblock"; "198.51.100.0/24"]%string (snd (block_run 1000))) as [[[] |] w'] eqn:C.
  - exact (proj1 (proj2 H)).
  - assert (F : is_Some (fst (command (sample_env 1000) Some ["unblock"; "198.51.100.0/24"]%string (snd (block_run 1000)))))
      by (apply (bool_decide_unpack _); vm_compute; exact I). rewrite C in F. now destruct F.
Defined.

(** A process that stops by a signal; a gate that finds its first document, then the last, which its cleanup has written. *)
Definition stopped_run : bool * World := run (sample_env 1000) (fun _ => None) Some [Tick; Signal] sample_start.
Definition sample_parse (docs : list Document) (b : list Z) : option (Wire Cidr) :=
  match b with [n] => wire_of sample_net_of <$> (docs !! Z.to_nat n) | _ => None end.
Lemma sample_finds (docs : list Document) (rounds : list (FileRead * Z * Instant)) :
  Forall (finds (sample_parse docs) sample_net_of docs) rounds.
Proof.
  apply Forall_forall. intros round _ b v _ P. unfold sample_parse in P. destruct (take _ b) as [| n [|]]; try discriminate.
  destruct (docs !! Z.to_nat n) as [d |] eqn:L; [| discriminate]. injection P as <-. exists d. split; [| reflexivity].
  exact (list_elem_of_lookup_2 _ _ _ L).
Qed.
Definition stopped_parse : list Z -> option (Wire Cidr) := sample_parse (written (snd stopped_run)).
Definition sample_rounds : list (FileRead * Z * Instant) := [(Contents [1], 5020, from_secs 1); (Contents [7], 5021, from_secs 2); (Contents [0], 5022, from_secs 3)].

Lemma perimeter_fails_open_witness :
  fst stopped_run = true /\ length (written (snd stopped_run)) = 2%nat /\
  (exists cpu', xddp (mk_policy (Some (k_config (kern (snd stopped_run)))) {[25565 := PORT_PROTECT_TCP]} [(v4_prefix 24 [192; 0; 2; 0], 1)] [] sample_block)
    sample_cpu (sample_frame 2) 100000000000 = Some (XDP_PASS, cpu')) /\
  (let r := watch_run stopped_parse (Runtime_new true) sample_rounds in
   is_Some (r_value r) /\ Runtime_policy r (V4 3325256711) 6000 (from_secs 4) = (mkPolicy 0 true false, false)).
Proof.
  assert (N : (effects (snd stopped_run) <= 80)%nat) by (apply Nat.leb_le; vm_compute; reflexivity).
  split; [vm_compute; reflexivity |]. split; [vm_compute; reflexivity |].
  destruct (perimeter_fails_open (Trie := Entries) stopped_parse sample_net_of (sample_env 1000) (fun _ => None) Some [Tick; Signal]
    (sample_controller_config sample_blocks) (at_second 0) 1000 old_kernel None (fst stopped_run) (snd stopped_run)) as (K & X & G).
  - apply sample_clock.
  - intros m n L. cbn. lia.
  - apply sample_order.
  - exact sample_controller_valid.
  - apply surjective_pairing.
  - split.
    + apply (X (kern (snd stopped_run))); [exact K | reflexivity | apply sample_frame_bytes; now left | lia | cbn; lia |].
      change (monotonic_ns (sample_env 1000) (effects (snd stopped_run))) with (Z.of_nat (effects (snd stopped_run)) * 1000000000). lia.
    + assert (R : is_Some (r_value (watch_run stopped_parse (Runtime_new true) sample_rounds))) by (apply (bool_decide_unpack _); vm_compute; exact I).
      split; [exact R |].
      assert (P := G (Runtime_new true) sample_rounds (V4 3325256711) 6000 (from_secs 4)). cbv zeta in P. rewrite P.
      * destruct (r_value _); reflexivity.
      * change (unix (sample_env 1000) (effects (snd stopped_run))) with (5000 + Z.of_nat (effects (snd stopped_run))). lia.
      * constructor.
      * intros s S. discriminate.
      * exact (sample_finds (written (snd stopped_run)) sample_rounds).
Defined.
